(* ===== verification/_CoqProject ===== *)
-Q . S2P
Prelude.v
Events.v
EngineQueue.v
MixerQueue.v
CString.v
Dbl.v
SoundTable.v
World.v
Playback.v
Replay.v
Mixer.v
Engine.v
MixerFacts.v
Steps.v
Release.v
Render.v
Handover.v
Wire.v
Notice.v
NoticeMem.v
Server.v
UdpServer.v
TcpServer.v
SslServer.v
Typing.v
Peepd.v
Denial.v
Session.v
Connections.v
SslContext.v
Frontend.v
Parser.v
Strtod.v
ParserState.v
Theme.v
ConfigFile.v
Threads.v
Cmdline.v
Sound.v
Log.v
Loading.v
Main.v
Shutdown.v
