(* ===== verification/Prelude.v ===== *)
(** * A verification development for peepd, the server of Peep (The Network Auralizer)

    Peep turns events of a network into sound. Its server, [peepd], is the C
    program under [src/server]; this library models it and proves what it does,
    right or wrong. The clients (Perl, [src/client]) are not part of it.

    ** How the program works

    A server thread ([server.c] with one of [udp_server.c], [tcp_server.c] and
    [ssl_server.c]) receives packets, decodes the events in them and puts them
    into the engine queue ([engine_queue.c]). The engine thread ([engineLoop]
    of [main.c], [engineIO] of [engine.c]) takes them out, looks their sound up
    in the sound table ([engine.c]) and starts it on a channel of the mixer, or
    puts the event aside in the mixer queue ([mixer_queue.c]) when every channel
    plays. The mixer thread ([mixer.c]) adds up the samples of all channels and
    of the states, which play for ever, and hands events that were put aside to
    channels that become free. Events can be recorded to a file and played back
    ([playback.c]).

    ** Files, and the code each models

    - [Prelude]: outcomes of C code, a state monad, arrays, machine integers,
      mutexes, a store of heap blocks with dangling pointers, automation.
    - [Events]: the event structures of [engine.h].
    - [EngineQueue]: [engine_queue.c] with its pointers and semaphore; the
      statements of both operations as a step relation for several threads.
    - [MixerQueue]: [mixer_queue.c], the heap of pending events.
    - [CString]: the string functions of the C library that are used.
    - [Dbl]: [double] arithmetic as IEEE binary64, and when it is exact.
    - [SoundTable]: the table of sounds of [engine.c].
    - [World]: the static variables of [engine.c], [mixer.c] and [playback.c]
      as one record, and the class [Env] of what the outside gives: [rand],
      the clock and the results of [fwrite].
    - [Playback]: [playback.c], the file as a list of records and an offset.
    - [Replay]: [playbackGo], as the list of what it does to the outside.
    - [Mixer]: every function of [mixer.c], and [engineSchedulerInit].
    - [Engine]: [engineIO], [engineInit], [engineShutdown], and the body of
      [engineLoop], with the invariant of the engine thread.
    - [MixerFacts]: properties of the mixer thread.
    - [Steps]: frame rules for computations on the shared state, with the hint
      database [steps], and the invariant that engine and mixer thread share.
    - [Release]: what the end of the program frees, and that the rounds of the
      threads keep what it relies on.
    - [Render]: a reference for a chunk of sound, with the channels whose sound
      ends in it and the states that are heard, and that the mixer computes it.
    - [Handover]: the engine between two steps of the mixer, at one channel.
    - [Wire]: the packet header of [server.h] as bytes, and byte orders.
    - [Notice]: events in XML, [xml.c], [xml_notice.c] and [notice.c].
    - [NoticeMem]: the same calls over the memory of a notice.
    - [Server]: [server.c], class identifiers, announcements, decoding.
    - [UdpServer]: [udp_server.c], leases, alarm, and the loop over datagrams.
    - [TcpServer], [SslServer]: the servlet of a connection in [tcp_server.c]
      and in [ssl_server.c].
    - [Typing]: the events that the servers enqueue are typed; the packets with
      events as a relation between bytes and events, and the events of the UDP
      server on it.
    - [Peepd]: the three threads over the state they share, one round of a
      thread being a step ([doMixing], [engineLoop], [serverRealStart]).
    - [Denial], [Session]: what a client can do to this system, and what a
      recording of it holds.
    - [Connections]: the set-up and the accept loops of [tcp_server.c] and
      [ssl_server.c], and all servlets of the TCP server as threads.
    - [SslContext]: the certificates of [ssl_server.c], and what the accept loop
      does without them.
    - [Frontend]: what the program relies on in a server as a class, with the
      three servers as instances, and the threads with any such server.
    - [Parser]: [parser.c], the lexer, the import path, and the sections of
      the configuration file that fill the server and the sound table.
    - [Strtod]: [strtod], by exact decimal arithmetic.
    - [ParserState]: the [state] sections of [parser.c], which fill the mixer.
    - [Theme]: [xml_theme.c], both passes over the calls of expat.
    - [ConfigFile]: [parserParseConfigFile], the loop over the sections with
      imports and themes, and the grammar it implements.
    - [Threads]: [thread.c] over a table of the threads of the process with
      their signal masks, cancellations and the handlers they are in, which keep
      their signal blocked; and the threads of [main.c].
    - [Cmdline]: [cmdline.c] with the macros of [cmdline.h].
    - [Sound]: the drivers [alsa.c] and [oss.c] over a device.
    - [Log]: [debug.c].
    - [Loading]: what a configuration does to the invariant of the threads.
    - [Main]: [main.c], the start of the program and the handler of signals,
      over the state of all components.
    - [Shutdown]: the handler from a state in which the program serves, alone and
      with the threads that it does not wait for.

    Definitions have the names of the C functions; a loop has its own
    definition, named after the function ([bubbleUp_loop], [purge_loop]). A
    structure is a record with the names of its fields, an array a list, a
    pointer to a whole block a [ptr] (null, live or freed) or an address in a
    [store] where pointers alias.

    ** Outcomes

    A function returns [Ok], [Fault] for undefined behaviour (with its kind,
    at the point where the C code has it), or [NoFuel]. Theorems of safety say
    that the result is [Ok]; theorems that report a defect say which inputs
    give [Fault]. Where a loop is bounded by a measure the definition takes
    enough fuel itself and a theorem shows that it never runs out:

    - [bubbleUp], [bubbleDown]: the position and the number of entries;
    - the walks over the leases: the number of live blocks and one;
    - the servlets: the bytes and results the connection still has, and one,
      as every round takes at least one;
    - [to_end]: the number of live nodes and one;
    - [createXmlNormalizedString], the class lists: the length of the text;
    - the sections of a configuration, the lines of a file, a chunk of sound,
      the arguments of the program: what is still to be read, and one.

    Files that import each other are followed to a depth that is an argument;
    [parserParseConfigFile_sections] says that for a file of the grammar every
    depth from some one on gives the result (files that import themselves are
    not in the grammar, and the program does not return on them).

    The look-up in the sound table is an exception: its loop does not advance,
    so its fuel [lookup_fuel] is a parameter, and the theorem about it says for
    which names it returns, with any fuel, and for which with none. The other
    one is [playbackGo], whose loop need not end: it is given a number of
    iterations, and says whether it has returned by then; the theorems about it
    are for every such number, or for every one from the length on that they
    name.

    ** What the theorems show

    - The program as a whole. [peepd_runs]: from the start of the engine over
      the parsing of a configuration, the invariant holds in every state that
      whole rounds of the threads reach in any order, whether events are recorded
      or not, if the output buffer can be read, the directories of sounds hold
      sounds, and the themes on the disk that are well formed have their states in
      order; it is made of [started_threads], of [configuration_keeps_invariant]
      and of [peepd_invariant]. [arrival_plays]: a datagram
      becomes a sound that plays; [engine_round_progress]: the engine goes on;
      [events_conserved]: with any of the servers, every event is in one queue
      once, or gone;
      [one_datagram_stops_engine]: a client can stop the engine for good;
      [udp_events_on_the_wire]: the events that are enqueued are those that the
      receive buffers hold, in their order, every field in its place.
      [main_never_serves]: with [main] as it is written none of this is reached,
      because [mixerInit] reads the size of the output buffer through the
      pointer it is about to set; the theorems on the running program are about
      the states that it has when that buffer can be read.
      [hangup_leaves_dangling]: after a hangup the program uses what was freed.
    - Threads and the end. [signals_spare_workers]: which threads the handler of
      the signals can interrupt, and when; [signal_ends_workers]: the workers end
      at their next cancellation point; [peepd_shuts_down]: the handler alone frees
      everything once, from any state that the program reaches under the
      conditions of [peepd_runs];
      [shutdown_races]: but a worker that is in its work then goes on with what
      was freed.
    - The queues. [engine_queue_refines_stack]: one after the other, the two
      operations implement a stack on the linked list, and never fail.
      [engine_queue_race]: two threads can corrupt the list.
      [mixer_queue_keeps_events]: no history loses or duplicates an event;
      [mixerDequeue_heap]: a dequeue takes the smallest of a heap and leaves a
      heap; [mixerDequeue_first_in]: enqueues alone do not build that heap.
    - The engine. [engineLoop_safe]: a step for an event whose look-up returns
      keeps the invariant and leaves playing channels alone;
      [engineIO_queues_or_drops] says what happens to an event when every
      channel plays, and [engineIO_takes_first_idle] when one does not.
    - The sound table: look-up, insertion, duplicates, hashing, destruction.
    - The mixer. [mixer_renders]: a chunk equals the reference renderer, as long
      as no event that waits is handed to a channel in it and no state that is
      heard fades or comes to its end;
      [mix_event_outcome]: one step of a channel, with 16-bit wrap-around, what
      follows the end of its sound, with or without an event that waits, and the
      read behind the end of a sound of odd length;
      [handover_race_loses_event] and [add_race_miscounts]: what goes wrong
      when the engine runs in between; choice of thresholds, filters, volumes,
      and the accesses out of bounds.
    - Playback. [session_replays]: what is in the file of a session of what the
      engine accepted in it, from where its playback hands it over, and that it
      does not end with the file; [playbackGo_interval]: what is played between two times;
      [playbackGo_round]: the round that was meant; the contents of a file and
      the search for its start.
    - The servers. [event_packet_roundtrip]: an event that was encoded is the
      event that is enqueued; [tcp_run_interleaves]: the TCP server enqueues an
      interleaving of what its servlets enqueue alone; [tcp_run_delivers]: that
      is every event of every client if no packet is split
      ([serverServlet_split_lost] if one is); [serverServlet_returns]: every
      servlet ends; [ssl_servlet_enqueues_nothing]: the SSL server never
      enqueues. [notice_memory_leak]: which strings of a notice are never freed.
      [serverAddClient_adds] and [serverHandleAlarm_purges] refine
      the linked list of leases to a list of clients; [serverRealStart_safe]:
      the loop over any datagrams keeps it well formed.
    - The parser. [parserTokenize_words]: the tokens of a line are its words;
      [parserParseClass_spec], [parserParseEvent_loads] and
      [parserParseState_loads]: what the sections do;
      [parserParseState_returns]: they end on every text;
      [parserParseState_too_many]: one state too many is written outside the
      array; [parserParseConfigFile_sections]: a file that is a sequence of
      sections has the effects of its sections in order, through all imports;
      [xmlParseTheme_loses_events] (in [Theme]): which events a theme loses.
    - Around them. [parseCmdlineOpts_long]: the command line round trips;
      [soundPlayChunk_stream]: the buffer of the driver is a stream.

    ** Assumptions

    Sizes are those of a 64-bit little-endian platform with 32-bit [int] and
    signed [char]. Memory is not exhausted, except where a function takes
    the result of an allocation as an argument. Indeterminate bytes of a
    buffer are arguments. [DEBUG_LEVEL & DBG_...] in a preprocessor condition
    is 0, as the names are enumerators; log messages are left out but in [Main].
    [signal] is that of the BSD and GNU libraries: while a handler runs in a
    thread, its signal is blocked there.
    Volumes are mixed dynamically (the default of [configure]). What is
    outside the program is a parameter: the callbacks that expat makes, reads
    of OpenSSL, random numbers, the clock, the contents of files.

    ** What is not modelled

    [serverLogCerts] of [ssl_server.c] only logs; [soundGetInfo] and
    [soundGetStatus] of the drivers only return null; [printHelp] and
    [printVersion] only print. [playbackGo]
    calls [engineEnqueue] without its declaration and with a record where an
    event is expected; the model lists the records that it hands over, and not
    what the engine would read from them. The pointer to the sound in a record
    is that of the process that wrote it; in the model it is the string. In
    [Peepd] and [Connections] the threads take turns by whole rounds; what can
    go wrong inside the rounds is shown for the engine queue
    ([engine_queue_race]), for a channel ([Handover]) and for the end of the
    program ([Shutdown]). Of the calls that POSIX lets be cancellation points,
    [Threads] has those in the loops of [main.c] that have to be; a thread that
    ends earlier, at a write, is not modelled, nor is a signal that interrupts
    its thread within a call of the C library. In [Main] the messages
    that a component itself logs are left out. The clients and the documentation are no part of the
    program that is modelled. *)

From Stdlib Require Import ZArith Lia.
From stdpp Require Import base gmap list strings numbers relations.

(** ** Outcomes of C code

    A C function either returns, runs into undefined behaviour ([Fault]), or
    has not finished with the fuel given to a loop ([NoFuel]). *)

Inductive fault : Type :=
| NullDeref       (** a null pointer is dereferenced *)
| OutOfBounds     (** an access outside an object *)
| UseAfterFree    (** an access through, or a second free of, a dangling pointer *)
| UninitRead      (** an indeterminate value is used *)
| BadConversion   (** a floating value outside the range of the integer type *)
| BadCast         (** a block is read as another structure than it holds *)
| DivByZero       (** integer division by zero *)
| Blocked.        (** the thread waits for a mutex that is taken or for a
                      semaphore whose count is zero *)

Inductive res (A : Type) : Type :=
| Ok (a : A)
| Fault (f : fault)
| NoFuel.
Arguments Ok {A} a.
Arguments Fault {A} f.
Arguments NoFuel {A}.

#[export] Instance fault_eq_dec : EqDecision fault.
Proof. solve_decision. Defined.

#[export] Instance res_eq_dec `{EqDecision A} : EqDecision (res A).
Proof. solve_decision. Defined.

#[export] Instance res_ret : MRet res := fun A a => Ok a.
#[export] Instance res_bind : MBind res := fun A B k m =>
  match m with Ok a => k a | Fault f => Fault f | NoFuel => NoFuel end.

Definition is_ok {A} (r : res A) : Prop := exists a, r = Ok a.

(** *** Inversion of a monadic result *)

Lemma bind_ok {A B} (m : res A) (k : A -> res B) b :
  (m ≫= k) = Ok b -> exists a, m = Ok a /\ k a = Ok b.
Proof. destruct m; simpl; intros; try discriminate; eauto. Qed.

(** A computation that returns, with a value or with a fault, but does not run
    out of fuel. *)
Definition returns {A} (m : res A) : Prop := m <> NoFuel.

Lemma bind_returns {A B} (m : res A) (k : A -> res B) :
  returns m -> (forall a, m = Ok a -> returns (k a)) -> returns (m ≫= k).
Proof. intros Hm Hk. destruct m; simpl; [by apply Hk|done|by destruct Hm]. Qed.

(** [solve_returns]: go through the steps of a computation without loops. *)
Ltac solve_returns :=
  repeat first
  [ apply bind_returns; [|intros ? ?]
  | match goal with
    | |- returns (match ?x with _ => _ end) => destruct x
    | |- returns (let _ := _ in _) => cbv zeta
    end ];
  try (intros ?; discriminate); eauto with peep.

(** [inv_ok]: break every [x ← m; k = Ok r] hypothesis into its steps. *)
Ltac inv_ok :=
  repeat match goal with
  | H : (_ ≫= _) = Ok _ |- _ =>
      let a := fresh "a" in let E := fresh "E" in
      apply bind_ok in H as (a & E & H); simpl in H
  | H : mret _ = Ok _ |- _ => injection H as H
  | H : Ok _ = Ok _ |- _ => injection H as H
  | H : Fault _ = Ok _ |- _ => discriminate H
  | H : NoFuel = Ok _ |- _ => discriminate H
  end.

(** [run_steps H]: follow one computation that returned, through its steps
    and the cases it distinguishes. *)
Ltac run_steps H :=
  repeat match type of H with
  | (_ ≫= _) = Ok _ =>
      let x := fresh "x" in let E := fresh "E" in apply bind_ok in H as (x & E & H)
  | (let '(_, _) := ?x in _) = Ok _ => destruct x
  | (let _ := _ in _) = Ok _ => cbv zeta in H
  | (match ?x with _ => _ end) = Ok _ => let E := fresh "E" in destruct x eqn:E
  | mret _ = Ok _ => injection H as H
  | Fault _ = Ok _ => discriminate H
  | NoFuel = Ok _ => discriminate H
  end.

(** ** State passing with faults *)

Definition M (S A : Type) : Type := S -> res (A * S).

#[export] Instance M_ret {S} : MRet (M S) := fun A a s => Ok (a, s).
#[export] Instance M_bind {S} : MBind (M S) := fun A B k m s =>
  match m s with
  | Ok (a, s') => k a s'
  | Fault f => Fault f
  | NoFuel => NoFuel
  end.

Definition get {S} : M S S := fun s => Ok (s, s).
Definition put {S} (s : S) : M S unit := fun _ => Ok (tt, s).
Definition gets {S A} (f : S -> A) : M S A := fun s => Ok (f s, s).
Definition modify {S} (f : S -> S) : M S unit := fun s => Ok (tt, f s).
Definition lift {S A} (r : res A) : M S A := fun s =>
  match r with Ok a => Ok (a, s) | Fault f => Fault f | NoFuel => NoFuel end.

(** ** Pointers to whole objects

    A C pointer to a heap block of which the code only uses the block itself:
    null, live with its contents, or dangling after [free]. *)

Inductive ptr (A : Type) : Type :=
| PNull
| PLive (a : A)
| PFreed.
Arguments PNull {A}.
Arguments PLive {A} a.
Arguments PFreed {A}.

Definition deref {A} (p : ptr A) : res A :=
  match p with
  | PNull => Fault NullDeref
  | PLive a => Ok a
  | PFreed => Fault UseAfterFree
  end.

(** [free (p)]: null is accepted, a dangling pointer is a double free. *)
Definition free_ptr {A} (p : ptr A) : res (ptr A) :=
  match p with
  | PNull => Ok PNull
  | PLive _ => Ok PFreed
  | PFreed => Fault UseAfterFree
  end.

(** ** Arrays indexed by C integers *)

Definition rd {A} (l : list A) (i : Z) : res A :=
  match (if decide (0 <= i)%Z then l !! Z.to_nat i else None) with
  | Some x => Ok x
  | None => Fault OutOfBounds
  end.

Definition wr {A} (l : list A) (i : Z) (x : A) : res (list A) :=
  if decide (0 <= i < Z.of_nat (length l))%Z
  then Ok (<[Z.to_nat i := x]> l)
  else Fault OutOfBounds.

Lemma rd_nat {A} (l : list A) (i : nat) (x : A) :
  l !! i = Some x -> rd l (Z.of_nat i) = Ok x.
Proof.
  intros H. unfold rd. rewrite decide_True by lia. by rewrite Nat2Z.id, H.
Qed.

Lemma rd_Ok {A} (l : list A) (i : Z) (x : A) :
  rd l i = Ok x <-> (0 <= i)%Z /\ l !! Z.to_nat i = Some x.
Proof.
  unfold rd. case_decide as Hi; [|by split; [discriminate | intros []]].
  destruct (l !! Z.to_nat i); split; [|intros [_ ?]|discriminate|intros [_ ?]];
    intros; simplify_eq; done.
Qed.

Lemma rd_in_bounds {A} (l : list A) (i : Z) :
  (0 <= i < Z.of_nat (length l))%Z -> exists x, rd l i = Ok x.
Proof.
  intros H. destruct (lookup_lt_is_Some_2 l (Z.to_nat i)) as [x Hx]; [lia|].
  exists x. apply rd_Ok. split; [lia | done].
Qed.

Lemma rd_bounds {A} (l : list A) (i : Z) x :
  rd l i = Ok x -> (0 <= i < Z.of_nat (length l))%Z.
Proof. intros H%rd_Ok. destruct H as [? H]. apply lookup_lt_Some in H. lia. Qed.

Lemma rd_out {A} (l : list A) (i : Z) :
  ~ (0 <= i < Z.of_nat (length l))%Z -> rd l i = Fault OutOfBounds.
Proof.
  intros H. unfold rd. case_decide; [|done].
  by rewrite lookup_ge_None_2 by lia.
Qed.

Lemma wr_Ok {A} (l l' : list A) (i : Z) (x : A) :
  wr l i x = Ok l' <->
  (0 <= i < Z.of_nat (length l))%Z /\ l' = <[Z.to_nat i := x]> l.
Proof.
  unfold wr. case_decide; split.
  - intros. by simplify_eq.
  - by intros [_ ->].
  - discriminate.
  - by intros [? _].
Qed.

Lemma wr_in_bounds {A} (l : list A) (i : Z) (x : A) :
  (0 <= i < Z.of_nat (length l))%Z -> wr l i x = Ok (<[Z.to_nat i := x]> l).
Proof. intros. by apply wr_Ok. Qed.

(** *** A list updated in place *)

Lemma alter_insert {A} (f : A -> A) i x (l : list A) : alter f i (<[i := x]> l) = <[i := f x]> l.
Proof.
  revert i. induction l as [|y l IH]; intros [|i]; cbn; [done..|]. f_equal. apply IH.
Qed.

Lemma alter_at {A} (f : A -> A) i x (l : list A) : l !! i = Some x -> alter f i l = <[i := f x]> l.
Proof. intros H. rewrite <- (list_insert_id l i x H) at 1. apply alter_insert. Qed.

(** ** Machine integers

    An unsigned w-bit value is [z mod 2^w]; a signed one is its two's
    complement reading. *)

Definition uwrap (w z : Z) : Z := (z mod 2 ^ w)%Z.
Definition swrap (w z : Z) : Z :=
  ((z + 2 ^ (w - 1)) mod 2 ^ w - 2 ^ (w - 1))%Z.

Definition u8  : Z -> Z := uwrap 8.
Definition u16 : Z -> Z := uwrap 16.
Definition u32 : Z -> Z := uwrap 32.
Definition i8  : Z -> Z := swrap 8.
Definition i16 : Z -> Z := swrap 16.
Definition i32 : Z -> Z := swrap 32.

Lemma uwrap_range w z : (0 <= w)%Z -> (0 <= uwrap w z < 2 ^ w)%Z.
Proof. intros. apply Z.mod_pos_bound. lia. Qed.

Lemma uwrap_small w z : (0 <= z < 2 ^ w)%Z -> uwrap w z = z.
Proof. intros. by apply Z.mod_small. Qed.

Lemma swrap_range w z :
  (0 < w)%Z -> (- 2 ^ (w - 1) <= swrap w z < 2 ^ (w - 1))%Z.
Proof.
  intros Hw. unfold swrap.
  assert (H2 : (2 ^ w = 2 * 2 ^ (w - 1))%Z).
  { rewrite <- Z.pow_succ_r by lia. f_equal. lia. }
  pose proof (Z.mod_pos_bound (z + 2 ^ (w - 1)) (2 ^ w) ltac:(lia)). lia.
Qed.

Lemma swrap_small w z :
  (0 < w)%Z -> (- 2 ^ (w - 1) <= z < 2 ^ (w - 1))%Z -> swrap w z = z.
Proof.
  intros Hw Hz. unfold swrap.
  assert (H2 : (2 ^ w = 2 * 2 ^ (w - 1))%Z).
  { rewrite <- Z.pow_succ_r by lia. f_equal. lia. }
  rewrite Z.mod_small by lia. lia.
Qed.

Lemma u8_small z : (0 <= z < 256)%Z -> u8 z = z.
Proof. apply (uwrap_small 8). Qed.
Lemma u32_small z : (0 <= z < 2 ^ 32)%Z -> u32 z = z.
Proof. apply (uwrap_small 32). Qed.
Lemma i8_small z : (-128 <= z < 128)%Z -> i8 z = z.
Proof. by apply (swrap_small 8). Qed.
Lemma i16_small z : (- 2 ^ 15 <= z < 2 ^ 15)%Z -> i16 z = z.
Proof. by apply (swrap_small 16). Qed.
Lemma i32_small z : (- 2 ^ 31 <= z < 2 ^ 31)%Z -> i32 z = z.
Proof. by apply (swrap_small 32). Qed.

(** ** Mutexes

    A default POSIX mutex seen from one thread: locking it twice without an
    unlock blocks for ever. *)

Definition threadLock (locked : bool) : res bool :=
  if locked then Fault Blocked else Ok true.
Definition threadUnlock (locked : bool) : res bool := Ok false.

(** ** Computations that return *)

Lemma M_bind_returns {S A B} (m : M S A) (k : A -> M S B) s :
  returns (m s) -> (forall a s', returns (k a s')) -> returns ((m ≫= k) s).
Proof. intros Hm Hk. unfold mbind, M_bind. destruct (m s) as [[a s']| |]; [apply Hk|done|done]. Qed.

Lemma lift_returns {S A} (r : res A) (s : S) : returns r -> returns (lift r s).
Proof. unfold lift, returns. by destruct r. Qed.
Lemma rd_returns {A} (l : list A) i : returns (rd l i).
Proof. unfold rd. solve_returns. Qed.
Lemma wr_returns {A} (l : list A) i x : returns (wr l i x).
Proof. unfold wr. solve_returns. Qed.
Lemma deref_returns {A} (q : ptr A) : returns (deref q).
Proof. by destruct q. Qed.
(** ** Time *)

Record timeval : Type := { tv_sec : Z; tv_usec : Z }.

#[export] Instance timeval_eq_dec : EqDecision timeval.
Proof. solve_decision. Defined.

(** ** Automation shared by the components *)

Create HintDb peep.
#[export] Hint Resolve rd_nat wr_in_bounds u8_small u32_small i8_small i16_small i32_small : peep.

(** [case_if]: split the first boolean test or match on an option. *)
Ltac case_if :=
  match goal with
  | |- context [if ?b then _ else _] => let E := fresh "E" in destruct b eqn:E
  | H : context [if ?b then _ else _] |- _ => let E := fresh "E" in destruct b eqn:E
  end.

(** [zbool]: turn boolean tests on [Z] into propositions. *)
Ltac zbool :=
  repeat match goal with
  | H : (_ =? _)%Z = true |- _ => apply Z.eqb_eq in H
  | H : (_ =? _)%Z = false |- _ => apply Z.eqb_neq in H
  | H : (_ <? _)%Z = true |- _ => apply Z.ltb_lt in H
  | H : (_ <? _)%Z = false |- _ => apply Z.ltb_ge in H
  | H : (_ <=? _)%Z = true |- _ => apply Z.leb_le in H
  | H : (_ <=? _)%Z = false |- _ => apply Z.leb_gt in H
  | H : (_ && _) = true |- _ => apply andb_true_iff in H as [? ?]
  | H : (_ || _) = false |- _ => apply orb_false_iff in H as [? ?]
  end.

(** ** A store of heap blocks

    Blocks of one C structure type, reached through pointers that alias. A
    location is never reused, so that every access through a dangling pointer
    is seen as one. *)

Definition addr : Type := positive.

Record store (A : Type) : Type := Store { cells : gmap positive A; brk : positive }.
Arguments Store {A} _ _.
Arguments cells {A} _.
Arguments brk {A} _.

Definition empty_store {A} : store A := Store ∅ 1.

Definition store_wf {A} (s : store A) : Prop :=
  forall p, is_Some (cells s !! p) -> (p < brk s)%positive.

Definition s_alloc {A} (s : store A) (a : A) : addr * store A :=
  (brk s, Store (<[brk s := a]> (cells s)) (brk s + 1)).

(** An access through pointer [p]: null, live or dangling. *)
Definition s_load {A} (s : store A) (p : option addr) : res (addr * A) :=
  match p with
  | None => Fault NullDeref
  | Some l => match cells s !! l with
              | Some a => Ok (l, a)
              | None => Fault UseAfterFree
              end
  end.

(** Overwriting the block at [l]; the code has just read it through [l]. *)
Definition s_set {A} (s : store A) (l : addr) (a : A) : store A :=
  Store (<[l := a]> (cells s)) (brk s).

Definition s_store {A} (s : store A) (p : option addr) (a : A) : res (store A) :=
  '(l, _) ← s_load s p; mret (s_set s l a).

Definition s_free {A} (s : store A) (p : option addr) : res (store A) :=
  match p with
  | None => Ok s
  | Some l => match cells s !! l with
              | Some _ => Ok (Store (delete l (cells s)) (brk s))
              | None => Fault UseAfterFree
              end
  end.

Section StoreFacts.
Context {A : Type}.
Implicit Types (s : store A) (a b : A) (l p : addr).

Lemma store_wf_fresh s : store_wf s -> cells s !! brk s = None.
Proof.
  intros Hwf. destruct (cells s !! brk s) eqn:E; [|done].
  assert (is_Some (cells s !! brk s)) as H%Hwf by eauto. lia.
Qed.

Lemma store_wf_alloc s a : store_wf s -> store_wf (s_alloc s a).2.
Proof.
  intros Hwf p. simpl. rewrite lookup_insert. case_decide; subst; [lia|].
  intros ?%Hwf. lia.
Qed.

Lemma store_wf_set s l a :
  store_wf s -> is_Some (cells s !! l) -> store_wf (s_set s l a).
Proof.
  intros Hwf Hl p. simpl. rewrite lookup_insert. case_decide; subst; auto.
Qed.

Lemma store_wf_delete s l :
  store_wf s -> store_wf (Store (delete l (cells s)) (brk s)).
Proof.
  intros Hwf p. simpl. rewrite lookup_delete. case_decide; [by intros []|auto].
Qed.

Lemma s_load_Some s l a : cells s !! l = Some a -> s_load s (Some l) = Ok (l, a).
Proof. intros H. simpl. by rewrite H. Qed.

Lemma s_free_Some s l a :
  cells s !! l = Some a -> s_free s (Some l) = Ok (Store (delete l (cells s)) (brk s)).
Proof. intros H. simpl. by rewrite H. Qed.
End StoreFacts.

#[export] Hint Resolve store_wf_alloc store_wf_set store_wf_delete store_wf_fresh : peep.
#[export] Hint Resolve s_load_Some s_free_Some : peep.
