(* ===== verification/Events.v ===== *)
(** * The events exchanged by the components ([engine.h])

    An [EVENT] is what a client asks the server to play; an [ENGINE_EVENT]
    wraps it with the time at which it was put aside. *)

From stdpp Require Import base strings.
From Stdlib Require Import ZArith.
From S2P Require Import Prelude.

(** The fields of the C structure with their widths: the first five are
    [unsigned char], [flags] and [sound_len] are [int], and [sound] is a
    pointer to a string owned by the event ([None] is the null pointer).
    [reserved] is never read by the server. *)
Record EVENT : Type := {
  type : Z;        (** state or single event *)
  loc : Z;         (** stereo location, 0 to 255 *)
  prior : Z;       (** priority *)
  vol : Z;         (** volume *)
  dither : Z;      (** fade time of a state *)
  flags : Z;       (** effect flags *)
  sound_len : Z;   (** length of the sound string *)
  sound : option string
}.

Record ENGINE_EVENT : Type := {
  event : EVENT;
  mix_time : timeval
}.

(** [typedef enum { EVENT_T, STATE_T } EVENT_TYPE] *)
Inductive EVENT_TYPE : Type := EVENT_T | STATE_T.

Definition event_type_val (t : EVENT_TYPE) : Z :=
  match t with EVENT_T => 0 | STATE_T => 1 end.

#[export] Instance event_eq_dec : EqDecision EVENT.
Proof. solve_decision. Defined.
#[export] Instance engine_event_eq_dec : EqDecision ENGINE_EVENT.
Proof. solve_decision. Defined.
#[export] Instance event_type_eq_dec : EqDecision EVENT_TYPE.
Proof. solve_decision. Defined.

(** An event whose narrow fields hold values of their C types. *)
Definition event_wf (e : EVENT) : Prop :=
  (0 <= type e < 256 /\ 0 <= loc e < 256 /\ 0 <= prior e < 256 /\
   0 <= vol e < 256 /\ 0 <= dither e < 256)%Z.
