(* ===== verification/EngineQueue.v ===== *)
(** * The engine queue ([engine_queue.c])

    The doubly-linked list through which a server thread hands events to the
    engine thread, with its counting semaphore. The list is modelled with its
    pointers, in a store of nodes; [rep] relates it to the list of events it
    holds. The abstract specification is a stack: both operations work at the
    [tail] end. The last part gives the two operations statement by statement
    and lets threads interleave. *)

From stdpp Require Import base gmap list strings relations.
From Stdlib Require Import ZArith Lia.
From S2P Require Import Prelude Events.

Module EngineQueue.

Record ENGINE_QUEUE_ELEMENT : Type := {
  incoming_event : EVENT;
  next : option addr;
  prev : option addr
}.

(** The file's static variables; [semaphore] points to the semaphore object,
    of which the model has the count. *)
Record state : Type := {
  nodes : store ENGINE_QUEUE_ELEMENT;
  head : option addr;
  tail : option addr;
  semaphore : ptr Z
}.

Definition initial : state :=
  {| nodes := empty_store; head := None; tail := None; semaphore := PNull |}.

Definition set_next (n : ENGINE_QUEUE_ELEMENT) p :=
  {| incoming_event := incoming_event n; next := p; prev := prev n |}.

Definition with_nodes (st : state) s :=
  {| nodes := s; head := head st; tail := tail st; semaphore := semaphore st |}.
Definition with_ends (st : state) h t :=
  {| nodes := nodes st; head := h; tail := t; semaphore := semaphore st |}.
Definition with_sem (st : state) c :=
  {| nodes := nodes st; head := head st; tail := tail st; semaphore := c |}.

(** ** Semaphores ([thread.c])

    [semaphoreCreate] can fail in [malloc] or [sem_init]: [ok] says whether
    both succeed. *)

Definition semaphoreCreate (ok : bool) (value : Z) : ptr Z :=
  if ok then PLive value else PNull.

Definition semaphoreRelease (sem : ptr Z) : res (ptr Z) :=
  c ← deref sem; mret (PLive (c + 1)%Z).

(** With [blocking = 1] the call waits while the count is zero. With
    [blocking = 0] it returns 0 instead. *)
Definition semaphoreAcquire (sem : ptr Z) (blocking : bool) : res (Z * ptr Z) :=
  c ← deref sem;
  if (0 <? c)%Z then mret (1%Z, PLive (c - 1)%Z)
  else if blocking then Fault Blocked else mret (0%Z, PLive c).

(** [ok]: whether [sem_destroy] succeeds; the block is freed in any case. *)
Definition semaphoreDestroy (ok : bool) (sem : ptr Z) : res (Z * ptr Z) :=
  match sem with
  | PNull => mret (1%Z, PNull)
  | _ => sem ← free_ptr sem; mret (if ok then 1%Z else 0%Z, sem)
  end.

(** ** The operations *)

Definition engineQueueInit (ok : bool) : M state Z := fun st =>
  match semaphoreCreate ok 0 with
  | PLive c => Ok (1%Z, with_sem st (PLive c))
  | p => Ok (0%Z, with_sem st p)
  end.

(** The events that are still in the queue, and [head] and [tail], stay as
    they are; the pointer to the semaphore is left dangling. *)
Definition engineQueueDestroy (ok : bool) : M state unit := fun st =>
  match semaphore st with
  | PNull => mret (tt, st)
  | p => '(_, p) ← semaphoreDestroy ok p; mret (tt, with_sem st p)
  end.

(** The loop of [engineEnqueue] that runs to the last node. *)
Fixpoint to_end (fuel : nat) (s : store ENGINE_QUEUE_ELEMENT) (cur_pos : addr)
  : res addr :=
  match fuel with
  | O => NoFuel
  | S fuel =>
      '(_, n) ← s_load s (Some cur_pos);
      match next n with
      | None => mret cur_pos
      | Some q => to_end fuel s q
      end
  end.

Definition engineEnqueue (d : EVENT) : M state unit := fun st =>
  match head st with
  | None =>
      let (p, s) := s_alloc (nodes st) {| incoming_event := d; next := None; prev := None |} in
      sem ← semaphoreRelease (semaphore st);
      mret (tt, with_sem (with_ends (with_nodes st s) (Some p) (Some p)) sem)
  | Some h =>
      cur ← to_end (S (size (cells (nodes st)))) (nodes st) h;
      '(_, n) ← s_load (nodes st) (Some cur);
      let (p, s) := s_alloc (nodes st)
                      {| incoming_event := d; next := None; prev := Some cur |} in
      let s := s_set s cur (set_next n (Some p)) in
      sem ← semaphoreRelease (semaphore st);
      mret (tt, with_sem (with_ends (with_nodes st s) (head st) (Some p)) sem)
  end.

Definition engineDequeue : M state EVENT := fun st =>
  '(_, sem) ← semaphoreAcquire (semaphore st) true;
  let st := with_sem st sem in
  '(_, t) ← s_load (nodes st) (tail st);
  let temp := incoming_event t in
  match prev t with
  | Some q =>
      '(_, n) ← s_load (nodes st) (Some q);
      s ← s_free (nodes st) (next n);
      s ← s_store s (Some q) (set_next n None);
      mret (temp, with_ends (with_nodes st s) (head st) (Some q))
  | None =>
      s ← s_free (nodes st) (tail st);
      mret (temp, with_ends (with_nodes st s) None None)
  end.

Definition engineQueueEmpty (st : state) : bool := bool_decide (head st = None).

(** ** Abstract specification: a stack *)

Module Spec.
Definition push (d : EVENT) (l : list EVENT) : list EVENT := l ++ [d].
Definition pop (l : list EVENT) : option (EVENT * list EVENT) :=
  match last l with
  | Some d => Some (d, take (length l - 1) l)
  | None => None
  end.

Lemma pop_snoc l d : pop (l ++ [d]) = Some (d, l).
Proof.
  unfold pop. rewrite last_snoc, length_app. simpl. do 2 f_equal.
  rewrite Nat.add_sub. apply take_app_length.
Qed.

Lemma pop_Some l d l' : pop l = Some (d, l') -> l = l' ++ [d].
Proof.
  destruct l as [|x l _] using rev_ind; [done|].
  rewrite pop_snoc. by intros [= -> ->].
Qed.
End Spec.

(** A history of the queue: what its two callers do, one call after the other. *)
Inductive op : Type := Enq (d : EVENT) | Deq.

Fixpoint run (ops : list op) : M state (list EVENT) :=
  match ops with
  | [] => mret []
  | Enq d :: ops => engineEnqueue d ;; run ops
  | Deq :: ops => d ← engineDequeue; ds ← run ops; mret (d :: ds)
  end.

(** The events a stack hands out for the same history, and what is left in it;
    [None] when the history pops an empty stack (the caller would wait). *)
Fixpoint spec_run (ops : list op) (l : list EVENT) : option (list EVENT * list EVENT) :=
  match ops with
  | [] => Some ([], l)
  | Enq d :: ops => spec_run ops (Spec.push d l)
  | Deq :: ops => '(d, l) ← Spec.pop l; '(ds, l) ← spec_run ops l; Some (d :: ds, l)
  end.

(** ** Representation

    [rep st l]: the nodes of [st], linked in both directions from [head] to
    [tail], hold exactly the events [l], and the semaphore counts them. *)

Definition node_at (ps : list addr) (l : list EVENT) (i : nat) : option ENGINE_QUEUE_ELEMENT :=
  (fun d => {| incoming_event := d; next := ps !! S i;
               prev := match i with O => None | S j => ps !! j end |}) <$> l !! i.

Record rep_by (st : state) (ps : list addr) (l : list EVENT) : Prop := {
  rep_len : length ps = length l;
  rep_nodup : NoDup ps;
  rep_wf : store_wf (nodes st);
  rep_dom : dom (cells (nodes st)) = list_to_set ps;
  rep_head : head st = ps !! 0;
  rep_tail : tail st = last ps;
  rep_sem : semaphore st = PLive (Z.of_nat (length l));
  rep_node : forall i p, ps !! i = Some p -> cells (nodes st) !! p = node_at ps l i
}.

Definition rep (st : state) (l : list EVENT) : Prop := exists ps, rep_by st ps l.

Lemma rep_fresh st ps l : rep_by st ps l -> brk (nodes st) ∉ ps.
Proof.
  intros H Hin. pose proof (store_wf_fresh _ (rep_wf _ _ _ H)) as Hb.
  apply not_elem_of_dom in Hb. rewrite (rep_dom _ _ _ H) in Hb.
  by apply Hb, elem_of_list_to_set.
Qed.

Lemma rep_size st ps l : rep_by st ps l -> size (cells (nodes st)) = length ps.
Proof.
  intros H. rewrite <- size_dom, (rep_dom _ _ _ H).
  apply size_list_to_set, H.
Qed.

Lemma rep_lookup st ps l i p :
  rep_by st ps l -> ps !! i = Some p ->
  exists n, cells (nodes st) !! p = Some n /\ node_at ps l i = Some n.
Proof.
  intros H Hp. rewrite (rep_node _ _ _ H _ _ Hp).
  assert (is_Some (l !! i)) as [d Hd].
  { apply lookup_lt_is_Some. rewrite <- (rep_len _ _ _ H). by eapply lookup_lt_Some. }
  unfold node_at. rewrite Hd. simpl. eauto.
Qed.

(** The walk reaches the last node within the fuel [engineEnqueue] gives it. *)
Lemma to_end_last st ps l fuel i p :
  rep_by st ps l -> ps !! i = Some p -> length ps - i <= fuel ->
  exists t, to_end fuel (nodes st) p = Ok t /\ last ps = Some t.
Proof.
  intros H. revert i p. induction fuel as [|fuel IH]; intros i p Hp Hf.
  { apply lookup_lt_Some in Hp. lia. }
  destruct (rep_lookup _ _ _ _ _ H Hp) as (n & Hn & Hat).
  simpl. rewrite Hn. simpl.
  assert (next n = ps !! S i) as ->.
  { unfold node_at in Hat. destruct (l !! i); simpl in Hat; by simplify_eq. }
  destruct (ps !! S i) as [q|] eqn:Hq.
  - apply (IH (S i)); [done|lia].
  - exists p. split; [done|]. rewrite last_lookup, <- Hp. f_equal.
    apply lookup_ge_None in Hq. apply lookup_lt_Some in Hp. lia.
Qed.

Lemma rep_empty_iff st l : rep st l -> engineQueueEmpty st = bool_decide (l = []).
Proof.
  intros [ps H]. unfold engineQueueEmpty. rewrite (rep_head _ _ _ H).
  pose proof (rep_len _ _ _ H).
  destruct ps, l; simplify_eq/=; by rewrite ?bool_decide_true, ?bool_decide_false by done.
Qed.

(** Adding a node behind the last one. *)
Lemma rep_snoc_cells (st : state) ps l t nt d p i q :
  rep_by st ps l -> last ps = Some t -> cells (nodes st) !! t = Some nt -> p ∉ ps ->
  (ps ++ [p]) !! i = Some q ->
  <[t := set_next nt (Some p)]>
    (<[p := {| incoming_event := d; next := None; prev := Some t |}]> (cells (nodes st))) !! q
  = node_at (ps ++ [p]) (l ++ [d]) i.
Proof.
  intros H Ht Hnt Hfr Hq. pose proof (rep_len _ _ _ H) as Hl.
  rewrite last_lookup in Ht.
  assert (Htlt := lookup_lt_Some _ _ _ Ht).
  assert (p <> t) by (intros ->; apply Hfr; by eapply list_elem_of_lookup_2).
  apply lookup_app_Some in Hq as [Hq | [Hge Hq]].
  - assert (Hlt := lookup_lt_Some _ _ _ Hq).
    assert (q <> p) by (intros ->; apply Hfr; by eapply list_elem_of_lookup_2).
    destruct (decide (i = pred (length ps))) as [->|Hi].
    + assert (q = t) as -> by congruence.
      rewrite lookup_insert_eq.
      pose proof (rep_node _ _ _ H _ _ Ht) as Hnode. rewrite Hnt in Hnode.
      unfold node_at in *. rewrite (lookup_app_l l) by lia.
      destruct (l !! pred (length ps)) as [e|]; [|done]. simpl in *.
      simplify_eq. unfold set_next. simpl. do 2 f_equal.
      * rewrite lookup_app_r by lia.
        replace (S (pred (length ps)) - length ps) with 0 by lia. done.
      * destruct (pred (length ps)) eqn:E; [done|]. rewrite lookup_app_l by lia. done.
    + assert (q <> t).
      { intros ->. apply Hi. eapply NoDup_lookup; eauto. apply H. }
      rewrite !lookup_insert_ne by done.
      rewrite (rep_node _ _ _ H _ _ Hq).
      unfold node_at. rewrite (lookup_app_l l), (lookup_app_l ps) by lia.
      destruct i; [done|]. by rewrite lookup_app_l by lia.
  - destruct (i - length ps) eqn:E; [|done]. simpl in Hq. simplify_eq.
    assert (i = length ps) as -> by lia.
    rewrite lookup_insert_ne, lookup_insert_eq by done.
    unfold node_at. rewrite (lookup_app_r l), <- Hl, Nat.sub_diag by lia. simpl.
    rewrite (lookup_ge_None_2 (ps ++ [_])) by (rewrite length_app; simpl; lia).
    destruct (length ps) eqn:E2; [lia|].
    rewrite lookup_app_l by lia. simpl in Ht. by rewrite Ht.
Qed.

Lemma with_sem_fields st c :
  nodes (with_sem st c) = nodes st /\ head (with_sem st c) = head st /\
  tail (with_sem st c) = tail st.
Proof. done. Qed.

(** ** The refinement lemmas *)

Lemma engineQueueInit_rep :
  exists st, engineQueueInit true initial = Ok (1%Z, st) /\ rep st [].
Proof.
  eexists. split; [reflexivity|]. exists [].
  split; try done; [constructor|]. intros p. simpl. by intros [].
Qed.

Lemma engineEnqueue_rep st l d :
  rep st l -> exists st', engineEnqueue d st = Ok (tt, st') /\ rep st' (Spec.push d l).
Proof.
  intros [ps H]. pose proof (rep_fresh _ _ _ H) as Hfr.
  unfold engineEnqueue, Spec.push. rewrite (rep_head _ _ _ H), (rep_sem _ _ _ H).
  assert (Hc : (Z.of_nat (length l) + 1 = Z.of_nat (length (l ++ [d])))%Z)
    by (rewrite length_app; simpl; lia).
  destruct (ps !! 0) as [h|] eqn:Hh; simpl.
  - destruct (to_end_last _ _ _ (S (size (cells (nodes st)))) _ _ H Hh)
      as (t & Ht & Hlast); [rewrite (rep_size _ _ _ H); lia|].
    pose proof Hlast as Hlk. rewrite last_lookup in Hlk.
    destruct (rep_lookup _ _ _ _ _ H Hlk) as (nt & Hnt & _).
    simpl in Ht. rewrite Ht. simpl. rewrite Hnt. simpl.
    eexists. split; [done|]. exists (ps ++ [brk (nodes st)]). split; simpl.
    + by rewrite !length_app, (rep_len _ _ _ H).
    + apply NoDup_app. split; [apply H|]. split; [set_solver|apply NoDup_singleton].
    + apply (store_wf_set (s_alloc _ _).2); [apply store_wf_alloc, H|].
      simpl. rewrite lookup_insert. case_decide; eauto.
    + rewrite !dom_insert_L, (rep_dom _ _ _ H), list_to_set_app_L. simpl.
      assert (t ∈ ps) by (by eapply list_elem_of_lookup_2). set_solver.
    + by rewrite (lookup_app_l_Some _ _ _ _ Hh).
    + by rewrite last_snoc.
    + by rewrite Hc.
    + intros i q. by eapply rep_snoc_cells.
  - assert (ps = []) as -> by (by destruct ps).
    assert (l = []) as -> by (apply nil_length_inv; by rewrite <- (rep_len _ _ _ H)).
    eexists. split; [done|]. exists [brk (nodes st)]. split; simpl; try done.
    + apply NoDup_singleton.
    + apply (store_wf_alloc _ _), H.
    + rewrite dom_insert_L, (rep_dom _ _ _ H). set_solver.
    + intros [|i] q; [|by destruct i]. simpl. intros [= <-].
      by rewrite lookup_insert_eq.
Qed.

(** Unlinking the last node. *)
Lemma rep_unsnoc_cells (st : state) ps l t q nq d i p :
  rep_by st ((ps ++ [q]) ++ [t]) (l ++ [d]) -> length (ps ++ [q]) = length l ->
  cells (nodes st) !! q = Some nq ->
  (ps ++ [q]) !! i = Some p ->
  <[q := set_next nq None]> (delete t (cells (nodes st))) !! p = node_at (ps ++ [q]) l i.
Proof.
  intros H Hlen Hnq Hp.
  pose proof (rep_nodup _ _ _ H) as Hnd. apply NoDup_app in Hnd as (Hnd & Hnot & _).
  assert (Hlt := lookup_lt_Some _ _ _ Hp).
  assert (Hp' : ((ps ++ [q]) ++ [t]) !! i = Some p) by (by apply lookup_app_l_Some).
  pose proof (rep_node _ _ _ H _ _ Hp') as Hnode.
  assert (p <> t).
  { intros ->. eapply Hnot; [by eapply list_elem_of_lookup_2|set_solver]. }
  unfold node_at in *. rewrite (lookup_app_l l) in Hnode by lia.
  assert (Hprev : match i with O => None | S j => ((ps ++ [q]) ++ [t]) !! j end
                = match i with O => None | S j => (ps ++ [q]) !! j end).
  { destruct i; [done|]. by rewrite lookup_app_l by lia. }
  rewrite Hprev in Hnode. clear Hprev.
  rewrite length_app in Hlt. simpl in Hlt.
  destruct (decide (i = length ps)) as [->|Hi].
  - assert (p = q) as ->.
    { rewrite list_lookup_middle in Hp by done. by simplify_eq. }
    rewrite lookup_insert_eq. rewrite Hnq in Hnode.
    destruct (l !! length ps); [|done]. simpl in *. simplify_eq.
    unfold set_next. simpl. rewrite (lookup_ge_None_2 (ps ++ [q])); [done|].
    rewrite length_app. simpl. lia.
  - assert (p <> q).
    { intros ->. apply Hi. eapply NoDup_lookup; [apply Hnd|done|].
      by rewrite list_lookup_middle. }
    rewrite lookup_insert_ne, lookup_delete_ne, Hnode by done.
    rewrite (lookup_app_l (ps ++ [q])) by (rewrite length_app; simpl; lia). done.
Qed.

(** Reading the last node of a queue. *)
Lemma rep_last_node st ps l t d :
  rep_by st (ps ++ [t]) (l ++ [d]) ->
  length ps = length l /\ t ∉ ps /\
  cells (nodes st) !! t = Some {| incoming_event := d; next := None; prev := last ps |}.
Proof.
  intros H. pose proof (rep_len _ _ _ H) as Hl. rewrite !length_app in Hl.
  simpl in Hl. assert (Hlen : length ps = length l) by lia. split; [done|].
  pose proof (rep_nodup _ _ _ H) as Hnd. apply NoDup_app in Hnd as (_ & Hnot & _).
  split. { intros Hin; apply (Hnot t Hin); set_solver. }
  assert (Ht : (ps ++ [t]) !! length ps = Some t) by (by apply list_lookup_middle).
  rewrite (rep_node _ _ _ H _ _ Ht). unfold node_at.
  rewrite (lookup_app_r l), <- Hlen, Nat.sub_diag by lia. simpl. do 2 f_equal.
  - apply lookup_ge_None_2. rewrite length_app. simpl. lia.
  - rewrite last_lookup. destruct ps as [|a ps]; [done|]. cbn [length pred].
    rewrite lookup_app_l by (simpl; lia). done.
Qed.

Lemma engineDequeue_rep st l d :
  rep st (l ++ [d]) -> exists st', engineDequeue st = Ok (d, st') /\ rep st' l.
Proof.
  intros [ps H]. pose proof (rep_len _ _ _ H) as Hl. rewrite length_app in Hl.
  destruct ps as [|t ps _] using rev_ind; [simpl in Hl; lia|]. clear Hl.
  destruct (rep_last_node _ _ _ _ _ H) as (Hlen & Hnot & Hnt).
  unfold engineDequeue. rewrite (rep_sem _ _ _ H). unfold semaphoreAcquire.
  cbn [deref mbind res_bind]. rewrite length_app. simpl length.
  destruct (Z.ltb_spec 0 (Z.of_nat (length l + 1))) as [_|]; [|lia]. simpl.
  rewrite (rep_tail _ _ _ H), last_snoc. simpl. rewrite Hnt. simpl.
  replace (Z.of_nat (length l + 1) - 1)%Z with (Z.of_nat (length l)) by lia.
  destruct ps as [|q ps _] using rev_ind; simpl.
  - destruct l; [|done].
    eexists. split; [done|]. exists []. split; simpl; try done; [constructor|..].
    + apply store_wf_delete, H.
    + rewrite dom_delete_L, (rep_dom _ _ _ H). set_solver.
  - assert (Hq : ((ps ++ [q]) ++ [t]) !! length ps = Some q).
    { apply lookup_app_l_Some. by apply list_lookup_middle. }
    assert (Hqt : q <> t) by set_solver.
    destruct (rep_lookup _ _ _ _ _ H Hq) as (nq & Hnq & Hat).
    assert (next nq = Some t) as Hnext.
    { unfold node_at in Hat. apply fmap_Some in Hat as (? & _ & ->).
      simpl. apply list_lookup_middle. rewrite length_app. simpl. lia. }
    rewrite last_snoc. simpl. rewrite Hnq. simpl. rewrite Hnext. simpl. rewrite Hnt. simpl.
    unfold s_store. simpl. rewrite lookup_delete_ne, Hnq by done. simpl.
    eexists. split; [done|]. exists (ps ++ [q]). split; simpl; try done.
    + pose proof (rep_nodup _ _ _ H) as Hnd. by apply NoDup_app in Hnd as (? & _).
    + apply (store_wf_set (Store _ _)); [apply store_wf_delete, H|].
      simpl. rewrite lookup_delete_ne by done. eauto.
    + rewrite dom_insert_L, dom_delete_L, (rep_dom _ _ _ H), !list_to_set_app_L. set_solver.
    + rewrite (rep_head _ _ _ H). by destruct ps.
    + by rewrite last_snoc.
    + intros i p. by eapply rep_unsnoc_cells.
Qed.

Lemma engineDequeue_empty st : rep st [] -> engineDequeue st = Fault Blocked.
Proof.
  intros [ps H]. unfold engineDequeue. rewrite (rep_sem _ _ _ H). done.
Qed.

(** After the semaphore was destroyed nothing can be enqueued any more. *)
Lemma engineQueueDestroy_dangling ok st l :
  rep st l -> exists st', engineQueueDestroy ok st = Ok (tt, st') /\
    forall d, engineEnqueue d st' = Fault UseAfterFree.
Proof.
  intros [ps H]. unfold engineQueueDestroy. rewrite (rep_sem _ _ _ H).
  eexists. split; [reflexivity|]. intros d. unfold engineEnqueue.
  cbn [head nodes semaphore with_sem]. rewrite (rep_head _ _ _ H).
  destruct (ps !! 0) as [h|] eqn:Hh; [|done].
  destruct (to_end_last _ _ _ (S (size (cells (nodes st)))) _ _ H Hh) as (t & Ht & Hlast);
    [rewrite (rep_size _ _ _ H); lia|].
  rewrite last_lookup in Hlast. destruct (rep_lookup _ _ _ _ _ H Hlast) as (nt & Hnt & _).
  rewrite Ht. cbn [mbind res_bind s_load]. by rewrite Hnt.
Qed.

Lemma run_refines ops : forall st l ds l',
  rep st l -> spec_run ops l = Some (ds, l') ->
  exists st', run ops st = Ok (ds, st') /\ rep st' l'.
Proof.
  induction ops as [|[d|] ops IH]; intros st l ds l' Hrep Hspec; simpl in *.
  - simplify_eq. by eexists.
  - destruct (engineEnqueue_rep st l d Hrep) as (st1 & E & Hrep1).
    unfold mbind, M_bind. rewrite E. eauto.
  - destruct (Spec.pop l) as [[d l1]|] eqn:Hpop; [simpl in Hspec|done].
    apply Spec.pop_Some in Hpop as ->.
    destruct (engineDequeue_rep _ _ _ Hrep) as (st1 & E & Hrep1).
    destruct (spec_run ops l1) as [[ds1 l2]|] eqn:Hrun; simpl in Hspec; simplify_eq.
    destruct (IH _ _ _ _ Hrep1 Hrun) as (st2 & E2 & Hrep2).
    unfold mbind, M_bind. rewrite E. simpl. rewrite E2. by eexists.
Qed.

(** ** Statement by statement

    The file takes no lock, and the queue is shared by every server thread and
    the engine thread. [pc] is a point of one of the two functions, with the
    local variables that are live there. *)

Inductive pc : Type :=
| Enq0 (d : EVENT)                    (** [cur_pos = head] *)
| Enq1 (d : EVENT) (cur : option addr) (** [if (head == NULL)] *)
| Enq2 (d : EVENT)                    (** [head = malloc (...)] and its fields *)
| Enq3                                (** [tail = head] *)
| Enq4 (d : EVENT) (cur : option addr) (** [while (cur_pos->next != NULL)] *)
| Enq5 (d : EVENT) (cur : option addr) (** [cur_pos->next = malloc (...)], fields *)
| Enq6 (cur : option addr)             (** [tail = cur_pos->next] *)
| Enq7                                (** [semaphoreRelease (semaphore)] *)
| Deq0                                (** [semaphoreAcquire (semaphore, 1)] *)
| Deq1                                (** [temp = tail->incoming_event] *)
| Deq2 (temp : EVENT)                 (** [if (tail->prev != NULL)] *)
| Deq3 (temp : EVENT)                 (** [tail = tail->prev; free; next = NULL] *)
| Deq4 (temp : EVENT)                 (** [free (tail); tail = head = NULL] *)
| Done (r : option EVENT).

Definition tstep (c : pc) (st : state) : res (pc * state) :=
  match c with
  | Enq0 d => mret (Enq1 d (head st), st)
  | Enq1 d cur => mret (match head st with None => Enq2 d | Some _ => Enq4 d cur end, st)
  | Enq2 d =>
      let (p, s) := s_alloc (nodes st) {| incoming_event := d; next := None; prev := None |} in
      mret (Enq3, with_ends (with_nodes st s) (Some p) (tail st))
  | Enq3 => mret (Enq7, with_ends st (head st) (head st))
  | Enq4 d cur =>
      '(_, n) ← s_load (nodes st) cur;
      mret (match next n with None => Enq5 d cur | Some q => Enq4 d (Some q) end, st)
  | Enq5 d cur =>
      '(l, n) ← s_load (nodes st) cur;
      let (p, s) := s_alloc (nodes st) {| incoming_event := d; next := None; prev := cur |} in
      mret (Enq6 cur, with_nodes st (s_set s l (set_next n (Some p))))
  | Enq6 cur =>
      '(_, n) ← s_load (nodes st) cur; mret (Enq7, with_ends st (head st) (next n))
  | Enq7 => sem ← semaphoreRelease (semaphore st); mret (Done None, with_sem st sem)
  | Deq0 => '(_, sem) ← semaphoreAcquire (semaphore st) true; mret (Deq1, with_sem st sem)
  | Deq1 => '(_, t) ← s_load (nodes st) (tail st); mret (Deq2 (incoming_event t), st)
  | Deq2 temp =>
      '(_, t) ← s_load (nodes st) (tail st);
      mret (match prev t with Some _ => Deq3 temp | None => Deq4 temp end, st)
  | Deq3 temp =>
      '(_, t) ← s_load (nodes st) (tail st);
      '(_, n) ← s_load (nodes st) (prev t);
      s ← s_free (nodes st) (next n);
      s ← s_store s (prev t) (set_next n None);
      mret (Done (Some temp), with_ends (with_nodes st s) (head st) (prev t))
  | Deq4 temp =>
      s ← s_free (nodes st) (tail st);
      mret (Done (Some temp), with_ends (with_nodes st s) None None)
  | Done r => mret (Done r, st)
  end.

(** One thread by itself, and several threads on the same queue. *)
Definition alone (x y : pc * state) : Prop := tstep x.1 x.2 = Ok y.

Fixpoint interleave (schedule : list nat) (ts : list pc) (st : state) : res (list pc * state) :=
  match schedule with
  | [] => mret (ts, st)
  | i :: schedule =>
      c ← rd ts (Z.of_nat i);
      '(c, st) ← tstep c st;
      interleave schedule (<[i := c]> ts) st
  end.

Lemma walk_alone fuel d st p t :
  to_end fuel (nodes st) p = Ok t ->
  rtc alone (Enq4 d (Some p), st) (Enq5 d (Some t), st).
Proof.
  revert p. induction fuel as [|fuel IH]; intros p H; [done|].
  cbn [to_end] in H. apply bind_ok in H as ([? n] & E & H).
  destruct (next n) as [q|] eqn:Hn.
  - eapply rtc_l; [|by apply IH]. unfold alone. cbn [fst snd tstep].
    rewrite E. simpl. by rewrite Hn.
  - injection H as ->. apply rtc_once. unfold alone. cbn [fst snd tstep].
    rewrite E. simpl. by rewrite Hn.
Qed.

(** A lone thread's statements add up to the function. *)
Lemma engineEnqueue_alone d st st' :
  engineEnqueue d st = Ok (tt, st') -> rtc alone (Enq0 d, st) (Done None, st').
Proof.
  intros H. unfold engineEnqueue in H.
  apply (rtc_l _ _ (Enq1 d (head st), st)); [done|].
  apply (rtc_l _ _ (match head st with None => Enq2 d | Some _ => Enq4 d (head st) end, st));
    [done|].
  destruct (head st) as [h|] eqn:Hh.
  - apply bind_ok in H as (t & Hwalk & H). apply bind_ok in H as ([l n] & Hload & H).
    simpl in H. apply bind_ok in H as (sem & Hsem & H). injection H as <-.
    etrans; [by eapply walk_alone|]. simpl in Hload.
    destruct (cells (nodes st) !! t) as [n'|] eqn:Ht; [|done]. injection Hload as -> ->.
    eapply rtc_l. { unfold alone. cbn [fst snd tstep]. simpl. by rewrite Ht. }
    eapply rtc_l.
    { unfold alone. cbn [fst snd tstep]. simpl. by rewrite lookup_insert_eq. }
    eapply rtc_once. unfold alone. simpl. rewrite Hsem. simpl. by rewrite Hh.
  - simpl in H. apply bind_ok in H as (sem & Hsem & H). injection H as <-.
    do 2 (eapply rtc_l; [reflexivity|]).
    eapply rtc_once. unfold alone. simpl. by rewrite Hsem.
Qed.

Lemma engineDequeue_alone d st st' :
  engineDequeue st = Ok (d, st') -> rtc alone (Deq0, st) (Done (Some d), st').
Proof.
  intros H. unfold engineDequeue in H.
  apply bind_ok in H as ([r sem] & Hsem & H).
  apply bind_ok in H as ([l t] & Ht & H).
  eapply rtc_l. { unfold alone. cbn [fst snd tstep]. by rewrite Hsem. }
  eapply rtc_l. { unfold alone. cbn [fst snd tstep]. rewrite Ht. reflexivity. }
  eapply rtc_l. { unfold alone. cbn [fst snd tstep]. rewrite Ht. reflexivity. }
  apply rtc_once. unfold alone. cbn [fst snd].
  destruct (prev t) as [q|] eqn:Hq; cbn [tstep].
  - rewrite Ht. cbn [mbind res_bind]. rewrite Hq.
    apply bind_ok in H as ([q' n] & Hn & H). rewrite Hn.
    apply bind_ok in H as (s & Hs & H).
    apply bind_ok in H as (s' & Hs' & H). injection H as <- <-.
    cbn [mbind res_bind]. cbn [nodes with_sem] in *. rewrite Hs.
    cbn [mbind res_bind]. by rewrite Hs'.
  - apply bind_ok in H as (s & Hs & H). injection H as <- <-.
    cbn [nodes tail with_sem] in *. rewrite Hs. done.
Qed.

(** ** Properties *)

(** C11: every history of enqueues and dequeues on a queue that has just been
    initialised behaves, pointer by pointer and without any memory error, as
    the same history of a stack: the events come out youngest first, and what
    is left in the linked list is what is left on the stack. *)
Theorem engine_queue_refines_stack (ops : list op) (ds l : list EVENT) :
  spec_run ops [] = Some (ds, l) ->
  exists st st', engineQueueInit true initial = Ok (1%Z, st) /\
                 run ops st = Ok (ds, st') /\ rep st' l.
Proof.
  intros H. destruct engineQueueInit_rep as (st & Hi & Hrep).
  destruct (run_refines _ _ _ _ _ Hrep H) as (st' & Hr & Hrep'). eauto.
Qed.

Definition sample_event (n : Z) : EVENT :=
  {| type := 0; loc := 128; prior := n; vol := 255; dither := 255; flags := 0;
     sound_len := 5; sound := Some "click"%string |}.

Lemma engine_queue_refines_stack_witness :
  spec_run [Enq (sample_event 1); Enq (sample_event 2); Deq; Deq; Enq (sample_event 3)] []
    = Some ([sample_event 2; sample_event 1], [sample_event 3]) /\
  exists st st', engineQueueInit true initial = Ok (1%Z, st) /\
    run [Enq (sample_event 1); Enq (sample_event 2); Deq; Deq; Enq (sample_event 3)] st
      = Ok ([sample_event 2; sample_event 1], st') /\ rep st' [sample_event 3].
Proof. split; [reflexivity|]. by apply engine_queue_refines_stack. Defined.

(** The unlocked queue is not safe to share. Two servlets that enqueue on
    the empty queue can both see [head == NULL]: one event is lost, the
    semaphore still counts two, and the second dequeue dereferences the null
    [tail]. And an enqueue that holds a pointer to the only node while the
    engine thread dequeues it goes on through freed memory. *)
Theorem engine_queue_race (d1 d2 : EVENT) :
  let empty := with_sem initial (PLive 0%Z) in
  (exists schedule st st',
     interleave schedule [Enq0 d1; Enq0 d2] empty = Ok ([Done None; Done None], st) /\
     semaphore st = PLive 2%Z /\
     engineDequeue st = Ok (d2, st') /\ engineDequeue st' = Fault NullDeref) /\
  (exists schedule st,
     engineEnqueue d1 empty = Ok (tt, st) /\
     interleave schedule [Enq0 d2; Deq0] st = Fault UseAfterFree).
Proof.
  intros empty. split.
  - exists [0;1;0;1;0;0;0;1;1;1]. do 2 eexists. repeat split; reflexivity.
  - exists [0;0;1;1;1;1;0]. eexists. split; reflexivity.
Qed.

End EngineQueue.
