(* ===== verification/MixerQueue.v ===== *)
(** * The mixer's priority queue ([mixer_queue.c])

    The array heap that keeps events while every mixer channel is busy. The
    array is a list of event pointers ([calloc]'d to null), reached through
    the static pointer [heap]; [top] counts the live entries. [queued] relates
    a state to the list of events in the array's live prefix, and two order
    predicates describe it: [min_heap], the order [bubbleDown] works with, and
    [up_heap], the one [bubbleUp] works with. *)

From stdpp Require Import base list strings.
From Stdlib Require Import ZArith Lia.
From S2P Require Import Prelude Events.

Module MixerQueue.

Record state : Type := {
  heap : ptr (list (option ENGINE_EVENT));
  top : Z;
  queueSize : Z;
  qlock : bool
}.

(** Static storage is zeroed before [mixerQueueInit]. *)
Definition initial : state :=
  {| heap := PNull; top := 0; queueSize := 0; qlock := false |}.

Definition with_heap (st : state) h :=
  {| heap := h; top := top st; queueSize := queueSize st; qlock := qlock st |}.
Definition with_top (st : state) t :=
  {| heap := heap st; top := t; queueSize := queueSize st; qlock := qlock st |}.
Definition with_qlock (st : state) b :=
  {| heap := heap st; top := top st; queueSize := queueSize st; qlock := b |}.

Definition mixerQueueInit (s : Z) : state :=
  {| heap := PLive (replicate (Z.to_nat s) None); top := 0; queueSize := s;
     qlock := false |}.

(** [heap[i]] as a value, as a place, and [heap[i]->event.prior]. *)
Definition heap_get (i : Z) (st : state) : res (option ENGINE_EVENT) :=
  h ← deref (heap st); rd h i.

Definition heap_set (i : Z) (e : option ENGINE_EVENT) (st : state) : res state :=
  h ← deref (heap st); h ← wr h i e; mret (with_heap st (PLive h)).

Definition prior_at (i : Z) (st : state) : res Z :=
  e ← heap_get i st;
  match e with Some e => mret (prior (event e)) | None => Fault NullDeref end.

Definition swap (i j : Z) (st : state) : res state :=
  temp ← heap_get i st;
  ej ← heap_get j st;
  st ← heap_set i ej st;
  heap_set j temp st.

Fixpoint bubbleUp_loop (fuel : nat) (done : bool) (pos : Z) (st : state) : res (Z * state) :=
  if done then mret (pos, st) else
  match fuel with
  | O => NoFuel
  | S fuel =>
      let parent := ((pos + 1) `quot` 2)%Z in
      let done := if (parent =? 0)%Z then true else done in
      '(done, st) ← (if (parent <? 0)%Z
                     then st ← swap 0 pos st; mret (true, st)
                     else mret (done, st));
      pp ← prior_at parent st;
      pq ← prior_at pos st;
      if (pp >? pq)%Z
      then st ← swap parent pos st; bubbleUp_loop fuel done parent st
      else bubbleUp_loop fuel true pos st
  end.

Definition bubbleUp (pos : Z) (st : state) : res (Z * state) :=
  bubbleUp_loop (S (S (Z.to_nat pos))) false pos st.

Definition mixerEnqueue (new_event : ENGINE_EVENT) : M state unit := fun st =>
  lk ← threadLock (qlock st);
  let st := with_qlock st lk in
  let pos := top st in
  st ← heap_set (top st) (Some new_event) st;
  '(_, st) ← bubbleUp pos st;
  let st := with_top st (top st + 1) in
  lk ← threadUnlock (qlock st);
  mret (tt, with_qlock st lk).

Fixpoint bubbleDown_loop (fuel : nat) (done : bool) (pos : Z) (st : state) : res (Z * state) :=
  if done then mret (pos, st) else
  match fuel with
  | O => NoFuel
  | S fuel =>
      let lchild := ((pos + 1) * 2 - 1)%Z in
      let rchild := ((pos + 1) * 2)%Z in
      if ((lchild <? top st) && (rchild <? top st))%Z then
        pl ← prior_at lchild st;
        pr ← prior_at rchild st;
        pp ← prior_at pos st;
        if ((pl <=? pr) && (pl <? pp))%Z then
          st ← swap pos lchild st; bubbleDown_loop fuel done lchild st
        else if ((pr <=? pl) && (pr <? pp))%Z then
          st ← swap pos rchild st; bubbleDown_loop fuel done rchild st
        else bubbleDown_loop fuel true pos st
      else if (lchild <? top st)%Z then
        pl ← prior_at lchild st;
        pp ← prior_at pos st;
        if (pl <? pp)%Z then
          st ← swap pos lchild st; bubbleDown_loop fuel true lchild st
        else bubbleDown_loop fuel true pos st
      else bubbleDown_loop fuel true pos st
  end.

Definition bubbleDown (pos : Z) (st : state) : res (Z * state) :=
  bubbleDown_loop (S (S (Z.to_nat (top st)))) false pos st.

(** The event returned may be null: the assertions on it are not compiled in. *)
Definition mixerDequeue : M state (option ENGINE_EVENT) := fun st =>
  lk ← threadLock (qlock st);
  let st := with_qlock st lk in
  r ← heap_get 0 st;
  let st := with_top st (top st - 1) in
  e ← heap_get (top st) st;
  st ← heap_set 0 e st;
  '(_, st) ← bubbleDown 0 st;
  lk ← threadUnlock (qlock st);
  mret (r, with_qlock st lk).

Definition mixerQueueEmpty (st : state) : bool := (top st =? 0)%Z.
Definition mixerQueueFull (st : state) : bool := (top st =? queueSize st)%Z.

(** The loop of [mixerQueueDestroy] frees the events it takes out. *)
Fixpoint drain (fuel : nat) (st : state) : res state :=
  match fuel with
  | O => NoFuel
  | S fuel =>
      if mixerQueueEmpty st then mret st else
      '(item, st) ← mixerDequeue st;
      match item with Some _ => drain fuel st | None => mret st end
  end.

Definition mixerQueueDestroy (st : state) : res state :=
  match heap st with
  | PNull => mret st
  | _ =>
      st ← drain (S (Z.to_nat (top st))) st;
      h ← free_ptr (heap st);
      mret (with_heap st h)
  end.

(** ** Representation *)

(** The live prefix of the array holds the events [l]. *)
Definition holds (st : state) (l : list ENGINE_EVENT) : Prop :=
  exists h, heap st = PLive h /\ Z.of_nat (length h) = queueSize st /\
            length l <= length h /\ take (length l) h = Some <$> l.

(** A queue between two calls. *)
Definition queued (st : state) (l : list ENGINE_EVENT) : Prop :=
  holds st l /\ top st = Z.of_nat (length l) /\ qlock st = false.

(** What the internal functions leave alone. *)
Definition same_frame (st st' : state) : Prop :=
  top st' = top st /\ queueSize st' = queueSize st /\ qlock st' = qlock st.

Definition prio (e : ENGINE_EVENT) : Z := prior (event e).
Definition key (l : list ENGINE_EVENT) (i : nat) : Z :=
  match l !! i with Some e => prio e | None => 0 end.

(** The exchange of two entries. *)
Definition exchange (l : list ENGINE_EVENT) (i j : nat) : list ENGINE_EVENT :=
  match l !! i, l !! j with
  | Some x, Some y => <[j := x]> (<[i := y]> l)
  | _, _ => l
  end.

Lemma same_frame_refl st : same_frame st st.
Proof. done. Qed.
Lemma same_frame_trans st1 st2 st3 :
  same_frame st1 st2 -> same_frame st2 st3 -> same_frame st1 st3.
Proof. unfold same_frame. intuition congruence. Qed.

Lemma exchange_Permutation l i j : exchange l i j ≡ₚ l.
Proof.
  unfold exchange. destruct (l !! i) eqn:Hi; [|done]. destruct (l !! j) eqn:Hj; [|done].
  by apply Permutation_insert_swap.
Qed.

Lemma exchange_length l i j : length (exchange l i j) = length l.
Proof. apply Permutation_length, exchange_Permutation. Qed.

Lemma exchange_lookup l i j k :
  i < length l -> j < length l ->
  exchange l i j !! k = if decide (k = i) then l !! j
                        else if decide (k = j) then l !! i else l !! k.
Proof.
  intros Hi Hj. unfold exchange.
  destruct (lookup_lt_is_Some_2 _ _ Hi) as [x Hx].
  destruct (lookup_lt_is_Some_2 _ _ Hj) as [y Hy]. rewrite Hx, Hy.
  destruct (decide (k = j)) as [->|Hkj].
  - rewrite list_lookup_insert_eq by (by rewrite length_insert).
    case_decide; subst; congruence.
  - rewrite list_lookup_insert_ne by done.
    case_decide; subst; [by rewrite list_lookup_insert_eq|].
    by rewrite list_lookup_insert_ne.
Qed.

Lemma exchange_key l i j k :
  i < length l -> j < length l ->
  key (exchange l i j) k = if decide (k = i) then key l j
                           else if decide (k = j) then key l i else key l k.
Proof.
  intros. unfold key. rewrite exchange_lookup by done. by repeat case_decide.
Qed.

Lemma key_lookup l i e : l !! i = Some e -> key l i = prio e.
Proof. unfold key. by intros ->. Qed.

Lemma holds_lookup st l h i e :
  heap st = PLive h -> take (length l) h = Some <$> l -> l !! i = Some e ->
  h !! i = Some (Some e).
Proof.
  intros _ Ht He. assert (Hi := lookup_lt_Some _ _ _ He).
  rewrite <- (lookup_take_lt h (length l) i Hi), Ht, list_lookup_fmap, He. done.
Qed.

Lemma heap_get_holds st l i e :
  holds st l -> l !! i = Some e -> heap_get (Z.of_nat i) st = Ok (Some e).
Proof.
  intros (h & Hh & _ & _ & Ht) He. unfold heap_get. rewrite Hh. simpl.
  apply rd_nat. by eapply holds_lookup.
Qed.

Lemma prior_at_holds st l i :
  holds st l -> i < length l -> prior_at (Z.of_nat i) st = Ok (key l i).
Proof.
  intros H Hi. destruct (lookup_lt_is_Some_2 _ _ Hi) as [e He].
  unfold prior_at. rewrite (heap_get_holds _ _ _ _ H He). simpl.
  by rewrite (key_lookup _ _ _ He).
Qed.

Lemma heap_set_holds st l i e :
  holds st l -> i < length l ->
  exists st', heap_set (Z.of_nat i) (Some e) st = Ok st' /\ holds st' (<[i := e]> l) /\
              same_frame st st'.
Proof.
  intros (h & Hh & Hq & Hle & Ht) Hi. unfold heap_set. rewrite Hh. simpl.
  rewrite wr_in_bounds by lia. simpl. eexists. split; [done|]. split; [|done].
  exists (<[i := Some e]> h). rewrite Nat2Z.id. split; [done|]. simpl.
  rewrite !length_insert. split_and!; [done|done|].
  by rewrite take_insert_lt, Ht, list_fmap_insert by done.
Qed.

Lemma swap_holds st l i j :
  holds st l -> i < length l -> j < length l ->
  exists st', swap (Z.of_nat i) (Z.of_nat j) st = Ok st' /\ holds st' (exchange l i j) /\
              same_frame st st'.
Proof.
  intros H Hi Hj. unfold swap, exchange.
  destruct (lookup_lt_is_Some_2 _ _ Hi) as [x Hx].
  destruct (lookup_lt_is_Some_2 _ _ Hj) as [y Hy].
  rewrite (heap_get_holds _ _ _ _ H Hx), (heap_get_holds _ _ _ _ H Hy), Hx, Hy. simpl.
  destruct (heap_set_holds st l i y H Hi) as (s1 & -> & H1 & F1). simpl.
  destruct (heap_set_holds s1 _ j x H1) as (s2 & -> & H2 & F2);
    [by rewrite length_insert|].
  eauto using same_frame_trans.
Qed.

(** ** The order of [bubbleDown]: children [2i+1] and [2i+2] *)

Definition child (i j : nat) : Prop := j = 2 * i + 1 \/ j = 2 * i + 2.

Definition min_heap (l : list ENGINE_EVENT) : Prop :=
  forall i j, child i j -> j < length l -> (key l i <= key l j)%Z.

(** A heap but for the entry at [pos], which may be too large. *)
Definition down_weak (l : list ENGINE_EVENT) (pos : nat) : Prop :=
  (forall i j, child i j -> j < length l -> i <> pos -> (key l i <= key l j)%Z) /\
  (forall i j, child i pos -> child pos j -> j < length l -> (key l i <= key l j)%Z).

Lemma down_step l pos c :
  down_weak l pos -> child pos c -> c < length l -> (key l c < key l pos)%Z ->
  (forall c', child pos c' -> c' < length l -> (key l c <= key l c')%Z) ->
  down_weak (exchange l pos c) c.
Proof.
  unfold child. intros [H1 H2] Hc Hlt Hkey Hmin.
  split; intros i j; rewrite exchange_length, !exchange_key by (unfold child in *; lia);
    unfold child in *; intros.
  - destruct (decide (i = pos)) as [->|Hi].
    + rewrite (decide_False (P := j = pos)) by lia. case_decide; [lia|].
      apply Hmin; lia.
    + rewrite (decide_False (P := i = c)) by lia.
      destruct (decide (j = pos)) as [->|Hj].
      * apply H2; lia.
      * rewrite decide_False by lia. apply H1; lia.
  - assert (i = pos) as -> by lia. rewrite decide_True by done.
    rewrite (decide_False (P := j = pos)), (decide_False (P := j = c)) by lia.
    apply H1; lia.
Qed.

Lemma down_finish l pos :
  down_weak l pos ->
  (forall c, child pos c -> c < length l -> (key l pos <= key l c)%Z) -> min_heap l.
Proof.
  intros [H1 _] H i j Hc Hj. destruct (decide (i = pos)) as [->|]; auto.
Qed.

Lemma bubbleDown_done fuel pos st : bubbleDown_loop fuel true pos st = Ok (pos, st).
Proof. by destruct fuel. Qed.

(** What [bubbleDown] does: it ends, without a memory error, with the same
    events in an order that is a heap if only [pos] was out of place. *)
Definition down_post (pos : nat) (st : state) (l : list ENGINE_EVENT)
    (r : res (Z * state)) : Prop :=
  exists st' l' pos', r = Ok (pos', st') /\ holds st' l' /\ l' ≡ₚ l /\
    same_frame st st' /\ (down_weak l pos -> min_heap l').

Lemma down_post_done pos st l fuel :
  holds st l ->
  (down_weak l pos -> forall c, child pos c -> c < length l -> (key l pos <= key l c)%Z) ->
  down_post pos st l (bubbleDown_loop fuel true (Z.of_nat pos) st).
Proof.
  intros H Hc. rewrite bubbleDown_done. exists st, l, (Z.of_nat pos).
  split_and!; try done. intros Hw. by eapply down_finish; [|apply Hc].
Qed.

Lemma down_post_swap pos c st l (k : state -> res (Z * state)) :
  holds st l -> child pos c -> c < length l -> (key l c < key l pos)%Z ->
  (forall c', child pos c' -> c' < length l -> (key l c <= key l c')%Z) ->
  (forall st', holds st' (exchange l pos c) -> same_frame st st' ->
     down_post c st' (exchange l pos c) (k st')) ->
  down_post pos st l (st' ← swap (Z.of_nat pos) (Z.of_nat c) st; k st').
Proof.
  intros H Hc Hlt Hkey Hmin Hk.
  destruct (swap_holds st l pos c H) as (st1 & -> & H1 & F1); [unfold child in *; lia|done|].
  simpl. destruct (Hk st1 H1 F1) as (st2 & l2 & p2 & -> & H2 & P2 & F2 & W2).
  exists st2, l2, p2. split_and!; try done.
  - by rewrite P2, exchange_Permutation.
  - by eapply same_frame_trans.
  - intros Hw. by apply W2, down_step.
Qed.

Lemma bubbleDown_loop_spec fuel pos st l :
  holds st l -> top st = Z.of_nat (length l) -> length l - pos < fuel ->
  down_post pos st l (bubbleDown_loop fuel false (Z.of_nat pos) st).
Proof.
  revert pos st l. induction fuel as [|fuel IH]; intros pos st l H Ht Hf; [lia|].
  cbn [bubbleDown_loop]. rewrite Ht.
  replace ((Z.of_nat pos + 1) * 2 - 1)%Z with (Z.of_nat (2 * pos + 1)) by lia.
  replace ((Z.of_nat pos + 1) * 2)%Z with (Z.of_nat (2 * pos + 2)) by lia.
  assert (Hrec : forall c st', child pos c -> c < length l ->
            holds st' (exchange l pos c) -> same_frame st st' ->
            down_post c st' (exchange l pos c) (bubbleDown_loop fuel false (Z.of_nat c) st')).
  { intros c st' Hc Hlt H' (Ht' & _). apply IH; rewrite ?exchange_length; [done|congruence|].
    unfold child in Hc. lia. }
  destruct (Z.ltb_spec (Z.of_nat (2 * pos + 1)) (Z.of_nat (length l))) as [Hl|Hl];
    destruct (Z.ltb_spec (Z.of_nat (2 * pos + 2)) (Z.of_nat (length l))) as [Hr|Hr];
    try lia; cbn [andb].
  - rewrite !(prior_at_holds _ _ _ H) by lia. cbn [mbind res_bind].
    destruct ((_ <=? _) && (_ <? _))%Z eqn:E1; zbool.
    { apply down_post_swap; try (unfold child; lia); try done.
      - intros c' [-> | ->] _; lia.
      - intros. apply Hrec; try (unfold child; lia); done. }
    destruct ((key l (2 * pos + 2) <=? _) && (_ <? _))%Z eqn:E2; zbool.
    { apply down_post_swap; try (unfold child; lia); try done.
      - intros c' [-> | ->] _; lia.
      - intros. apply Hrec; try (unfold child; lia); done. }
    apply down_post_done; [done|]. intros _ c [-> | ->] _;
      apply andb_false_iff in E1 as [?|?]; apply andb_false_iff in E2 as [?|?]; zbool; lia.
  - rewrite !(prior_at_holds _ _ _ H) by lia. cbn [mbind res_bind].
    destruct (_ <? _)%Z eqn:E1; zbool.
    + apply down_post_swap; try (unfold child; lia); try done.
      * intros c' [-> | ->] ?; lia.
      * intros st' H' _. apply down_post_done; [done|].
        intros _ c Hc. rewrite exchange_length. unfold child in Hc. lia.
    + apply down_post_done; [done|]. intros _ c [-> | ->] ?; lia.
  - apply down_post_done; [done|]. intros _ c [-> | ->] ?; lia.
Qed.

(** ** The order of [bubbleUp]: the "parent" of [i] is [(i + 1) / 2]

    With indices from 0 this is the child of the true parent for every odd
    [i], so slot 0 is nobody's parent and slot 1 is its own. *)

Definition up_parent (i : nat) : nat := (i + 1) / 2.

Definition up_heap (l : list ENGINE_EVENT) : Prop :=
  forall i, 2 <= i < length l -> (key l (up_parent i) <= key l i)%Z.

Definition up_weak (l : list ENGINE_EVENT) (pos : nat) : Prop :=
  (forall i, 2 <= i < length l -> i <> pos -> (key l (up_parent i) <= key l i)%Z) /\
  (forall i, 2 <= i < length l -> up_parent i = pos -> 2 <= pos ->
     (key l (up_parent pos) <= key l i)%Z).

Lemma up_parent_bounds i : 2 <= i -> 1 <= up_parent i < i.
Proof.
  intros. unfold up_parent. pose proof (Nat.div_mod_eq (i + 1) 2).
  pose proof (Nat.mod_upper_bound (i + 1) 2). lia.
Qed.

Lemma up_step l pos :
  up_weak l pos -> 2 <= pos < length l -> (key l pos < key l (up_parent pos))%Z ->
  up_weak (exchange l (up_parent pos) pos) (up_parent pos).
Proof.
  intros [H1 H2] Hpos Hkey. pose proof (up_parent_bounds pos ltac:(lia)).
  split; intros i; rewrite exchange_length, !exchange_key by lia.
  - intros Hi Hne. pose proof (up_parent_bounds i ltac:(lia)).
    rewrite (decide_False (P := i = up_parent pos)) by done.
    destruct (decide (i = pos)) as [->|Hip].
    + rewrite decide_True by done. lia.
    + destruct (decide (up_parent i = up_parent pos)) as [E|E].
      * specialize (H1 i Hi Hip). rewrite E in H1. lia.
      * destruct (decide (up_parent i = pos)) as [E'|E']; [|by apply H1].
        specialize (H2 i Hi E' ltac:(lia)). lia.
  - intros Hi Hpar Hp2. pose proof (up_parent_bounds (up_parent pos) Hp2).
    pose proof (up_parent_bounds i ltac:(lia)).
    rewrite (decide_False (P := up_parent (up_parent pos) = up_parent pos)) by lia.
    rewrite (decide_False (P := up_parent (up_parent pos) = pos)) by lia.
    rewrite (decide_False (P := i = up_parent pos)) by lia.
    pose proof (H1 (up_parent pos) ltac:(lia) ltac:(lia)).
    destruct (decide (i = pos)) as [->|Hip]; [lia|].
    specialize (H1 i Hi Hip). rewrite Hpar in H1. lia.
Qed.

Lemma bubbleUp_done fuel pos st : bubbleUp_loop fuel true pos st = Ok (pos, st).
Proof. by destruct fuel. Qed.

(** [bubbleUp] ends without a memory error, with the same events, slot 0
    untouched, and in the order of [up_heap] if only [pos] was out of place. *)
Lemma bubbleUp_loop_spec fuel pos st l :
  holds st l -> pos < length l -> pos < fuel ->
  exists st' l' pos', bubbleUp_loop fuel false (Z.of_nat pos) st = Ok (pos', st') /\
    holds st' l' /\ l' ≡ₚ l /\ same_frame st st' /\ l' !! 0 = l !! 0 /\
    (up_weak l pos -> up_heap l').
Proof.
  revert pos st l. induction fuel as [|fuel IH]; intros pos st l H Hlt Hf; [lia|].
  cbn [bubbleUp_loop].
  replace ((Z.of_nat pos + 1) `quot` 2)%Z with (Z.of_nat (up_parent pos)).
  2:{ unfold up_parent. rewrite Z.quot_div_nonneg by lia. rewrite Nat2Z.inj_div. f_equal. lia. }
  destruct (Z.ltb_spec (Z.of_nat (up_parent pos)) 0) as [|_]; [lia|].
  cbn [mbind res_bind mret res_ret].
  destruct (decide (2 <= pos)) as [Hpos|Hpos].
  - pose proof (up_parent_bounds pos Hpos).
    destruct (Z.eqb_spec (Z.of_nat (up_parent pos)) 0) as [|_]; [lia|].
    rewrite !(prior_at_holds _ _ _ H) by lia. cbn [mbind res_bind].
    rewrite Z.gtb_ltb. destruct (Z.ltb_spec (key l pos) (key l (up_parent pos))) as [Hk|Hk].
    + destruct (swap_holds st l (up_parent pos) pos H) as (s1 & -> & H1 & F1); [lia|done|].
      cbn [mbind res_bind].
      destruct (IH (up_parent pos) s1 _ H1) as (s2 & l2 & p2 & -> & H2 & P2 & F2 & Z2 & W2);
        [rewrite exchange_length; lia|lia|].
      exists s2, l2, p2. split_and!; try done.
      * by rewrite P2, exchange_Permutation.
      * by eapply same_frame_trans.
      * rewrite Z2, exchange_lookup by lia. by rewrite !decide_False by lia.
      * intros Hw. by apply W2, up_step.
    + rewrite bubbleUp_done. exists st, l, (Z.of_nat pos). split_and!; try done.
      intros [Hw _] i Hi. destruct (decide (i = pos)) as [->|]; auto.
  - assert (E : up_parent pos = pos) by (destruct pos as [|[|]]; [done|done|lia]).
    rewrite E. rewrite !(prior_at_holds _ _ _ H) by lia. cbn [mbind res_bind].
    rewrite Z.gtb_ltb, Z.ltb_irrefl, bubbleUp_done.
    exists st, l, (Z.of_nat pos). split_and!; try done.
    intros [Hw _] i Hi. apply Hw; lia.
Qed.

(** ** The operations on the represented list *)

Lemma queued_Full st l :
  queued st l -> mixerQueueFull st = false -> Z.of_nat (length l) <> queueSize st.
Proof.
  intros (_ & Ht & _) Hf. unfold mixerQueueFull in Hf. zbool. congruence.
Qed.

(** Writing behind the live prefix. *)
Lemma heap_set_top st l e :
  holds st l -> top st = Z.of_nat (length l) -> top st <> queueSize st ->
  exists st', heap_set (top st) (Some e) st = Ok st' /\ holds st' (l ++ [e]) /\
              same_frame st st'.
Proof.
  intros (h & Hh & Hq & Hle & Ht) Htop Hne. unfold heap_set. rewrite Hh. simpl.
  rewrite wr_in_bounds by lia. simpl. eexists. split; [done|]. split; [|done].
  exists (<[Z.to_nat (top st) := Some e]> h). split; [done|]. simpl.
  rewrite length_insert, length_app. simpl. split_and!; [done|lia|].
  rewrite Htop, Nat2Z.id, Nat.add_1_r.
  erewrite take_S_r by (apply list_lookup_insert_eq; lia).
  rewrite take_insert_ge by lia. rewrite Ht, fmap_app. done.
Qed.

Lemma mixerEnqueue_spec st l e :
  queued st l -> mixerQueueFull st = false ->
  exists st' l', mixerEnqueue e st = Ok (tt, st') /\ queued st' l' /\ l' ≡ₚ l ++ [e] /\
    queueSize st' = queueSize st /\
    (l <> [] -> l' !! 0 = l !! 0) /\ (up_heap l -> up_heap l').
Proof.
  intros (H & Ht & Hlk) Hfull. unfold mixerQueueFull in Hfull. zbool.
  unfold mixerEnqueue. rewrite Hlk. cbn [threadLock mbind res_bind].
  destruct (heap_set_top (with_qlock st true) l e) as (s1 & -> & H1 & F1); [done..|].
  cbn [mbind res_bind]. unfold bubbleUp. change (top (with_qlock st true)) with (top st).
  rewrite Ht.
  destruct (bubbleUp_loop_spec (S (S (Z.to_nat (Z.of_nat (length l))))) (length l) s1 (l ++ [e]) H1)
    as (s2 & l2 & p2 & -> & H2 & P2 & F2 & Z2 & W2);
    [rewrite length_app; simpl; lia|lia|].
  cbn [mbind res_bind threadUnlock].
  destruct F1 as (T1 & Q1 & _), F2 as (T2 & Q2 & _). simpl in *.
  eexists _, l2. split; [done|]. split_and!.
  - split; [done|]. split; [|done]. simpl. rewrite T2, T1, Ht, P2, length_app. simpl. lia.
  - done.
  - simpl. congruence.
  - intros Hne. rewrite Z2. by destruct l.
  - intros Hup. apply W2. split.
    + intros i Hi Hne. rewrite length_app in Hi. simpl in Hi.
      pose proof (up_parent_bounds i ltac:(lia)).
      unfold key. rewrite !lookup_app_l by lia. apply Hup. lia.
    + intros i Hi Hp Hge. rewrite length_app in Hi. simpl in Hi.
      pose proof (up_parent_bounds i ltac:(lia)). lia.
Qed.

(** The live prefix after the first entry is replaced by the last one. *)
Definition refill (r : list ENGINE_EVENT) : list ENGINE_EVENT :=
  match last r with
  | Some z => z :: take (length r - 1) r
  | None => []
  end.

Lemma refill_snoc r z : refill (r ++ [z]) = z :: r.
Proof.
  unfold refill. rewrite last_snoc, length_app. simpl. f_equal.
  rewrite Nat.add_sub. by apply take_app_length.
Qed.

Lemma refill_Permutation r : refill r ≡ₚ r.
Proof.
  destruct r as [|z r _] using rev_ind; [done|]. rewrite refill_snoc.
  by rewrite (Permutation_app_comm r [z]).
Qed.

(** Removing the root of a heap leaves a heap but for the new root. *)
Lemma refill_down_weak e r : min_heap (e :: r) -> down_weak (refill r) 0.
Proof.
  intros Hh. destruct r as [|z r _] using rev_ind.
  { split; simpl; intros; lia. }
  rewrite refill_snoc. split.
  - intros i j Hc Hj Hi. simpl in Hj.
    specialize (Hh i j Hc ltac:(rewrite length_cons, length_app; simpl; lia)).
    unfold child in Hc.
    destruct i as [|i]; [lia|]. destruct j as [|j]; [lia|].
    unfold key in *. simpl in *. by rewrite !lookup_app_l in Hh by lia.
  - unfold child. intros. lia.
Qed.

Lemma mixerDequeue_spec st e r :
  queued st (e :: r) ->
  exists st' l', mixerDequeue st = Ok (Some e, st') /\ queued st' l' /\ l' ≡ₚ r /\
    queueSize st' = queueSize st /\ (min_heap (e :: r) -> min_heap l').
Proof.
  intros (H & Ht & Hlk). unfold mixerDequeue. rewrite Hlk. cbn [threadLock mbind res_bind].
  assert (H0 : holds (with_qlock st true) (e :: r)) by done.
  rewrite (heap_get_holds _ _ 0 e H0 eq_refl : heap_get 0 _ = _). cbn [mbind res_bind].
  change (top (with_qlock st true)) with (top st). rewrite Ht.
  replace (Z.of_nat (length (e :: r)) - 1)%Z with (Z.of_nat (length r)) by (simpl; lia).
  set (s0 := with_top _ _). assert (Hs0 : holds s0 (e :: r)) by done.
  change (top s0) with (Z.of_nat (length r)).
  destruct (lookup_lt_is_Some_2 (e :: r) (length r)) as [z Hz]; [simpl; lia|].
  rewrite (heap_get_holds _ _ _ _ Hs0 Hz). cbn [mbind res_bind].
  destruct (heap_set_holds s0 (e :: r) 0 z Hs0) as (s1 & E1 & H1 & F1); [simpl; lia|].
  change (Z.of_nat 0) with 0%Z in E1. rewrite E1. cbn [mbind res_bind].
  assert (H1' : holds s1 (refill r)).
  { destruct H1 as (h & Hh & Hq & Hle & Htk). exists h. simpl in Hle, Htk.
    pose proof (Permutation_length (refill_Permutation r)) as Hrl. rewrite Hrl.
    split_and!; [done|done|lia|].
    assert (take (length r) h = take (length r) (take (S (length r)) h)) as ->
      by (rewrite take_take; f_equal; lia).
    rewrite Htk. destruct r as [|z' r _] using rev_ind; [done|].
    rewrite refill_snoc. rewrite length_app. simpl. rewrite Nat.add_1_r. simpl.
    rewrite length_app in Hz. simpl in Hz. rewrite Nat.add_1_r in Hz. simpl in Hz.
    rewrite list_lookup_middle in Hz by done. injection Hz as ->. f_equal.
    rewrite fmap_app. by rewrite take_app_length' by (by rewrite length_fmap). }
  assert (T1 : top s1 = Z.of_nat (length (refill r))).
  { destruct F1 as (-> & _ & _). by rewrite (Permutation_length (refill_Permutation r)). }
  destruct (bubbleDown_loop_spec (S (S (Z.to_nat (top s1)))) 0 s1 (refill r) H1' T1)
    as (s2 & l2 & p2 & E2 & H2 & P2 & F2 & W2); [lia|].
  unfold bubbleDown. change (Z.of_nat 0) with 0%Z in E2. rewrite E2.
  cbn [mbind res_bind threadUnlock mret res_ret].
  destruct F1 as (_ & Q1 & _), F2 as (T2 & Q2 & _). simpl in Q1.
  eexists _, l2. split; [done|]. split_and!.
  - split; [done|]. split; [|done]. simpl. by rewrite T2, T1, P2.
  - by rewrite P2, refill_Permutation.
  - simpl. congruence.
  - intros Hh. apply W2. by eapply refill_down_weak.
Qed.

(** ** Histories

    What the queue's two callers do: [engineIO] enqueues unless the queue is
    full (and then discards the event), the mixer dequeues unless it is empty. *)

Inductive op : Type := Put (e : ENGINE_EVENT) | Take.

Fixpoint run (ops : list op) : M state (list (option ENGINE_EVENT)) := fun st =>
  match ops with
  | [] => mret ([], st)
  | Put e :: ops =>
      if mixerQueueFull st then run ops st
      else '(_, st) ← mixerEnqueue e st; run ops st
  | Take :: ops =>
      if mixerQueueEmpty st then run ops st
      else '(r, st) ← mixerDequeue st; '(rs, st) ← run ops st; mret (r :: rs, st)
  end.

(** The events a queue of [size] entries accepts when [n] are in it. *)
Fixpoint accepted (size n : nat) (ops : list op) : list ENGINE_EVENT :=
  match ops with
  | [] => []
  | Put e :: ops =>
      if decide (n = size) then accepted size n ops else e :: accepted size (S n) ops
  | Take :: ops => accepted size (pred n) ops
  end.

Lemma mixerQueueInit_queued s : (0 <= s)%Z -> queued (mixerQueueInit s) [].
Proof.
  intros Hs. split; [|done]. exists (replicate (Z.to_nat s) None).
  split; [done|]. simpl. rewrite length_replicate. split_and!; [lia|lia|done].
Qed.

Lemma queued_Empty st l : queued st l -> mixerQueueEmpty st = bool_decide (l = []).
Proof.
  intros (_ & Ht & _). unfold mixerQueueEmpty. rewrite Ht. by destruct l.
Qed.

Lemma run_bag size ops : forall st l,
  queued st l -> queueSize st = Z.of_nat size -> length l <= size ->
  exists out st' rest, run ops st = Ok (Some <$> out, st') /\ queued st' rest /\
    out ++ rest ≡ₚ l ++ accepted size (length l) ops.
Proof.
  induction ops as [|[e|] ops IH]; intros st l Hq Hsz Hle; simpl.
  - exists [], st, l. by rewrite app_nil_r.
  - destruct (mixerQueueFull st) eqn:Hf.
    + unfold mixerQueueFull in Hf. zbool. pose proof (proj1 (proj2 Hq)).
      rewrite decide_True by lia. by apply IH.
    + pose proof (queued_Full _ _ Hq Hf). rewrite decide_False by lia.
      destruct (mixerEnqueue_spec _ _ e Hq Hf) as (st1 & l1 & -> & Hq1 & P1 & Hs1 & _).
      pose proof (Permutation_length P1) as HL. rewrite length_app in HL. simpl in HL.
      simpl. destruct (IH st1 l1 Hq1) as (out & st2 & rest & -> & Hq2 & P2); [lia|lia|].
      exists out, st2, rest. split_and!; [done|done|].
      rewrite HL, Nat.add_1_r in P2. by rewrite P2, P1, <- app_assoc.
  - rewrite (queued_Empty _ _ Hq). destruct l as [|e r]; simpl.
    + by apply (IH st []).
    + destruct (mixerDequeue_spec _ _ _ Hq) as (st1 & l1 & -> & Hq1 & P1 & Hs1 & _).
      pose proof (Permutation_length P1) as HL. simpl in Hle.
      destruct (IH st1 l1 Hq1) as (out & st2 & rest & E & Hq2 & P2); [lia|lia|].
      simpl. rewrite E. exists (e :: out), st2, rest. split_and!; [done|done|].
      simpl. rewrite HL in P2. by rewrite P2, P1.
Qed.

(** The root of a heap is a smallest entry. *)
Lemma min_heap_root l : min_heap l -> forall i, i < length l -> (key l 0 <= key l i)%Z.
Proof.
  intros Hh i. induction (lt_wf i) as [i _ IH]. intros Hi.
  destruct i as [|i]; [done|].
  assert (Hc : child (i / 2) (S i)).
  { unfold child. pose proof (Nat.div_mod_eq i 2).
    pose proof (Nat.mod_upper_bound i 2). lia. }
  etrans; [apply (IH (i / 2))|by apply Hh].
  - unfold child in Hc. lia.
  - unfold child in Hc. lia.
Qed.

Lemma min_heap_head e r x : min_heap (e :: r) -> x ∈ e :: r -> (prio e <= prio x)%Z.
Proof.
  intros Hh Hx. apply list_elem_of_lookup in Hx as [i Hi].
  pose proof (min_heap_root _ Hh i (lookup_lt_Some _ _ _ Hi)) as H.
  by rewrite (key_lookup _ _ _ Hi), (key_lookup (e :: r) 0 e eq_refl) in H.
Qed.

(** A run of enqueues that fits never moves the first event. *)
Lemma run_puts es : forall st l,
  queued st l -> (Z.of_nat (length l + length es) <= queueSize st)%Z -> up_heap l ->
  exists st' l', run (Put <$> es) st = Ok ([], st') /\ queued st' l' /\ l' ≡ₚ l ++ es /\
    head l' = head (l ++ es) /\ up_heap l'.
Proof.
  induction es as [|e es IH]; intros st l Hq Hsz Hup.
  - exists st, l. by rewrite !app_nil_r.
  - rewrite fmap_cons. cbn [run]. simpl in Hsz. pose proof (proj1 (proj2 Hq)) as Ht.
    assert (Hf : mixerQueueFull st = false) by (apply Z.eqb_neq; lia). rewrite Hf.
    destruct (mixerEnqueue_spec _ _ e Hq Hf) as (st1 & l1 & -> & Hq1 & P1 & Hs1 & Hz & Hu).
    pose proof (Permutation_length P1) as HL. rewrite length_app in HL. simpl in HL.
    cbn [mbind res_bind].
    destruct (IH st1 l1 Hq1) as (st2 & l2 & -> & Hq2 & P2 & Hh & Hu2); [lia|auto|].
    exists st2, l2. split_and!; try done.
    + by rewrite P2, P1, <- app_assoc.
    + rewrite Hh. destruct l as [|x l].
      * simpl in P1. apply Permutation_singleton_r in P1 as ->. done.
      * destruct l1 as [|y l1]; [simpl in HL; lia|].
        specialize (Hz ltac:(done)). simpl in *. by injection Hz as ->.
Qed.

(** ** Properties *)

(** C12: whatever the callers do with a queue of [size] entries, every call
    ends without touching memory outside the array and without blocking on
    the queue's mutex, and no event is lost or duplicated: what has been taken
    out and what is left are together exactly the events that were accepted
    (those that arrived while the queue was not full). *)
Theorem mixer_queue_keeps_events (size : nat) (ops : list op) :
  exists out st' rest,
    run ops (mixerQueueInit (Z.of_nat size)) = Ok (Some <$> out, st') /\
    queued st' rest /\ out ++ rest ≡ₚ accepted size 0 ops.
Proof.
  apply (run_bag size ops _ []); [apply mixerQueueInit_queued; lia|done|simpl; lia].
Qed.

(** C24: [mixerDequeue] is right for a queue in heap order: it returns an event
    of the smallest priority value, removes exactly that event, and leaves the
    rest in heap order. *)
Theorem mixerDequeue_heap (st : state) (e : ENGINE_EVENT) (r : list ENGINE_EVENT) :
  queued st (e :: r) -> min_heap (e :: r) ->
  exists st' l', mixerDequeue st = Ok (Some e, st') /\ queued st' l' /\ l' ≡ₚ r /\
    min_heap l' /\ (forall x, x ∈ l' -> (prio e <= prio x)%Z).
Proof.
  intros Hq Hh. destruct (mixerDequeue_spec _ _ _ Hq) as (st' & l' & E & Hq' & P & _ & Hm).
  exists st', l'. split_and!; auto.
  intros x Hx. apply (min_heap_head e r x Hh). rewrite P in Hx. by right.
Qed.

(** [mixerEnqueue] does not give a priority queue: as long as events are
    only enqueued, the next dequeue returns the event that was enqueued first,
    whatever the priorities are. *)
Theorem mixerDequeue_first_in (size : nat) (e : ENGINE_EVENT) (es : list ENGINE_EVENT) :
  length (e :: es) <= size ->
  exists st1 st2,
    run (Put <$> e :: es) (mixerQueueInit (Z.of_nat size)) = Ok ([], st1) /\
    mixerDequeue st1 = Ok (Some e, st2).
Proof.
  intros Hlen. destruct (run_puts (e :: es) _ [] (mixerQueueInit_queued (Z.of_nat size) ltac:(lia)))
    as (st1 & l & E & Hq & _ & Hh & _); [simpl in *; lia|by intros i; simpl; lia|].
  destruct l as [|x l]; [done|]. simpl in Hh. injection Hh as ->.
  destruct (mixerDequeue_spec _ _ _ Hq) as (st2 & l' & E2 & _). eauto.
Qed.

Definition sample (p : Z) : ENGINE_EVENT :=
  {| event := {| type := 0; loc := 128; prior := p; vol := 255; dither := 255; flags := 0;
                 sound_len := 5; sound := Some "click"%string |};
     mix_time := {| tv_sec := 1; tv_usec := 0 |} |}.

Lemma mixerDequeue_heap_witness :
  let st := {| heap := PLive [Some (sample 3); Some (sample 4); Some (sample 9); None];
               top := 3; queueSize := 4; qlock := false |} in
  exists st' l', mixerDequeue st = Ok (Some (sample 3), st') /\ queued st' l' /\
    l' ≡ₚ [sample 4; sample 9] /\ min_heap l' /\
    (forall x, x ∈ l' -> (prio (sample 3) <= prio x)%Z).
Proof.
  intros st. apply (mixerDequeue_heap st (sample 3) [sample 4; sample 9]).
  - split; [|done]. eexists. split; [reflexivity|]. split_and!; [done|simpl; lia|done].
  - intros i j [-> | ->] Hj; simpl in Hj; destruct i as [|[|]]; vm_compute; try lia; done.
Defined.

(** Priorities 9 and 1: the event of priority 9 comes out. *)
Lemma mixerDequeue_first_in_witness :
  length [sample 9; sample 1] <= 64 /\
  exists st1 st2,
    run (Put <$> [sample 9; sample 1]) (mixerQueueInit (Z.of_nat 64)) = Ok ([], st1) /\
    mixerDequeue st1 = Ok (Some (sample 9), st2).
Proof. split; [simpl; lia|]. apply mixerDequeue_first_in. simpl. lia. Defined.

End MixerQueue.
