(* ===== verification/CString.v ===== *)
(** * C strings and the library functions on them

    A C string is the sequence of its bytes before the terminating null. The
    functions are those of the C library that the server calls, in the C
    locale, with a signed [char]. *)

From Stdlib Require Import ZArith Lia Ascii String.
From stdpp Require Import base list strings.
From S2P Require Import Prelude.

(** The value of a [char]. *)
Definition char_val (c : ascii) : Z := i8 (Z.of_nat (nat_of_ascii c)).

Definition in_range (lo hi n : nat) : bool := (lo <=? n) && (n <=? hi).

Definition isspace (c : ascii) : bool :=
  let n := nat_of_ascii c in in_range 9 13 n || (n =? 32).

Definition isdigit (c : ascii) : bool := in_range 48 57 (nat_of_ascii c).

Definition isalnum (c : ascii) : bool :=
  let n := nat_of_ascii c in in_range 48 57 n || in_range 65 90 n || in_range 97 122 n.

Definition tolower (c : ascii) : ascii :=
  let n := nat_of_ascii c in if in_range 65 90 n then ascii_of_nat (n + 32) else c.

(** [!strcasecmp (s, t)] *)
Fixpoint ci_eq (s t : string) : bool :=
  match s, t with
  | EmptyString, EmptyString => true
  | String a s, String b t => bool_decide (tolower a = tolower b) && ci_eq s t
  | _, _ => false
  end.

Definition ci_equiv (s t : string) : Prop := ci_eq s t = true.

(** [strstr (s, t) != NULL] *)
Fixpoint strstr (s t : string) : bool :=
  String.prefix t s || match s with EmptyString => false | String _ s => strstr s t end.

(** [atoi]: optional white space and sign, then digits; overflow wraps. *)
Fixpoint digits (acc : Z) (s : string) : Z :=
  match s with
  | String c s' => if isdigit c then digits (acc * 10 + (Z.of_nat (nat_of_ascii c) - 48)) s' else acc
  | EmptyString => acc
  end.

Fixpoint skip_space (s : string) : string :=
  match s with
  | String c s' => if isspace c then skip_space s' else s
  | EmptyString => s
  end.

Definition atoi (s : string) : Z :=
  match skip_space s with
  | String "-" s' => i32 (- digits 0 s')
  | String "+" s' => i32 (digits 0 s')
  | s' => i32 (digits 0 s')
  end.

Definition strlen (s : string) : Z := Z.of_nat (String.length s).

(** ** Facts *)

Lemma ci_eq_refl s : ci_eq s s = true.
Proof. induction s as [|c s IH]; simpl; [done|]. by rewrite bool_decide_true, IH. Qed.

Lemma ci_eq_sym s t : ci_eq s t = ci_eq t s.
Proof.
  revert t. induction s as [|a s IH]; intros [|b t]; simpl; try done.
  rewrite IH. f_equal. apply bool_decide_ext. split; congruence.
Qed.

Lemma ci_eq_trans s t u : ci_eq s t = true -> ci_eq t u = true -> ci_eq s u = true.
Proof.
  revert t u. induction s as [|a s IH]; intros [|b t] [|c u]; simpl; try done.
  intros [H1%bool_decide_eq_true H2]%andb_true_iff.
  intros [H3%bool_decide_eq_true H4]%andb_true_iff.
  rewrite bool_decide_true by congruence. simpl. by eapply IH.
Qed.

#[export] Instance ci_equiv_Equivalence : Equivalence ci_equiv.
Proof.
  split; unfold ci_equiv.
  - intros s. apply ci_eq_refl.
  - intros s t. by rewrite ci_eq_sym.
  - intros s t u. apply ci_eq_trans.
Qed.

#[export] Instance ci_eq_Proper : Proper (ci_equiv ==> ci_equiv ==> eq) ci_eq.
Proof.
  intros s s' Hs t t' Ht. destruct (ci_eq s t) eqn:E, (ci_eq s' t') eqn:E'; try done.
  - rewrite <- E'. symmetry. change (ci_equiv s' t'). rewrite <- Hs, <- Ht. exact E.
  - rewrite <- E. change (ci_equiv s t). rewrite Hs, Ht. exact E'.
Qed.

#[export] Instance ci_equiv_dec s t : Decision (ci_equiv s t).
Proof. unfold ci_equiv. apply _. Defined.

(** Case does not change the length. *)
Lemma ci_eq_length s t : ci_eq s t = true -> String.length s = String.length t.
Proof.
  revert t. induction s as [|a s IH]; intros [|b t]; simpl; try done.
  intros [_ H]%andb_true_iff. by rewrite (IH t).
Qed.

Lemma prefix_nil s : String.prefix "" s = true.
Proof. by destruct s. Qed.

Lemma prefix_cons c d t s :
  String.prefix (String c t) (String d s) = if decide (c = d) then String.prefix t s else false.
Proof. unfold String.prefix at 1. fold String.prefix. destruct (ascii_dec c d), (decide (c = d)); done. Qed.

Lemma prefix_app t u : String.prefix t (t +:+ u) = true.
Proof.
  induction t as [|c t IH]; [apply prefix_nil|].
  change (String c t +:+ u) with (String c (t +:+ u)).
  by rewrite prefix_cons, decide_True.
Qed.

Lemma strstr_eq s t :
  strstr s t = String.prefix t s || match s with EmptyString => false | String _ s => strstr s t end.
Proof. by destruct s. Qed.

Lemma strstr_app a t b : strstr (a +:+ t +:+ b) t = true.
Proof.
  induction a as [|c a IH].
  - change ("" +:+ t +:+ b) with (t +:+ b). rewrite strstr_eq, prefix_app. done.
  - rewrite strstr_eq. simpl. rewrite IH. apply orb_true_r.
Qed.

Lemma prefix_spec t s : String.prefix t s = true <-> exists u, s = t +:+ u.
Proof.
  revert s. induction t as [|c t IH]; intros s.
  - rewrite prefix_nil. split; [by exists s|done].
  - destruct s as [|c' s]; [split; [done|by intros []]|].
    rewrite prefix_cons. case_decide as Hc.
    + subst. rewrite IH. split; intros [u Hu]; exists u; [by rewrite Hu|by injection Hu].
    + split; [done|]. intros [u Hu]. by injection Hu.
Qed.

Lemma strstr_spec s t : strstr s t = true <-> exists a b, s = a +:+ t +:+ b.
Proof.
  split; [|intros (a & b & ->); apply strstr_app].
  induction s as [|c s IH]; rewrite strstr_eq; intros [H|H]%orb_true_iff;
    try (apply prefix_spec in H as [u Hu]; by exists "", u).
  - done.
  - destruct (IH H) as (a & b & ->). by exists (String c a), b.
Qed.

(** ** Concatenation *)

Lemma string_app_cons a s t : String a s +:+ t = String a (s +:+ t).
Proof. done. Qed.

Lemma string_app_assoc (a b c : string) : (a +:+ b) +:+ c = a +:+ b +:+ c.
Proof. induction a as [|x a IH]; [done|]. by rewrite !string_app_cons, IH. Qed.

Lemma string_length_app (a b : string) : String.length (a +:+ b) = (String.length a + String.length b)%nat.
Proof. induction a as [|c a IH]; [done|]. rewrite string_app_cons. simpl. by rewrite IH. Qed.
