(* ===== verification/Dbl.v ===== *)
(** * Double-precision arithmetic

    The [double] of the program is the IEEE 754 binary64 format with rounding
    to nearest, ties to even, as the Standard Library specifies it
    ([SpecFloat], precision 53, largest exponent 1024). The facts below say
    when the operations are exact, which is what the random choices of the
    engine and the mixer rest on. *)

From Stdlib Require Import ZArith Lia SpecFloat.
From stdpp Require Import base list.
From S2P Require Import Prelude.
Local Open Scope Z_scope.

Definition dbl : Type := spec_float.

#[export] Instance dbl_eq_dec : EqDecision dbl.
Proof. solve_decision. Defined.

Definition d_add : dbl -> dbl -> dbl := SFadd 53 1024.
Definition d_sub : dbl -> dbl -> dbl := SFsub 53 1024.
Definition d_mul : dbl -> dbl -> dbl := SFmul 53 1024.
Definition d_div : dbl -> dbl -> dbl := SFdiv 53 1024.

(** Comparisons; false when an operand is not a number. *)
Definition d_eqb : dbl -> dbl -> bool := SFeqb.
Definition d_ltb : dbl -> dbl -> bool := SFltb.
Definition d_leb : dbl -> dbl -> bool := SFleb.

(** The conversion of an integer. *)
Definition d_of_Z (z : Z) : dbl := binary_normalize 53 1024 z 0 false.

(** A decimal literal [num / den]: the double nearest to the quotient. *)
Definition d_lit (num den : Z) : dbl := d_div (d_of_Z num) (d_of_Z den).

Definition d_zero : dbl := S754_zero false.

(** The value rounded towards zero. *)
Definition d_trunc (x : dbl) : option Z :=
  match x with
  | S754_zero _ => Some 0
  | S754_finite s m e =>
      let a := if 0 <=? e then Zpos m * 2 ^ e else Zpos m / 2 ^ (- e) in
      Some (if s then - a else a)
  | _ => None
  end.

(** A conversion to an integer type with values from [lo] to [hi]; outside
    them the behaviour is undefined. *)
Definition d_conv (lo hi : Z) (x : dbl) : res Z :=
  match d_trunc x with
  | Some z => if decide (lo <= z <= hi) then Ok z else Fault BadConversion
  | None => Fault BadConversion
  end.

Definition d_int : dbl -> res Z := d_conv (- 2 ^ 31) (2 ^ 31 - 1).
Definition d_uint : dbl -> res Z := d_conv 0 (2 ^ 32 - 1).
Definition d_short : dbl -> res Z := d_conv (- 2 ^ 15) (2 ^ 15 - 1).

(** [TP_IN_FP_SECS] of [engine.h]. *)
Definition TP_IN_FP_SECS (x : timeval) : dbl :=
  d_add (d_of_Z (tv_sec x)) (d_mul (d_of_Z (tv_usec x)) (d_lit 1 1000000)).

(** The largest value of [rand] in the GNU C library. *)
Definition RAND_MAX : Z := 2147483647.

(** [(double) cnt * rand () / (RAND_MAX + 1.0)], the random index that the
    engine and the mixer then convert to an integer. *)
Definition rand_pick (cnt r : Z) : dbl :=
  d_div (d_mul (d_of_Z cnt) (d_of_Z r)) (d_add (d_of_Z RAND_MAX) (d_of_Z 1)).

(** ** Exact operations *)

Lemma digits2_pos_log2 p : Zpos (digits2_pos p) = Z.log2 (Zpos p) + 1.
Proof.
  induction p as [p IH|p IH|]; cbn [digits2_pos]; [| |done].
  - rewrite Pos2Z.inj_succ, IH, (Pos2Z.inj_xI p), Z.log2_succ_double by lia. lia.
  - rewrite Pos2Z.inj_succ, IH, (Pos2Z.inj_xO p), Z.log2_double by lia. lia.
Qed.

Lemma iter_pos_nat {A} (f : A -> A) n x : SpecFloat.iter_pos f n x = Nat.iter (Pos.to_nat n) f x.
Proof.
  revert x. induction n as [n IH|n IH|]; intros x; cbn [SpecFloat.iter_pos].
  - rewrite !IH, <- Nat.iter_add.
    replace (Pos.to_nat n~1) with (S (Pos.to_nat n + Pos.to_nat n)) by lia.
    by rewrite Nat.iter_succ_r.
  - rewrite !IH, <- Nat.iter_add. f_equal. lia.
  - done.
Qed.

(** Shifting out zero bits loses nothing. *)
Lemma shr_1_zeros n m :
  0 <= m -> Nat.iter n shr_1 (Build_shr_record (m * 2 ^ Z.of_nat n) false false)
            = Build_shr_record m false false.
Proof.
  revert m. induction n as [|n IH]; intros m Hm.
  - simpl. f_equal. lia.
  - rewrite Nat.iter_succ_r.
    replace (m * 2 ^ Z.of_nat (S n)) with (2 * (m * 2 ^ Z.of_nat n))
      by (rewrite Nat2Z.inj_succ, Z.pow_succ_r by lia; lia).
    rewrite <- (IH m Hm). f_equal.
    assert (0 <= m * 2 ^ Z.of_nat n) by lia.
    by destruct (m * 2 ^ Z.of_nat n) as [|p|p].
Qed.

Lemma shr_zeros n m e :
  0 <= m -> 0 <= n ->
  shr (Build_shr_record (m * 2 ^ n) false false) e n = (Build_shr_record m false false, e + n).
Proof.
  intros Hm Hn. destruct n as [|p|p]; [| |lia]; simpl.
  - rewrite !Z.add_0_r. do 2 f_equal. lia.
  - rewrite iter_pos_nat. f_equal.
    rewrite <- (positive_nat_Z p). by apply shr_1_zeros.
Qed.

(** A mantissa of at least 53 bits whose bits beyond the first 53 are zero is
    rounded to itself. *)
Lemma round_exact p E j :
  2 ^ 52 <= Zpos p < 2 ^ 53 -> 0 <= j -> -1074 <= E -> E + j <= 971 ->
  binary_round_aux 53 1024 false (Zpos p * 2 ^ j) E loc_Exact = S754_finite false p (E + j).
Proof.
  intros Hp Hj HE Hu.
  assert (Hlog : Z.log2 (Zpos p) = 52) by (apply Z.log2_unique; lia).
  assert (Hd : forall k, 0 <= k -> Zdigits2 (Zpos p * 2 ^ k) = 53 + k).
  { intros k Hk. assert (0 < Zpos p * 2 ^ k) by lia.
    destruct (Zpos p * 2 ^ k) as [|q|q] eqn:Eq; [lia| |lia]. simpl.
    rewrite digits2_pos_log2, <- Eq, Z.log2_mul_pow2, Hlog by lia. lia. }
  unfold binary_round_aux, shr_fexp. rewrite Hd by done. cbn [shr_record_of_loc].
  assert (Hf : forall k, 0 <= k -> E + k >= -1074 ->
             fexp 53 1024 (53 + k + E) - E = k) by (unfold fexp, emin; intros; lia).
  rewrite Hf, shr_zeros by lia. cbn [shr_m loc_of_shr_record round_nearest_even].
  assert (Hd0 : Zdigits2 (Zpos p) = 53).
  { pose proof (Hd 0 ltac:(lia)) as H0. by rewrite Z.mul_1_r in H0. }
  rewrite Hd0.
  replace (fexp 53 1024 (53 + (E + j)) - (E + j)) with 0 by (unfold fexp, emin; lia).
  cbn [shr shr_m].
  destruct (Z.leb_spec (E + j) (1024 - 53)); [done|lia].
Qed.

(** [dval x n k]: [x] is the double [n / 2^k], with a full mantissa. *)
Definition dval (x : dbl) (n k : Z) : Prop :=
  exists p e, x = S754_finite false p e /\ 2 ^ 52 <= Zpos p < 2 ^ 53 /\
    -500 <= e <= 400 /\ Zpos p * 2 ^ (e + 1074) = n * 2 ^ (1074 - k).

Lemma Pos_iter_xO p d : Zpos (Pos.iter xO p d) = Zpos p * 2 ^ Zpos d.
Proof.
  induction d as [|d IH] using Pos.peano_ind; [simpl; lia|].
  rewrite Pos.iter_succ, Pos2Z.inj_xO, IH, Pos2Z.inj_succ, Z.pow_succ_r by lia. lia.
Qed.

Lemma dval_of_Z n : 0 < n < 2 ^ 53 -> dval (d_of_Z n) n 0.
Proof.
  intros Hn. destruct n as [|q|q]; [lia| |lia].
  unfold d_of_Z, binary_normalize, binary_round, shl_align.
  assert (HL := Z.log2_spec (Zpos q) ltac:(lia)).
  set (L := Z.log2 (Zpos q)) in *.
  assert (HL0 : 0 <= L) by apply Z.log2_nonneg.
  assert (HL52 : L <= 52) by (apply Z.lt_succ_r, Z.log2_lt_pow2; lia).
  rewrite digits2_pos_log2. fold L. rewrite Z.add_0_r.
  assert (Hf : fexp 53 1024 (L + 1) = L - 52) by (unfold fexp, emin; lia). rewrite Hf, Z.sub_0_r.
  assert (Hpow : 2 ^ 52 = 2 ^ L * 2 ^ (52 - L)) by (rewrite <- Z.pow_add_r by lia; f_equal; lia).
  assert (Hpow' : 2 ^ 53 = 2 ^ Z.succ L * 2 ^ (52 - L)) by (rewrite <- Z.pow_add_r by lia; f_equal; lia).
  assert (Hcase : exists p, Zpos p = Zpos q * 2 ^ (52 - L) /\
    (match L - 52 with Zneg d => (Pos.iter xO q d, L - 52) | _ => (q, 0) end) = (p, L - 52)).
  { destruct (L - 52) as [|d|d] eqn:E; [| lia |].
    - exists q. split; [|done]. replace (52 - L) with 0 by lia. lia.
    - exists (Pos.iter xO q d). split; [|done]. rewrite Pos_iter_xO. do 2 f_equal. lia. }
  destruct Hcase as (p & Hp & ->).
  assert (Hb : 2 ^ 52 <= Zpos p < 2 ^ 53) by (rewrite Hp; nia).
  rewrite <- (Z.mul_1_r (Zpos p)). change 1 with (2 ^ 0).
  rewrite round_exact by lia. exists p, (L - 52 + 0). split_and!; [done|lia|lia|lia|lia|].
  rewrite Hp, <- Z.mul_assoc, <- Z.pow_add_r by lia. do 2 f_equal. lia.
Qed.

(** The full mantissa of a double that represents an integer below 2^53. *)
Lemma dval_int_form x n :
  dval x n 0 -> 0 < n < 2 ^ 53 ->
  exists p L, x = S754_finite false p (L - 52) /\ 0 <= L <= 52 /\
    2 ^ 52 <= Zpos p < 2 ^ 53 /\ Zpos p = n * 2 ^ (52 - L).
Proof.
  intros (p & e & -> & Hp & He & Hv) Hn. exists p, (e + 52).
  rewrite Z.sub_0_r in Hv.
  assert (Hlog : Z.log2 (Zpos p) = 52) by (apply Z.log2_unique; lia).
  apply (f_equal Z.log2) in Hv as Hlv.
  rewrite !Z.log2_mul_pow2, Hlog in Hlv by lia.
  assert (Z.log2 n <= 52) by (apply Z.lt_succ_r, Z.log2_lt_pow2; lia).
  pose proof (Z.log2_nonneg n).
  replace (e + 52 - 52) with e by lia. split_and!; [done|lia|lia|lia|lia|].
  replace (52 - (e + 52)) with (- e) by lia.
  apply (Z.mul_reg_r _ _ (2 ^ (e + 1074))); [lia|].
  rewrite Hv, <- Z.mul_assoc, <- Z.pow_add_r by lia. do 2 f_equal. lia.
Qed.

Lemma mantissa_log2 p a L :
  2 ^ 52 <= Zpos p < 2 ^ 53 -> Zpos p = a * 2 ^ (52 - L) -> 0 < a -> 0 <= L <= 52 ->
  L = Z.log2 a.
Proof.
  intros Hp Ep Ha HL. assert (Z.log2 (Zpos p) = 52) by (apply Z.log2_unique; lia).
  apply (f_equal Z.log2) in Ep. rewrite Z.log2_mul_pow2 in Ep by lia. lia.
Qed.

Lemma dval_mul x y a b :
  dval x a 0 -> dval y b 0 -> 0 < a -> 0 < b -> a * b < 2 ^ 53 ->
  dval (d_mul x y) (a * b) 0.
Proof.
  intros Hx Hy Ha Hb Hab.
  destruct (dval_int_form x a Hx) as (p & L & -> & HL & Hp & Ep); [nia|].
  destruct (dval_int_form y b Hy) as (q & K & -> & HK & Hq & Eq); [nia|].
  destruct (dval_int_form (d_of_Z (a * b)) (a * b) (dval_of_Z (a * b) ltac:(nia)))
    as (r & N & Er & HN & Hr & Erv); [nia|].
  assert (HN2 : L + K <= N <= L + K + 1).
  { rewrite (mantissa_log2 _ _ _ Hp Ep), (mantissa_log2 _ _ _ Hq Eq),
      (mantissa_log2 _ _ _ Hr Erv) by lia.
    pose proof (Z.log2_mul_above a b ltac:(lia) ltac:(lia)).
    pose proof (Z.log2_mul_below a b ltac:(lia) ltac:(lia)). lia. }
  unfold d_mul, SFmul. simpl xorb. rewrite Pos2Z.inj_mul, Ep, Eq.
  replace (a * 2 ^ (52 - L) * (b * 2 ^ (52 - K)))
    with (Zpos r * 2 ^ (N + 52 - L - K)).
  2:{ rewrite Erv.
      replace (a * 2 ^ (52 - L) * (b * 2 ^ (52 - K)))
        with (a * b * (2 ^ (52 - L) * 2 ^ (52 - K))) by lia.
      rewrite <- Z.mul_assoc, <- !Z.pow_add_r by lia. do 2 f_equal. lia. }
  rewrite round_exact by lia. exists r, (N - 52). split_and!; [f_equal; lia|lia|lia|lia|lia|].
  rewrite Erv, <- Z.mul_assoc, <- Z.pow_add_r by lia. do 2 f_equal. lia.
Qed.

(** The divisor [RAND_MAX + 1.0] is a power of two. *)
Lemma rand_divisor :
  d_add (d_of_Z RAND_MAX) (d_of_Z 1) = S754_finite false 4503599627370496 (-21).
Proof. by vm_compute. Qed.

Lemma d_div_pow2 p e :
  2 ^ 52 <= Zpos p < 2 ^ 53 -> -500 <= e <= 400 ->
  d_div (S754_finite false p e) (S754_finite false 4503599627370496 (-21)) =
  S754_finite false p (e - 31).
Proof.
  intros Hp He. unfold d_div, SFdiv, SFdiv_core_binary.
  assert (Hd : Zdigits2 (Zpos p) = 53).
  { simpl. rewrite digits2_pos_log2.
    assert (Z.log2 (Zpos p) = 52) by (apply Z.log2_unique; lia). lia. }
  rewrite Hd. change (Zdigits2 4503599627370496) with 53.
  assert (Hf : Z.min (fexp 53 1024 (53 + e - (53 + -21))) (e - -21) = e - 32)
    by (unfold fexp, emin; lia).
  rewrite Hf. replace (e - -21 - (e - 32)) with 53 by lia. cbv beta iota zeta.
  rewrite Z.shiftl_mul_pow2 by lia.
  replace (Zpos p * 2 ^ 53) with (Zpos p * 2 * 4503599627370496) by lia.
  assert (Hq : Z.div_eucl (Zpos p * 2 * 4503599627370496) 4503599627370496 = (Zpos p * 2, 0)).
  { pose proof (Z.div_mul (Zpos p * 2) 4503599627370496 ltac:(lia)) as Hdiv.
    pose proof (Z.mod_mul (Zpos p * 2) 4503599627370496 ltac:(lia)) as Hmod.
    unfold Z.div, Z.modulo in Hdiv, Hmod. destruct (Z.div_eucl _ _). by subst. }
  rewrite Hq. change (new_location 4503599627370496 0) with loc_Exact. simpl xorb.
  change (Zpos p * 2) with (Zpos p * 2 ^ 1). rewrite round_exact by lia. f_equal. lia.
Qed.

Lemma d_trunc_dval x n k :
  dval x n k -> 0 <= k <= 1000 -> d_trunc x = Some (n / 2 ^ k).
Proof.
  intros (p & e & -> & Hp & He & Hv) Hk. simpl. f_equal.
  destruct (Z.leb_spec 0 e) as [Hle|Hlt].
  - apply (Z.mul_reg_r _ _ (2 ^ (1074 - k))); [lia|].
    assert (Hn : n = Zpos p * 2 ^ e * 2 ^ k).
    { apply (Z.mul_reg_r _ _ (2 ^ (1074 - k))); [lia|]. rewrite <- Hv.
      rewrite <- !Z.mul_assoc, <- !Z.pow_add_r by lia. do 2 f_equal. lia. }
    by rewrite Hn, Z.div_mul by lia.
  - rewrite <- (Z.div_mul_cancel_r (Zpos p) (2 ^ (- e)) (2 ^ (e + 1074))) by lia.
    rewrite <- (Z.div_mul_cancel_r n (2 ^ k) (2 ^ (1074 - k))) by lia.
    rewrite Hv, <- !Z.pow_add_r by lia. do 2 f_equal. lia.
Qed.

(** The random index is the exact quotient, rounded down: it is an index of a
    table of [cnt] entries, for any count below 2^22. *)
Lemma rand_pick_trunc cnt r :
  0 <= cnt < 2 ^ 22 -> 0 <= r <= RAND_MAX ->
  d_trunc (rand_pick cnt r) = Some (cnt * r / 2 ^ 31).
Proof.
  unfold RAND_MAX. intros Hc Hr. unfold rand_pick. rewrite rand_divisor.
  destruct (decide (cnt = 0)) as [->|Hc0].
  { destruct (decide (r = 0)) as [->|Hr0]; [done|].
    destruct (dval_of_Z r) as (p & e & -> & _); [lia|]. reflexivity. }
  destruct (decide (r = 0)) as [->|Hr0].
  { destruct (dval_of_Z cnt) as (p & e & -> & _); [lia|]. rewrite Z.mul_0_r. reflexivity. }
  destruct (dval_mul (d_of_Z cnt) (d_of_Z r) cnt r) as (p & e & -> & Hp & He & Hv);
    [apply dval_of_Z; lia|apply dval_of_Z; lia|lia|lia|nia|].
  rewrite Z.sub_0_r in Hv.
  assert (Hlog : Z.log2 (Zpos p) = 52) by (apply Z.log2_unique; lia).
  apply (f_equal Z.log2) in Hv as Hlv. rewrite !Z.log2_mul_pow2, Hlog in Hlv by nia.
  pose proof (Z.log2_nonneg (cnt * r)).
  rewrite d_div_pow2 by lia. apply d_trunc_dval; [|lia].
  exists p, (e - 31). split_and!; [done|lia|lia|lia|lia|].
  set (N := cnt * r) in *. clearbody N.
  apply (Z.mul_reg_r _ _ (2 ^ 31)); [lia|].
  rewrite <- !Z.mul_assoc, <- !Z.pow_add_r by lia.
  replace (e - 31 + 1074 + 31) with (e + 1074) by lia.
  replace (1074 - 31 + 31) with 1074 by lia. done.
Qed.

Lemma rand_index cnt r : 0 < cnt -> 0 <= r <= RAND_MAX -> 0 <= cnt * r / 2 ^ 31 < cnt.
Proof.
  unfold RAND_MAX. intros. split; [apply Z.div_pos; nia|]. apply Z.div_lt_upper_bound; nia.
Qed.

Lemma rand_pick_conv lo hi cnt r :
  lo <= 0 -> cnt <= hi + 1 -> 0 < cnt < 2 ^ 22 -> 0 <= r <= RAND_MAX ->
  d_conv lo hi (rand_pick cnt r) = Ok (cnt * r / 2 ^ 31).
Proof.
  intros. unfold d_conv. rewrite rand_pick_trunc by lia.
  pose proof (rand_index cnt r ltac:(lia) ltac:(lia)). by rewrite decide_True by lia.
Qed.

Lemma rand_pick_int cnt r :
  0 < cnt < 2 ^ 22 -> 0 <= r <= RAND_MAX -> d_int (rand_pick cnt r) = Ok (cnt * r / 2 ^ 31).
Proof. intros. apply rand_pick_conv; lia. Qed.

Lemma rand_pick_uint cnt r :
  0 < cnt < 2 ^ 22 -> 0 <= r <= RAND_MAX -> d_uint (rand_pick cnt r) = Ok (cnt * r / 2 ^ 31).
Proof. intros. apply rand_pick_conv; lia. Qed.
