(* ===== verification/SoundTable.v ===== *)
(** * The sound table ([engine.c], lookup functions)

    A table of [HASHES] chains of entries, from the name of a sound to its
    samples (an event) or to its buffer in the mixer (a state). It is filled
    while the configuration is read and only looked up afterwards. *)

From stdpp Require Import base list strings.
From Stdlib Require Import ZArith Lia Ascii.
From S2P Require Import Prelude Events CString.

Module SoundTable.
Local Open Scope Z_scope.

Definition HASHES : Z := 256.

Definition ENGINE_SUCCESS : Z := 1.
Definition ENGINE_NOT_YET_ALLOC : Z := -1.
Definition ENGINE_ALLOC_FAILED : Z := -2.
Definition ENGINE_SOUND_NOT_FOUND : Z := -3.
Definition ENGINE_SOUND_EXISTS : Z := -4.

(** A sound in memory; [None] is a null pointer. *)
Definition samples : Type := option (list Z).

Record EVENT_ENTRY : Type := {
  snds : list samples;
  lens : list Z;
  snd_cnt : Z
}.

Record STATE_ENTRY : Type := { mixer_index : Z }.

(** What the [data] pointer of an entry points to. *)
Inductive entry_data : Type :=
| DEvent (e : EVENT_ENTRY)
| DState (s : STATE_ENTRY).

Record sound_entry : Type := {
  name : string;
  data : entry_data;
  stype : EVENT_TYPE
}.

(** [sound_table]: the chain that starts at each slot. *)
Definition table : Type := ptr (list (list sound_entry)).

#[export] Instance event_entry_eq_dec : EqDecision EVENT_ENTRY.
Proof. solve_decision. Defined.
#[export] Instance state_entry_eq_dec : EqDecision STATE_ENTRY.
Proof. solve_decision. Defined.
#[export] Instance entry_data_eq_dec : EqDecision entry_data.
Proof. solve_decision. Defined.
#[export] Instance sound_entry_eq_dec : EqDecision sound_entry.
Proof. solve_decision. Defined.

(** ** The operations *)

(** [ok]: whether [calloc] succeeds. *)
Definition engineInitSoundTable (ok : bool) : Z * table :=
  if ok then (ENGINE_SUCCESS, PLive (replicate (Z.to_nat HASHES) []))
  else (ENGINE_ALLOC_FAILED, PNull).

(** [char] is signed; [%] rounds towards zero. *)
Fixpoint hash_count (count : Z) (s : string) : Z :=
  match s with
  | EmptyString => count
  | String c s => hash_count (i32 (count + char_val c)) s
  end.

Definition engineSoundHash (s : string) : Z := Z.rem (hash_count 0 s) HASHES.

(** The walk over a chain that is not empty; [None] when the name is found
    on the way. The condition [p->next] stops it before the last entry is
    compared. *)
Fixpoint insert_loop (p : list sound_entry) (entry : sound_entry) : option (list sound_entry) :=
  match p with
  | [] => Some [entry]
  | e :: rest =>
      match rest with
      | [] => Some [e; entry]
      | _ => if ci_eq (name e) (name entry) then None
             else (fun r => e :: r) <$> insert_loop rest entry
      end
  end.

Definition engineSoundTableInsert (entry : sound_entry) : M table Z := fun t =>
  let index := engineSoundHash (name entry) in
  tbl ← deref t;
  chain ← rd tbl index;
  match chain with
  | [] => tbl ← wr tbl index [entry]; mret (ENGINE_SUCCESS, PLive tbl)
  | _ => match insert_loop chain entry with
         | None => mret (ENGINE_SOUND_EXISTS, t)
         | Some chain => tbl ← wr tbl index chain; mret (ENGINE_SUCCESS, PLive tbl)
         end
  end.

(** The entry that [engineSoundTableInsertEvent] makes. *)
Definition event_entry (n : string) (event : EVENT_ENTRY) : sound_entry :=
  {| name := n; data := DEvent event; stype := EVENT_T |}.

(** [strlen] reads the name, so it must not be null. *)
Definition engineSoundTableInsertEvent (nm : option string) (event : EVENT_ENTRY) : M table Z := fun t =>
  match nm with
  | None => Fault NullDeref
  | Some n => engineSoundTableInsert (event_entry n event) t
  end.

Definition engineSoundTableInsertState (nm : option string) (state : STATE_ENTRY) : M table Z := fun t =>
  match nm with
  | None => Fault NullDeref
  | Some n => engineSoundTableInsert {| name := n; data := DState state; stype := STATE_T |} t
  end.

(** The loop of [engineSoundTableRetrieve]; its step expression [p->next]
    does not assign [p]. *)
Fixpoint retrieve_loop (fuel : nat) (p : list sound_entry) (n : string) : res (option sound_entry) :=
  match fuel with
  | O => NoFuel
  | S fuel =>
      match p with
      | [] => Ok None
      | e :: _ => if ci_eq (name e) n then Ok (Some e) else retrieve_loop fuel p n
      end
  end.

Definition engineSoundTableRetrieve (fuel : nat) (t : table) (nm : option string)
  : res (option sound_entry) :=
  match nm with
  | None => Fault NullDeref
  | Some n =>
      let index := engineSoundHash n in
      tbl ← deref t;
      chain ← rd tbl index;
      retrieve_loop fuel chain n
  end.

Definition engineSoundTableDataRetrieve (fuel : nat) (t : table) (nm : option string)
  : res (option entry_data) :=
  p ← engineSoundTableRetrieve fuel t nm;
  match p with
  | None => mret None
  | Some p => mret (Some (data p))
  end.

(** A cast of the [data] pointer and the first access through it. *)
Definition as_event (d : entry_data) : res EVENT_ENTRY :=
  match d with DEvent e => Ok e | DState _ => Fault BadCast end.
Definition as_state (d : entry_data) : res STATE_ENTRY :=
  match d with DState s => Ok s | DEvent _ => Fault BadCast end.

Definition engineGetNoEventSnds (fuel : nat) (t : table) (sound : option string) : res Z :=
  entry ← engineSoundTableRetrieve fuel t sound;
  match entry with
  | None => mret ENGINE_SOUND_NOT_FOUND
  | Some entry =>
      if decide (stype entry <> EVENT_T) then mret ENGINE_SOUND_NOT_FOUND
      else e ← as_event (data entry); mret (i32 (snd_cnt e))
  end.

(** The [if] that tests the entry has an empty body: the [return] below it
    is always executed. *)
Definition engineSetNoEventSnds (fuel : nat) (sound : option string) (value : Z) : M table Z := fun t =>
  match t with
  | PNull => mret (ENGINE_NOT_YET_ALLOC, t)
  | _ => _ ← engineSoundTableRetrieve fuel t sound;
         mret (ENGINE_SOUND_NOT_FOUND, t)
  end.

(** [ok]: whether the allocations succeed. A negative count becomes a huge
    size, for which [calloc] gives up. *)
Definition engineAllocEventEntry (ok : bool) (no_events : Z) : option EVENT_ENTRY :=
  if ok then Some {| snds := replicate (Z.to_nat no_events) None;
                     lens := replicate (Z.to_nat no_events) 0%Z;
                     snd_cnt := u32 no_events |}
  else None.

Definition engineEventEntryAssignSnd (event_no : Z) (sound : samples) (len : Z)
  : M (option EVENT_ENTRY) Z := fun entry =>
  match entry with
  | None => mret (ENGINE_NOT_YET_ALLOC, entry)
  | Some e =>
      ss ← wr (snds e) event_no sound;
      ls ← wr (lens e) event_no len;
      mret (ENGINE_SUCCESS, Some {| snds := ss; lens := ls; snd_cnt := snd_cnt e |})
  end.

Definition engineGetEventSnd (fuel : nat) (t : table) (nm : option string) (num : Z) : res samples :=
  entry ← engineSoundTableRetrieve fuel t nm;
  match entry with
  | None => mret None
  | Some entry => e ← as_event (data entry); rd (snds e) num
  end.

Definition engineGetEventSndLen (fuel : nat) (t : table) (nm : option string) (num : Z) : res Z :=
  entry ← engineSoundTableRetrieve fuel t nm;
  match entry with
  | None => mret 0%Z
  | Some entry => e ← as_event (data entry); rd (lens e) num
  end.

Definition engineAllocStateEntry (ok : bool) (index : Z) : option STATE_ENTRY :=
  if ok then Some {| mixer_index := index |} else None.

(** The samples that are freed with an entry of type [EVENT_T]. *)
Fixpoint free_snds (n : nat) (j : Z) (e : EVENT_ENTRY) : res (list samples) :=
  match n with
  | O => mret []
  | S n => s ← rd (snds e) j; rest ← free_snds n (j + 1) e; mret (s :: rest)
  end.

Fixpoint destroy_chain (p : list sound_entry) : res (list samples) :=
  match p with
  | [] => mret []
  | entry :: q =>
      freed ← (if decide (stype entry = EVENT_T)
               then e ← as_event (data entry); free_snds (Z.to_nat (snd_cnt e)) 0 e
               else mret []);
      rest ← destroy_chain q;
      mret (freed ++ rest)
  end.

(** Returns the sounds that are freed, in the order of the calls to [free]. *)
Definition engineSoundTableDestroy : M table (list samples) := fun t =>
  match t with
  | PNull => mret ([], PNull)
  | _ => tbl ← deref t;
         freed ← destroy_chain (concat tbl);
         mret (freed, PNull)
  end.

(** ** Facts *)

(** The number of upper-case letters of a name. *)
Fixpoint uppers (s : string) : Z :=
  match s with
  | EmptyString => 0
  | String c s => (if in_range 65 90 (nat_of_ascii c) then 1 else 0) + uppers s
  end.

(** Names of seven-bit characters. *)
Fixpoint is_ascii (s : string) : bool :=
  match s with
  | EmptyString => true
  | String c s => (nat_of_ascii c <? 128)%nat && is_ascii s
  end.

(** The sum that the hash wraps at 32 bits. *)
Fixpoint char_sum (s : string) : Z :=
  match s with
  | EmptyString => 0
  | String c s => char_val c + char_sum s
  end.

Lemma hash_count_sum s z :
  (hash_count z s) mod 2 ^ 32 = (z + char_sum s) mod 2 ^ 32.
Proof.
  revert z. induction s as [|c s IH]; intros z; cbn [hash_count char_sum].
  { f_equal. lia. }
  rewrite IH. unfold i32, swrap.
  set (k := (z + char_val c + 2 ^ (32 - 1))).
  replace (k mod 2 ^ 32 - 2 ^ (32 - 1) + char_sum s)
    with (k mod 2 ^ 32 + (char_sum s - 2 ^ (32 - 1))) by lia.
  rewrite Zplus_mod_idemp_l. f_equal. unfold k. lia.
Qed.

Lemma char_val_ascii c :
  (nat_of_ascii c < 128)%nat -> char_val c = Z.of_nat (nat_of_ascii c).
Proof. intros H. unfold char_val. apply i8_small. lia. Qed.

Lemma hash_count_nonneg s z :
  is_ascii s = true -> 0 <= z -> z + 127 * strlen s < 2 ^ 31 ->
  hash_count z s = z + char_sum s /\ 0 <= hash_count z s.
Proof.
  revert z. induction s as [|c s IH]; intros z Ha Hz Hb; cbn [hash_count char_sum is_ascii] in *.
  { lia. }
  apply andb_true_iff in Ha as [Hc Ha]. apply Nat.ltb_lt in Hc.
  unfold strlen in *. cbn [String.length] in Hb. rewrite Nat2Z.inj_succ in Hb.
  rewrite char_val_ascii by done.
  rewrite (i32_small (z + _)) by lia.
  destruct (IH (z + Z.of_nat (nat_of_ascii c)) Ha) as [-> ?]; lia.
Qed.

(** A plain name hashes into the table. *)
Definition plain (s : string) : Prop := is_ascii s = true /\ 127 * strlen s < 2 ^ 31.

Lemma hash_plain s : plain s -> engineSoundHash s = char_sum s mod HASHES.
Proof.
  intros [Ha Hl]. unfold engineSoundHash.
  destruct (hash_count_nonneg s 0 Ha) as [H1 H2]; [lia|lia|].
  rewrite Z.rem_mod_nonneg by (unfold HASHES; lia). by rewrite H1.
Qed.

Lemma hash_plain_bounds s : plain s -> 0 <= engineSoundHash s < HASHES.
Proof. intros H. rewrite hash_plain by done. apply Z.mod_pos_bound. done. Qed.

Lemma tolower_val c d :
  tolower c = tolower d ->
  Z.of_nat (nat_of_ascii c) - Z.of_nat (nat_of_ascii d) =
    32 * ((if in_range 65 90 (nat_of_ascii d) then 1 else 0)
          - (if in_range 65 90 (nat_of_ascii c) then 1 else 0)).
Proof.
  unfold tolower. intros H. pose proof (nat_ascii_bounded c). pose proof (nat_ascii_bounded d).
  apply (f_equal nat_of_ascii) in H. revert H. unfold in_range.
  destruct (65 <=? nat_of_ascii c)%nat eqn:?, (nat_of_ascii c <=? 90)%nat eqn:?,
    (65 <=? nat_of_ascii d)%nat eqn:?, (nat_of_ascii d <=? 90)%nat eqn:?; simpl;
    rewrite ?nat_ascii_embedding; repeat match goal with
    | H : (_ <=? _)%nat = true |- _ => apply Nat.leb_le in H
    | H : (_ <=? _)%nat = false |- _ => apply Nat.leb_gt in H end; lia.
Qed.

Lemma char_sum_ci s t :
  is_ascii s = true -> is_ascii t = true -> ci_eq s t = true ->
  char_sum s = char_sum t + 32 * (uppers t - uppers s).
Proof.
  revert t. induction s as [|c s IH]; intros [|d t]; cbn [ci_eq is_ascii char_sum uppers];
    try done.
  intros [Hc Hs]%andb_true_iff [Hd Ht]%andb_true_iff [H1 H2]%andb_true_iff.
  apply Nat.ltb_lt in Hc, Hd. apply bool_decide_eq_true in H1.
  rewrite !char_val_ascii, (IH t) by done. apply tolower_val in H1. lia.
Qed.

(** *** Chains *)

Lemma insert_loop_spec p entry :
  insert_loop p entry =
    if existsb (fun e => ci_eq (name e) (name entry)) (removelast p)
    then None else Some (p ++ [entry]).
Proof.
  induction p as [|e p IH]; [done|]. cbn [insert_loop]. destruct p as [|e' p]; [done|].
  rewrite IH. cbn [removelast existsb]. destruct (ci_eq (name e) (name entry)); [done|].
  simpl orb. destruct (existsb _ _); done.
Qed.

Lemma retrieve_loop_stuck fuel e p n :
  ci_eq (name e) n = false -> retrieve_loop fuel (e :: p) n = NoFuel.
Proof. intros H. induction fuel as [|fuel IH]; [done|]. simpl. by rewrite H. Qed.

(** *** Well-formed tables *)

Definition typed (e : sound_entry) : Prop :=
  match data e, stype e with
  | DEvent v, EVENT_T =>
      length (snds v) = length (lens v) /\ Z.of_nat (length (snds v)) = snd_cnt v
  | DState _, STATE_T => True
  | _, _ => False
  end.

Definition in_slot (i : nat) (e : sound_entry) : Prop :=
  engineSoundHash (name e) = Z.of_nat i /\ typed e.

Definition slots_wf (tbl : list (list sound_entry)) : Prop :=
  Z.of_nat (length tbl) = HASHES /\
  forall i chain, tbl !! i = Some chain -> Forall (in_slot i) chain.

Definition table_wf (t : table) : Prop := exists tbl, t = PLive tbl /\ slots_wf tbl.

(** The chain a name belongs to. *)
Definition chain_of (t : table) (n : string) : list sound_entry :=
  match t with
  | PLive tbl => default [] (tbl !! Z.to_nat (engineSoundHash n))
  | _ => []
  end.

Lemma rd_chain tbl n :
  slots_wf tbl -> plain n ->
  rd tbl (engineSoundHash n) = Ok (chain_of (PLive tbl) n) /\
  tbl !! Z.to_nat (engineSoundHash n) = Some (chain_of (PLive tbl) n).
Proof.
  intros [Hl _] Hn. pose proof (hash_plain_bounds n Hn) as Hb.
  destruct (rd_in_bounds tbl (engineSoundHash n)) as [c Hc]; [lia|].
  pose proof Hc as [_ Hc']%rd_Ok. unfold chain_of. by rewrite Hc, Hc'.
Qed.

Lemma retrieve_eq fuel t n :
  table_wf t -> plain n ->
  engineSoundTableRetrieve fuel t (Some n) = retrieve_loop fuel (chain_of t n) n.
Proof.
  intros (tbl & -> & Hwf) Hn. simpl. destruct (rd_chain tbl n Hwf Hn) as [-> _]. done.
Qed.

Lemma insert_eq t e :
  table_wf t -> plain (name e) ->
  engineSoundTableInsert e t =
    if existsb (fun x => ci_eq (name x) (name e)) (removelast (chain_of t (name e)))
    then Ok (ENGINE_SOUND_EXISTS, t)
    else match t with
         | PLive tbl => Ok (ENGINE_SUCCESS,
             PLive (<[Z.to_nat (engineSoundHash (name e)) := chain_of t (name e) ++ [e]]> tbl))
         | _ => Ok (ENGINE_SUCCESS, t)
         end.
Proof.
  intros (tbl & -> & Hwf) Hn. unfold engineSoundTableInsert.
  destruct (rd_chain tbl _ Hwf Hn) as [E _]. simpl deref. cbn [mbind res_bind]. rewrite E.
  cbn [mbind res_bind]. pose proof (hash_plain_bounds _ Hn). destruct Hwf as [Hl _].
  destruct (chain_of (PLive tbl) (name e)) as [|x c] eqn:Ec.
  - rewrite wr_in_bounds by lia. done.
  - rewrite insert_loop_spec. destruct (existsb _ _); [done|].
    rewrite wr_in_bounds by lia. done.
Qed.

Lemma insert_wf t e r t' :
  table_wf t -> plain (name e) -> typed e -> engineSoundTableInsert e t = Ok (r, t') ->
  table_wf t' /\ (r = ENGINE_SUCCESS -> chain_of t' (name e) = chain_of t (name e) ++ [e]) /\
  (r <> ENGINE_SUCCESS -> t' = t) /\
  (forall n, plain n -> engineSoundHash n <> engineSoundHash (name e) -> chain_of t' n = chain_of t n).
Proof.
  intros Hwf Hn He. rewrite insert_eq by done. case_if; [by intros [= <- <-]|].
  destruct Hwf as (tbl & -> & Hwf). intros [= <- <-].
  pose proof (hash_plain_bounds _ Hn) as Hb. destruct (rd_chain tbl _ Hwf Hn) as [_ Hc].
  destruct Hwf as [Hl Hwf]. split_and!.
  - eexists. split; [done|]. split; [by rewrite length_insert|]. intros i chain Hi.
    apply list_lookup_insert_Some in Hi as [(Hi & <- & _)|[_ Hi]]; [|by eapply Hwf].
    apply Forall_app. subst i. split; [by eapply Hwf|].
    apply Forall_singleton. split; [lia|done].
  - intros _. unfold chain_of at 1. rewrite list_lookup_insert_eq; [done|lia].
  - done.
  - intros n Hpn Hne. unfold chain_of. rewrite list_lookup_insert_ne; [done|].
    pose proof (hash_plain_bounds _ Hpn). lia.
Qed.

Lemma init_wf : table_wf (engineInitSoundTable true).2.
Proof.
  eexists. split; [done|]. split; [done|].
  intros i chain [-> _]%lookup_replicate. constructor.
Qed.

(** The sounds an entry owns. *)
Definition owned (e : sound_entry) : list samples :=
  match data e with DEvent v => snds v | DState _ => [] end.

Lemma free_snds_drop n j e :
  0 <= j -> (Z.to_nat j + n = length (snds e))%nat ->
  free_snds n j e = Ok (drop (Z.to_nat j) (snds e)).
Proof.
  revert j. induction n as [|n IH]; intros j Hj Hn; simpl.
  { rewrite drop_ge by lia. done. }
  destruct (rd_in_bounds (snds e) j) as [x Hx]; [lia|]. rewrite Hx. simpl.
  rewrite IH by lia. simpl. apply rd_Ok in Hx as [_ Hx].
  rewrite (drop_S _ _ _ Hx). by replace (Z.to_nat (j + 1)) with (S (Z.to_nat j)) by lia.
Qed.

Lemma destroy_chain_owned p :
  Forall typed p -> destroy_chain p = Ok (concat (owned <$> p)).
Proof.
  induction 1 as [|e p He _ IH]; [done|]. simpl. unfold typed, owned in *.
  destruct (data e) as [v|], (stype e); simpl; try done.
  - destruct He as [_ Hl]. rewrite free_snds_drop by lia. simpl. rewrite IH. done.
  - by rewrite IH.
Qed.

(** Whatever a lookup returns is an entry of the table. *)
Lemma retrieve_loop_in fuel p n e : retrieve_loop fuel p n = Ok (Some e) -> e ∈ p.
Proof.
  induction fuel as [|fuel IH]; simpl; [done|]. destruct p as [|x p]; [done|].
  case_if; [|done]. intros [= ->]. left.
Qed.

Lemma retrieve_in fuel tbl nm e :
  engineSoundTableRetrieve fuel (PLive tbl) nm = Ok (Some e) -> e ∈ concat tbl.
Proof.
  destruct nm as [n|]; simpl; [|done]. intros H. inv_ok.
  apply retrieve_loop_in in H. apply rd_Ok in E as [_ E].
  apply list_elem_of_lookup_2 in E. apply list_elem_of_In, List.in_concat.
  exists a. split; by apply list_elem_of_In.
Qed.

(** ** Properties *)

(** [engineSoundTableRetrieve] finds a sound only at the head of its
    chain. When the chain is empty it returns null; when the head has another
    name it does not return, whatever the number of iterations. *)
Theorem engineSoundTableRetrieve_outcome (t : table) (n : string) (fuel : nat) :
  table_wf t -> plain n ->
  engineSoundTableRetrieve (S fuel) t (Some n) =
    match chain_of t n with
    | [] => Ok None
    | e :: _ => if ci_eq (name e) n then Ok (Some e) else NoFuel
    end.
Proof.
  intros Hwf Hn. rewrite retrieve_eq by done. simpl.
  destruct (chain_of t n) as [|e p]; [done|].
  destruct (ci_eq (name e) n) eqn:E; [done|]. by apply retrieve_loop_stuck.
Qed.

(** C27: what a lookup of a sound gives after [engineSoundTableInsertEvent] of
    that name: the new samples when its slot was empty, the samples of the
    first entry of the slot when that has the name, and otherwise no answer at
    all; the slots of the other names are as they were, and the table stays
    well formed. *)
Theorem engineSoundTableInsertEvent_lookup (t t' : table) (n : string) (ev : EVENT_ENTRY) (r : Z)
    (fuel : nat) :
  table_wf t -> plain n -> length (snds ev) = length (lens ev) ->
  Z.of_nat (length (snds ev)) = snd_cnt ev ->
  engineSoundTableInsertEvent (Some n) ev t = Ok (r, t') ->
  table_wf t' /\
  engineSoundTableDataRetrieve (S fuel) t' (Some n) =
    match chain_of t n with
    | [] => Ok (Some (DEvent ev))
    | e :: _ => if ci_eq (name e) n then Ok (Some (data e)) else NoFuel
    end /\
  (forall m, plain m -> engineSoundHash m <> engineSoundHash n -> chain_of t' m = chain_of t m).
Proof.
  intros Hwf Hn H1 H2 Hins.
  destruct (insert_wf t (event_entry n ev) r t' Hwf Hn (conj H1 H2) Hins) as (Hwf' & Hok & Hno & Hfr).
  split_and!; [done| |done]. unfold engineSoundTableDataRetrieve.
  rewrite retrieve_eq by done. simpl in Hok.
  assert (chain_of t' n = chain_of t n /\ chain_of t n <> [] \/
          chain_of t' n = chain_of t n ++ [event_entry n ev])
    as [[-> Hne] | -> ].
  { destruct (decide (r = ENGINE_SUCCESS)) as [Hr|Hr]; [right; auto|left].
    rewrite Hno by done. split; [done|]. intros Hnil.
    simpl in Hins. rewrite insert_eq in Hins by done. simpl in Hins. rewrite Hnil in Hins.
    simpl in Hins. destruct Hwf as (tbl & -> & _). by simplify_eq. }
  - destruct (chain_of t n) as [|e p]; [done|]. simpl.
    destruct (ci_eq (name e) n) eqn:E; [done|]. by rewrite retrieve_loop_stuck.
  - destruct (chain_of t n) as [|e p]; simpl; [by rewrite ci_eq_refl|].
    destruct (ci_eq (name e) n) eqn:E; [done|].
    by rewrite (retrieve_loop_stuck fuel e).
Qed.

(** [engineSoundTableInsert] refuses a name exactly when an entry of the
    chain other than the last has it; so a name can be entered twice. *)
Theorem engineSoundTableInsert_duplicate (t : table) (e : sound_entry) :
  table_wf t -> plain (name e) ->
  exists t', engineSoundTableInsert e t =
    Ok (if existsb (fun x => ci_eq (name x) (name e)) (removelast (chain_of t (name e)))
        then ENGINE_SOUND_EXISTS else ENGINE_SUCCESS, t').
Proof.
  intros Hwf Hn. rewrite insert_eq by done. destruct (existsb _ _); [eauto|].
  destruct Hwf as (tbl & -> & _). eauto.
Qed.

(** Names are compared without regard to case but hashed with it: the
    slots of two spellings of a name differ by 32 for each capital one has
    more than the other. *)
Theorem engineSoundHash_case (s t : string) :
  plain s -> plain t -> ci_eq s t = true ->
  engineSoundHash s = (engineSoundHash t + 32 * (uppers t - uppers s)) mod HASHES.
Proof.
  intros Hs Ht He. rewrite !hash_plain by done.
  rewrite (char_sum_ci s t) by (done || apply Hs || apply Ht).
  by rewrite Zplus_mod_idemp_l.
Qed.

(** [engineSetNoEventSnds] never changes the table and never reports
    success. *)
Theorem engineSetNoEventSnds_fails (fuel : nat) (sound : option string) (value r : Z) (t t' : table) :
  engineSetNoEventSnds fuel sound value t = Ok (r, t') ->
  t' = t /\ r <> ENGINE_SUCCESS.
Proof.
  unfold engineSetNoEventSnds. intros H. destruct t; inv_ok; by simplify_eq.
Qed.

(** [engineSoundTableDestroy] frees every sound of every event entry,
    each once, in the order of the table, and leaves no table. *)
Theorem engineSoundTableDestroy_frees (tbl : list (list sound_entry)) :
  table_wf (PLive tbl) ->
  engineSoundTableDestroy (PLive tbl) = Ok (concat (owned <$> concat tbl), PNull).
Proof.
  intros (tbl' & [= <-] & Hl & Hc). simpl. rewrite destroy_chain_owned; [done|].
  apply Forall_concat, Forall_lookup. intros i chain Hi.
  eapply Forall_impl; [by eapply Hc|]. by intros x [_ ?].
Qed.

(** Two sounds whose names collide, as a configuration may load them. *)
Definition one_sound (v : Z) : EVENT_ENTRY :=
  {| snds := [Some [v; v]]; lens := [2]; snd_cnt := 1 |}.

Definition two_sounds : res (Z * table) :=
  '(_, t) ← engineSoundTableInsertEvent (Some "ab"%string) (one_sound 1) (engineInitSoundTable true).2;
  engineSoundTableInsertEvent (Some "ba"%string) (one_sound 2) t.

Lemma plain_ab : plain "ab" /\ plain "ba" /\ plain "Ab".
Proof. by vm_compute. Qed.

Definition ab_table : table :=
  match two_sounds with Ok (_, t) => t | _ => PNull end.

Lemma ab_table_wf : table_wf ab_table.
Proof.
  destruct plain_ab as (Ha & Hb & _).
  destruct (engineSoundTableInsertEvent (Some "ab"%string) (one_sound 1)
    (engineInitSoundTable true).2) as [[r1 t1]|f|] eqn:E1; [|by vm_compute in E1..].
  destruct (insert_wf _ (event_entry "ab" (one_sound 1)) _ _ init_wf Ha (conj eq_refl eq_refl : typed (event_entry _ (one_sound _))) E1) as (W1 & _).
  destruct (engineSoundTableInsertEvent (Some "ba"%string) (one_sound 2) t1)
    as [[r2 t2]|f|] eqn:E2.
  - assert (ab_table = t2) as ->
      by (unfold ab_table, two_sounds; rewrite E1; simpl; simpl in E2; by rewrite E2).
    by destruct (insert_wf _ (event_entry "ba" (one_sound 2)) _ _ W1 Hb (conj eq_refl eq_refl : typed (event_entry _ (one_sound _))) E2).
  - simpl in E2. rewrite insert_eq in E2 by done. case_if; [done|].
    by destruct W1 as (? & -> & _).
  - simpl in E2. rewrite insert_eq in E2 by done. case_if; [done|].
    by destruct W1 as (? & -> & _).
Qed.

(** A client that names the second sound stops the engine. *)
Lemma engineSoundTableRetrieve_outcome_witness :
  engineSoundTableRetrieve 1000 ab_table (Some "ba"%string) = NoFuel.
Proof.
  pose proof (engineSoundTableRetrieve_outcome ab_table "ba" 999 ab_table_wf
                (proj1 (proj2 plain_ab))) as H.
  rewrite H. by vm_compute.
Defined.

Lemma engineSoundTableInsertEvent_lookup_witness :
  engineSoundTableDataRetrieve 1
    (match engineSoundTableInsertEvent (Some "ab"%string) (one_sound 1) (engineInitSoundTable true).2
     with Ok (_, t) => t | _ => PNull end) (Some "ab"%string) = Ok (Some (DEvent (one_sound 1))).
Proof.
  destruct (engineSoundTableInsertEvent (Some "ab"%string) (one_sound 1)
    (engineInitSoundTable true).2) as [[r1 t1]|f|] eqn:E1; [|by vm_compute in E1..].
  exact (proj1 (proj2 (engineSoundTableInsertEvent_lookup _ _ "ab" (one_sound 1) _ 0 init_wf
    (proj1 plain_ab) eq_refl eq_refl E1))).
Defined.

(** The last entry of a chain is not compared: its name is entered again. *)
Lemma engineSoundTableInsert_duplicate_witness :
  exists t', engineSoundTableInsert
    (event_entry "ba" (one_sound 3)) ab_table
    = Ok (ENGINE_SUCCESS, t').
Proof.
  exact (engineSoundTableInsert_duplicate ab_table
    (event_entry "ba" (one_sound 3))
    ab_table_wf (proj1 (proj2 plain_ab))).
Defined.

Lemma engineSoundHash_case_witness :
  engineSoundHash "Ab" = (engineSoundHash "ab" + 32 * (0 - 1)) mod HASHES.
Proof.
  apply (engineSoundHash_case "Ab" "ab"); [apply plain_ab|apply plain_ab|reflexivity].
Defined.

Lemma engineSetNoEventSnds_fails_witness :
  engineSetNoEventSnds 1 (Some "ab"%string) 7 ab_table = Ok (ENGINE_SOUND_NOT_FOUND, ab_table) /\
  ENGINE_SOUND_NOT_FOUND <> ENGINE_SUCCESS.
Proof.
  assert (E : engineSetNoEventSnds 1 (Some "ab"%string) 7 ab_table
              = Ok (ENGINE_SOUND_NOT_FOUND, ab_table)) by (by vm_compute).
  split; [exact E|]. exact (proj2 (engineSetNoEventSnds_fails _ _ _ _ _ _ E)).
Defined.

Lemma engineSoundTableDestroy_frees_witness :
  exists tbl, ab_table = PLive tbl /\
    engineSoundTableDestroy (PLive tbl) = Ok ([Some [1; 1]; Some [2; 2]], PNull).
Proof.
  destruct ab_table as [|tbl|] eqn:E; [by vm_compute in E| |by vm_compute in E].
  exists tbl. split; [done|].
  pose proof ab_table_wf as W. rewrite E in W.
  rewrite (engineSoundTableDestroy_frees tbl W).
  assert (tbl = match ab_table with PLive t => t | _ => [] end) as -> by (by rewrite E).
  by vm_compute.
Defined.

End SoundTable.
