(* ===== verification/World.v ===== *)
(** * The state the engine and mixer threads share

    The static variables of [engine.c] and [mixer.c] with the mixer queue and
    the sound table, and the outside world they see: the values of [rand] and
    of the clock, each a sequence indexed by the number of calls made, and the
    chunks of sound handed to the sound card. *)

From stdpp Require Import base list strings.
From Stdlib Require Import ZArith Lia.
From S2P Require Import Prelude Events CString Dbl SoundTable MixerQueue.
Import SoundTable.
Local Open Scope Z_scope.

(** ** Data of the mixer ([mixer.h]) *)

Record EVENT_BUF : Type := {
  snd_buf : samples;
  len : Z;
  pos : Z;
  stereo_pos : dbl;
  filter_flag : Z
}.

Record STATE_SND : Type := {
  s_snd_buf : option (list samples);
  s_len : option (list Z);
  s_snd_cnt : Z;
  s_snd_no : Z;
  s_pos : Z
}.

Record THRESHOLD : Type := {
  l_bound : dbl;
  h_bound : dbl;
  state_snd : STATE_SND
}.

Record STATE_BUF : Type := {
  thresh : option (list THRESHOLD);
  thresh_cnt : Z;
  st_stereo_pos : dbl;
  st_vol : dbl;
  st_filter_flag : Z
}.

Record FADE_REC : Type := {
  fade_time : dbl;
  f_snd : Z;
  f_pos : Z;
  old_thresh : Z
}.

(** ** Data of the engine's scheduler ([engine.h]) *)

Record engine_sched : Type := {
  startt : dbl;
  priorit : Z;
  minendt : dbl
}.

(** ** Data of the playback file ([playback.h])

    A record of the file holds the event with its [char *] member as it is:
    the bytes of the pointer, not those of the string it points to. *)

Inductive playback_mode_t : Type := PLAY_MODE | RECORD_MODE.

Record playback_h : Type := {
  major_ver : Z;
  minor_ver : Z;
  max_events : Z;
  written : Z;
  start_pos : Z;
  start_t : timeval;
  end_t : timeval
}.

(** An open file: its header, its records, the position of the stream in
    bytes and the end-of-file indicator. *)
Record pfile : Type := {
  file_header : option playback_h;
  recs : list ENGINE_EVENT;
  fpos : Z;
  at_eof : bool
}.

Record pstate : Type := {
  stream : option pfile;
  header : playback_h;
  event_cnt : Z;
  mode : playback_mode_t;
  use_playback : Z;
  loopback_flag : Z
}.

Record world : Type := {
  (* mixer.c *)
  ebuffs : ptr (list EVENT_BUF);
  sbuffs : ptr (list STATE_BUF);
  no_ebuffs : Z;
  no_sbuffs : Z;
  mixer_loaded_states : Z;
  dyn_mul : ptr (list dbl);
  dyn_buf_cnt : Z;
  chunk_size : Z;
  output : ptr (list Z);
  mlock : bool;
  lin_fade : ptr (list FADE_REC);
  (* engine.c *)
  sched : ptr (list engine_sched);
  tlock : bool;
  eng_ebuffs : Z;
  lastc : Z;
  sound_table : table;
  (* mixer_queue.c *)
  mqueue : MixerQueue.state;
  (* playback.c *)
  pb : pstate;
  (* the environment *)
  rand_calls : nat;
  time_calls : nat;
  fwrite_calls : nat;
  played : list (list Z)
}.

(** ** Updating one variable *)

Definition set_ebuffs v w : world := Build_world v (sbuffs w) (no_ebuffs w) (no_sbuffs w)
  (mixer_loaded_states w) (dyn_mul w) (dyn_buf_cnt w) (chunk_size w) (output w) (mlock w)
  (lin_fade w) (sched w) (tlock w) (eng_ebuffs w) (lastc w) (sound_table w) (mqueue w) (pb w)
  (rand_calls w) (time_calls w) (fwrite_calls w) (played w).
Definition set_sbuffs v w : world := Build_world (ebuffs w) v (no_ebuffs w) (no_sbuffs w)
  (mixer_loaded_states w) (dyn_mul w) (dyn_buf_cnt w) (chunk_size w) (output w) (mlock w)
  (lin_fade w) (sched w) (tlock w) (eng_ebuffs w) (lastc w) (sound_table w) (mqueue w) (pb w)
  (rand_calls w) (time_calls w) (fwrite_calls w) (played w).
Definition set_loaded v w : world := Build_world (ebuffs w) (sbuffs w) (no_ebuffs w) (no_sbuffs
  w) v (dyn_mul w) (dyn_buf_cnt w) (chunk_size w) (output w) (mlock w) (lin_fade w) (sched w)
  (tlock w) (eng_ebuffs w) (lastc w) (sound_table w) (mqueue w) (pb w) (rand_calls w)
  (time_calls w) (fwrite_calls w) (played w).
Definition set_dyn_mul v w : world := Build_world (ebuffs w) (sbuffs w) (no_ebuffs w) (no_sbuffs
  w) (mixer_loaded_states w) v (dyn_buf_cnt w) (chunk_size w) (output w) (mlock w) (lin_fade w)
  (sched w) (tlock w) (eng_ebuffs w) (lastc w) (sound_table w) (mqueue w) (pb w) (rand_calls w)
  (time_calls w) (fwrite_calls w) (played w).
Definition set_dyn_buf_cnt v w : world := Build_world (ebuffs w) (sbuffs w) (no_ebuffs w)
  (no_sbuffs w) (mixer_loaded_states w) (dyn_mul w) v (chunk_size w) (output w) (mlock w)
  (lin_fade w) (sched w) (tlock w) (eng_ebuffs w) (lastc w) (sound_table w) (mqueue w) (pb w)
  (rand_calls w) (time_calls w) (fwrite_calls w) (played w).
Definition set_chunk_size v w : world := Build_world (ebuffs w) (sbuffs w) (no_ebuffs w)
  (no_sbuffs w) (mixer_loaded_states w) (dyn_mul w) (dyn_buf_cnt w) v (output w) (mlock w)
  (lin_fade w) (sched w) (tlock w) (eng_ebuffs w) (lastc w) (sound_table w) (mqueue w) (pb w)
  (rand_calls w) (time_calls w) (fwrite_calls w) (played w).
Definition set_output v w : world := Build_world (ebuffs w) (sbuffs w) (no_ebuffs w) (no_sbuffs
  w) (mixer_loaded_states w) (dyn_mul w) (dyn_buf_cnt w) (chunk_size w) v (mlock w) (lin_fade w)
  (sched w) (tlock w) (eng_ebuffs w) (lastc w) (sound_table w) (mqueue w) (pb w) (rand_calls w)
  (time_calls w) (fwrite_calls w) (played w).
Definition set_mlock v w : world := Build_world (ebuffs w) (sbuffs w) (no_ebuffs w) (no_sbuffs
  w) (mixer_loaded_states w) (dyn_mul w) (dyn_buf_cnt w) (chunk_size w) (output w) v (lin_fade
  w) (sched w) (tlock w) (eng_ebuffs w) (lastc w) (sound_table w) (mqueue w) (pb w) (rand_calls
  w) (time_calls w) (fwrite_calls w) (played w).
Definition set_lin_fade v w : world := Build_world (ebuffs w) (sbuffs w) (no_ebuffs w)
  (no_sbuffs w) (mixer_loaded_states w) (dyn_mul w) (dyn_buf_cnt w) (chunk_size w) (output w)
  (mlock w) v (sched w) (tlock w) (eng_ebuffs w) (lastc w) (sound_table w) (mqueue w) (pb w)
  (rand_calls w) (time_calls w) (fwrite_calls w) (played w).
Definition set_sched v w : world := Build_world (ebuffs w) (sbuffs w) (no_ebuffs w) (no_sbuffs
  w) (mixer_loaded_states w) (dyn_mul w) (dyn_buf_cnt w) (chunk_size w) (output w) (mlock w)
  (lin_fade w) v (tlock w) (eng_ebuffs w) (lastc w) (sound_table w) (mqueue w) (pb w)
  (rand_calls w) (time_calls w) (fwrite_calls w) (played w).
Definition set_tlock v w : world := Build_world (ebuffs w) (sbuffs w) (no_ebuffs w) (no_sbuffs
  w) (mixer_loaded_states w) (dyn_mul w) (dyn_buf_cnt w) (chunk_size w) (output w) (mlock w)
  (lin_fade w) (sched w) v (eng_ebuffs w) (lastc w) (sound_table w) (mqueue w) (pb w)
  (rand_calls w) (time_calls w) (fwrite_calls w) (played w).
Definition set_eng_ebuffs v w : world := Build_world (ebuffs w) (sbuffs w) (no_ebuffs w)
  (no_sbuffs w) (mixer_loaded_states w) (dyn_mul w) (dyn_buf_cnt w) (chunk_size w) (output w)
  (mlock w) (lin_fade w) (sched w) (tlock w) v (lastc w) (sound_table w) (mqueue w) (pb w)
  (rand_calls w) (time_calls w) (fwrite_calls w) (played w).
Definition set_lastc v w : world := Build_world (ebuffs w) (sbuffs w) (no_ebuffs w) (no_sbuffs
  w) (mixer_loaded_states w) (dyn_mul w) (dyn_buf_cnt w) (chunk_size w) (output w) (mlock w)
  (lin_fade w) (sched w) (tlock w) (eng_ebuffs w) v (sound_table w) (mqueue w) (pb w)
  (rand_calls w) (time_calls w) (fwrite_calls w) (played w).
Definition set_sound_table v w : world := Build_world (ebuffs w) (sbuffs w) (no_ebuffs w)
  (no_sbuffs w) (mixer_loaded_states w) (dyn_mul w) (dyn_buf_cnt w) (chunk_size w) (output w)
  (mlock w) (lin_fade w) (sched w) (tlock w) (eng_ebuffs w) (lastc w) v (mqueue w) (pb w)
  (rand_calls w) (time_calls w) (fwrite_calls w) (played w).
Definition set_mqueue v w : world := Build_world (ebuffs w) (sbuffs w) (no_ebuffs w) (no_sbuffs
  w) (mixer_loaded_states w) (dyn_mul w) (dyn_buf_cnt w) (chunk_size w) (output w) (mlock w)
  (lin_fade w) (sched w) (tlock w) (eng_ebuffs w) (lastc w) (sound_table w) v (pb w) (rand_calls
  w) (time_calls w) (fwrite_calls w) (played w).
Definition set_pb v w : world := Build_world (ebuffs w) (sbuffs w) (no_ebuffs w) (no_sbuffs w)
  (mixer_loaded_states w) (dyn_mul w) (dyn_buf_cnt w) (chunk_size w) (output w) (mlock w)
  (lin_fade w) (sched w) (tlock w) (eng_ebuffs w) (lastc w) (sound_table w) (mqueue w) v
  (rand_calls w) (time_calls w) (fwrite_calls w) (played w).
Definition set_counts e s w : world := Build_world (ebuffs w) (sbuffs w) e s
  (mixer_loaded_states w) (dyn_mul w) (dyn_buf_cnt w) (chunk_size w) (output w) (mlock w)
  (lin_fade w) (sched w) (tlock w) (eng_ebuffs w) (lastc w) (sound_table w) (mqueue w) (pb w)
  (rand_calls w) (time_calls w) (fwrite_calls w) (played w).
Definition set_rand_calls v w : world := Build_world (ebuffs w) (sbuffs w) (no_ebuffs w)
  (no_sbuffs w) (mixer_loaded_states w) (dyn_mul w) (dyn_buf_cnt w) (chunk_size w) (output w)
  (mlock w) (lin_fade w) (sched w) (tlock w) (eng_ebuffs w) (lastc w) (sound_table w) (mqueue w)
  (pb w) v (time_calls w) (fwrite_calls w) (played w).
Definition set_time_calls v w : world := Build_world (ebuffs w) (sbuffs w) (no_ebuffs w)
  (no_sbuffs w) (mixer_loaded_states w) (dyn_mul w) (dyn_buf_cnt w) (chunk_size w) (output w)
  (mlock w) (lin_fade w) (sched w) (tlock w) (eng_ebuffs w) (lastc w) (sound_table w) (mqueue w)
  (pb w) (rand_calls w) v (fwrite_calls w) (played w).
Definition set_fwrite_calls v w : world := Build_world (ebuffs w) (sbuffs w) (no_ebuffs w)
  (no_sbuffs w) (mixer_loaded_states w) (dyn_mul w) (dyn_buf_cnt w) (chunk_size w) (output w)
  (mlock w) (lin_fade w) (sched w) (tlock w) (eng_ebuffs w) (lastc w) (sound_table w) (mqueue w)
  (pb w) (rand_calls w) (time_calls w) v (played w).
Definition set_played v w : world := Build_world (ebuffs w) (sbuffs w) (no_ebuffs w) (no_sbuffs
  w) (mixer_loaded_states w) (dyn_mul w) (dyn_buf_cnt w) (chunk_size w) (output w) (mlock w)
  (lin_fade w) (sched w) (tlock w) (eng_ebuffs w) (lastc w) (sound_table w) (mqueue w) (pb w)
  (rand_calls w) (time_calls w) (fwrite_calls w) v.

(** ** The environment

    [rand_at k] and [time_at k] are the values the k-th call of [rand] and of
    [gettimeofday] returns, [fwrite_at k] whether the k-th [fwrite] succeeds. [lookup_fuel] bounds the iterations of the loop of
    [engineSoundTableRetrieve], which may not end. *)
Class Env : Type := {
  rand_at : nat -> Z;
  time_at : nat -> timeval;
  fwrite_at : nat -> bool;
  lookup_fuel : nat
}.

(** What the C library says of [rand], that the clock is not at the epoch, and
    that a lookup may make at least one iteration. *)
Class EnvLaws (E : Env) : Prop := {
  rand_range k : 0 <= rand_at k <= RAND_MAX;
  time_set k : d_eqb (TP_IN_FP_SECS (time_at k)) d_zero = false;
  fuel_pos : (0 < lookup_fuel)%nat
}.

Definition rand `{Env} : M world Z := fun w =>
  Ok (rand_at (rand_calls w), set_rand_calls (S (rand_calls w)) w).

Definition gettimeofday `{Env} : M world timeval := fun w =>
  Ok (time_at (time_calls w), set_time_calls (S (time_calls w)) w).

(** ** Access to the arrays *)

Definition rd_at {A} (f : world -> ptr (list A)) (i : Z) : M world A := fun w =>
  l ← deref (f w); x ← rd l i; mret (x, w).

Definition wr_at {A} (f : world -> ptr (list A)) (set : ptr (list A) -> world -> world)
    (i : Z) (x : A) : M world unit := fun w =>
  l ← deref (f w); l ← wr l i x; mret (tt, set (PLive l) w).

Definition lock_mixer : M world unit := fun w => b ← threadLock (mlock w); mret (tt, set_mlock b w).
Definition unlock_mixer : M world unit := fun w => b ← threadUnlock (mlock w); mret (tt, set_mlock b w).
Definition lock_sched : M world unit := fun w => b ← threadLock (tlock w); mret (tt, set_tlock b w).
Definition unlock_sched : M world unit := fun w => b ← threadUnlock (tlock w); mret (tt, set_tlock b w).

(** An operation of the mixer queue. *)
Definition on_mqueue {A} (m : M MixerQueue.state A) : M world A := fun w =>
  '(a, q) ← m (mqueue w); mret (a, set_mqueue q w).

(** ** A world to start from *)

Definition blank_pb : pstate :=
  {| stream := None;
     header := {| major_ver := 0; minor_ver := 0; max_events := 0; written := 0; start_pos := 0;
                  start_t := {| tv_sec := 0; tv_usec := 0 |};
                  end_t := {| tv_sec := 0; tv_usec := 0 |} |};
     event_cnt := 0; mode := PLAY_MODE; use_playback := 0; loopback_flag := 0 |}.

(** The static variables before any initialisation. *)
Definition blank_world : world :=
  Build_world PNull PNull 0 0 0 PNull 0 0 PNull false PNull PNull false 0 0 PNull
    (MixerQueue.mixerQueueInit 0) blank_pb 0 0 0 [].

(** An environment in which every call succeeds, the clock advances by a
    second per call and [rand] always gives the same value. *)
Definition steady_env : Env :=
  {| rand_at := fun _ => 1000000000; time_at := fun k => {| tv_sec := Z.of_nat k + 1; tv_usec := 0 |};
     fwrite_at := fun _ => true; lookup_fuel := 1 |}.

(** ** Running steps *)

Lemma bind_Ok {S A B} (m : M S A) (k : A -> M S B) s a s' :
  m s = Ok (a, s') -> (m ≫= k) s = k a s'.
Proof. intros H. unfold mbind, M_bind. by rewrite H. Qed.

Lemma bind_Fault {S A B} (m : M S A) (k : A -> M S B) s f :
  m s = Fault f -> (m ≫= k) s = Fault f.
Proof. intros H. unfold mbind, M_bind. by rewrite H. Qed.

Lemma bind_inv {S A B} (m : M S A) (k : A -> M S B) s b s' :
  (m ≫= k) s = Ok (b, s') -> exists a s1, m s = Ok (a, s1) /\ k a s1 = Ok (b, s').
Proof. unfold mbind, M_bind. destruct (m s) as [[a s1]|f|]; [eauto|done|done]. Qed.

Lemma rd_at_Ok {A} (f : world -> ptr (list A)) w l i x :
  f w = PLive l -> 0 <= i -> l !! Z.to_nat i = Some x -> rd_at f i w = Ok (x, w).
Proof.
  intros Hf Hi Hx. unfold rd_at. rewrite Hf. simpl. by rewrite (proj2 (rd_Ok l i x)).
Qed.

Lemma wr_at_Ok {A} (f : world -> ptr (list A)) set w l i x :
  f w = PLive l -> 0 <= i < Z.of_nat (length l) ->
  wr_at f set i x w = Ok (tt, set (PLive (<[Z.to_nat i := x]> l)) w).
Proof. intros Hf Hi. unfold wr_at. rewrite Hf. simpl. by rewrite wr_in_bounds. Qed.

(** [mstep H]: run the first operation of the program, whose result is [H]. *)
Ltac mstep H := rewrite (bind_Ok _ _ _ _ _ H).

(** As [steady_env], with a clock that stands still. *)
Definition still_env : Env :=
  {| rand_at := fun _ => 1000000000; time_at := fun _ => {| tv_sec := 1000000000; tv_usec := 5 |};
     fwrite_at := fun _ => true; lookup_fuel := 1 |}.

Lemma still_laws : EnvLaws still_env.
Proof. split; simpl; [unfold RAND_MAX; lia|intros _; vm_compute; done|lia]. Qed.
