(* ===== verification/Playback.v ===== *)
(** * Recording and replaying events ([playback.c])

    The file is its header followed by records of one size. Offsets are bytes;
    the sizes of the two structures are those of a 64-bit platform. *)

From stdpp Require Import base list strings.
From Stdlib Require Import ZArith Lia.
From S2P Require Import Prelude Events CString Dbl SoundTable MixerQueue World.
Local Open Scope Z_scope.

Definition PLAYBACK_MAJOR_VER : Z := 1.
Definition PLAYBACK_MINOR_VER : Z := 1.
Definition MAX_PLAYBACK_EVENTS : Z := 3200.

Definition sizeof_header : Z := 56.
Definition sizeof_record : Z := 40.

(** The offset of record [k]. *)
Definition offset (k : nat) : Z := sizeof_header + Z.of_nat k * sizeof_record.

(** The record at a byte offset; an offset between two records is none. *)
Definition index_of (off : Z) : option nat :=
  if decide (sizeof_header <= off /\ (off - sizeof_header) mod sizeof_record = 0)
  then Some (Z.to_nat ((off - sizeof_header) / sizeof_record)) else None.

Definition with_file (p : pstate) (f : option pfile) : pstate :=
  {| stream := f; header := header p; event_cnt := event_cnt p; mode := mode p;
     use_playback := use_playback p; loopback_flag := loopback_flag p |}.
Definition with_header (p : pstate) (h : playback_h) : pstate :=
  {| stream := stream p; header := h; event_cnt := event_cnt p; mode := mode p;
     use_playback := use_playback p; loopback_flag := loopback_flag p |}.
Definition with_cnt (p : pstate) (c l : Z) : pstate :=
  {| stream := stream p; header := header p; event_cnt := c; mode := mode p;
     use_playback := use_playback p; loopback_flag := l |}.

(** ** The calls of the standard input/output library *)

Definition file : M world pfile := fun w =>
  match stream (pb w) with None => Fault NullDeref | Some f => Ok (f, w) end.
Definition put_file (f : pfile) : M world unit :=
  modify (fun w => set_pb (with_file (pb w) (Some f)) w).

Definition at_pos (f : pfile) (p : Z) (eof : bool) : pfile :=
  {| file_header := file_header f; recs := recs f; fpos := p; at_eof := eof |}.

Definition ftell : M world Z := f ← file; mret (fpos f).
Definition feof : M world bool := f ← file; mret (at_eof f).
Definition fseek (off : Z) : M world unit := f ← file; put_file (at_pos f off false).

(** Reading a record: [None] at the end of the file. An offset that is not
    that of a record would give the bytes of two records as one. *)
Definition fread_rec : M world (option ENGINE_EVENT) :=
  f ← file;
  match index_of (fpos f) with
  | None => lift (Fault BadCast)
  | Some k =>
      match recs f !! k with
      | Some r => put_file (at_pos f (fpos f + sizeof_record) false) ;; mret (Some r)
      | None => put_file (at_pos f (fpos f) true) ;; mret None
      end
  end.

(** Replacing record [k] of a file or extending it by one. *)
Definition put_rec (l : list ENGINE_EVENT) (k : nat) (e : ENGINE_EVENT) : list ENGINE_EVENT :=
  take k l ++ e :: drop (S k) l.

Section WithEnv.
  Context {E : Env}.

(** Whether the next [fwrite] succeeds. *)
Definition fwrite_ok : M world bool := fun w =>
  Ok (fwrite_at (fwrite_calls w), set_fwrite_calls (S (fwrite_calls w)) w).

Definition fwrite_rec (e : ENGINE_EVENT) : M world bool :=
  f ← file;
  ok ← fwrite_ok;
  if (ok : bool) then
    match index_of (fpos f) with
    | None => lift (Fault BadCast)
    | Some k =>
        put_file {| file_header := file_header f; recs := put_rec (recs f) k e;
                    fpos := fpos f + sizeof_record; at_eof := false |} ;;
        mret true
    end
  else mret false.

(** ** The operations *)

Definition playbackModeOn (t : option Z) : M world Z :=
  match t with
  | Some v => modify (fun w => let p := pb w in set_pb
                {| stream := stream p; header := header p; event_cnt := event_cnt p;
                   mode := mode p; use_playback := v; loopback_flag := loopback_flag p |} w)
  | None => mret tt
  end ;;
  gets (fun w => use_playback (pb w)).

Definition playbackSetMode (m : option playback_mode_t) : M world playback_mode_t :=
  match m with
  | Some v => modify (fun w => let p := pb w in set_pb
                {| stream := stream p; header := header p; event_cnt := event_cnt p;
                   mode := v; use_playback := use_playback p;
                   loopback_flag := loopback_flag p |} w)
  | None => mret tt
  end ;;
  gets (fun w => mode (pb w)).

Definition zero_time : timeval := {| tv_sec := 0; tv_usec := 0 |}.

(** The part of [playbackFileInit] for [RECORD_MODE], the file being created
    by [fopen]. *)
Definition record_init : M world Z :=
  modify (fun w => set_pb (with_file (pb w)
            (Some {| file_header := None; recs := []; fpos := 0; at_eof := false |})) w) ;;
  t ← gettimeofday;
  let h := {| major_ver := PLAYBACK_MAJOR_VER; minor_ver := PLAYBACK_MINOR_VER;
              max_events := MAX_PLAYBACK_EVENTS; written := 0; start_pos := sizeof_header;
              start_t := t; end_t := zero_time |} in
  modify (fun w => set_pb (with_header (pb w) h) w) ;;
  ok ← fwrite_ok;
  if (ok : bool) then
    put_file {| file_header := Some h; recs := []; fpos := sizeof_header; at_eof := false |} ;;
    mret 1
  else mret 0.

(** The part for [PLAY_MODE], with the contents [f] of the file. *)
Definition play_init (f : pfile) : M world Z :=
  modify (fun w => set_pb (with_file (pb w) (Some (at_pos f 0 false))) w) ;;
  match file_header f with
  | None => mret 0
  | Some h =>
      modify (fun w => set_pb (with_header (pb w) h) w) ;;
      fseek sizeof_header ;;
      mret 1
  end.

(** [opened]: the contents of the file when [fopen] can read it; when it fails,
    [shutDown] ends the process ([None]). [created]: whether [fopen] can create
    the file; when it fails, [shutdown] is called, which is the function for
    sockets and returns, and the header is written to the null stream. *)
Definition playbackFileInit (opened : option pfile) (created : bool) : M world (option Z) :=
  m ← playbackSetMode None;
  match (m : playback_mode_t) with
  | PLAY_MODE =>
      match opened with
      | None => mret None
      | Some f => r ← play_init f; mret (Some r)
      end
  | RECORD_MODE =>
      if created then r ← record_init; mret (Some r) else lift (Fault NullDeref)
  end.

(** The loop of [playbackFindFirstOffset]: [prev] is read once, before it. A
    failed read leaves [cur] as it was. *)
Fixpoint find_first_loop (fuel : nat) (initial_pos : Z) (prev : ENGINE_EVENT)
    (cur : option ENGINE_EVENT) : M world Z :=
  match fuel with
  | O => lift NoFuel
  | S fuel =>
      eof ← feof;
      if (eof : bool) then mret initial_pos
      else
        r ← fread_rec;
        let cur := match (r : option ENGINE_EVENT) with Some r => Some r | None => cur end in
        match cur with
        | None => lift (Fault UninitRead)
        | Some c =>
            if d_ltb (TP_IN_FP_SECS (mix_time c)) (TP_IN_FP_SECS (mix_time prev)) then
              p ← ftell; mret (p - sizeof_record)
            else find_first_loop fuel initial_pos prev cur
        end
  end.

Definition playbackFindFirstOffset : M world Z :=
  initial_pos ← ftell;
  prev ← fread_rec;
  f ← file;
  match (prev : option ENGINE_EVENT) with
  | None => mret initial_pos     (* the first read already met the end *)
  | Some prev => find_first_loop (S (S (length (recs f)))) initial_pos prev None
  end.

Definition playbackRecordEvent (e : ENGINE_EVENT) : M world Z :=
  t ← gettimeofday;
  let rec := {| event := event e; mix_time := t |} in
  c ← gets (fun w => event_cnt (pb w));
  ok ← (if c =? MAX_PLAYBACK_EVENTS then
          modify (fun w => set_pb (with_cnt (pb w) (event_cnt (pb w)) 1) w) ;;
          fseek sizeof_header ;;
          fwrite_rec rec
        else fwrite_rec rec);
  if (ok : bool) then
    modify (fun w => set_pb (with_cnt (pb w) (uwrap 64 (event_cnt (pb w) + 1))
                                      (loopback_flag (pb w))) w) ;;
    mret 1
  else mret 0.

(** The loop of [playbackFindTime]; [rec] is the last record read. *)
Fixpoint find_time_loop (fuel : nat) (t : timeval) (start : Z) (rec : option ENGINE_EVENT)
  : M world Z :=
  match fuel with
  | O => lift NoFuel
  | S fuel =>
      r ← fread_rec;
      let rec := match (r : option ENGINE_EVENT) with Some r => Some r | None => rec end in
      match rec with
      | None => lift (Fault UninitRead)
      | Some c =>
          if d_leb (TP_IN_FP_SECS t) (TP_IN_FP_SECS (mix_time c)) then
            p ← ftell; mret (p - sizeof_record)
          else
            eof ← feof;
            (if (eof : bool) then fseek sizeof_header else mret tt) ;;
            p ← ftell;
            if p =? start then mret 0 else find_time_loop fuel t start rec
      end
  end.

Definition playbackFindTime (fuel : nat) (t : timeval) (start : Z) : M world Z :=
  fseek start ;;
  find_time_loop fuel t start None.

(** The function ends without returning a value. *)
Definition playbackFileShutdown : M world unit :=
  m ← gets (fun w => mode (pb w));
  match (m : playback_mode_t) with
  | RECORD_MODE =>
      t ← gettimeofday;
      l ← gets (fun w => loopback_flag (pb w));
      p ← (if l =? 0 then mret sizeof_header else ftell);
      h ← gets (fun w => header (pb w));
      c ← gets (fun w => event_cnt (pb w));
      let h := {| major_ver := major_ver h; minor_ver := minor_ver h; max_events := max_events h;
                  written := c; start_pos := p; start_t := start_t h; end_t := t |} in
      modify (fun w => set_pb (with_header (pb w) h) w) ;;
      fseek 0 ;;
      f ← file;
      ok ← fwrite_ok;
      if (ok : bool) then
        put_file {| file_header := Some h; recs := recs f; fpos := sizeof_header; at_eof := false |}
      else mret tt
  | PLAY_MODE => mret tt
  end.

(** Recording several events, one after the other. *)
Fixpoint record_all (es : list ENGINE_EVENT) : M world unit :=
  match es with
  | [] => mret tt
  | e :: es => playbackRecordEvent e ;; record_all es
  end.

End WithEnv.

(** ** Facts *)

Lemma index_of_offset k : index_of (offset k) = Some k.
Proof.
  unfold index_of, offset, sizeof_header, sizeof_record.
  replace (56 + Z.of_nat k * 40 - 56) with (Z.of_nat k * 40) by lia.
  rewrite decide_True by (split; [lia|apply Z.mod_mul; lia]).
  by rewrite Z.div_mul, Nat2Z.id by lia.
Qed.

Lemma offset_S k : offset k + sizeof_record = offset (S k).
Proof. unfold offset, sizeof_record. lia. Qed.

Lemma put_rec_end l e : put_rec l (length l) e = l ++ [e].
Proof. unfold put_rec. rewrite firstn_all, drop_ge by lia. done. Qed.

(** The records of a file after [l] was recorded, [max] being the number of
    events after which the stream goes back to the first record, once. *)
Definition ring (max : nat) (l : list ENGINE_EVENT) : list ENGINE_EVENT :=
  if decide (length l <= max)%nat then l
  else drop max l ++ drop (length l - max) (take max l).

Definition ring_pos (max n : nat) : nat := if decide (n <= max)%nat then n else n - max.

Lemma ring_length max l :
  length (ring max l) = if decide (length l <= max)%nat then length l
                        else Nat.max (length l - max) max.
Proof.
  unfold ring. case_decide; [done|].
  rewrite length_app, !length_drop, length_take. lia.
Qed.

Lemma ring_snoc max l e :
  (0 < max)%nat -> length l <> max ->
  put_rec (ring max l) (ring_pos max (length l)) e = ring max (l ++ [e]).
Proof.
  intros Hm Hne. unfold ring, ring_pos. rewrite length_app. simpl.
  case_decide as H1.
  - rewrite decide_True by lia. apply put_rec_end.
  - rewrite decide_False by lia. unfold put_rec.
    rewrite take_app_le by (rewrite length_drop; lia).
    rewrite (take_ge (drop max l)) by (rewrite length_drop; lia).
    rewrite drop_app_ge by (rewrite length_drop; lia). rewrite length_drop, drop_drop.
    rewrite drop_app_le, take_app_le by lia. rewrite <- app_assoc. simpl.
    do 3 f_equal. lia.
Qed.

Lemma ring_wrap max l e :
  (0 < max)%nat -> length l = max -> put_rec (ring max l) 0 e = ring max (l ++ [e]).
Proof.
  intros Hm Hl. unfold ring, put_rec. rewrite length_app. simpl.
  rewrite decide_True, decide_False by lia.
  rewrite drop_app_ge, take_app_le by lia. rewrite (take_ge l) by lia.
  replace (max - length l)%nat with 0%nat by lia. simpl.
  by replace (length l + 1 - max)%nat with 1%nat by lia.
Qed.

Definition max_events_nat : nat := Z.to_nat MAX_PLAYBACK_EVENTS.

(** [recorded w l]: [w] is recording, and the events [l] were written so far. *)
Definition recorded (w : world) (l : list ENGINE_EVENT) : Prop :=
  exists f, stream (pb w) = Some f /\ recs f = ring max_events_nat l /\
    fpos f = offset (ring_pos max_events_nat (length l)) /\
    event_cnt (pb w) = Z.of_nat (length l) /\
    loopback_flag (pb w) = (if decide (length l <= max_events_nat)%nat then 0 else 1).

Section Recording.
Context {E : Env} (Hw : forall k, fwrite_at k = true).

(** An event as it is written: with the time of the clock. *)
Definition stamped (n : nat) (e : ENGINE_EVENT) : ENGINE_EVENT :=
  {| event := event e; mix_time := time_at n |}.

Lemma fwrite_rec_ok w f k e :
  stream (pb w) = Some f -> fpos f = offset k ->
  exists w', fwrite_rec e w = Ok (true, w') /\
    pb w' = with_file (pb w) (Some {| file_header := file_header f; recs := put_rec (recs f) k e;
               fpos := offset (S k); at_eof := false |}) /\ time_calls w' = time_calls w.
Proof.
  intros Hf Hp. unfold fwrite_rec, mbind, M_bind, file. rewrite Hf. unfold fwrite_ok. rewrite Hw.
  rewrite Hp, index_of_offset, offset_S. simpl. eauto.
Qed.

Lemma playbackRecordEvent_step w l e :
  recorded w l -> Z.of_nat (length l) + 1 < 2 ^ 64 ->
  exists w', playbackRecordEvent e w = Ok (1, w') /\
    recorded w' (l ++ [stamped (time_calls w) e]) /\ time_calls w' = S (time_calls w).
Proof.
  intros (f & Hf & Hr & Hp & Hc & Hl) Hlt.
  assert (Hmax : Z.of_nat max_events_nat = 3200) by done.
  change MAX_PLAYBACK_EVENTS with 3200 in *.
  unfold playbackRecordEvent, gettimeofday, gets, mbind, M_bind. cbn [pb set_time_calls].
  change MAX_PLAYBACK_EVENTS with 3200. rewrite Hc. destruct (Z.of_nat (length l) =? 3200) eqn:Hm; zbool.
  - cbn [modify]. unfold fseek, file, put_file, modify, mbind, M_bind. cbn. rewrite Hf. cbn.
    match goal with |- context [fwrite_rec _ ?W] =>
      destruct (fwrite_rec_ok W (at_pos f sizeof_header false) 0
                  {| event := event e; mix_time := time_at (time_calls w) |})
        as (w' & -> & Hpb & Ht); [reflexivity|reflexivity|] end.
    cbn. rewrite Hpb. cbn. eexists. split; [reflexivity|]. split; [|by cbn; rewrite Ht].
    eexists. cbn. split; [reflexivity|]. cbn. rewrite Hr, length_app. cbn [length].
    rewrite decide_False by lia. unfold ring_pos. rewrite decide_False by lia.
    split_and!; [apply ring_wrap; lia|f_equal; lia| |done].
    rewrite Hc, (uwrap_small 64) by lia. lia.
  - destruct (fwrite_rec_ok (set_time_calls (S (time_calls w)) w) f _
                {| event := event e; mix_time := time_at (time_calls w) |} Hf Hp)
      as (w' & -> & Hpb & Ht).
    cbn. rewrite Hpb. cbn. eexists. split; [reflexivity|]. split; [|by cbn; rewrite Ht].
    eexists. cbn. split; [reflexivity|]. cbn. rewrite Hr, Hc, Hl, length_app. cbn [length].
    split_and!.
    + apply ring_snoc; lia.
    + f_equal. unfold ring_pos. repeat case_decide; lia.
    + rewrite (uwrap_small 64) by lia. lia.
    + repeat case_decide; try done; lia.
Qed.

Lemma record_all_recorded es : forall w l,
  recorded w l -> Z.of_nat (length l + length es) < 2 ^ 64 ->
  exists w', record_all es w = Ok (tt, w') /\
    recorded w' (l ++ imap (fun i => stamped (time_calls w + i)) es).
Proof.
  induction es as [|e es IH]; intros w l Hl Hlt.
  - exists w. by rewrite app_nil_r.
  - simpl in Hlt. destruct (playbackRecordEvent_step w l e Hl) as (w1 & E1 & H1 & T1); [lia|].
    destruct (IH w1 _ H1) as (w2 & E2 & H2); [rewrite length_app; simpl; lia|].
    exists w2. split.
    + cbn [record_all]. unfold mbind at 1, M_bind. by rewrite E1.
    + rewrite <- app_assoc, T1 in H2. simpl in *. rewrite Nat.add_0_r.
      erewrite imap_ext; [exact H2|]. intros i x _. simpl. f_equal. lia.
Qed.
End Recording.

(** *** Recording never fails *)

(** A recording that goes on has its stream at a record. *)
Definition on_tape (p : pstate) : Prop := exists f k, stream p = Some f /\ fpos f = offset k.

(** What recording an event may change. *)
Definition taped (p : pstate) (t c : nat) (w : world) : world :=
  set_pb p (set_time_calls t (set_fwrite_calls c w)).

Lemma taped_id w : taped (pb w) (time_calls w) (fwrite_calls w) w = w.
Proof. by destruct w. Qed.

Definition tape_ok (p : pstate) : Prop :=
  use_playback p = 0 \/ mode p = PLAY_MODE \/ on_tape p.

Lemma fwrite_rec_returns {E : Env} e w :
  on_tape (pb w) -> exists b p, fwrite_rec e w = Ok (b, taped p (time_calls w) (S (fwrite_calls w)) w) /\
    on_tape p /\ use_playback p = use_playback (pb w) /\ mode p = mode (pb w).
Proof.
  intros (f & k & Hf & Hk). unfold fwrite_rec, file, fwrite_ok, mbind, M_bind. rewrite Hf.
  destruct (fwrite_at (fwrite_calls w)).
  - rewrite Hk, index_of_offset. cbn. eexists _, _. split; [reflexivity|]. split_and!; [|done..].
    eexists _, (S k). split; [reflexivity|]. by rewrite offset_S.
  - exists false, (pb w). split; [by destruct w|]. split_and!; [|done..]. by exists f, k.
Qed.

Lemma playbackRecordEvent_returns {E : Env} e w :
  on_tape (pb w) -> exists n p t c, playbackRecordEvent e w = Ok (n, taped p t c w) /\
    on_tape p /\ use_playback p = use_playback (pb w) /\ mode p = mode (pb w).
Proof.
  intros Hw. pose proof Hw as (f & k & Hf & Hk). unfold playbackRecordEvent.
  erewrite bind_Ok by reflexivity. cbv zeta. erewrite bind_Ok by reflexivity.
  cbn [pb set_time_calls]. set (rec := {| event := event e; mix_time := _ |}).
  assert (exists b p t c, (if event_cnt (pb w) =? MAX_PLAYBACK_EVENTS then
      modify (fun w => set_pb (with_cnt (pb w) (event_cnt (pb w)) 1) w) ;;
      fseek sizeof_header ;; fwrite_rec rec
    else fwrite_rec rec) (set_time_calls (S (time_calls w)) w) = Ok (b, taped p t c w) /\
    on_tape p /\ use_playback p = use_playback (pb w) /\ mode p = mode (pb w)) as (b & p & t & c & H & Hp & Hu & Hm).
  { destruct (event_cnt (pb w) =? MAX_PLAYBACK_EVENTS).
    - erewrite bind_Ok by reflexivity.
      erewrite bind_Ok by (unfold fseek, file, put_file, modify, mbind, M_bind; cbn; rewrite Hf; reflexivity).
      match goal with |- context [fwrite_rec _ ?W] =>
        destruct (fwrite_rec_returns rec W) as (b & p & -> & Hp & Hu & Hm) end.
      { eexists _, 0%nat. split; [reflexivity|done]. }
      exists b, p. eexists _, _. by split.
    - destruct (fwrite_rec_returns rec (set_time_calls (S (time_calls w)) w) Hw) as (b & p & -> & H).
      exists b, p. eexists _, _. by split. }
  mstep H. destruct b; [|exists 0, p, t, c; by split_and!].
  erewrite bind_Ok by reflexivity. eexists _, _, t, c. split; [reflexivity|]. by split_and!.
Qed.

Lemma record_init_recorded {E : Env} w :
  (forall k, fwrite_at k = true) -> event_cnt (pb w) = 0 -> loopback_flag (pb w) = 0 ->
  exists w', record_init w = Ok (1, w') /\ recorded w' [] /\ time_calls w' = S (time_calls w).
Proof.
  intros Hw Hc Hl. unfold record_init, gettimeofday, fwrite_ok, put_file, modify, mbind, M_bind.
  cbn. rewrite Hw. cbn. eexists. split; [reflexivity|]. split; [|done].
  eexists. split; [reflexivity|]. done.
Qed.

(** *** Finding the earliest event *)

Definition earlier (p r : ENGINE_EVENT) : bool :=
  d_ltb (TP_IN_FP_SECS (mix_time r)) (TP_IN_FP_SECS (mix_time p)).

(** The index of the first of the records [l], the first of which is record
    [k], that is earlier than [p]. *)
Fixpoint first_earlier (p : ENGINE_EVENT) (l : list ENGINE_EVENT) (k : nat) : option nat :=
  match l with
  | [] => None
  | r :: l => if earlier p r then Some k else first_earlier p l (S k)
  end.

Lemma find_first_loop_spec fuel w f init p l k cur :
  stream (pb w) = Some f -> fpos f = offset k -> at_eof f = false ->
  drop k (recs f) = l -> (length l + 2 <= fuel)%nat ->
  match cur with Some c => earlier p c = false | None => l <> [] end ->
  exists w', find_first_loop fuel init p cur w =
    Ok (match first_earlier p l k with Some i => offset i | None => init end, w').
Proof.
  revert w f l k cur. induction fuel as [|fuel IH]; intros w f l k cur Hf Hp He Hd Hfu Hc; [lia|].
  cbn [find_first_loop]. unfold feof, fread_rec, ftell, file, put_file, modify, mbind, M_bind.
  rewrite Hf. cbn. rewrite He, Hf. cbn. rewrite Hp, index_of_offset.
  destruct l as [|r l].
  - assert (recs f !! k = None) as ->.
    { apply lookup_ge_None. apply (f_equal length) in Hd. rewrite length_drop in Hd. simpl in Hd. lia. }
    cbn. destruct cur as [c|]; [|done]. unfold earlier in Hc. rewrite Hc.
    destruct fuel as [|fuel]; [simpl in Hfu; lia|]. cbn. eauto.
  - assert (recs f !! k = Some r) as -> by (by rewrite <- (Nat.add_0_r k), <- lookup_drop, Hd).
    cbn. cbn [first_earlier]. unfold earlier at 1. case_if.
    + cbn. rewrite Z.add_simpl_r. eauto.
    + eapply IH; [reflexivity|cbn; by rewrite offset_S|reflexivity| |simpl in Hfu; lia|exact E].
      cbn. by rewrite <- Nat.add_1_r, <- drop_drop, Hd.
Qed.

Lemma first_earlier_app p l1 l2 k :
  Forall (fun r => earlier p r = false) l1 ->
  first_earlier p (l1 ++ l2) k = first_earlier p l2 (k + length l1).
Proof.
  intros H. revert k. induction H as [|r l1 Hr _ IH]; intros k; simpl.
  { f_equal. lia. }
  rewrite Hr, IH. f_equal. lia.
Qed.

(** ** Properties *)

(** What a recording of [es] leaves in the file, when every write
    succeeds: the first [MAX_PLAYBACK_EVENTS] events in order; the following
    events overwrite them from the start; but the stream goes back only once,
    so that from the second round on the file grows with every event. *)
Theorem playback_ring_wraps_once `{E : Env} (w : world) (es : list ENGINE_EVENT) :
  (forall k, fwrite_at k = true) -> event_cnt (pb w) = 0 -> loopback_flag (pb w) = 0 ->
  Z.of_nat (length es) < 2 ^ 64 ->
  exists w' f, (record_init ≫= (fun _ => record_all es)) w = Ok (tt, w') /\
    stream (pb w') = Some f /\
    recs f = ring max_events_nat (imap (fun i => stamped (S (time_calls w) + i)) es) /\
    length (recs f) = (if decide (length es <= max_events_nat)%nat then length es
                       else Nat.max (length es - max_events_nat) max_events_nat).
Proof.
  intros Hw Hc Hl Hlt. destruct (record_init_recorded w Hw Hc Hl) as (w1 & E1 & H1 & T1).
  destruct (record_all_recorded Hw es w1 [] H1) as (w2 & E2 & f & Hf & Hr & _); [simpl; lia|].
  exists w2, f. split_and!.
  - unfold mbind, M_bind. by rewrite E1.
  - done.
  - by rewrite Hr, T1.
  - rewrite Hr, ring_length. by rewrite app_nil_l, length_imap.
Qed.

(** [playbackFindFirstOffset] finds the earliest event of a file that was
    overwritten from its start: when no event of the newer part is earlier
    than the first event of the file and the first of the older part is, it
    returns the offset of the latter. *)
Theorem playbackFindFirstOffset_spec (w : world) (f : pfile) (p o : ENGINE_EVENT)
    (newer older : list ENGINE_EVENT) :
  stream (pb w) = Some f -> fpos f = offset 0 -> at_eof f = false ->
  recs f = (p :: newer) ++ (o :: older) ->
  Forall (fun r => earlier p r = false) newer -> earlier p o = true ->
  exists w', playbackFindFirstOffset w = Ok (offset (S (length newer)), w').
Proof.
  intros Hf Hp He Hr Hn Ho. unfold playbackFindFirstOffset.
  unfold ftell, fread_rec, file, put_file, modify, mbind, M_bind.
  rewrite Hf. cbn -[find_first_loop]. rewrite Hf. cbn -[find_first_loop].
  rewrite Hp, index_of_offset, Hr. cbn -[find_first_loop].
  match goal with |- context [find_first_loop ?fu ?i p None ?W] =>
    destruct (find_first_loop_spec fu W (at_pos f (offset 1) false) i p (newer ++ o :: older) 1 None)
      as (w' & E) end.
  - cbn. by rewrite offset_S.
  - done.
  - done.
  - cbn. by rewrite Hr.
  - cbn. rewrite Hr. simpl. lia.
  - by destruct newer.
  - rewrite first_earlier_app in E by done. cbn [first_earlier] in E. rewrite Ho in E.
    exists w'. exact E.
Qed.

Definition rec_at_time (s : Z) : ENGINE_EVENT :=
  {| event := event (MixerQueue.sample 1); mix_time := {| tv_sec := s; tv_usec := 0 |} |}.

Lemma playback_ring_wraps_once_witness :
  exists w' f, (record_init (E := steady_env)
                  ≫= (fun _ => record_all (E := steady_env) [rec_at_time 0; rec_at_time 0]))
                 blank_world = Ok (tt, w') /\
    stream (pb w') = Some f /\
    recs f = ring max_events_nat [rec_at_time 2; rec_at_time 3] /\ length (recs f) = 2%nat.
Proof.
  destruct (playback_ring_wraps_once (E := steady_env) blank_world [rec_at_time 0; rec_at_time 0])
    as (w' & f & H1 & H2 & H3 & H4); [done|done|done|done|].
  exists w', f. split; [exact H1|]. split; [exact H2|]. split; [exact H3|].
  rewrite H4. reflexivity.
Defined.

(** Five records, written at times 7, 8, 4, 5, 6. *)
Lemma playbackFindFirstOffset_spec_witness :
  let f := {| file_header := None; recs := rec_at_time <$> [7; 8; 4; 5; 6]; fpos := offset 0;
              at_eof := false |} in
  exists w', playbackFindFirstOffset (set_pb (with_file blank_pb (Some f)) blank_world)
             = Ok (offset 2, w').
Proof.
  intros f. apply (playbackFindFirstOffset_spec _ f (rec_at_time 7) (rec_at_time 4)
    [rec_at_time 8] [rec_at_time 5; rec_at_time 6]); try reflexivity.
  apply Forall_singleton. reflexivity.
Defined.
