(* ===== verification/Replay.v ===== *)
(** * Replaying a recording ([playbackGo] of [playback.c])

    [playbackGo] hands the records of a file to [engineEnqueue], sleeping
    between them, and is expected not to return before the last one. The file
    does not include [engine_queue.h]: the call passes a whole [ENGINE_EVENT],
    whose first bytes are those of the event. The model lists what is handed
    over, with the sleeps in between. *)

From stdpp Require Import base list strings.
From Stdlib Require Import ZArith Lia String Sorted.
From S2P Require Import Prelude Events CString Dbl SoundTable MixerQueue World Playback.
Local Open Scope Z_scope.

Definition PLAYBACK_TRAIL_TIME : Z := 5.

(** What a playback does to the outside: [usleep], [engineEnqueue] and the
    final [sleep]. *)
Inductive act : Type :=
| Usleep (usec : Z)
| Handed (rec : ENGINE_EVENT)
| Trail (sec : Z).

Record replay : Type := { r_world : world; r_acts : list act }.

Definition on_world {A} (m : M world A) : M replay A := fun s =>
  '(a, w) ← m (r_world s); mret (a, {| r_world := w; r_acts := r_acts s |}).

Definition emit (a : act) : M replay unit :=
  modify (fun s => {| r_world := r_world s; r_acts := r_acts s ++ [a] |}).

Section Replay.
(** [mktime_of]: the seconds [mktime] gives for the fields that [strptime]
    reads from a text. [eintr]: whether [errno] is [EINTR] at an iteration of
    the loop. *)
Context {E : Env} (mktime_of : string -> Z) (eintr : nat -> bool).

Definition time_of (s : string) : timeval := {| tv_sec := mktime_of s; tv_usec := 0 |}.

(** [fseek] fails for a negative offset. [shutdown], which is then called
    without arguments, is the function for sockets: it returns. *)
Definition seek_or_shutdown (off : Z) : M world unit :=
  if off <? 0 then mret tt else fseek off.

(** The fuel [playbackFindTime] needs for the file ([find_time_returns]). *)
Definition find_fuel : M world nat := f ← file; mret (S (S (List.length (recs f)))).

Definition set_start_pos (p : Z) : M world unit :=
  modify (fun w => let h := header (pb w) in
    set_pb (with_header (pb w)
      {| major_ver := major_ver h; minor_ver := minor_ver h; max_events := max_events h;
         written := written h; start_pos := p; start_t := start_t h; end_t := end_t h |}) w).

(** The part of [playbackGo] that sets [start_pos] and [end_pos] and the
    stream; [end_pos] is not set when there is a start time only. *)
Definition playback_bounds (start_t end_t : option string) : M world (Z * option Z) :=
  match start_t with
  | Some s =>
      p ← playbackFindFirstOffset;
      set_start_pos p ;;
      fuel ← find_fuel;
      p ← playbackFindTime fuel (time_of s) p;
      let start_pos := if p =? 0 then sizeof_header else p in
      end_pos ← match end_t with
        | Some t =>
            q ← playbackFindFirstOffset;
            q ← playbackFindTime fuel (time_of t) q;
            h ← gets (fun w => header (pb w));
            mret (Some (if q =? 0 then
                          if World.start_pos h =? sizeof_header then sizeof_header
                          else start_pos - sizeof_record
                        else q))
        | None => mret None
        end;
      seek_or_shutdown start_pos ;;
      mret (start_pos, end_pos)
  | None =>
      h ← gets (fun w => header (pb w));
      (if negb (d_eqb (TP_IN_FP_SECS (World.end_t h)) d_zero)
       then seek_or_shutdown (start_pos h)
       else p ← playbackFindFirstOffset; seek_or_shutdown p) ;;
      p ← ftell;
      mret (p, Some 0)
  end.

(** The microseconds to sleep before [rec], when it is not yet due. *)
Definition wait_for (event_offset time_offset current : timeval) (rec : ENGINE_EVENT)
  : option (res Z) :=
  let plbk_offset := d_sub (TP_IN_FP_SECS (mix_time rec)) (TP_IN_FP_SECS event_offset) in
  let cur_time_offset := d_sub (TP_IN_FP_SECS current) (TP_IN_FP_SECS time_offset) in
  if d_ltb cur_time_offset plbk_offset
  then Some (d_conv 0 (2 ^ 64 - 1)
               (d_mul (d_sub plbk_offset cur_time_offset) (d_of_Z 1000000)))
  else None.

(** The rest of the loop's body, with the record at hand. *)
Definition present (event_offset time_offset : timeval) (rec : ENGINE_EVENT) : M replay unit :=
  current ← on_world gettimeofday;
  match wait_for event_offset time_offset current rec with
  | Some us => us ← lift us; emit (Usleep us)
  | None => mret tt
  end ;;
  emit (Handed rec) ;;
  on_world (modify (fun w => set_pb (with_cnt (pb w) (uwrap 64 (event_cnt (pb w) + 1))
                                              (loopback_flag (pb w))) w)).

(** Iteration [k] of the loop; [rec] is the variable that holds the last
    record read, which a failed read leaves as it was. *)
Definition go_step (event_offset time_offset : timeval) (k : nat) (rec : ENGINE_EVENT)
  : M replay ENGINE_EVENT :=
  r ← on_world fread_rec;
  match (r : option ENGINE_EVENT) with
  | Some rec => present event_offset time_offset rec ;; mret rec
  | None =>
      if eintr k then on_world (fseek sizeof_header) ;; mret rec
      else present event_offset time_offset rec ;; mret rec
  end.

Definition go_on (start_pos : Z) (end_pos : option Z) : M world bool :=
  p ← ftell;
  match end_pos with
  | None => lift (Fault UninitRead)
  | Some e => mret (negb (p =? e) && negb (p =? start_pos))
  end.

(** At most [n] iterations; [true] when the loop has ended. *)
Fixpoint go_loop (event_offset time_offset : timeval) (start_pos : Z) (end_pos : option Z)
    (n k : nat) (rec : ENGINE_EVENT) : M replay bool :=
  match n with
  | O => mret false
  | S n =>
      rec ← go_step event_offset time_offset k rec;
      b ← on_world (go_on start_pos end_pos);
      if (b : bool) then go_loop event_offset time_offset start_pos end_pos n (S k) rec
      else mret true
  end.

(** [playbackGo] up to iteration [n] of its loop; [true] when it has
    returned. *)
Definition playbackGo (n : nat) (start_t end_t : option string) : M replay bool :=
  '(start_pos, end_pos) ← on_world (playback_bounds start_t end_t);
  r ← on_world fread_rec;
  match (r : option ENGINE_EVENT) with
  | None => lift (Fault UninitRead)
  | Some rec =>
      time_offset ← on_world gettimeofday;
      on_world (p ← ftell; fseek (p - sizeof_record)) ;;
      ended ← go_loop (mix_time rec) time_offset start_pos end_pos n 0 rec;
      if (ended : bool) then emit (Trail PLAYBACK_TRAIL_TIME) ;; mret true else mret false
  end.

End Replay.

(** The records handed over. *)
Definition handed (l : list act) : list ENGINE_EVENT :=
  omap (fun a => match a with Handed r => Some r | _ => None end) l.

(** ** The stream

    [at_rec w l k b]: the stream of [w] is at record [k] of the records [l],
    with the end-of-file indicator [b]. *)

Definition at_rec (w : world) (l : list ENGINE_EVENT) (k : nat) (b : bool) : Prop :=
  exists f, stream (pb w) = Some f /\ recs f = l /\ fpos f = offset k /\ at_eof f = b.

Lemma offset_0 : sizeof_header = offset 0.
Proof. done. Qed.

Lemma offset_inj j k : offset j = offset k -> j = k.
Proof. unfold offset, sizeof_record. lia. Qed.

Lemma offset_eqb j k : (offset j =? offset k) = bool_decide (j = k).
Proof.
  case_bool_decide as H; [subst; apply Z.eqb_refl|].
  apply Z.eqb_neq. intros E. by apply offset_inj in E.
Qed.

Lemma offset_pos k : 0 < offset k.
Proof. unfold offset, sizeof_header, sizeof_record. lia. Qed.

Lemma ftell_at w l k b : at_rec w l k b -> ftell w = Ok (offset k, w).
Proof.
  intros (f & Hf & _ & Hp & _). unfold ftell, file, mbind, M_bind. rewrite Hf. simpl. by rewrite Hp.
Qed.

Lemma feof_at w l k b : at_rec w l k b -> feof w = Ok (b, w).
Proof.
  intros (f & Hf & _ & _ & He). unfold feof, file, mbind, M_bind. rewrite Hf. simpl. by rewrite He.
Qed.

Lemma file_at w l k b : at_rec w l k b -> exists f, file w = Ok (f, w) /\ recs f = l.
Proof. intros (f & Hf & Hl & _). exists f. unfold file. by rewrite Hf. Qed.

Lemma fseek_at w l k b j :
  at_rec w l k b -> exists w', fseek (offset j) w = Ok (tt, w') /\ at_rec w' l j false /\
    header (pb w') = header (pb w) /\ event_cnt (pb w') = event_cnt (pb w).
Proof.
  intros (f & Hf & Hl & _). unfold fseek, file, put_file, modify, mbind, M_bind. rewrite Hf. simpl.
  eexists. split_and!; [reflexivity| |done|done]. exists (at_pos f (offset j) false). done.
Qed.

Lemma fread_at w l k b r :
  at_rec w l k b -> l !! k = Some r ->
  exists w', fread_rec w = Ok (Some r, w') /\ at_rec w' l (S k) false /\
    header (pb w') = header (pb w).
Proof.
  intros (f & Hf & Hl & Hp & _) Hr. unfold fread_rec, file, put_file, modify, mbind, M_bind.
  rewrite Hf. simpl. rewrite Hp, index_of_offset, Hl, Hr. simpl.
  eexists. split_and!; [reflexivity| |done].
  exists (at_pos f (offset k + sizeof_record) false). rewrite offset_S. done.
Qed.

Lemma fread_at_end w l k b :
  at_rec w l k b -> l !! k = None ->
  exists w', fread_rec w = Ok (None, w') /\ at_rec w' l k true /\ header (pb w') = header (pb w).
Proof.
  intros (f & Hf & Hl & Hp & _) Hr. unfold fread_rec, file, put_file, modify, mbind, M_bind.
  rewrite Hf. simpl. rewrite Hp, index_of_offset, Hl, Hr. simpl.
  eexists. split_and!; [reflexivity| |done]. by exists (at_pos f (offset k) true).
Qed.

Lemma seek_at w l k b j :
  at_rec w l k b -> exists w', seek_or_shutdown (offset j) w = Ok (tt, w') /\ at_rec w' l j false /\
    header (pb w') = header (pb w) /\ event_cnt (pb w') = event_cnt (pb w).
Proof.
  intros H. unfold seek_or_shutdown. pose proof (offset_pos j).
  destruct (Z.ltb_spec (offset j) 0); [lia|]. by eapply fseek_at.
Qed.

(** A step of the world in a playback. *)
Lemma on_world_Ok {A} (m : M world A) s a w :
  m (r_world s) = Ok (a, w) ->
  on_world m s = Ok (a, {| r_world := w; r_acts := r_acts s |}).
Proof. intros H. unfold on_world. by rewrite H. Qed.

Lemma on_world_Fault {A} (m : M world A) s f : m (r_world s) = Fault f -> on_world m s = Fault f.
Proof. intros H. unfold on_world. by rewrite H. Qed.

Lemma handed_snoc l a :
  handed (l ++ [a]) = handed l ++ match a with Handed r => [r] | _ => [] end.
Proof. unfold handed. rewrite omap_app. by destruct a. Qed.

Section Facts.
Context {E : Env} (mktime_of : string -> Z) (eintr : nat -> bool).

(** The clock and the records are such that every sleep is one [usleep] can be
    asked for: the conversion to [unsigned long] is defined. *)
Definition sleeps_ok (event_offset time_offset : timeval) (rec : ENGINE_EVENT) : Prop :=
  forall k r, wait_for event_offset time_offset (time_at k) rec = Some r ->
    exists us, r = Ok us.

Lemma present_at ev_off t_off rec s l k b :
  at_rec (r_world s) l k b -> sleeps_ok ev_off t_off rec ->
  exists s', present ev_off t_off rec s = Ok (tt, s') /\ at_rec (r_world s') l k b /\
    handed (r_acts s') = handed (r_acts s) ++ [rec].
Proof.
  intros (f & Hf & Hl & Hp & He) Hs. unfold present, gettimeofday.
  erewrite bind_Ok by (apply on_world_Ok; reflexivity).
  set (n := time_calls (r_world s)). specialize (Hs n).
  destruct (wait_for ev_off t_off (time_at n) rec) as [r|].
  - destruct (Hs r eq_refl) as [us ->]. unfold lift, emit, modify, on_world, mbind, M_bind. simpl.
    eexists. split_and!; [reflexivity|by exists f|]. cbn [r_acts].
    rewrite !handed_snoc. simpl. by rewrite app_nil_r.
  - unfold emit, modify, on_world, mbind, M_bind. simpl.
    eexists. split_and!; [reflexivity|by exists f|]. cbn [r_acts]. by rewrite handed_snoc.
Qed.

Lemma go_on_at w l k b start e :
  at_rec w l k b ->
  go_on (offset start) (Some e) w
    = Ok (negb (offset k =? e) && negb (bool_decide (k = start)), w).
Proof.
  intros H. unfold go_on. mstep (ftell_at w l k b H). simpl. by rewrite offset_eqb.
Qed.

(** An iteration that reads record [k]. *)
Lemma go_step_read ev_off t_off i rec s l k b r :
  at_rec (r_world s) l k b -> l !! k = Some r -> sleeps_ok ev_off t_off r ->
  exists s', go_step eintr ev_off t_off i rec s = Ok (r, s') /\
    at_rec (r_world s') l (S k) false /\ handed (r_acts s') = handed (r_acts s) ++ [r].
Proof.
  intros Ha Hr Hs. destruct (fread_at _ _ _ _ _ Ha Hr) as (w & Ew & Hw & _).
  unfold go_step. mstep (on_world_Ok fread_rec s _ _ Ew).
  edestruct (present_at ev_off t_off r {| r_world := w; r_acts := r_acts s |})
    as (s' & Es & Hs' & Hh); [exact Hw|done|].
  exists s'. mstep Es. done.
Qed.

(** An iteration at the end of the file, [errno] not being [EINTR]: the last
    record is handed over once more. *)
Lemma go_step_end ev_off t_off i rec s l k b :
  at_rec (r_world s) l k b -> l !! k = None -> eintr i = false -> sleeps_ok ev_off t_off rec ->
  exists s', go_step eintr ev_off t_off i rec s = Ok (rec, s') /\
    at_rec (r_world s') l k true /\ handed (r_acts s') = handed (r_acts s) ++ [rec].
Proof.
  intros Ha Hr Hi Hs. destruct (fread_at_end _ _ _ _ Ha Hr) as (w & Ew & Hw & _).
  unfold go_step. mstep (on_world_Ok fread_rec s _ _ Ew). rewrite Hi.
  edestruct (present_at ev_off t_off rec {| r_world := w; r_acts := r_acts s |})
    as (s' & Es & Hs' & Hh); [exact Hw|done|].
  exists s'. mstep Es. done.
Qed.

(** An iteration at the end of the file with [errno] being [EINTR]: back to
    the first record. *)
Lemma go_step_eintr ev_off t_off i rec s l k b :
  at_rec (r_world s) l k b -> l !! k = None -> eintr i = true ->
  exists s', go_step eintr ev_off t_off i rec s = Ok (rec, s') /\
    at_rec (r_world s') l 0 false /\ handed (r_acts s') = handed (r_acts s).
Proof.
  intros Ha Hr Hi. destruct (fread_at_end _ _ _ _ Ha Hr) as (w & Ew & Hw & _).
  destruct (fseek_at _ _ _ _ 0%nat Hw) as (w2 & Ew2 & Hw2 & _).
  unfold go_step. mstep (on_world_Ok fread_rec s _ _ Ew). rewrite Hi.
  mstep (on_world_Ok (fseek sizeof_header) {| r_world := w; r_acts := r_acts s |} _ _ Ew2).
  eexists. split_and!; [reflexivity|done|done].
Qed.

(** The loop reading [m] records on the way to neither end. *)
Lemma go_loop_reads ev_off t_off l start e m : forall n i rec s k b,
  at_rec (r_world s) l k b -> (k + m <= List.length l)%nat ->
  (forall j, (k < j <= k + m)%nat -> j <> start /\ offset j <> e) ->
  Forall (sleeps_ok ev_off t_off) l ->
  exists s' b', go_loop eintr ev_off t_off (offset start) (Some e) (m + n) i rec s
      = go_loop eintr ev_off t_off (offset start) (Some e) n (i + m)
          (default rec (last (take m (drop k l)))) s' /\
    at_rec (r_world s') l (k + m) b' /\
    handed (r_acts s') = handed (r_acts s) ++ take m (drop k l).
Proof.
  induction m as [|m IH]; intros n i rec s k b Ha Hk Hj Hs.
  { exists s, b. simpl. rewrite take_0, app_nil_r, !Nat.add_0_r. done. }
  destruct (lookup_lt_is_Some_2 l k) as [r Hr]; [lia|].
  destruct (go_step_read ev_off t_off i rec s l k b r Ha Hr) as (s1 & E1 & A1 & H1).
  { eapply Forall_lookup_1; eassumption. }
  cbn [Nat.add go_loop]. mstep E1.
  mstep (on_world_Ok _ _ _ _ (go_on_at _ _ _ _ start e A1)).
  destruct (Hj (S k)) as [Hne He]; [lia|].
  rewrite (proj2 (Z.eqb_neq _ _) He), bool_decide_false by done. cbn [negb andb].
  destruct (IH n (S i) r {| r_world := r_world s1; r_acts := r_acts s1 |} (S k) false A1)
    as (s' & b' & E' & A' & H'); [lia|intros j Hj'; apply Hj; lia|done|].
  exists s', b'. rewrite (drop_S l r k) by done. split_and!.
  - rewrite E'. f_equal; [lia|]. cbn [take]. rewrite last_cons.
    by destruct (last (take m (drop (S k) l))).
  - by rewrite Nat.add_succ_r.
  - rewrite H'. cbn [r_acts]. rewrite H1, <- app_assoc. done.
Qed.

(** The loop at the end of the file. *)
Lemma go_loop_forever ev_off t_off l start e n : forall i rec s b,
  at_rec (r_world s) l (List.length l) b -> start <> List.length l -> offset (List.length l) <> e ->
  (forall i, eintr i = false) -> sleeps_ok ev_off t_off rec ->
  exists s', go_loop eintr ev_off t_off (offset start) (Some e) n i rec s = Ok (false, s') /\
    handed (r_acts s') = handed (r_acts s) ++ replicate n rec.
Proof.
  induction n as [|n IH]; intros i rec s b Ha Hst He Hi Hs.
  { exists s. simpl. by rewrite app_nil_r. }
  destruct (go_step_end ev_off t_off i rec s l _ b Ha) as (s1 & E1 & A1 & H1);
    [by apply lookup_ge_None|done|done|].
  cbn [go_loop]. mstep E1. mstep (on_world_Ok _ _ _ _ (go_on_at _ _ _ _ start e A1)).
  rewrite (proj2 (Z.eqb_neq _ _) He), bool_decide_false by done. cbn [negb andb].
  destruct (IH (S i) rec {| r_world := r_world s1; r_acts := r_acts s1 |} true A1) as (s' & E' & H');
    [done..|].
  exists s'. split; [exact E'|]. rewrite H'. cbn [r_acts]. rewrite H1, <- app_assoc. done.
Qed.

(** Playing from record [k] on with no end: the records that follow it in the
    file, then the last of them again and again. *)
Definition endless (n k : nat) (l : list ENGINE_EVENT) : list ENGINE_EVENT :=
  take n (drop k l ++ match last (drop k l) with Some r => replicate n r | None => [] end).

Lemma go_loop_endless ev_off t_off l n i rec s k b :
  at_rec (r_world s) l k b -> (k < List.length l)%nat -> (forall i, eintr i = false) ->
  Forall (sleeps_ok ev_off t_off) l ->
  exists s', go_loop eintr ev_off t_off (offset k) (Some 0) n i rec s = Ok (false, s') /\
    handed (r_acts s') = handed (r_acts s) ++ endless n k l.
Proof.
  intros Ha Hk Hi Hs. set (m := (List.length l - k)%nat).
  assert (Hj : forall j p, (k < j <= k + p)%nat -> j <> k /\ offset j <> 0).
  { intros j p Hj. pose proof (offset_pos j). lia. }
  assert (Hlen : List.length (drop k l) = m) by (by rewrite length_drop).
  unfold endless. destruct (decide (n <= m)%nat) as [Hn|Hn].
  - destruct (go_loop_reads ev_off t_off l k 0 n 0 i rec s k b Ha) as (s' & b' & E' & _ & H');
      [lia|by eauto|done|].
    exists s'. rewrite Nat.add_0_r in E'. rewrite E'. split; [done|].
    rewrite H', take_app_le by lia. done.
  - destruct (go_loop_reads ev_off t_off l k 0 m (n - m) i rec s k b Ha) as (s1 & b1 & E1 & A1 & H1);
      [lia|by eauto|done|].
    replace (m + (n - m))%nat with n in E1 by lia. rewrite E1.
    rewrite (take_ge (drop k l)) in * by lia.
    destruct (last (drop k l)) as [r|] eqn:Hr.
    2:{ apply last_None in Hr. apply (f_equal List.length) in Hr. simpl in Hr. lia. }
    simpl. replace (k + m)%nat with (List.length l) in A1 by lia.
    destruct (go_loop_forever ev_off t_off l k 0 (n - m) (i + m) r s1 b1 A1) as (s' & E' & H').
    + lia.
    + pose proof (offset_pos (List.length l)). lia.
    + done.
    + rewrite last_lookup, lookup_drop in Hr. by eapply Forall_lookup_1.
    + exists s'. split; [done|]. rewrite H', H1, take_app_ge, Hlen, <- app_assoc by lia.
      do 2 f_equal. rewrite take_replicate. f_equal. lia.
Qed.

(** Reading [S m] records, the last of which leads to the end asked for or
    back to the start. *)
Lemma go_loop_ends ev_off t_off l start e m : forall n i rec s k b,
  at_rec (r_world s) l k b -> (k + m < List.length l)%nat ->
  (forall j, (k < j <= k + m)%nat -> j <> start /\ offset j <> e) ->
  (k + S m)%nat = start \/ offset (k + S m) = e ->
  Forall (sleeps_ok ev_off t_off) l ->
  exists s', go_loop eintr ev_off t_off (offset start) (Some e) (S m + n) i rec s = Ok (true, s') /\
    handed (r_acts s') = handed (r_acts s) ++ take (S m) (drop k l).
Proof.
  intros n i rec s k b Ha Hk Hj Hend Hs.
  destruct (go_loop_reads ev_off t_off l start e m (S n) i rec s k b Ha) as (s1 & b1 & E1 & A1 & H1);
    [lia|done..|].
  replace (S m + n)%nat with (m + S n)%nat by lia. rewrite E1.
  destruct (lookup_lt_is_Some_2 l (k + m)) as [r Hr]; [lia|].
  edestruct (go_step_read ev_off t_off (i + m) (default rec (last (take m (drop k l)))) s1 l (k + m) b1 r)
    as (s2 & E2 & A2 & H2); [done|done|by eapply Forall_lookup_1|].
  cbn [go_loop]. mstep E2. mstep (on_world_Ok _ _ _ _ (go_on_at _ _ _ _ start e A2)).
  assert (negb (offset (S (k + m)) =? e) && negb (bool_decide (S (k + m) = start)) = false) as ->.
  { rewrite <- Nat.add_succ_r. destruct Hend as [<-| ->].
    - rewrite bool_decide_true by done. apply andb_false_r.
    - by rewrite Z.eqb_refl. }
  eexists. split; [reflexivity|]. cbn [r_acts]. rewrite H2, H1, <- app_assoc.
  f_equal. symmetry. apply take_S_r. by rewrite lookup_drop.
Qed.

(** Playing from record [k] on with no end, [errno] being [EINTR] at the end
    of the file: every record once, and the playback is over. *)
Lemma go_loop_round ev_off t_off l n i rec s k b :
  at_rec (r_world s) l k b -> (k < List.length l < n)%nat -> (forall i, eintr i = true) ->
  Forall (sleeps_ok ev_off t_off) l ->
  exists s', go_loop eintr ev_off t_off (offset k) (Some 0) n i rec s = Ok (true, s') /\
    handed (r_acts s') = handed (r_acts s) ++ drop k l ++ take k l.
Proof.
  intros Ha Hk Hi Hs. set (m := (List.length l - k)%nat).
  assert (Hp : forall j, offset j <> 0) by (intros j; pose proof (offset_pos j); lia).
  destruct (go_loop_reads ev_off t_off l k 0 m (n - m) i rec s k b Ha) as (s1 & b1 & E1 & A1 & H1);
    [lia| |done|].
  { intros j Hj. split; [lia|apply Hp]. }
  replace (m + (n - m))%nat with n in E1 by lia. rewrite E1.
  rewrite (take_ge (drop k l)) in * by (rewrite length_drop; lia).
  replace (k + m)%nat with (List.length l) in A1 by lia.
  edestruct (go_step_eintr ev_off t_off (i + m) (default rec (last (drop k l))) s1 l
    (List.length l) b1) as (s2 & E2 & A2 & H2); [done|by apply lookup_ge_None|done|].
  destruct (n - m)%nat as [|n'] eqn:En; [lia|]. cbn [go_loop]. mstep E2.
  mstep (on_world_Ok _ _ _ _ (go_on_at _ _ _ _ k 0 A2)).
  rewrite (proj2 (Z.eqb_neq _ _) (Hp 0%nat)). cbn [negb andb].
  destruct k as [|k]; case_bool_decide; try lia; cbn [negb].
  - eexists. split; [reflexivity|]. cbn [r_acts]. by rewrite H2, H1, take_0, app_nil_r.
  - destruct (go_loop_ends ev_off t_off l (S k) 0 k (n' - S k) (S (i + m))
      (default rec (last (drop (S k) l))) {| r_world := r_world s2; r_acts := r_acts s2 |} 0 false A2)
      as (s3 & E3 & H3); [lia| |by left|done|].
    { intros j Hj. split; [lia|apply Hp]. }
    replace (S k + (n' - S k))%nat with n' in E3 by lia.
    exists s3. split; [exact E3|]. rewrite H3. cbn [r_acts]. rewrite H2, H1, drop_0, <- app_assoc. done.
Qed.

(** *** Searching for a time *)

Definition before (t : timeval) (r : ENGINE_EVENT) : bool :=
  negb (d_leb (TP_IN_FP_SECS t) (TP_IN_FP_SECS (mix_time r))).

(** The first record that is not before [t], looking from record [k] on. *)
Lemma find_time_loop_at t start l a r : forall fuel w k b rec,
  at_rec w l k b -> drop k l = a ++ r :: drop (S (k + List.length a)) l ->
  Forall (fun r => before t r = true) a -> before t r = false ->
  (forall j, (k < j <= k + List.length a)%nat -> offset j <> start) ->
  (List.length a < fuel)%nat ->
  exists w', find_time_loop fuel t start rec w = Ok (offset (k + List.length a), w') /\
    at_rec w' l (S (k + List.length a)) false /\ header (pb w') = header (pb w).
Proof.
  induction a as [|x a IH]; intros fuel w k b rec Ha Hd Hb Hr Hj Hf;
    (destruct fuel as [|fuel]; [simpl in Hf; lia|]); cbn [find_time_loop].
  - assert (l !! k = Some r) as Hk by (rewrite <- (Nat.add_0_r k), <- lookup_drop, Hd; done).
    destruct (fread_at _ _ _ _ _ Ha Hk) as (w1 & E1 & A1 & H1). mstep E1.
    unfold before in Hr. apply negb_false_iff in Hr. rewrite Hr. mstep (ftell_at _ _ _ _ A1).
    exists w1. simpl. rewrite Nat.add_0_r, <- offset_S, Z.add_simpl_r. done.
  - assert (l !! k = Some x) as Hk by (rewrite <- (Nat.add_0_r k), <- lookup_drop, Hd; done).
    apply Forall_cons in Hb as [Hx Hb]. unfold before in Hx. apply negb_true_iff in Hx.
    destruct (fread_at _ _ _ _ _ Ha Hk) as (w1 & E1 & A1 & H1). mstep E1. rewrite Hx.
    mstep (feof_at _ _ _ _ A1). erewrite bind_Ok by reflexivity.
    mstep (ftell_at _ _ _ _ A1).
    rewrite (proj2 (Z.eqb_neq _ _) (Hj (S k) ltac:(simpl; lia))).
    simpl List.length in *. rewrite Nat.add_succ_r in *. rewrite <- H1.
    eapply (IH fuel w1 (S k) false); [done| |done|done| |lia].
    + replace (S k) with (k + 1)%nat at 1 by lia. rewrite <- drop_drop, Hd. done.
    + intros j Hj'. apply Hj. lia.
Qed.

(** The search ends for every file, from every record. *)
Lemma find_time_loop_returns t start l : forall fuel w k b rec,
  at_rec w l k b -> (k <= List.length l)%nat -> (start <= List.length l)%nat ->
  (k < start -> start - k <= fuel)%nat ->
  (start <= k -> List.length l - k + 1 + start <= fuel)%nat ->
  returns (find_time_loop fuel t (offset start) rec w).
Proof.
  induction fuel as [|fuel IH]; intros w k b rec Ha Hk Hs Hf Hg; [lia|].
  cbn [find_time_loop]. destruct (l !! k) as [r|] eqn:Hr.
  - pose proof (lookup_lt_Some _ _ _ Hr).
    destruct (fread_at _ _ _ _ _ Ha Hr) as (w1 & E1 & A1 & _). mstep E1.
    destruct (d_leb _ _); [mstep (ftell_at _ _ _ _ A1); done|].
    mstep (feof_at _ _ _ _ A1). erewrite bind_Ok by reflexivity.
    mstep (ftell_at _ _ _ _ A1). rewrite offset_eqb. case_bool_decide; [done|].
    eapply IH; [exact A1|lia|done|lia|lia].
  - destruct (fread_at_end _ _ _ _ Ha Hr) as (w1 & E1 & A1 & _). mstep E1.
    destruct rec as [c|]; [|done].
    destruct (d_leb _ _); [mstep (ftell_at _ _ _ _ A1); done|].
    mstep (feof_at _ _ _ _ A1). destruct (fseek_at _ _ _ _ 0%nat A1) as (w2 & E2 & A2 & _).
    mstep E2. mstep (ftell_at _ _ _ _ A2). rewrite offset_eqb. case_bool_decide; [done|].
    apply lookup_ge_None in Hr. eapply IH; [exact A2|lia|done|lia|lia].
Qed.

(** *** The earliest record of a file in the order of time *)

Definition in_order : list ENGINE_EVENT -> Prop := StronglySorted (fun p r => earlier p r = false).

Lemma find_first_none l p init : forall fuel w k cur,
  at_rec w l k false -> Forall (fun r => earlier p r = false) (drop k l) ->
  match cur with Some c => earlier p c = false | None => (k < List.length l)%nat end ->
  (List.length l - k + 1 < fuel)%nat ->
  exists w' j, find_first_loop fuel init p cur w = Ok (init, w') /\
    at_rec w' l j true /\ header (pb w') = header (pb w).
Proof.
  induction fuel as [|fuel IH]; intros w k cur Ha Hl Hc Hf; [lia|]. cbn [find_first_loop].
  mstep (feof_at _ _ _ _ Ha). destruct (l !! k) as [r|] eqn:Hk.
  - pose proof (lookup_lt_Some _ _ _ Hk). rewrite (drop_S l r k Hk) in Hl.
    apply Forall_cons in Hl as [Hr Hl].
    destruct (fread_at _ _ _ _ _ Ha Hk) as (w1 & E1 & A1 & H1). mstep E1.
    unfold earlier in Hr. rewrite Hr. rewrite <- H1. eapply IH; [done|done|exact Hr|lia].
  - apply lookup_ge_None in Hk as Hk'. destruct cur as [c|]; [|lia].
    destruct (fread_at_end _ _ _ _ Ha Hk) as (w1 & E1 & A1 & H1). mstep E1.
    unfold earlier in Hc. rewrite Hc. destruct fuel as [|fuel]; [lia|]. cbn [find_first_loop].
    mstep (feof_at _ _ _ _ A1). eauto.
Qed.

(** From any record but the last of such a file, the record itself. *)
Lemma playbackFindFirstOffset_in_order w l k :
  at_rec w l k false -> in_order l -> (S k < List.length l)%nat ->
  exists w' j, playbackFindFirstOffset w = Ok (offset k, w') /\ at_rec w' l j true /\
    header (pb w') = header (pb w).
Proof.
  intros Ha Ho Hk. unfold playbackFindFirstOffset. mstep (ftell_at _ _ _ _ Ha).
  destruct (lookup_lt_is_Some_2 l k) as [p Hp]; [lia|].
  destruct (fread_at _ _ _ _ _ Ha Hp) as (w1 & E1 & A1 & H1). mstep E1.
  destruct (file_at _ _ _ _ A1) as (f & E2 & Hf). mstep E2. rewrite Hf, <- H1.
  apply (find_first_none l p) with (k := S k); [done| |done|lia].
  unfold in_order in Ho. rewrite <- (take_drop k l), (drop_S l p k Hp) in Ho.
  clear -Ho. induction (take k l) as [|x t IH]; [by apply StronglySorted_inv in Ho as [_ ?]|].
  apply IH. by apply StronglySorted_inv in Ho as [? _].
Qed.

(** The sleeps of a playback of [l] can be asked for, whichever record and
    whichever moment it starts at. *)
Definition playable (l : list ENGINE_EVENT) : Prop :=
  forall r k, r ∈ l -> Forall (sleeps_ok (mix_time r) (time_at k)) l.

(** What [playbackGo] does after the bounds are known. *)
Lemma playbackGo_from n st en w l k b s start e :
  playback_bounds mktime_of st en (r_world s) = Ok ((start, e), w) ->
  at_rec w l k b -> (k < List.length l)%nat ->
  exists r s' t, l !! k = Some r /\ at_rec (r_world s') l k false /\ r_acts s' = r_acts s /\
    playbackGo mktime_of eintr n st en s =
      ((go_loop eintr (mix_time r) (time_at t) start e n 0 r) ≫= (fun ended : bool =>
         if ended then emit (Trail PLAYBACK_TRAIL_TIME) ;; mret true else mret false)) s'.
Proof.
  intros Hb Ha Hk. destruct (lookup_lt_is_Some_2 l k Hk) as [r Hr].
  destruct (fread_at _ _ _ _ _ Ha Hr) as (w1 & E1 & A1 & _).
  set (w2 := set_time_calls (S (time_calls w1)) w1).
  assert (A2 : at_rec w2 l (S k) false) by exact A1.
  destruct (fseek_at w2 l (S k) false k A2) as (w3 & E3 & A3 & _).
  exists r, {| r_world := w3; r_acts := r_acts s |}, (time_calls w1).
  split_and!; [done|done|done|]. unfold playbackGo.
  mstep (on_world_Ok _ _ _ _ Hb). mstep (on_world_Ok _ {| r_world := w; r_acts := r_acts s |} _ _ E1).
  assert (E2 : gettimeofday w1 = Ok (time_at (time_calls w1), w2)) by done.
  mstep (on_world_Ok _ {| r_world := w1; r_acts := r_acts s |} _ _ E2).
  assert (E4 : (ftell ≫= (fun p => fseek (p - sizeof_record))) w2 = Ok (tt, w3)).
  { mstep (ftell_at _ _ _ _ A2). rewrite <- offset_S, Z.add_simpl_r. exact E3. }
  mstep (on_world_Ok _ {| r_world := w2; r_acts := r_acts s |} _ _ E4). done.
Qed.
End Facts.

(** With a clock that stands still, [playable] is computed. *)
Lemma playable_still `{E : Env} t l :
  (forall k, time_at k = t) ->
  forallb (fun r => forallb (fun q =>
    match wait_for (mix_time r) t t q with Some (Ok _) | None => true | _ => false end) l) l = true ->
  playable l.
Proof.
  intros Ht H r k Hr. apply Forall_forall. intros q Hq k' x. rewrite !Ht. intros E1.
  rewrite forallb_forall in H. specialize (H r). rewrite forallb_forall in H.
  setoid_rewrite <- list_elem_of_In in H. specialize (H Hr q Hq). rewrite E1 in H.
  destruct x; [eauto|done|done].
Qed.

(** ** A recording up to its end *)

Lemma playbackRecordEvent_mode {E : Env} e w x w' :
  playbackRecordEvent e w = Ok (x, w') -> mode (pb w') = mode (pb w).
Proof.
  unfold playbackRecordEvent, fwrite_rec, gettimeofday, fwrite_ok, fseek, file, put_file, gets,
    modify, lift, mbind, M_bind, mret, M_ret. cbn.
  repeat (case_match; simplify_eq/=; try done).
  all: by intros [= <- <-].
Qed.

Lemma record_all_mode {E : Env} es : forall w x w',
  record_all es w = Ok (x, w') -> mode (pb w') = mode (pb w).
Proof.
  induction es as [|e es IH]; intros w x w' H; cbn [record_all] in H; [by injection H as <- <-|].
  apply bind_inv in H as (y & w1 & H1 & H). rewrite (IH _ _ _ H). by eapply playbackRecordEvent_mode.
Qed.

Lemma record_init_mode {E : Env} w x w' : record_init w = Ok (x, w') -> mode (pb w') = mode (pb w).
Proof.
  unfold record_init, gettimeofday, fwrite_ok, put_file, modify, mbind, M_bind, mret, M_ret. cbn.
  destruct (fwrite_at _); cbn; by intros [= <- <-].
Qed.

(** The record at which a playback of [n] recorded events starts. *)
Definition replay_from (n : nat) : nat :=
  if decide (n <= max_events_nat)%nat then 0%nat else (n - max_events_nat)%nat.

(** Closing a recording writes the header with the offset of the earliest
    event. *)
Lemma playbackFileShutdown_recorded {E : Env} w l :
  (forall k, fwrite_at k = true) -> recorded w l -> mode (pb w) = RECORD_MODE ->
  exists w' f h, playbackFileShutdown w = Ok (tt, w') /\ stream (pb w') = Some f /\
    file_header f = Some h /\ recs f = ring max_events_nat l /\
    World.start_pos h = offset (replay_from (List.length l)) /\ World.end_t h = time_at (time_calls w).
Proof.
  intros Hw (f & Hf & Hr & Hp & Hc & Hl) Hm. unfold playbackFileShutdown.
  unfold gettimeofday, gets, ftell, fseek, fwrite_ok, file, put_file, modify, mbind, M_bind, mret, M_ret.
  rewrite Hm. cbn. rewrite Hl. unfold replay_from, ring_pos in *.
  case_decide; cbn; repeat first [rewrite Hf; cbn | rewrite Hw; cbn | rewrite Hp; cbn];
    do 3 eexists; by split_and!.
Qed.

(** Opening a file to play it. *)
Lemma playbackFileInit_play {E : Env} f h created v :
  mode (pb v) = PLAY_MODE -> file_header f = Some h ->
  exists v', playbackFileInit (Some f) created v = Ok (Some 1, v') /\
    at_rec v' (recs f) 0 false /\ header (pb v') = h.
Proof.
  intros Hm Hh. unfold playbackFileInit, playbackSetMode, play_init, fseek, file, put_file, gets,
    modify, mbind, M_bind, mret, M_ret. cbn. rewrite Hm, Hh. cbn.
  eexists. split_and!; [reflexivity| |done]. by eexists.
Qed.

(** Without times: from the record the header of a closed recording names. *)
Lemma playback_bounds_closed {E : Env} mk en w l j b k :
  at_rec w l j b -> d_eqb (TP_IN_FP_SECS (World.end_t (header (pb w)))) d_zero = false ->
  World.start_pos (header (pb w)) = offset k ->
  exists w', playback_bounds mk None en w = Ok ((offset k, Some 0), w') /\ at_rec w' l k false.
Proof.
  intros Ha He Hs. destruct (seek_at _ _ _ _ k Ha) as (w1 & E1 & A1 & _).
  unfold playback_bounds. erewrite bind_Ok by reflexivity. rewrite He, Hs. cbn [negb].
  mstep E1. mstep (ftell_at _ _ _ _ A1). eauto.
Qed.

Lemma playbackGo_no_record {E : Env} mk eintr n st en w l k b s start e :
  playback_bounds mk st en (r_world s) = Ok ((start, e), w) ->
  at_rec w l k b -> (List.length l <= k)%nat ->
  playbackGo mk eintr n st en s = Fault UninitRead.
Proof.
  intros Hb Ha Hk. destruct (fread_at_end _ _ _ _ Ha (lookup_ge_None_2 _ _ Hk)) as (w1 & E1 & _).
  unfold playbackGo. mstep (on_world_Ok _ _ _ _ Hb).
  by mstep (on_world_Ok _ {| r_world := w; r_acts := r_acts s |} _ _ E1).
Qed.

(** Closing a recording and playing it elsewhere. *)
Lemma replay_of_recorded {E E' : Env} mk eintr created es w v :
  EnvLaws E -> (forall k, fwrite_at (Env := E) k = true) -> mode (pb w) = RECORD_MODE -> recorded w es ->
  mode (pb v) = PLAY_MODE -> (forall i, eintr i = false) ->
  let l := ring max_events_nat es in
  let k := replay_from (List.length es) in
  exists w' f v',
    playbackFileShutdown (E := E) w = Ok (tt, w') /\ stream (pb w') = Some f /\
    recs f = l /\ (exists h, file_header f = Some h /\ World.start_pos h = offset k) /\
    playbackFileInit (E := E') (Some f) created v = Ok (Some 1, v') /\
    (playable (E := E') l -> forall n,
      let played := playbackGo (E := E') mk eintr n None None {| r_world := v'; r_acts := [] |} in
      if decide (k < List.length l)%nat
      then exists s', played = Ok (false, s') /\ handed (r_acts s') = endless n k l
      else played = Fault UninitRead).
Proof.
  intros Hlaws Hw Hm R Hv Hi l k.
  destruct (playbackFileShutdown_recorded w _ Hw R) as (w3 & f & h & E3 & Hf & Hh & Hr & Hs & He); [done|].
  fold l in Hr. fold k in Hs.
  destruct (playbackFileInit_play f h created v Hv Hh) as (v' & E4 & A4 & H4). rewrite Hr in A4.
  exists w3, f, v'. split_and!; [done|done|done|by exists h|done|]. intros Hp n played.
  destruct (playback_bounds_closed mk None v' l 0 false k A4) as (v1 & E5 & A5);
    [rewrite H4, He; apply time_set|by rewrite H4|].
  case_decide as Hk.
  - edestruct (playbackGo_from mk eintr n None None v1 l k false {| r_world := v'; r_acts := [] |})
      as (r & s & t & Hrk & As & Hs' & Eg); [exact E5|exact A5|done|].
    destruct (go_loop_endless eintr (mix_time r) (time_at t) l n 0 r s k false As Hk Hi)
      as (s' & E6 & H6); [apply Hp; by eapply list_elem_of_lookup_2|].
    exists s'. unfold played. rewrite Eg. mstep E6. split; [done|]. by rewrite H6, Hs'.
  - eapply playbackGo_no_record; [exact E5|exact A5|lia].
Qed.

(** There is a record to start with unless nothing was recorded, or so much that
    the file, which wraps around only once, grows again. *)
Lemma replay_from_lt es :
  (replay_from (List.length es) < List.length (ring max_events_nat es))%nat <->
  (0 < List.length es < 2 * max_events_nat)%nat.
Proof.
  assert (0 < max_events_nat)%nat by (unfold max_events_nat, MAX_PLAYBACK_EVENTS; lia).
  rewrite ring_length. unfold replay_from. case_decide; lia.
Qed.

(** ** Properties *)

(** What a recording sounds like when it is played. The process that
    records [es] closes the file; the process that opens it and plays it
    without times hands over the events that are left, from the earliest one
    on, with the times at which they were recorded, in their order, up to the
    end of the file, and then the last one again and again: for every number
    [n] of iterations the playback goes on. When [es] wrapped around, the
    records in front of the earliest one are never played; and when nothing was
    recorded, or twice the size of the file or more, there is none to start with:
    the playback reads a record that it has not got. *)
Theorem replay_of_recording {E E' : Env} (mk : string -> Z) (eintr : nat -> bool) (created : bool)
    (es : list ENGINE_EVENT) (w v : world) :
  (forall k, fwrite_at (Env := E) k = true) -> EnvLaws E -> Z.of_nat (List.length es) < 2 ^ 64 ->
  event_cnt (pb w) = 0 -> loopback_flag (pb w) = 0 -> mode (pb w) = RECORD_MODE ->
  mode (pb v) = PLAY_MODE -> (forall i, eintr i = false) ->
  let l := ring max_events_nat (imap (fun i => stamped (E := E) (S (time_calls w) + i)) es) in
  let k := replay_from (List.length es) in
  playable (E := E') l ->
  exists w' f v',
    (_ ← record_init (E := E); _ ← record_all (E := E) es; playbackFileShutdown (E := E)) w
      = Ok (tt, w') /\
    stream (pb w') = Some f /\ playbackFileInit (E := E') (Some f) created v = Ok (Some 1, v') /\
    forall n,
      let played := playbackGo (E := E') mk eintr n None None {| r_world := v'; r_acts := [] |} in
      if decide (k < List.length l)%nat
      then exists s', played = Ok (false, s') /\ handed (r_acts s') = endless n k l
      else played = Fault UninitRead.
Proof.
  intros Hw Hlaws Hlt Hc Hlb Hm Hv Hi l k Hp.
  destruct (record_init_recorded w Hw Hc Hlb) as (w1 & E1 & R1 & T1).
  destruct (record_all_recorded Hw es w1 [] R1) as (w2 & E2 & R2); [done|].
  rewrite app_nil_l in R2. rewrite T1 in R2.
  destruct (replay_of_recorded (E := E) (E' := E') mk eintr created _ w2 v Hlaws Hw
    ltac:(by rewrite (record_all_mode _ _ _ _ E2), (record_init_mode _ _ _ E1)) R2 Hv Hi)
    as (w3 & f & v' & E3 & Hf & _ & _ & E4 & H).
  rewrite length_imap in H. exists w3, f, v'. split_and!; [by mstep E1; mstep E2|done..|by apply H].
Qed.

(** The round a playback is meant to make. From a closed recording of [l]
    whose header names record [k], with [errno] being [EINTR] when the end of
    the file is met, every record is handed over once, from record [k] on and
    round to it again, and the playback ends. *)
Theorem playbackGo_round {E : Env} (mk : string -> Z) (eintr : nat -> bool) (w : world)
    (l : list ENGINE_EVENT) (j k n : nat) (b : bool) :
  at_rec w l j b -> d_eqb (TP_IN_FP_SECS (World.end_t (header (pb w)))) d_zero = false ->
  World.start_pos (header (pb w)) = offset k -> (k < List.length l < n)%nat ->
  (forall i, eintr i = true) -> playable l ->
  exists s', playbackGo mk eintr n None None {| r_world := w; r_acts := [] |} = Ok (true, s') /\
    handed (r_acts s') = drop k l ++ take k l.
Proof.
  intros Ha He Hs Hk Hi Hp.
  destruct (playback_bounds_closed mk None w l j b k Ha He Hs) as (v1 & E5 & A5).
  edestruct (playbackGo_from mk eintr n None None v1 l k false {| r_world := w; r_acts := [] |})
    as (r & s & t & Hrk & As & Hs' & Eg); [exact E5|exact A5|lia|].
  destruct (go_loop_round eintr (mix_time r) (time_at t) l n 0 r s k false As Hk Hi)
    as (s' & E6 & H6); [apply Hp; by eapply list_elem_of_lookup_2|].
  eexists. rewrite Eg. mstep E6. split; [reflexivity|]. cbn [r_acts].
  rewrite handed_snoc, H6, Hs', app_nil_r. done.
Qed.

(** [playbackFindTime] from the record behind [pre], [r] being the first of the
    following records that is not before [t]. *)
Lemma playbackFindTime_at t l pre x r y fuel w j b :
  at_rec w l j b -> l = pre ++ x ++ r :: y -> Forall (fun q => before t q = true) x ->
  before t r = false -> (List.length l < fuel)%nat ->
  exists w', playbackFindTime fuel t (offset (List.length pre)) w
      = Ok (offset (List.length pre + List.length x), w') /\
    at_rec w' l (S (List.length pre + List.length x)) false /\ header (pb w') = header (pb w).
Proof.
  intros Ha Hl Hx Hr Hf. destruct (fseek_at _ _ _ _ (List.length pre) Ha) as (w1 & E1 & A1 & H1 & _).
  unfold playbackFindTime. mstep E1. rewrite <- H1.
  eapply find_time_loop_at; [exact A1| |done|exact Hr| |].
  - rewrite Hl, drop_app_length. do 2 f_equal.
    replace (pre ++ x ++ r :: y) with ((pre ++ x ++ [r]) ++ y) by (by rewrite <- !app_assoc).
    rewrite drop_app_length'; [done|]. rewrite !length_app. simpl. lia.
  - intros i Hi Ei. apply offset_inj in Ei. lia.
  - rewrite Hl, !length_app in Hf. simpl in Hf. lia.
Qed.

Section Bounds.
Context {E : Env} (mk : string -> Z) (s e : string) (a b c : list ENGINE_EVENT) (b0 c0 : ENGINE_EVENT).
Let l : list ENGINE_EVENT := a ++ (b0 :: b) ++ c0 :: c.
Context (Ho : in_order l) (Hbc : (1 <= List.length (b ++ c))%nat)
        (Has : Forall (fun r => before (time_of mk s) r = true) a)
        (Hb0 : before (time_of mk s) b0 = false)
        (Hbe : Forall (fun r => before (time_of mk e) r = true) b)
        (Hc0 : before (time_of mk e) c0 = false).

Lemma bounds_length : List.length l = (List.length a + S (List.length b) + S (List.length c))%nat.
Proof. unfold l. rewrite !length_app. simpl. lia. Qed.

(** The bounds of a playback with two times. *)
Lemma playback_bounds_interval w :
  at_rec w l 0 false ->
  exists w', playback_bounds mk (Some s) (Some e) w
      = Ok ((offset (List.length a), Some (offset (List.length a + S (List.length b)))), w') /\
    at_rec w' l (List.length a) false.
Proof using Ho Hbc Has Hb0 Hbe Hc0.
  intros Ha. pose proof bounds_length as Hl. rewrite length_app in Hbc.
  destruct (playbackFindFirstOffset_in_order w l 0 Ha Ho) as (w1 & j1 & E1 & A1 & _); [lia|].
  unfold playback_bounds. mstep E1. erewrite bind_Ok by reflexivity.
  set (w2 := set_pb _ w1). assert (A2 : at_rec w2 l j1 true) by exact A1.
  destruct (file_at _ _ _ _ A2) as (f & E2 & Hf).
  assert (E3 : find_fuel w2 = Ok (S (S (List.length l)), w2))
    by (unfold find_fuel; mstep E2; by rewrite Hf).
  mstep E3.
  destruct (playbackFindTime_at (time_of mk s) l [] a b0 (b ++ c0 :: c) (S (S (List.length l))) w2 j1 true)
    as (w4 & E4 & A4 & _); [done|done|done|done|lia|]. cbn [List.length Nat.add] in E4, A4.
  mstep E4.
  destruct (playbackFindFirstOffset_in_order w4 l _ A4 Ho) as (w5 & j5 & E5 & A5 & _); [lia|].
  destruct (playbackFindTime_at (time_of mk e) l (a ++ [b0]) b c0 c (S (S (List.length l))) w5 j5 true)
    as (w7 & E7 & A7 & _); [done|unfold l; by rewrite <- app_assoc|done|done|lia|].
  assert (Hn : List.length (a ++ [b0]) = S (List.length a)) by (rewrite length_app; simpl; lia).
  rewrite Hn in E7. erewrite bind_Ok.
  2:{ mstep E5. mstep E7. erewrite bind_Ok by reflexivity. reflexivity. }
  pose proof (offset_pos (List.length a)). pose proof (offset_pos (S (List.length a) + List.length b)).
  rewrite !(proj2 (Z.eqb_neq _ _)) by lia.
  destruct (seek_at _ _ _ _ (List.length a) A7) as (w8 & E8 & A8 & _). mstep E8.
  rewrite Nat.add_succ_r. eauto.
Qed.

(** Playing between two times, with a file in the order of time: [b0 :: b] are
    the records from the first time on and before the second. *)
Lemma playbackGo_between eintr n w acts :
  at_rec w l 0 false -> playable l -> (List.length b < n)%nat ->
  exists s', playbackGo mk eintr n (Some s) (Some e) {| r_world := w; r_acts := acts |} = Ok (true, s') /\
    handed (r_acts s') = handed acts ++ b0 :: b.
Proof using Ho Hbc Has Hb0 Hbe Hc0.
  intros Ha Hp Hn. pose proof bounds_length as Hl.
  destruct (playback_bounds_interval w Ha) as (w1 & E1 & A1).
  destruct (playbackGo_from mk eintr n (Some s) (Some e) w1 l (List.length a) false
      {| r_world := w; r_acts := acts |} _ _ E1 A1) as (r & s1 & t & Hr & As & Hs1 & Eg); [lia|].
  destruct (go_loop_ends eintr (mix_time r) (time_at t) l (List.length a)
      (offset (List.length a + S (List.length b))) (List.length b) (n - S (List.length b)) 0 r s1
      (List.length a) false As) as (s2 & E2 & H2);
    [lia| |by right|apply Hp; by eapply list_elem_of_lookup_2|].
  { intros i Hi. split; [lia|]. intros Ei. apply offset_inj in Ei. lia. }
  replace (S (List.length b) + (n - S (List.length b)))%nat with n in E2 by lia.
  eexists. rewrite Eg. mstep E2. split; [reflexivity|]. cbn [r_acts].
  rewrite handed_snoc, H2, Hs1, app_nil_r. unfold l. cbn [r_acts].
  rewrite drop_app_length. cbn [app take]. by rewrite take_app_length.
Qed.
End Bounds.


(** A playback with a start time only uses the end position without
    having set it: whatever is in the file, the first iteration of the loop
    does not come to an end. *)
Theorem playback_start_only {E : Env} (mk : string -> Z) (eintr : nat -> bool) (n : nat) (t : string)
    (st : replay) (b : bool) (st' : replay) :
  playbackGo mk eintr (S n) (Some t) None st <> Ok (b, st').
Proof.
  intros H. unfold playbackGo in H.
  apply bind_inv in H as ([p e] & s1 & H1 & H). unfold on_world in H1.
  apply bind_ok in H1 as ([[p1 e1] w1] & H1 & H2).
  assert (e = None) as ->.
  { unfold playback_bounds in H1. repeat (apply bind_inv in H1 as (? & ? & ? & H1)).
unfold mret, M_ret, res_ret in *. congruence. }
  apply bind_inv in H as (r & s2 & _ & H). destruct r as [r|]; [|done].
  apply bind_inv in H as (to & s3 & _ & H). apply bind_inv in H as (u & s4 & _ & H).
  apply bind_inv in H as (en & s5 & H & _). cbn [go_loop] in H.
  apply bind_inv in H as (r' & s6 & _ & H). apply bind_inv in H as (on & s7 & H & _).
  unfold on_world in H. apply bind_ok in H as ([b' w'] & H & _).
  unfold go_on in H. apply bind_inv in H as (p' & w'' & _ & H). done.
Qed.

(** *** Witnesses *)


Lemma playbackGo_round_witness :
  let l := rec_at_time <$> [7; 8; 4; 5] in
  let h := {| major_ver := 1; minor_ver := 1; max_events := 3200; written := 4;
              World.start_pos := offset 2; start_t := zero_time;
              World.end_t := {| tv_sec := 9; tv_usec := 0 |} |} in
  let f := {| file_header := Some h; recs := l; fpos := offset 0; at_eof := false |} in
  exists s', playbackGo (E := still_env) (fun _ => 0) (fun _ => true) 9 None None
               {| r_world := set_pb (with_header (with_file blank_pb (Some f)) h) blank_world;
                  r_acts := [] |} = Ok (true, s') /\
    handed (r_acts s') = rec_at_time <$> [4; 5; 7; 8].
Proof.
  intros l h f.
  apply (playbackGo_round (E := still_env) (fun _ => 0) (fun _ => true) _ l 0 2 9 false).
  - exists f. done.
  - reflexivity.
  - reflexivity.
  - simpl. lia.
  - done.
  - apply (playable_still {| tv_sec := 1000000000; tv_usec := 5 |}); [done|reflexivity].
Defined.

(** Two recorded events: five iterations hand over the first, and then the
    second four times. *)
Lemma replay_of_recording_witness :
  let w := set_pb {| stream := None; header := header blank_pb; event_cnt := 0; mode := RECORD_MODE;
                     use_playback := 1; loopback_flag := 0 |} blank_world in
  let e1 := rec_at_time 1 in
  let e2 := {| event := event (MixerQueue.sample 2); mix_time := zero_time |} in
  let at_clock e := {| event := event e; mix_time := {| tv_sec := 1000000000; tv_usec := 5 |} |} in
  exists w' f v',
    (_ ← record_init (E := still_env); _ ← record_all (E := still_env) [e1; e2];
     playbackFileShutdown (E := still_env)) w = Ok (tt, w') /\
    stream (pb w') = Some f /\
    playbackFileInit (E := still_env) (Some f) true blank_world = Ok (Some 1, v') /\
    exists s', playbackGo (E := still_env) (fun _ => 0) (fun _ => false) 5 None None
                 {| r_world := v'; r_acts := [] |} = Ok (false, s') /\
      handed (r_acts s') = [at_clock e1; at_clock e2; at_clock e2; at_clock e2; at_clock e2].
Proof.
  intros w e1 e2 at_clock.
  destruct (replay_of_recording (E := still_env) (E' := still_env) (fun _ => 0) (fun _ => false) true
    [e1; e2] w blank_world) as (w' & f & v' & H1 & H2 & H3 & H4);
    [done|apply still_laws|done|done|done|done|done|done| |].
  - apply (playable_still {| tv_sec := 1000000000; tv_usec := 5 |}); [done|reflexivity].
  - exists w', f, v'. split; [exact H1|]. split; [exact H2|]. split; [exact H3|]. exact (H4 5%nat).
Defined.
