(* ===== verification/Mixer.v ===== *)
(** * The mixer ([mixer.c]) and the engine's scheduler ([engineSchedulerInit])

    The mixer owns an array of event channels, each of which plays one sound,
    and an array of state buffers, which play for ever. The scheduler records
    when the sound of a channel was started. *)

From stdpp Require Import base list strings.
From Stdlib Require Import ZArith Lia.
From S2P Require Import Prelude Events CString Dbl SoundTable MixerQueue World.
Import SoundTable.
Local Open Scope Z_scope.

Definition STEREO : Z := 2.
Definition SAMPLE_RATE : Z := 44100.
Definition MIXER_SUCCESS : Z := 1.
Definition MIXER_ALLOC_FAILED : Z := -1.
Definition MIXER_ALREADY_ALLOC : Z := -2.
Definition MIXER_NOT_YET_ALLOC : Z := -3.
Definition MIXER_CHAN_BUSY : Z := -4.
Definition MIXER_ERROR : Z := -5.
Definition MIXER_OUT_OF_BOUNDS : Z := -6.
Definition MAX_EVENT_FLAG : Z := Z.shiftl 1 0.
Definition STATE_LINEAR_FADE_FLAG : Z := Z.shiftl 1 0.
Definition MAX_STATE_FLAG : Z := Z.shiftl 1 1.
Definition STATE_MULT : dbl := d_lit 4 10.
Definition EVENT_MULT : dbl := d_lit 6 10.
Definition CLOCKS_PER_SEC : Z := 1000000.
Definition QUEUE_EXPIRED : Z := 5 * CLOCKS_PER_SEC.

Definition d1 : dbl := d_of_Z 1.
Definition d_half : dbl := d_lit 5 10.

Definition ebuff : Z -> M world EVENT_BUF := rd_at ebuffs.
Definition set_ebuff : Z -> EVENT_BUF -> M world unit := wr_at ebuffs set_ebuffs.
Definition sbuff : Z -> M world STATE_BUF := rd_at sbuffs.
Definition set_sbuff : Z -> STATE_BUF -> M world unit := wr_at sbuffs set_sbuffs.

(** A pointer that must not be null. *)
Definition some_ptr {A} (p : option A) : res A :=
  match p with Some a => Ok a | None => Fault NullDeref end.

(** ** The scheduler *)

Definition engineSchedulerInit (index : Z) (start : dbl) (prior : Z) (min_end : dbl) : M world Z :=
  lock_sched ;;
  s ← gets sched;
  match s with
  | PNull => mret ENGINE_NOT_YET_ALLOC
  | _ =>
      wr_at sched set_sched index {| startt := start; priorit := prior; minendt := min_end |} ;;
      unlock_sched ;;
      mret ENGINE_SUCCESS
  end.

(** ** Dynamic volumes *)

Definition dyn_ratio (w : world) : dbl :=
  d_div (d_of_Z (u32 (dyn_buf_cnt w - 1))) (d_of_Z (u32 (no_ebuffs w - 1))).

Definition mixerDynGMul : M world dbl :=
  gets (fun w => d_sub d1 (d_mul d_half (dyn_ratio w))).

Definition mixerDynIMul : M world dbl :=
  gets (fun w => d_add d_half (d_mul (dyn_ratio w) d_half)).

Fixpoint tot_vol_loop (n : nat) (i : Z) (sum : dbl) : M world dbl :=
  match n with
  | O => mret sum
  | S n => v ← rd_at dyn_mul i; tot_vol_loop n (i + 1) (d_add sum v)
  end.

Definition mixerDynTotVol : M world dbl :=
  n ← gets no_ebuffs; tot_vol_loop (Z.to_nat n) 0 d_zero.

Definition mixerDynVol : M world dbl :=
  tot_vol ← mixerDynTotVol;
  im ← mixerDynIMul;
  gm ← mixerDynGMul;
  mret (d_mul (d_mul im gm) (d_sub d1 tot_vol)).

(** ** Event channels *)

Definition mixerAddEvent (snd : samples) (ln : Z) (loc : dbl) (flgs : Z) (voice : Z) : M world Z :=
  b ← ebuff voice;
  match snd_buf b with
  | Some _ => mret MIXER_CHAN_BUSY
  | None =>
      lock_mixer ;;
      set_ebuff voice {| snd_buf := snd; len := ln; pos := pos b; stereo_pos := loc;
                         filter_flag := flgs |} ;;
      modify (fun w => set_dyn_buf_cnt (u32 (dyn_buf_cnt w + 1)) w) ;;
      v ← mixerDynVol;
      wr_at dyn_mul set_dyn_mul voice v ;;
      unlock_mixer ;;
      mret MIXER_SUCCESS
  end.

Definition mixerRemoveEvent (j : Z) : M world unit :=
  lock_mixer ;;
  b ← ebuff j;
  set_ebuff j {| snd_buf := None; len := 0; pos := 0; stereo_pos := d_zero;
                 filter_flag := filter_flag b |} ;;
  wr_at dyn_mul set_dyn_mul j d_zero ;;
  modify (fun w => set_dyn_buf_cnt (u32 (dyn_buf_cnt w - 1)) w) ;;
  unlock_mixer ;;
  engineSchedulerInit j d_zero 0 d_zero ;;
  mret tt.

Definition mixerInterrupt (j : Z) : M world unit := mixerRemoveEvent j.

(** ** State buffers *)

Definition zero_snd : STATE_SND :=
  {| s_snd_buf := None; s_len := None; s_snd_cnt := 0; s_snd_no := 0; s_pos := 0 |}.
Definition zero_threshold : THRESHOLD :=
  {| l_bound := d_zero; h_bound := d_zero; state_snd := zero_snd |}.

(** [ok]: whether [calloc] succeeds; a negative count is too large for it. *)
Definition mixerAllocNewState (ok : bool) (state thr_cnt : Z) : M world Z :=
  b ← sbuff state;
  match thresh b with
  | Some _ => mret MIXER_ALREADY_ALLOC
  | None =>
      lock_mixer ;;
      let t := if ok then Some (replicate (Z.to_nat thr_cnt) zero_threshold) else None in
      set_sbuff state {| thresh := t; thresh_cnt := thr_cnt; st_stereo_pos := d_half;
                         st_vol := st_vol b; st_filter_flag := st_filter_flag b |} ;;
      unlock_mixer ;;
      if ok then
        modify (fun w => set_loaded (i32 (mixer_loaded_states w + 1)) w) ;;
        mret MIXER_SUCCESS
      else mret MIXER_ALLOC_FAILED
  end.

Definition with_thresh (b : STATE_BUF) (t : list THRESHOLD) : STATE_BUF :=
  {| thresh := Some t; thresh_cnt := thresh_cnt b; st_stereo_pos := st_stereo_pos b;
     st_vol := st_vol b; st_filter_flag := st_filter_flag b |}.

(** [ok1], [ok2]: whether the two calls of [calloc] succeed. The comparison
    of the index with [thresh_cnt] is unsigned. *)
Definition mixerAddStateThreshold (ok1 ok2 : bool) (state thresh_index : Z) (l h : dbl)
    (snd_cnt : Z) : M world Z :=
  b ← sbuff state;
  if u32 (thresh_cnt b) <? thresh_index then mret MIXER_OUT_OF_BOUNDS
  else match thresh b with
  | None => mret MIXER_NOT_YET_ALLOC
  | Some ts =>
      lock_mixer ;;
      ts ← lift (wr ts thresh_index
        {| l_bound := l; h_bound := h;
           state_snd := {|
             s_snd_buf := if ok1 then Some (replicate (Z.to_nat snd_cnt) None) else None;
             s_len := if ok2 then Some (replicate (Z.to_nat snd_cnt) 0) else None;
             s_snd_cnt := snd_cnt; s_snd_no := 0; s_pos := 0 |} |});
      set_sbuff state (with_thresh b ts) ;;
      unlock_mixer ;;
      mret (if ok1 && ok2 then MIXER_SUCCESS else MIXER_ALLOC_FAILED)
  end.

Definition with_state_snd (t : THRESHOLD) (s : STATE_SND) : THRESHOLD :=
  {| l_bound := l_bound t; h_bound := h_bound t; state_snd := s |}.

(** [sbuffs[state].thresh[index].state_snd]. *)
Definition get_state_snd (state index : Z) : M world STATE_SND :=
  b ← sbuff state;
  ts ← lift (some_ptr (thresh b));
  t ← lift (rd ts index);
  mret (state_snd t).

Definition put_state_snd (state index : Z) (s : STATE_SND) : M world unit :=
  b ← sbuff state;
  ts ← lift (some_ptr (thresh b));
  t ← lift (rd ts index);
  ts ← lift (wr ts index (with_state_snd t s));
  set_sbuff state (with_thresh b ts).

Definition mixerAddState (state thresh_index no_snd : Z) (sound : samples) (ln : Z) : M world Z :=
  b ← sbuff state;
  if u32 (thresh_cnt b) <? thresh_index then mret MIXER_OUT_OF_BOUNDS
  else
    s ← get_state_snd state thresh_index;
    if s_snd_cnt s <? no_snd then mret MIXER_ALLOC_FAILED
    else
      bufs ← lift (some_ptr (s_snd_buf s));
      old ← lift (rd bufs no_snd);
      match old with
      | Some _ => mret MIXER_ALREADY_ALLOC
      | None =>
          lock_mixer ;;
          bufs ← lift (wr bufs no_snd sound);
          lens ← lift (some_ptr (s_len s));
          lens ← lift (wr lens no_snd ln);
          put_state_snd state thresh_index
            {| s_snd_buf := Some bufs; s_len := Some lens; s_snd_cnt := s_snd_cnt s;
               s_snd_no := s_snd_no s; s_pos := s_pos s |} ;;
          unlock_mixer ;;
          mret MIXER_SUCCESS
      end.

Definition mixerGetNoLoadedStates : M world Z := gets mixer_loaded_states.

Definition mixerExistsStateSound (index : Z) : M world Z :=
  b ← sbuff index;
  mret (match thresh b with Some _ => 1 | None => 0 end).

Definition mixerLoadedStateSound (index : Z) : M world Z :=
  s ← get_state_snd index 0;
  mret (match s_snd_buf s with Some _ => 1 | None => 0 end).

(** Whether [vol] lies within the bounds of a threshold. *)
Definition in_bounds (vol : dbl) (t : THRESHOLD) : bool :=
  d_leb (l_bound t) vol && d_leb vol (h_bound t).

(** The thresholds are read from [thresh[i]], [i < thresh_cnt]. *)
Fixpoint first_thresh (n : nat) (i : Z) (vol : dbl) (ts : list THRESHOLD) : res Z :=
  match n with
  | O => Fault UninitRead   (* the end of the function: no value is returned *)
  | S n => t ← rd ts i; if in_bounds vol t then mret i else first_thresh n (i + 1) vol ts
  end.

Definition mixerGetStateThreshIndex (j : Z) : M world Z :=
  b ← sbuff j;
  if thresh_cnt b <=? 0 then lift (Fault UninitRead)
  else
    ts ← lift (some_ptr (thresh b));
    lift (first_thresh (Z.to_nat (thresh_cnt b)) 0 (st_vol b) ts).

Definition mixerSetStateSnd (j : Z) (vol stereo : dbl) (flgs : Z) : M world unit :=
  b ← sbuff j;
  set_sbuff j {| thresh := thresh b; thresh_cnt := thresh_cnt b; st_stereo_pos := stereo;
                 st_vol := vol; st_filter_flag := flgs |}.

Fixpoint last_thresh (n : nat) (i index : Z) (vol : dbl) (ts : list THRESHOLD) : res Z :=
  match n with
  | O => mret index
  | S n => t ← rd ts i; last_thresh n (i + 1) (if in_bounds vol t then i else index) vol ts
  end.

(** The pointer returned is given by the index of its threshold. *)
Definition mixerGetStateSndPtr (j : Z) (vol : dbl) : M world (option Z) :=
  b ← sbuff j;
  match thresh b with
  | None => mret None
  | Some ts =>
      index ← lift (last_thresh (Z.to_nat (thresh_cnt b)) 0 0 vol ts);
      if thresh_cnt b <=? index then mret None
      else
        t ← lift (rd ts index);
        match s_snd_buf (state_snd t) with
        | None => mret None
        | Some _ => mret (Some index)
        end
  end.

(** The entry itself; [None] is the null pointer. *)
Definition mixerGetThresholdEntry (j index : Z) : M world (option THRESHOLD) := fun w =>
  match sbuffs w with
  | PNull => mret (None, w)
  | _ =>
      (b ← sbuff j;
       match thresh b with
       | None => mret None
       | Some ts =>
           if thresh_cnt b <=? index then mret None
           else t ← lift (rd ts index); mret (Some t)
       end) w
  end.

Section WithEnv.
  Context {E : Env}.

Definition mixerPickRndStateSnd (j : Z) : M world Z :=
  b ← sbuff j;
  p ← mixerGetStateSndPtr j (st_vol b);
  match p with
  | None => mret 0
  | Some index =>
      s ← get_state_snd j index;
      r ← rand;
      lift (d_uint (rand_pick (s_snd_cnt s) r))
  end.

(** ** Effects *)

Definition mixerSetFadeTime (j : Z) (time : dbl) : M world Z :=
  n ← gets no_sbuffs;
  if j <=? n then
    f ← rd_at lin_fade j;
    wr_at lin_fade set_lin_fade j
      {| fade_time := time; f_snd := f_snd f; f_pos := f_pos f; old_thresh := old_thresh f |} ;;
    mret MIXER_SUCCESS
  else mret MIXER_ERROR.

Definition mixerGetFadeTime (j : Z) : M world dbl :=
  f ← rd_at lin_fade j; mret (fade_time f).

(** The body of the last branch of [mixerFadeEffect], between the two sounds. *)
Definition fade_between (data j index fade_pt remainder : Z) : M world Z :=
  b ← sbuff j;
  s ← get_state_snd j index;
  f ← rd_at lin_fade j;
  let mul := d_div (d_of_Z remainder) (d_of_Z fade_pt) in
  let old := d_mul (d_of_Z data) mul in
  let stereo := if s_pos s mod 2 =? 0 then st_stereo_pos b else d_sub d1 (st_stereo_pos b) in
  s' ← get_state_snd j (old_thresh f);
  bufs ← lift (some_ptr (s_snd_buf s'));
  buf ← lift (rd bufs (f_snd f));
  buf ← lift (some_ptr buf);
  x ← lift (rd buf (f_pos f));
  let new := d_mul (d_mul (d_mul (d_mul (d_of_Z x) stereo) (st_vol b)) STATE_MULT)
                   (d_sub d1 mul) in
  let f := {| fade_time := fade_time f; f_snd := f_snd f; f_pos := u32 (f_pos f + 1);
              old_thresh := old_thresh f |} in
  wr_at lin_fade set_lin_fade j f ;;
  lens ← lift (some_ptr (s_len s));
  ln ← lift (rd lens (s_snd_no s));
  (if ln <=? u32 (s_pos s + STEREO) then
     p ← mixerGetStateSndPtr j (st_vol b);
     index ← lift (some_ptr p);
     s ← get_state_snd j index;
     put_state_snd j index
       {| s_snd_buf := s_snd_buf s; s_len := s_len s; s_snd_cnt := s_snd_cnt s;
          s_snd_no := f_snd f; s_pos := f_pos f |}
   else mret tt) ;;
  lift (d_short (d_add old new)).

Definition mixerFadeEffect (data ps j : Z) : M world Z :=
  b ← sbuff j;
  p ← mixerGetStateSndPtr j (st_vol b);
  f ← rd_at lin_fade j;
  fade_pt ← lift (d_int (d_mul (d_mul (fade_time f) (d_of_Z STEREO)) (d_of_Z SAMPLE_RATE)));
  match p with
  | None => mret 0
  | Some index =>
      s ← get_state_snd j index;
      lens ← lift (some_ptr (s_len s));
      ln ← lift (rd lens (s_snd_no s));
      let remainder := i32 (ln - ps) in
      let fade_pt := i32 (fade_pt + Z.rem fade_pt 2) in
      if fade_pt <? remainder then mret data
      else if remainder =? fade_pt then
        r ← mixerPickRndStateSnd j;
        old ← mixerGetStateThreshIndex j;
        s ← get_state_snd j index;
        wr_at lin_fade set_lin_fade j
          {| fade_time := fade_time f; f_snd := r; f_pos := Z.land (s_pos s) 1;
             old_thresh := old |} ;;
        mret data
      else fade_between data j index fade_pt remainder
  end.

(** The loop over the effect flags, up to [max]; [effect] is its [switch].
    [NoFuel]: the flag has been shifted 32 times without meeting [max]. *)
Fixpoint filter_loop (fuel : nat) (i max flag : Z) (effect : Z -> Z -> M world Z) (result : Z)
  : M world Z :=
  if i =? max then mret result
  else match fuel with
  | O => lift NoFuel
  | S fuel =>
      result ← (if Z.land flag i =? 0 then mret result else effect i result);
      filter_loop fuel (Z.shiftl i 1) max flag effect result
  end.

Definition mixerApplyEventFilters (data ps j : Z) : M world Z :=
  b ← ebuff j;
  filter_loop 32 1 MAX_EVENT_FLAG (filter_flag b) (fun i result => mret result) data.

Definition mixerApplyStateFilters (data ps j : Z) : M world Z :=
  b ← sbuff j;
  filter_loop 32 1 MAX_STATE_FLAG (st_filter_flag b)
    (fun i result => if i =? STATE_LINEAR_FADE_FLAG then mixerFadeEffect result ps j
                     else mret result) data.

(** ** Queued events *)

Definition mixerAddOldEvent (j : Z) : M world unit :=
  old ← on_mqueue MixerQueue.mixerDequeue;
  old_event ← lift (some_ptr old);
  let ev := event old_event in
  t ← gets sound_table;
  _ ← lift (engineSoundTableDataRetrieve lookup_fuel t (sound ev));
  tp ← gettimeofday;
  if d_ltb (d_sub (TP_IN_FP_SECS tp) (TP_IN_FP_SECS (mix_time old_event))) (d_of_Z QUEUE_EXPIRED)
  then
    n ← lift (engineGetNoEventSnds lookup_fuel t (sound ev));
    r ← rand;
    next_snd ← lift (d_uint (rand_pick n r));
    snd ← lift (engineGetEventSnd lookup_fuel t (sound ev) next_snd);
    ln ← lift (engineGetEventSndLen lookup_fuel t (sound ev) next_snd);
    mixerAddEvent snd ln (d_div (d_of_Z (loc ev)) (d_of_Z 255)) (flags ev) j ;;
    tp ← gettimeofday;
    engineSchedulerInit j (TP_IN_FP_SECS tp) (prior ev) (TP_IN_FP_SECS tp) ;;
    mret tt
  else mret tt.

(** ** A chunk of sound *)

(** [output[i] += x]: the sum is converted back to a [short]. *)
Definition add_output (i x : Z) : M world unit :=
  o ← rd_at output i;
  wr_at output set_output i (i16 (o + x)).

(** One event channel at output position [i]. *)
Definition mix_event (i j : Z) : M world unit :=
  b ← ebuff j;
  match snd_buf b with
  | None => mret tt
  | Some buf =>
      mul ← rd_at dyn_mul j;
      l ← lift (rd buf (pos b));
      eleft ← lift (d_short (d_mul (d_mul (d_mul (d_of_Z l) mul) EVENT_MULT) (stereo_pos b)));
      r ← lift (rd buf (u32 (pos b + 1)));
      eright ← lift (d_short (d_mul (d_mul (d_mul (d_of_Z r) mul) EVENT_MULT)
                                    (d_sub d1 (stereo_pos b))));
      eleft ← (if filter_flag b =? 0 then mret eleft else mixerApplyEventFilters eleft (pos b) j);
      eright ← (if filter_flag b =? 0 then mret eright
                else mixerApplyEventFilters eright (u32 (pos b + 1)) j);
      add_output i eleft ;;
      add_output (i + 1) eright ;;
      b ← ebuff j;
      let ps := u32 (pos b + STEREO) in
      set_ebuff j {| snd_buf := snd_buf b; len := len b; pos := ps; stereo_pos := stereo_pos b;
                     filter_flag := filter_flag b |} ;;
      if ps =? len b then
        mixerRemoveEvent j ;;
        q ← gets mqueue;
        if MixerQueue.mixerQueueEmpty q then mret tt else mixerAddOldEvent j
      else mret tt
  end.

(** The rest of the work on a state buffer that has a sound to play. *)
Definition mix_state_snd (i j index : Z) : M world unit :=
  b ← sbuff j;
  s ← get_state_snd j index;
  bufs ← lift (some_ptr (s_snd_buf s));
  buf ← lift (rd bufs (s_snd_no s));
  buf ← lift (some_ptr buf);
  l ← lift (rd buf (s_pos s));
  sleft ← lift (d_short (d_mul (d_mul (d_mul (st_vol b) (st_stereo_pos b)) STATE_MULT) (d_of_Z l)));
  r ← lift (rd buf (u32 (s_pos s + 1)));
  sright ← lift (d_short (d_mul (d_mul (d_mul (st_vol b) (d_sub d1 (st_stereo_pos b))) STATE_MULT)
                                (d_of_Z r)));
  sleft ← (if st_filter_flag b =? 0 then mret sleft else mixerApplyStateFilters sleft (s_pos s) j);
  s ← get_state_snd j index;
  sright ← (if st_filter_flag b =? 0 then mret sright
            else mixerApplyStateFilters sright (u32 (s_pos s + 1)) j);
  add_output i sleft ;;
  add_output (i + 1) sright ;;
  s ← get_state_snd j index;
  let s := {| s_snd_buf := s_snd_buf s; s_len := s_len s; s_snd_cnt := s_snd_cnt s;
              s_snd_no := s_snd_no s; s_pos := u32 (s_pos s + STEREO) |} in
  put_state_snd j index s ;;
  lens ← lift (some_ptr (s_len s));
  ln ← lift (rd lens (s_snd_no s));
  if ln <=? s_pos s then
    n ← mixerPickRndStateSnd j;
    put_state_snd j index
      {| s_snd_buf := s_snd_buf s; s_len := s_len s; s_snd_cnt := s_snd_cnt s;
         s_snd_no := n; s_pos := 0 |}
  else mret tt.

(** One state buffer at output position [i]. *)
Definition mix_state (i j : Z) : M world unit :=
  b ← sbuff j;
  p ← mixerGetStateSndPtr j (st_vol b);
  if d_eqb (st_vol b) d_zero then mret tt
  else match p with
  | None => mret tt
  | Some index =>
      s ← get_state_snd j index;
      bufs ← lift (some_ptr (s_snd_buf s));
      buf ← lift (rd bufs (s_snd_no s));
      match buf with
      | None => mret tt
      | Some _ => mix_state_snd i j index
      end
  end.

Fixpoint for_channels (n : nat) (j : Z) (body : Z -> M world unit) : M world unit :=
  match n with
  | O => mret tt
  | S n => body j ;; for_channels n (j + 1) body
  end.

Definition mix_frame (i : Z) : M world unit :=
  n ← gets no_ebuffs;
  for_channels (Z.to_nat n) 0 (mix_event i) ;;
  n ← gets no_sbuffs;
  for_channels (Z.to_nat n) 0 (mix_state i).

Fixpoint mix_frames (n : nat) (i : Z) : M world unit :=
  match n with
  | O => mret tt
  | S n => mix_frame i ;; mix_frames n (i + STEREO)
  end.

(** [memset] of the first [n] samples of the output buffer. *)
Definition clear_output (n : Z) : M world unit := fun w =>
  o ← deref (output w);
  if decide (n <= Z.of_nat (length o)) then
    mret (tt, set_output (PLive (replicate (Z.to_nat n) 0 ++ drop (Z.to_nat n) o)) w)
  else Fault OutOfBounds.

(** [soundPlayChunk] hands the chunk to the sound card. *)
Definition play_output (n : Z) : M world unit := fun w =>
  o ← deref (output w);
  mret (tt, set_played (played w ++ [take (Z.to_nat n) o]) w).

(** [i] steps by two below [chunk_size]. *)
Definition mixer : M world unit :=
  n ← gets chunk_size;
  clear_output n ;;
  mix_frames (Z.to_nat ((n + 1) / STEREO)) 0 ;;
  play_output n.

(** ** Start and end *)

Definition zero_ebuf : EVENT_BUF :=
  {| snd_buf := None; len := 0; pos := 0; stereo_pos := d_zero; filter_flag := 0 |}.
Definition zero_sbuf : STATE_BUF :=
  {| thresh := None; thresh_cnt := 0; st_stereo_pos := d_zero; st_vol := d_zero;
     st_filter_flag := 0 |}.
Definition zero_fade : FADE_REC :=
  {| fade_time := d_zero; f_snd := 0; f_pos := 0; old_thresh := 0 |}.

Definition mixerFadeEffectInit : M world unit :=
  modify (fun w => set_lin_fade (PLive (replicate (Z.to_nat (no_sbuffs w)) zero_fade)) w).

(** [0.5 * (SAMPLE_RATE / 1000) * 2 * STEREO * 1024] *)
Definition chunk_formula : dbl :=
  d_mul (d_mul (d_mul (d_mul d_half (d_of_Z (SAMPLE_RATE / 1000))) (d_of_Z 2)) (d_of_Z STEREO))
    (d_of_Z 1024).

(** The element size given to [calloc] for [output] is [*output], the first
    sample of the buffer that [output] pointed to before. *)
Definition mixerInit (ebuf sbuf : Z) : M world unit :=
  size ← lift (d_uint chunk_formula);
  modify (set_chunk_size size) ;;
  elt ← rd_at output 0;
  modify (set_output (PLive (replicate (Z.to_nat (size * elt / 2)) 0))) ;;
  modify (set_counts ebuf sbuf) ;;
  modify (set_ebuffs (PLive (replicate (Z.to_nat ebuf) zero_ebuf))) ;;
  modify (set_sbuffs (PLive (replicate (Z.to_nat sbuf) zero_sbuf))) ;;
  modify (set_dyn_mul (PLive (replicate (Z.to_nat ebuf) d_zero))) ;;
  modify (set_mlock false) ;;
  mixerFadeEffectInit.

(** The sounds of one state that are freed: for each of [n] thresholds from
    [j], its [snd_cnt] sounds. *)
Fixpoint free_segments (n : nat) (k : Z) (s : STATE_SND) : res (list samples) :=
  match n with
  | O => mret []
  | S n => bufs ← some_ptr (s_snd_buf s); x ← rd bufs k;
           rest ← free_segments n (k + 1) s; mret (x :: rest)
  end.

Fixpoint free_thresholds (n : nat) (j : Z) (b : STATE_BUF) : res (list samples) :=
  match n with
  | O => mret []
  | S n => ts ← some_ptr (thresh b); t ← rd ts j;
           xs ← free_segments (Z.to_nat (s_snd_cnt (state_snd t))) 0 (state_snd t);
           rest ← free_thresholds n (j + 1) b; mret (xs ++ rest)
  end.

Fixpoint free_states (n : nat) (i : Z) : M world (list samples) :=
  match n with
  | O => mret []
  | S n => b ← sbuff i;
           xs ← lift (free_thresholds (Z.to_nat (thresh_cnt b)) 0 b);
           rest ← free_states n (i + 1); mret (xs ++ rest)
  end.

Definition free_var {A} (get : world -> ptr A) (set : ptr A -> world -> world) : M world unit :=
  fun w => p ← free_ptr (get w); mret (tt, set p w).

Definition mixerFadeEffectShutdown : M world unit := free_var lin_fade set_lin_fade.

(** Returns the sounds that are freed. *)
Definition mixerShutdown : M world (list samples) :=
  lock_mixer ;;
  free_var ebuffs set_ebuffs ;;
  n ← gets no_sbuffs;
  xs ← free_states (Z.to_nat n) 0;
  free_var sbuffs set_sbuffs ;;
  free_var dyn_mul set_dyn_mul ;;
  free_var output set_output ;;
  mixerFadeEffectShutdown ;;
  unlock_mixer ;;
  mret xs.

End WithEnv.

(** ** The invariant of the event channels

    [chan_ok w bs ss ds]: the three arrays have an element per channel; a
    channel plays a sound exactly when its start time is set; the count and
    the volumes are those of the channels that play. *)

Definition busy1 (b : EVENT_BUF) : Z := match snd_buf b with Some _ => 1 | None => 0 end.

Fixpoint busy (bs : list EVENT_BUF) : Z :=
  match bs with [] => 0 | b :: bs => busy1 b + busy bs end.

Definition idle_start (s : engine_sched) : bool := d_eqb (startt s) d_zero.

Definition paired (b : EVENT_BUF) (s : engine_sched) (d : dbl) : Prop :=
  match snd_buf b with
  | None => idle_start s = true /\ d = d_zero /\ pos b = 0
  | Some _ => idle_start s = false
  end.

Record chan_ok (w : world) (bs : list EVENT_BUF) (ss : list engine_sched) (ds : list dbl) : Prop := {
  ok_ebuffs : ebuffs w = PLive bs;
  ok_sched : sched w = PLive ss;
  ok_dyn : dyn_mul w = PLive ds;
  ok_len_s : length ss = length bs;
  ok_len_d : length ds = length bs;
  ok_n : no_ebuffs w = Z.of_nat (length bs);
  ok_ne : eng_ebuffs w = Z.of_nat (length bs);
  ok_pos : 0 < Z.of_nat (length bs) < 2 ^ 31;
  ok_mlock : mlock w = false;
  ok_tlock : tlock w = false;
  ok_cnt : dyn_buf_cnt w = busy bs;
  ok_pair : forall i b s d, bs !! i = Some b -> ss !! i = Some s -> ds !! i = Some d -> paired b s d
}.

Lemma busy_insert bs i b b' :
  bs !! i = Some b -> busy (<[i := b']> bs) = busy bs - busy1 b + busy1 b'.
Proof.
  revert i. induction bs as [|a bs IH]; intros [|i] H; simplify_eq/=; [lia|].
  rewrite (IH i) by done. lia.
Qed.

Lemma busy1_bounds b : 0 <= busy1 b <= 1.
Proof. unfold busy1. destruct (snd_buf b); lia. Qed.

Lemma busy_bounds bs : 0 <= busy bs <= Z.of_nat (length bs).
Proof.
  induction bs as [|b bs IH]; simpl; [lia|]. pose proof (busy1_bounds b). lia.
Qed.

Lemma busy_pos bs i b : bs !! i = Some b -> busy1 b <= busy bs.
Proof.
  revert i. induction bs as [|a bs IH]; intros [|i] H; simplify_eq/=.
  - pose proof (busy_bounds bs). lia.
  - pose proof (IH i H). pose proof (busy1_bounds a). lia.
Qed.

Lemma busy_idle bs i b :
  bs !! i = Some b -> snd_buf b = None -> busy bs < Z.of_nat (length bs).
Proof.
  intros Hb Hn. pose proof (busy_insert bs i b {| snd_buf := Some []; len := 0; pos := 0;
    stereo_pos := d_zero; filter_flag := 0 |} Hb) as H.
  pose proof (busy_bounds (<[i:={| snd_buf := Some []; len := 0; pos := 0;
    stereo_pos := d_zero; filter_flag := 0 |}]> bs)) as H2.
  rewrite length_insert in H2. unfold busy1 in H. rewrite Hn in H. simpl in H. lia.
Qed.

Lemma chan_lookup w bs ss ds i :
  chan_ok w bs ss ds -> 0 <= i < Z.of_nat (length bs) ->
  exists b s d, bs !! Z.to_nat i = Some b /\ ss !! Z.to_nat i = Some s /\
    ds !! Z.to_nat i = Some d /\ paired b s d.
Proof.
  intros Hok Hi. pose proof (ok_len_s _ _ _ _ Hok). pose proof (ok_len_d _ _ _ _ Hok).
  destruct (lookup_lt_is_Some_2 bs (Z.to_nat i)) as [b Hb]; [lia|].
  destruct (lookup_lt_is_Some_2 ss (Z.to_nat i)) as [s Hs]; [lia|].
  destruct (lookup_lt_is_Some_2 ds (Z.to_nat i)) as [d Hd]; [lia|].
  exists b, s, d. split_and!; try done. by eapply (ok_pair _ _ _ _ Hok).
Qed.

Lemma tot_vol_loop_Ok w ds n i sum :
  dyn_mul w = PLive ds -> 0 <= i -> i + Z.of_nat n <= Z.of_nat (length ds) ->
  exists x, tot_vol_loop n i sum w = Ok (x, w).
Proof.
  intros Hd. revert i sum. induction n as [|n IH]; intros i sum Hi Hn; simpl.
  { by eexists. }
  destruct (lookup_lt_is_Some_2 ds (Z.to_nat i)) as [v Hv]; [lia|].
  mstep (rd_at_Ok dyn_mul w ds i v Hd Hi Hv). apply IH; lia.
Qed.

Lemma mixerDynVol_Ok w ds :
  dyn_mul w = PLive ds -> no_ebuffs w = Z.of_nat (length ds) ->
  exists x, mixerDynVol w = Ok (x, w).
Proof.
  intros Hd Hn. unfold mixerDynVol, mixerDynTotVol.
  destruct (tot_vol_loop_Ok w ds (Z.to_nat (no_ebuffs w)) 0 d_zero Hd) as [x Hx]; [lia|lia|].
  assert (Ht : (n ← gets no_ebuffs; tot_vol_loop (Z.to_nat n) 0 d_zero) w = Ok (x, w)).
  { mstep (eq_refl : gets no_ebuffs w = Ok (no_ebuffs w, w)). exact Hx. }
  mstep Ht. unfold mixerDynIMul, mixerDynGMul, gets, mbind, M_bind. by eexists.
Qed.

(** *** Starting and stopping a sound *)

Definition loaded (b : EVENT_BUF) snd ln loc fl : EVENT_BUF :=
  {| snd_buf := snd; len := ln; pos := pos b; stereo_pos := loc; filter_flag := fl |}.

(** [mixerAddEvent] on a free channel: the sound is loaded there, and nothing
    but the channel, its volume and the count changes. *)
Lemma mixerAddEvent_free w bs ss ds j b snd ln lo fl :
  chan_ok w bs ss ds -> 0 <= j -> bs !! Z.to_nat j = Some b -> snd_buf b = None ->
  exists x, mixerAddEvent snd ln lo fl j w =
    Ok (MIXER_SUCCESS,
        set_mlock false (set_dyn_mul (PLive (<[Z.to_nat j := x]> ds))
          (set_dyn_buf_cnt (busy bs + 1)
            (set_ebuffs (PLive (<[Z.to_nat j := loaded b snd ln lo fl]> bs))
              (set_mlock true w))))).
Proof.
  intros Hok Hj Hb Hn. pose proof (lookup_lt_Some _ _ _ Hb) as Hlt.
  unfold mixerAddEvent, ebuff, set_ebuff, lock_mixer, unlock_mixer.
  mstep (rd_at_Ok ebuffs w bs j b (ok_ebuffs _ _ _ _ Hok) Hj Hb). rewrite Hn.
  erewrite bind_Ok by (cbn; by rewrite (ok_mlock _ _ _ _ Hok)).
  erewrite bind_Ok by (apply wr_at_Ok; [exact (ok_ebuffs _ _ _ _ Hok)|lia]).
  erewrite bind_Ok by reflexivity. cbn [set_dyn_buf_cnt dyn_buf_cnt set_ebuffs set_mlock].
  match goal with |- exists x, (mixerDynVol ≫= _) ?W = _ =>
    destruct (mixerDynVol_Ok W ds) as [x Hx];
      [exact (ok_dyn _ _ _ _ Hok)|cbn; rewrite (ok_n _ _ _ _ Hok), (ok_len_d _ _ _ _ Hok); done|]
  end.
  exists x. mstep Hx.
  erewrite bind_Ok by (apply wr_at_Ok; [exact (ok_dyn _ _ _ _ Hok)|rewrite (ok_len_d _ _ _ _ Hok); lia]).
  erewrite bind_Ok by reflexivity. unfold mret, M_ret. do 2 f_equal.
  pose proof (busy_idle bs _ b Hb Hn). pose proof (busy_bounds bs). pose proof (ok_pos _ _ _ _ Hok).
  unfold set_mlock, set_dyn_mul, set_ebuffs, set_dyn_buf_cnt. cbn.
  rewrite (ok_cnt _ _ _ _ Hok), u32_small by lia. done.
Qed.

Lemma mixerAddEvent_busy w bs ss ds j b snd ln lo fl x :
  chan_ok w bs ss ds -> 0 <= j -> bs !! Z.to_nat j = Some b -> snd_buf b = Some x ->
  mixerAddEvent snd ln lo fl j w = Ok (MIXER_CHAN_BUSY, w).
Proof.
  intros Hok Hj Hb Hn. unfold mixerAddEvent, ebuff.
  mstep (rd_at_Ok ebuffs w bs j b (ok_ebuffs _ _ _ _ Hok) Hj Hb). by rewrite Hn.
Qed.

Lemma engineSchedulerInit_Ok w ss j st pr me :
  sched w = PLive ss -> tlock w = false -> 0 <= j < Z.of_nat (length ss) ->
  engineSchedulerInit j st pr me w =
    Ok (ENGINE_SUCCESS,
        set_tlock false (set_sched (PLive (<[Z.to_nat j :=
          {| startt := st; priorit := pr; minendt := me |}]> ss)) (set_tlock true w))).
Proof.
  intros Hs Ht Hj. unfold engineSchedulerInit, lock_sched, unlock_sched.
  erewrite bind_Ok by (cbn; by rewrite Ht).
  erewrite bind_Ok by reflexivity. cbn [sched set_tlock]. rewrite Hs.
  erewrite bind_Ok by (apply wr_at_Ok; [exact Hs|lia]).
  erewrite bind_Ok by reflexivity. done.
Qed.

Definition stopped (b : EVENT_BUF) : EVENT_BUF :=
  {| snd_buf := None; len := 0; pos := 0; stereo_pos := d_zero; filter_flag := filter_flag b |}.
Definition sched_zero : engine_sched := {| startt := d_zero; priorit := 0; minendt := d_zero |}.

(** [mixerRemoveEvent] on a channel that plays. *)
Lemma mixerRemoveEvent_Ok w bs ss ds j b x :
  chan_ok w bs ss ds -> 0 <= j -> bs !! Z.to_nat j = Some b -> snd_buf b = Some x ->
  exists w', mixerRemoveEvent j w = Ok (tt, w') /\
    chan_ok w' (<[Z.to_nat j := stopped b]> bs) (<[Z.to_nat j := sched_zero]> ss)
      (<[Z.to_nat j := d_zero]> ds) /\
    mqueue w' = mqueue w /\ sound_table w' = sound_table w /\ output w' = output w /\
    sbuffs w' = sbuffs w /\ lastc w' = lastc w /\ time_calls w' = time_calls w /\
    rand_calls w' = rand_calls w /\ pb w' = pb w /\ lin_fade w' = lin_fade w /\
    no_sbuffs w' = no_sbuffs w.
Proof.
  intros Hok Hj Hb Hx. pose proof (lookup_lt_Some _ _ _ Hb) as Hlt.
  pose proof (ok_len_s _ _ _ _ Hok) as Hls. pose proof (ok_len_d _ _ _ _ Hok) as Hld.
  unfold mixerRemoveEvent, ebuff, set_ebuff, lock_mixer, unlock_mixer.
  erewrite bind_Ok by (cbn; by rewrite (ok_mlock _ _ _ _ Hok)).
  erewrite bind_Ok by (eapply rd_at_Ok; [exact (ok_ebuffs _ _ _ _ Hok)|done|exact Hb]).
  erewrite bind_Ok by (apply wr_at_Ok; [exact (ok_ebuffs _ _ _ _ Hok)|lia]).
  erewrite bind_Ok by (apply wr_at_Ok; [exact (ok_dyn _ _ _ _ Hok)|lia]).
  erewrite bind_Ok by reflexivity. erewrite bind_Ok by reflexivity.
  erewrite bind_Ok by (apply engineSchedulerInit_Ok;
    [exact (ok_sched _ _ _ _ Hok)|exact (ok_tlock _ _ _ _ Hok)|lia]).
  eexists. split; [reflexivity|]. split; [|done].
  pose proof (busy_pos bs _ b Hb) as Hbp. pose proof (busy_bounds bs).
  pose proof (ok_pos _ _ _ _ Hok).
  unfold busy1 in Hbp. rewrite Hx in Hbp.
  split; cbn; rewrite ?length_insert; try done; try apply Hok.
  - rewrite (ok_cnt _ _ _ _ Hok), (busy_insert _ _ _ _ Hb), u32_small by lia.
    unfold busy1. rewrite Hx. simpl. lia.
  - intros i b' s' d' H1 H2 H3.
    destruct (decide (i = Z.to_nat j)) as [->|Hne].
    + rewrite list_lookup_insert_eq in H1 by lia.
      rewrite list_lookup_insert_eq in H2 by lia. rewrite list_lookup_insert_eq in H3 by lia. by simplify_eq.
    + rewrite list_lookup_insert_ne in H1 by done.
      rewrite list_lookup_insert_ne in H2 by done. rewrite list_lookup_insert_ne in H3 by done. by eapply (ok_pair _ _ _ _ Hok).
Qed.

(** A sound loaded on a free channel whose start time is then set. *)
Lemma chan_ok_start w w' bs ss ds j b s snd ln lo fl x :
  chan_ok w bs ss ds -> bs !! j = Some b -> snd_buf b = None ->
  idle_start s = false ->
  ebuffs w' = PLive (<[j := loaded b (Some snd) ln lo fl]> bs) ->
  sched w' = PLive (<[j := s]> ss) ->
  dyn_mul w' = PLive (<[j := x]> ds) ->
  dyn_buf_cnt w' = busy bs + 1 -> no_ebuffs w' = no_ebuffs w -> eng_ebuffs w' = eng_ebuffs w ->
  mlock w' = false -> tlock w' = false ->
  chan_ok w' (<[j := loaded b (Some snd) ln lo fl]> bs) (<[j := s]> ss) (<[j := x]> ds).
Proof.
  intros Hok Hb Hn Hs He1 He2 He3 Hc Hn1 Hn2 Hm Ht.
  pose proof (lookup_lt_Some _ _ _ Hb) as Hlt.
  pose proof (ok_len_s _ _ _ _ Hok) as Hls. pose proof (ok_len_d _ _ _ _ Hok) as Hld.
  split; rewrite ?length_insert; try done; rewrite ?Hn1, ?Hn2; try apply Hok.
  - rewrite Hc, (busy_insert _ _ _ _ Hb). unfold busy1. rewrite Hn. simpl. lia.
  - intros i b' s' d' H1 H2 H3. destruct (decide (i = j)) as [->|Hne].
    + rewrite list_lookup_insert_eq in H1 by lia.
      rewrite list_lookup_insert_eq in H2 by lia. rewrite list_lookup_insert_eq in H3 by lia. by simplify_eq.
    + rewrite list_lookup_insert_ne in H1 by done.
      rewrite list_lookup_insert_ne in H2 by done. rewrite list_lookup_insert_ne in H3 by done. by eapply (ok_pair _ _ _ _ Hok).
Qed.
