(* ===== verification/Engine.v ===== *)
(** * The engine ([engine.c])

    [engineIO] decides what to do with an event: it starts a sound on an idle
    channel, puts the event aside when every channel plays, or changes the
    settings of a state. *)

From stdpp Require Import base list sets strings.
From Stdlib Require Import ZArith Lia.
From S2P Require Import Prelude Events CString Dbl SoundTable MixerQueue World Playback Mixer.
Import SoundTable.
Local Open Scope Z_scope.

Definition EVENT_QUEUE_ENTRIES : Z := 64.
Definition MAX_FADE_TIME : dbl := d_of_Z 2.

Section WithEnv.
  Context {E : Env}.

(** The first part of [engineIO]: a copy of the event goes to the recording
    file; a failure is only logged. *)
Definition record_incoming (e : EVENT) : M world unit :=
  on ← playbackModeOn None;
  if on =? 0 then mret tt
  else
    m ← playbackSetMode None;
    match m with
    | RECORD_MODE =>
        playbackRecordEvent {| event := e; mix_time := zero_time |} ;; mret tt
    | PLAY_MODE => mret tt
    end.

(** Whether the sound of channel [c] has less priority to stay than that of
    [bestc], or the same and started earlier: the two tests of the loop, which
    are only made when [bestc == 0]. *)
Definition prefer (bestc c : Z) : M world bool :=
  if bestc =? 0 then
    b ← rd_at sched bestc;
    s ← rd_at sched c;
    mret ((priorit b <? priorit s)
          || ((priorit b =? priorit s) && d_ltb (startt s) (startt b)))
  else mret false.

(** The search for a channel: [n] iterations from [ind]. *)
Fixpoint choose_loop (n : nat) (ind bestc : Z) : M world Z :=
  match n with
  | O => mret bestc
  | S n =>
      lc ← gets lastc;
      ne ← gets eng_ebuffs;
      let c := u32 (lc + ind) mod ne in
      s ← rd_at sched c;
      if d_eqb (startt s) d_zero then mret c
      else
        gettimeofday ;;
        p ← prefer bestc c;
        choose_loop n (ind + 1) (if (p : bool) then c else bestc)
  end.

(** Starting the sound of the event on channel [bestc]. *)
Definition play_on (e : EVENT) (bestc : Z) : M world unit :=
  s ← rd_at sched bestc;
  (if d_eqb (startt s) d_zero then mret tt else mixerInterrupt bestc) ;;
  t ← gets sound_table;
  d ← lift (engineSoundTableDataRetrieve lookup_fuel t (sound e));
  d ← lift (some_ptr d);
  entry ← lift (as_event d);
  r ← rand;
  next_snd ← lift (d_int (rand_pick (snd_cnt entry) r));
  snd ← lift (rd (snds entry) next_snd);
  ln ← lift (rd (lens entry) next_snd);
  mixerAddEvent snd ln (d_div (d_of_Z (loc e)) (d_of_Z 255)) (flags e) bestc ;;
  tp ← gettimeofday;
  lock_sched ;;
  s ← rd_at sched bestc;
  wr_at sched set_sched bestc
    {| startt := TP_IN_FP_SECS tp; priorit := prior e; minendt := minendt s |} ;;
  unlock_sched.

(** An event of type [EVENT_T]. The result says whether control reaches the
    end of the function, where the sound string is freed. *)
Definition io_event (e : EVENT) : M world bool :=
  ne ← gets eng_ebuffs;
  bestc ← choose_loop (Z.to_nat ne) 0 (-1);
  if bestc =? -1 then
    q ← gets mqueue;
    if MixerQueue.mixerQueueFull q then mret false
    else
      tp ← gettimeofday;
      on_mqueue (MixerQueue.mixerEnqueue {| event := e; mix_time := tp |}) ;;
      mret false
  else
    modify (set_lastc ((bestc + 1) mod ne)) ;;
    play_on e bestc ;;
    mret true.

(** An event of type [STATE_T]. *)
Definition io_state (e : EVENT) : M world unit :=
  t ← gets sound_table;
  d ← lift (engineSoundTableDataRetrieve lookup_fuel t (sound e));
  d ← lift (some_ptr d);
  entry ← lift (as_state d);
  let j := u32 (mixer_index entry) in
  mixerGetFadeTime j ;;
  (if dither e =? 255 then mret tt
   else mixerSetFadeTime j (d_div (d_of_Z (dither e)) (d_div (d_of_Z 255) MAX_FADE_TIME)) ;;
        mret tt) ;;
  mixerSetStateSnd j (d_div (d_of_Z (vol e)) (d_of_Z 255))
    (d_div (d_of_Z (loc e)) (d_of_Z 255)) (flags e).

(** The result says whether the sound string of the event is freed. *)
Definition engineIO (e : EVENT) : M world bool :=
  record_incoming e ;;
  if type e =? event_type_val EVENT_T then io_event e
  else if type e =? event_type_val STATE_T then io_state e ;; mret true
  else mret true.

(** [engineInit], but for the engine queue, which has a state of its own. *)
Definition engineInit (countEbuf countSbuf : Z) : M world unit :=
  modify (fun w => set_eng_ebuffs countEbuf w) ;;
  mixerInit countEbuf countSbuf ;;
  modify (fun w => set_sched (PLive (replicate (Z.to_nat countEbuf) sched_zero)) w) ;;
  modify (fun w => set_sound_table (engineInitSoundTable true).2 w) ;;
  modify (fun w => set_mqueue (MixerQueue.mixerQueueInit EVENT_QUEUE_ENTRIES) w) ;;
  modify (fun w => set_tlock false w).

Definition destroy_table : M world (list samples) := fun w =>
  '(xs, t) ← engineSoundTableDestroy (sound_table w); mret (xs, set_sound_table t w).
Definition destroy_mqueue : M world unit := fun w =>
  q ← MixerQueue.mixerQueueDestroy (mqueue w); mret (tt, set_mqueue q w).

(** [engineShutdown], but for the engine queue. *)
Definition engineShutdown : M world (list samples) :=
  free_var sched set_sched ;;
  xs ← destroy_table;
  destroy_mqueue ;;
  mret xs.

(** What [engineLoop] does with an event it has dequeued: [None] when it
    discards it, else whether the sound string was freed. *)
Definition engineLoop_body (e : EVENT) : M world (option bool) :=
  t ← gets sound_table;
  entry ← lift (engineSoundTableRetrieve lookup_fuel t (sound e));
  match entry with
  | None => mret None
  | Some entry =>
      if type e =? event_type_val (stype entry) then r ← engineIO e; mret (Some r)
      else mret None
  end.

End WithEnv.

(** ** Choosing a channel *)

(** The channels in the order in which the search looks at them. *)
Definition scan_order (lc n : Z) : list Z := (fun i => (lc + Z.of_nat i) mod n) <$> seq 0 (Z.to_nat n).

Definition is_idle (ss : list engine_sched) (c : Z) : bool :=
  match ss !! Z.to_nat c with Some s => idle_start s | None => false end.

(** The first idle channel of a list. *)
Fixpoint first_idle (ss : list engine_sched) (cs : list Z) : option Z :=
  match cs with
  | [] => None
  | c :: cs => if is_idle ss c then Some c else first_idle ss cs
  end.

Lemma first_idle_Some ss cs c : first_idle ss cs = Some c -> c ∈ cs /\ is_idle ss c = true.
Proof.
  induction cs as [|c' cs IH]; simpl; [done|]. case_if.
  - intros [= ->]. split; [left|done].
  - intros [? ?]%IH. split; [by right|done].
Qed.

Lemma first_idle_None ss cs : first_idle ss cs = None -> forall c, c ∈ cs -> is_idle ss c = false.
Proof.
  induction cs as [|c' cs IH]; simpl; [set_solver|]. case_if; [done|].
  intros H c [->|Hc]%elem_of_cons; auto.
Qed.

Lemma scan_order_all lc n c : 0 <= c < n -> c ∈ scan_order lc n.
Proof.
  intros Hc. unfold scan_order. apply list_elem_of_fmap.
  exists (Z.to_nat ((c - lc) mod n)). pose proof (Z.mod_pos_bound (c - lc) n ltac:(lia)).
  split; [|apply elem_of_seq; lia].
  rewrite Z2Nat.id by lia. rewrite Zplus_mod_idemp_r.
  replace (lc + (c - lc)) with c by lia. by rewrite Z.mod_small.
Qed.

Lemma scan_order_range lc n c : 0 < n -> c ∈ scan_order lc n -> 0 <= c < n.
Proof.
  intros Hn Hc. apply list_elem_of_fmap in Hc as (i & -> & _). by apply Z.mod_pos_bound.
Qed.

Lemma chan_ok_ext w w' bs ss ds :
  chan_ok w bs ss ds ->
  ebuffs w' = ebuffs w -> sched w' = sched w -> dyn_mul w' = dyn_mul w ->
  no_ebuffs w' = no_ebuffs w -> eng_ebuffs w' = eng_ebuffs w -> mlock w' = mlock w ->
  tlock w' = tlock w -> dyn_buf_cnt w' = dyn_buf_cnt w -> chan_ok w' bs ss ds.
Proof. intros [] ? ? ? ? ? ? ? ?. split; first [done | congruence | lia]. Qed.

Section Choice.
Context {E : Env}.

Lemma choose_loop_spec k ind : forall w bs ss ds,
  chan_ok w bs ss ds -> 0 <= lastc w < Z.of_nat (length bs) ->
  Z.of_nat (ind + k) <= Z.of_nat (length bs) ->
  exists t, choose_loop k (Z.of_nat ind) (-1) w =
    Ok (default (-1) (first_idle ss
          ((fun i => (lastc w + Z.of_nat i) mod Z.of_nat (length bs)) <$> seq ind k)),
        set_time_calls t w).
Proof.
  revert ind. induction k as [|k IH]; intros ind w bs ss ds Hok Hlc Hk.
  { exists (time_calls w). by destruct w. }
  pose proof (ok_pos _ _ _ _ Hok) as Hpos.
  cbn [choose_loop seq]. rewrite fmap_cons. cbn [first_idle].
  mstep (eq_refl : gets lastc w = Ok (lastc w, w)).
  mstep (eq_refl : gets eng_ebuffs w = Ok (eng_ebuffs w, w)).
  rewrite (ok_ne _ _ _ _ Hok), u32_small by lia.
  set (c := (lastc w + Z.of_nat ind) mod Z.of_nat (length bs)).
  assert (Hc : 0 <= c < Z.of_nat (length bs)) by (apply Z.mod_pos_bound; lia).
  destruct (chan_lookup _ _ _ _ c Hok Hc) as (b & s & d & Hb & Hs & _).
  mstep (rd_at_Ok sched w ss c s (ok_sched _ _ _ _ Hok) (proj1 Hc) Hs).
  unfold is_idle. rewrite Hs. unfold idle_start. destruct (d_eqb (startt s) d_zero).
  { exists (time_calls w). by destruct w. }
  mstep (eq_refl : gettimeofday w = Ok (time_at (time_calls w), set_time_calls (S (time_calls w)) w)).
  cbn [prefer Z.eqb]. erewrite bind_Ok by reflexivity.
  replace (Z.of_nat ind + 1) with (Z.of_nat (S ind)) by lia.
  destruct (IH (S ind) (set_time_calls (S (time_calls w)) w) bs ss ds) as [t Ht];
    [by eapply chan_ok_ext|done|lia|].
  exists t. rewrite Ht. done.
Qed.

Lemma choose_channel w bs ss ds :
  chan_ok w bs ss ds -> 0 <= lastc w < Z.of_nat (length bs) ->
  exists t, choose_loop (Z.to_nat (eng_ebuffs w)) 0 (-1) w =
    Ok (default (-1) (first_idle ss (scan_order (lastc w) (Z.of_nat (length bs)))),
        set_time_calls t w).
Proof.
  intros Hok Hlc. rewrite (ok_ne _ _ _ _ Hok), Nat2Z.id. unfold scan_order. rewrite Nat2Z.id.
  apply (choose_loop_spec (length bs) 0 w bs ss ds Hok Hlc). lia.
Qed.

(** An event the table has sounds for. *)
Definition playable (w : world) (e : EVENT) (ev : EVENT_ENTRY) : Prop :=
  engineSoundTableDataRetrieve lookup_fuel (sound_table w) (sound e) = Ok (Some (DEvent ev)) /\
  0 < snd_cnt ev < 2 ^ 22 /\ Z.of_nat (length (snds ev)) = snd_cnt ev /\
  length (snds ev) = length (lens ev) /\ Forall (fun s => s <> None) (snds ev).

(** The sound that is chosen when [rand] has been called [k] times. *)
Definition chosen (ev : EVENT_ENTRY) (k : nat) : Z := snd_cnt ev * rand_at k / 2 ^ 31.

Lemma playable_sound w e ev `{!EnvLaws E} :
  playable w e ev -> exists snd ln,
    0 <= chosen ev (rand_calls w) /\
    snds ev !! Z.to_nat (chosen ev (rand_calls w)) = Some (Some snd) /\
    lens ev !! Z.to_nat (chosen ev (rand_calls w)) = Some ln.
Proof.
  intros (_ & Hc & Hl & Hl2 & Hf).
  pose proof (rand_index (snd_cnt ev) (rand_at (rand_calls w)) ltac:(lia) (rand_range _)) as Hb.
  fold (chosen ev (rand_calls w)) in Hb.
  destruct (lookup_lt_is_Some_2 (snds ev) (Z.to_nat (chosen ev (rand_calls w)))) as [o Ho]; [lia|].
  destruct (lookup_lt_is_Some_2 (lens ev) (Z.to_nat (chosen ev (rand_calls w)))) as [ln Hln]; [lia|].
  pose proof (Forall_lookup_1 _ _ _ _ Hf Ho). destruct o as [snd|]; [|done].
  exists snd, ln. split; [lia|done].
Qed.

Definition stereo_of (e : EVENT) : dbl := d_div (d_of_Z (loc e)) (d_of_Z 255).

(** Starting a sound on an idle channel. *)
Lemma play_on_idle `{!EnvLaws E} w bs ss ds e ev c :
  chan_ok w bs ss ds -> playable w e ev -> 0 <= c -> is_idle ss c = true ->
  exists w' b s snd ln x, play_on e c w = Ok (tt, w') /\
    bs !! Z.to_nat c = Some b /\ snd_buf b = None /\
    snds ev !! Z.to_nat (chosen ev (rand_calls w)) = Some (Some snd) /\
    lens ev !! Z.to_nat (chosen ev (rand_calls w)) = Some ln /\
    idle_start s = false /\ priorit s = prior e /\
    chan_ok w' (<[Z.to_nat c := loaded b (Some snd) ln (stereo_of e) (flags e)]> bs)
      (<[Z.to_nat c := s]> ss) (<[Z.to_nat c := x]> ds) /\
    lastc w' = lastc w /\ mqueue w' = mqueue w /\ sound_table w' = sound_table w /\
    sbuffs w' = sbuffs w /\ lin_fade w' = lin_fade w /\ no_sbuffs w' = no_sbuffs w /\
    output w' = output w /\ pb w' = pb w.
Proof.
  intros Hok Hpl Hc Hi. destruct (playable_sound w e ev Hpl) as (snd & ln & Hc0 & Hsnd & Hln).
  destruct Hpl as (Hret & Hcnt & Hl & Hl2 & Hf).
  unfold is_idle in Hi. destruct (ss !! Z.to_nat c) as [s|] eqn:Hs; [|done].
  pose proof (lookup_lt_Some _ _ _ Hs) as Hlt. pose proof (ok_len_s _ _ _ _ Hok) as Hls.
  destruct (chan_lookup w bs ss ds c Hok) as (b & s' & d & Hb & Hs' & Hd & Hp); [lia|].
  simplify_eq. assert (Hn : snd_buf b = None).
  { unfold paired in Hp. destruct (snd_buf b); [congruence|done]. }
  assert (Hpos : pos b = 0) by (unfold paired in Hp; rewrite Hn in Hp; apply Hp).
  unfold play_on.
  mstep (rd_at_Ok sched w ss c s (ok_sched _ _ _ _ Hok) Hc Hs).
  unfold idle_start in Hi. rewrite Hi.
  mstep (eq_refl : (mret tt : M world unit) w = Ok (tt, w)).
  mstep (eq_refl : gets sound_table w = Ok (sound_table w, w)).
  erewrite bind_Ok by (unfold lift; rewrite Hret; reflexivity).
  erewrite bind_Ok by reflexivity. erewrite bind_Ok by reflexivity.
  mstep (eq_refl : rand w = Ok (rand_at (rand_calls w), set_rand_calls (S (rand_calls w)) w)).
  set (w1 := set_rand_calls _ w).
  erewrite bind_Ok by (unfold lift; rewrite rand_pick_int by (done || apply rand_range); reflexivity).
  fold (chosen ev (rand_calls w)).
  assert (Hr1 : rd (snds ev) (chosen ev (rand_calls w)) = Ok (Some snd)) by (by apply rd_Ok).
  assert (Hr2 : rd (lens ev) (chosen ev (rand_calls w)) = Ok ln) by (by apply rd_Ok).
  erewrite bind_Ok by (unfold lift; rewrite Hr1; reflexivity).
  erewrite bind_Ok by (unfold lift; rewrite Hr2; reflexivity).
  assert (Hok1 : chan_ok w1 bs ss ds) by (by eapply chan_ok_ext).
  destruct (mixerAddEvent_free w1 bs ss ds c b (Some snd) ln (stereo_of e) (flags e) Hok1 Hc Hb Hn)
    as [x Hx]. unfold stereo_of in Hx. mstep Hx.
  erewrite bind_Ok by reflexivity. unfold lock_sched, unlock_sched.
  erewrite bind_Ok by (cbn; rewrite (ok_tlock _ _ _ _ Hok); reflexivity).
  erewrite bind_Ok by (eapply rd_at_Ok; [exact (ok_sched _ _ _ _ Hok)|done|exact Hs]).
  erewrite bind_Ok by (apply wr_at_Ok; [exact (ok_sched _ _ _ _ Hok)|lia]).
  eexists _, b, {| startt := TP_IN_FP_SECS (time_at (time_calls w)); priorit := prior e;
                   minendt := minendt s |}, snd, ln, x. split; [reflexivity|].
  split_and!; try done.
  - exact (time_set _).
  - eapply (chan_ok_start w); try done. exact (time_set _).
Qed.

(** *** The invariant of the engine *)

(** What the loaded sounds must satisfy for an entry to be usable. *)
Definition usable (w : world) (en : sound_entry) : Prop :=
  match data en, stype en with
  | DEvent ev, EVENT_T =>
      0 < snd_cnt ev < 2 ^ 22 /\ Z.of_nat (length (snds ev)) = snd_cnt ev /\
      length (snds ev) = length (lens ev) /\ Forall (fun s => s <> None) (snds ev)
  | DState st, STATE_T =>
      0 <= mixer_index st < no_sbuffs w
  | _, _ => False
  end.

Record engine_ok (w : world) bs ss ds l : Prop := {
  eng_chan : chan_ok w bs ss ds;
  eng_lastc : 0 <= lastc w < Z.of_nat (length bs);
  eng_queue : MixerQueue.queued (mqueue w) l;
  eng_states : exists sb fr, sbuffs w = PLive sb /\ lin_fade w = PLive fr /\
    Z.of_nat (length sb) = no_sbuffs w /\ Z.of_nat (length fr) = no_sbuffs w /\
    no_sbuffs w < 2 ^ 32;
  eng_table : forall nm en,
    engineSoundTableRetrieve lookup_fuel (sound_table w) nm = Ok (Some en) -> usable w en;
  eng_play : tape_ok (pb w)
}.

Lemma record_incoming_ok e w :
  tape_ok (pb w) -> exists p t c, record_incoming e w = Ok (tt, taped p t c w) /\ tape_ok p.
Proof.
  intros H. unfold record_incoming, playbackModeOn, playbackSetMode. erewrite bind_Ok by reflexivity.
  pose proof (taped_id w) as Ei.
  destruct (Z.eqb_spec (use_playback (pb w)) 0) as [_|Hu].
  { exists (pb w), (time_calls w), (fwrite_calls w). by rewrite Ei. }
  erewrite bind_Ok by reflexivity. destruct (mode (pb w)) eqn:Hm.
  { exists (pb w), (time_calls w), (fwrite_calls w). by rewrite Ei. }
  destruct H as [|[H|H]]; [done|congruence|].
  destruct (playbackRecordEvent_returns {| event := e; mix_time := zero_time |} w H)
    as (n & p & t & c & E1 & Hp & _). mstep E1. exists p, t, c. split; [done|by right; right].
Qed.

Lemma engine_ok_taped w bs ss ds l p t c :
  engine_ok w bs ss ds l -> tape_ok p -> engine_ok (taped p t c w) bs ss ds l.
Proof. intros [Hch Hlc Hq Hst Htb _] Hp. split; try done. by eapply chan_ok_ext. Qed.

(** What [engineIO] does once the event has been recorded. *)
Lemma engineIO_taped w bs ss ds l e :
  engine_ok w bs ss ds l -> exists p t c, engine_ok (taped p t c w) bs ss ds l /\
    engineIO e w = (if type e =? event_type_val EVENT_T then io_event e
      else if type e =? event_type_val STATE_T then io_state e ;; mret true else mret true) (taped p t c w).
Proof.
  intros Hok. destruct (record_incoming_ok e w (eng_play _ _ _ _ _ Hok)) as (p & t & c & E1 & Hp).
  exists p, t, c. split; [by apply engine_ok_taped|]. unfold engineIO. by mstep E1.
Qed.

Lemma usable_playable w e en ev :
  engineSoundTableRetrieve lookup_fuel (sound_table w) (sound e) = Ok (Some en) ->
  usable w en -> data en = DEvent ev -> playable w e ev.
Proof.
  intros Hr Hu Hd. unfold usable in Hu. rewrite Hd in Hu. destruct (stype en); [|done].
  split; [|done]. unfold engineSoundTableDataRetrieve. rewrite Hr. simpl. by rewrite Hd.
Qed.

Lemma engine_ok_ext w w' bs ss ds l l' :
  engine_ok w bs ss ds l -> chan_ok w' bs ss ds -> lastc w' = lastc w ->
  MixerQueue.queued (mqueue w') l' -> sbuffs w' = sbuffs w -> lin_fade w' = lin_fade w ->
  no_sbuffs w' = no_sbuffs w -> sound_table w' = sound_table w -> pb w' = pb w ->
  engine_ok w' bs ss ds l'.
Proof.
  intros [] Hc Hl Hq Hs Hf Hn Ht Hp. split; try congruence; try done.
  - by rewrite Hs, Hf, Hn.
  - intros nm en Hr. rewrite Ht in Hr. unfold usable. rewrite Hn. by apply (eng_table0 nm).
Qed.

(** The two outcomes of [io_event]. *)
Lemma io_event_idle `{!EnvLaws E} w bs ss ds l e ev c :
  engine_ok w bs ss ds l -> playable w e ev ->
  first_idle ss (scan_order (lastc w) (Z.of_nat (length bs))) = Some c ->
  exists w' b s snd ln x, io_event e w = Ok (true, w') /\
    0 <= c < Z.of_nat (length bs) /\
    bs !! Z.to_nat c = Some b /\ snd_buf b = None /\
    snds ev !! Z.to_nat (chosen ev (rand_calls w)) = Some (Some snd) /\
    lens ev !! Z.to_nat (chosen ev (rand_calls w)) = Some ln /\
    priorit s = prior e /\ lastc w' = (c + 1) mod Z.of_nat (length bs) /\
    engine_ok w' (<[Z.to_nat c := loaded b (Some snd) ln (stereo_of e) (flags e)]> bs)
      (<[Z.to_nat c := s]> ss) (<[Z.to_nat c := x]> ds) l.
Proof.
  intros Hok Hpl Hf. pose proof (eng_chan _ _ _ _ _ Hok) as Hch.
  pose proof (ok_pos _ _ _ _ Hch) as Hpos.
  destruct (choose_channel w bs ss ds Hch (eng_lastc _ _ _ _ _ Hok)) as [t Ht].
  rewrite Hf in Ht. simpl default in Ht.
  destruct (first_idle_Some _ _ _ Hf) as [Hin Hi].
  apply scan_order_range in Hin; [|lia].
  unfold io_event. mstep (eq_refl : gets eng_ebuffs w = Ok (eng_ebuffs w, w)). mstep Ht.
  destruct (Z.eqb_spec c (-1)); [lia|].
  set (w1 := set_lastc ((c + 1) mod eng_ebuffs w) (set_time_calls t w)).
  erewrite bind_Ok by reflexivity. fold w1.
  assert (Hch1 : chan_ok w1 bs ss ds) by (by eapply chan_ok_ext).
  destruct (play_on_idle w1 bs ss ds e ev c Hch1) as
    (w' & b & s & snd & ln & x & Ep & Hb & Hn & H1 & H2 & Hs & Hpr & Hch' & L & Q & T & S1 & S2 & S3 & _ & P);
    [exact Hpl|lia|done|].
  exists w', b, s, snd, ln, x. mstep Ep. split; [done|]. split; [lia|].
  assert (HL : lastc w' = (c + 1) mod Z.of_nat (length bs))
    by (rewrite L; simpl; by rewrite (ok_ne _ _ _ _ Hch)).
  split_and!; try done. destruct Hok as [_ _ Hq Hst Htb Hpb]. split.
  - done.
  - rewrite length_insert, HL. apply Z.mod_pos_bound. lia.
  - by rewrite Q.
  - by rewrite S1, S2, S3.
  - intros nm en Hr. rewrite T in Hr. unfold usable. rewrite S3. by apply (Htb nm).
  - by rewrite P.
Qed.

Lemma io_event_busy w bs ss ds l e :
  engine_ok w bs ss ds l ->
  first_idle ss (scan_order (lastc w) (Z.of_nat (length bs))) = None ->
  exists w' l', io_event e w = Ok (false, w') /\ engine_ok w' bs ss ds l' /\
    lastc w' = lastc w /\
    if MixerQueue.mixerQueueFull (mqueue w) then mqueue w' = mqueue w /\ l' = l
    else exists t, l' ≡ₚ l ++ [{| event := e; mix_time := time_at t |}].
Proof.
  intros Hok Hf. pose proof (eng_chan _ _ _ _ _ Hok) as Hch.
  destruct (choose_channel w bs ss ds Hch (eng_lastc _ _ _ _ _ Hok)) as [t Ht].
  rewrite Hf in Ht. simpl default in Ht.
  unfold io_event. mstep (eq_refl : gets eng_ebuffs w = Ok (eng_ebuffs w, w)). mstep Ht.
  cbn [Z.eqb Pos.eqb]. erewrite bind_Ok by reflexivity.
  change (mqueue (set_time_calls t w)) with (mqueue w).
  destruct (MixerQueue.mixerQueueFull (mqueue w)) eqn:Hfull.
  - exists (set_time_calls t w), l. split_and!; try done.
    eapply engine_ok_ext; try done; [by eapply chan_ok_ext|apply Hok].
  - erewrite bind_Ok by reflexivity. cbn [time_calls set_time_calls].
    destruct (MixerQueue.mixerEnqueue_spec (mqueue w) l {| event := e; mix_time := time_at t |}
                (eng_queue _ _ _ _ _ Hok) Hfull) as (q' & l' & Eq & Hq' & P & _).
    erewrite bind_Ok by (unfold on_mqueue; cbn; rewrite Eq; reflexivity).
    eexists _, l'. split; [reflexivity|]. split_and!; try done; [|by exists t].
    eapply engine_ok_ext; try done. by eapply chan_ok_ext.
Qed.

Lemma mixerSetFadeTime_Ok w fr j f v :
  lin_fade w = PLive fr -> 0 <= j <= no_sbuffs w -> fr !! Z.to_nat j = Some f ->
  mixerSetFadeTime j v w = Ok (MIXER_SUCCESS, set_lin_fade (PLive (<[Z.to_nat j :=
    {| fade_time := v; f_snd := f_snd f; f_pos := f_pos f; old_thresh := old_thresh f |}]> fr)) w).
Proof.
  intros Hfr Hj Hf. unfold mixerSetFadeTime. pose proof (lookup_lt_Some _ _ _ Hf).
  mstep (eq_refl : gets no_sbuffs w = Ok (no_sbuffs w, w)).
  destruct (Z.leb_spec j (no_sbuffs w)); [|lia].
  mstep (rd_at_Ok lin_fade w fr _ f Hfr (proj1 Hj) Hf).
  by erewrite bind_Ok by (apply wr_at_Ok; [exact Hfr|lia]).
Qed.

(** A state event: the settings of the state are those of the event. *)
Lemma io_state_Ok w bs ss ds l e en st :
  engine_ok w bs ss ds l ->
  engineSoundTableRetrieve lookup_fuel (sound_table w) (sound e) = Ok (Some en) ->
  data en = DState st ->
  exists w' sb b, io_state e w = Ok (tt, w') /\ engine_ok w' bs ss ds l /\
    sbuffs w = PLive sb /\ sb !! Z.to_nat (mixer_index st) = Some b /\
    sbuffs w' = PLive (<[Z.to_nat (mixer_index st) :=
      {| thresh := thresh b; thresh_cnt := thresh_cnt b; st_stereo_pos := stereo_of e;
         st_vol := d_div (d_of_Z (vol e)) (d_of_Z 255); st_filter_flag := flags e |}]> sb).
Proof.
  intros Hok Hr Hd. pose proof (eng_table _ _ _ _ _ Hok _ _ Hr) as Hu.
  unfold usable in Hu. rewrite Hd in Hu. destruct (stype en); [done|].
  destruct (eng_states _ _ _ _ _ Hok) as (sb & fr & Hsb & Hfr & Hls & Hlf & Hb).
  destruct (lookup_lt_is_Some_2 sb (Z.to_nat (mixer_index st))) as [b Hbj]; [lia|].
  destruct (lookup_lt_is_Some_2 fr (Z.to_nat (mixer_index st))) as [f Hfj]; [lia|].
  unfold io_state. mstep (eq_refl : gets sound_table w = Ok (sound_table w, w)).
  erewrite bind_Ok by (unfold lift, engineSoundTableDataRetrieve; rewrite Hr; reflexivity).
  erewrite bind_Ok by reflexivity. rewrite Hd. erewrite bind_Ok by reflexivity.
  rewrite u32_small by lia.
  assert (Hg : mixerGetFadeTime (mixer_index st) w = Ok (fade_time f, w)).
  { unfold mixerGetFadeTime. by mstep (rd_at_Ok lin_fade w fr _ f Hfr (proj1 Hu) Hfj). }
  mstep Hg.
  set (fr' := if dither e =? 255 then fr else
     <[Z.to_nat (mixer_index st) := {| fade_time := d_div (d_of_Z (dither e))
         (d_div (d_of_Z 255) MAX_FADE_TIME); f_snd := f_snd f; f_pos := f_pos f;
         old_thresh := old_thresh f |}]> fr).
  assert (Hfade : (if dither e =? 255 then mret tt
    else mixerSetFadeTime (mixer_index st) (d_div (d_of_Z (dither e))
           (d_div (d_of_Z 255) MAX_FADE_TIME)) ;; mret tt) w = Ok (tt, set_lin_fade (PLive fr') w)).
  { unfold fr'. destruct (dither e =? 255).
    - rewrite <- Hfr. by destruct w.
    - by erewrite bind_Ok by (apply (mixerSetFadeTime_Ok w fr _ f); [exact Hfr|lia|exact Hfj]). }
  mstep Hfade. unfold mixerSetStateSnd, sbuff, set_sbuff.
  erewrite bind_Ok by (eapply rd_at_Ok; [exact Hsb|lia|exact Hbj]).
  erewrite wr_at_Ok by (first [exact Hsb | lia]).
  eexists _, sb, b. split; [reflexivity|]. split_and!; try done.
  destruct Hok as [Hch Hlc Hq Hst Htb Hpb]. split; try done.
  - by eapply chan_ok_ext.
  - eexists _, fr'. split; [reflexivity|]. split; [reflexivity|]. cbn.
    rewrite length_insert. split_and!; try done. unfold fr'.
    destruct (dither e =? 255); [done|]. by rewrite length_insert.
Qed.

(** The body of [engineLoop] for an event with sounds. *)
Lemma engineLoop_playable w bs ss ds l e ev :
  engine_ok w bs ss ds l -> type e = event_type_val EVENT_T -> playable w e ev ->
  engineLoop_body e w = (r ← engineIO e; mret (Some r)) w.
Proof.
  intros Hok Hty (Hret & _). unfold engineSoundTableDataRetrieve in Hret.
  apply bind_ok in Hret as ([en|] & Hr & Hret); [|done]. injection Hret as Hd.
  pose proof (eng_table _ _ _ _ _ Hok _ _ Hr) as Hu. unfold usable in Hu. rewrite Hd in Hu.
  unfold engineLoop_body. mstep (eq_refl : gets sound_table w = Ok (sound_table w, w)).
  erewrite bind_Ok by (unfold lift; rewrite Hr; reflexivity).
  cbv iota.
  destruct (stype en) eqn:Es; [|done]. rewrite Hty, Z.eqb_refl. done.
Qed.

(** The channels that play in [bs] are the same in [bs']. *)
Definition kept (bs bs' : list EVENT_BUF) : Prop :=
  forall i b, bs !! i = Some b -> snd_buf b <> None -> bs' !! i = Some b.

Lemma kept_refl bs : kept bs bs.
Proof. by intros i b Hb _. Qed.

Lemma kept_insert bs i b b' :
  bs !! i = Some b -> snd_buf b = None -> kept bs (<[i := b']> bs).
Proof.
  intros Hb Hn k x Hx Hp. destruct (decide (i = k)) as [->|Hne]; [congruence|].
  by rewrite list_lookup_insert_ne.
Qed.
End Choice.

#[export] Hint Resolve kept_refl : core.

Lemma engineIO_safe `{L : !EnvLaws E} w bs ss ds l e en :
  engine_ok w bs ss ds l ->
  engineSoundTableRetrieve lookup_fuel (sound_table w) (sound e) = Ok (Some en) ->
  type e = event_type_val (stype en) ->
  exists b w' bs' ss' ds' l', engineIO e w = Ok (b, w') /\
    engine_ok w' bs' ss' ds' l' /\ kept bs bs' /\
    (l' ≡ₚ l \/ exists t ev, l' ≡ₚ l ++ [{| event := e; mix_time := t |}] /\ data en = DEvent ev).
Proof.
  intros Hok Hr Ety. pose proof (eng_table _ _ _ _ _ Hok _ _ Hr) as Hu.
  pose proof (usable_playable w e en) as Hpl.
  destruct (engineIO_taped w bs ss ds l e Hok) as (p & t & k & Hok1 & ->).
  rewrite Ety. unfold usable in Hu. destruct (data en) as [ev|st] eqn:Hd, (stype en) eqn:Hty;
    try done; cbn [event_type_val Z.eqb Pos.eqb].
  - specialize (Hpl ev Hr (eng_table _ _ _ _ _ Hok _ _ Hr) eq_refl).
    destruct (first_idle ss (scan_order (lastc w) (Z.of_nat (length bs)))) as [c|] eqn:Hf.
    + destruct (io_event_idle _ bs ss ds l e ev c Hok1 Hpl Hf)
        as (w' & b & s & snd & ln & x & H1 & _ & Hb & Hn & _ & _ & _ & _ & H2).
      eexists _, w', _, _, _, l. split_and!; [exact H1|exact H2|by eapply kept_insert|by left].
    + destruct (io_event_busy _ bs ss ds l e Hok1 Hf) as (w' & l' & H1 & H2 & _ & H3).
      exists false, w', bs, ss, ds, l'. split_and!; [done|done|done|].
      destruct (MixerQueue.mixerQueueFull (mqueue (taped p t k w))); [left; by destruct H3 as [_ ->]|].
      right. destruct H3 as [t1 H3]. by eexists _, ev.
  - destruct (io_state_Ok _ bs ss ds l e en st Hok1 Hr Hd) as (w' & _ & _ & H1 & H2 & _).
    mstep H1. exists true, w', bs, ss, ds, l. split_and!; [done..|by left].
Qed.

(** ** Properties *)

Section Properties.
  Context {E : Env} {L : EnvLaws E}.

(** An event of a sound that is loaded, while some channel is idle, is
    played at once: on the first idle channel at or after [lastc], in the
    order of the channels; with the random sound of the entry; leaving every
    other channel as it was; and the next search starts behind that channel. *)
Theorem engineIO_takes_first_idle (w : world) bs ss ds l (e : EVENT) (ev : EVENT_ENTRY) (c : Z) :
  engine_ok w bs ss ds l -> type e = event_type_val EVENT_T -> playable w e ev ->
  first_idle ss (scan_order (lastc w) (Z.of_nat (length bs))) = Some c ->
  exists w' b s snd ln x, engineIO e w = Ok (true, w') /\
    bs !! Z.to_nat c = Some b /\ snd_buf b = None /\
    snds ev !! Z.to_nat (chosen ev (rand_calls w)) = Some (Some snd) /\
    lens ev !! Z.to_nat (chosen ev (rand_calls w)) = Some ln /\
    priorit s = prior e /\ lastc w' = (c + 1) mod Z.of_nat (length bs) /\
    engine_ok w' (<[Z.to_nat c := loaded b (Some snd) ln (stereo_of e) (flags e)]> bs)
      (<[Z.to_nat c := s]> ss) (<[Z.to_nat c := x]> ds) l.
Proof.
  intros Hok Ht Hpl Hf.
  destruct (engineIO_taped w bs ss ds l e Hok) as (p & t & k & Hok1 & ->). rewrite Ht. simpl.
  destruct (io_event_idle _ bs ss ds l e ev c Hok1 Hpl Hf)
    as (w' & b & s & snd & ln & x & H1 & _ & H2).
  by exists w', b, s, snd, ln, x.
Qed.

(** C20: an event that arrives while every channel plays never interrupts one,
    whatever its priority: it is put into the mixer queue with the time of the
    clock, or dropped when that is full; in both cases its sound string is not
    freed. *)
Theorem engineIO_queues_or_drops (w : world) bs ss ds l (e : EVENT) :
  engine_ok w bs ss ds l -> type e = event_type_val EVENT_T ->
  (forall c, 0 <= c < Z.of_nat (length bs) -> is_idle ss c = false) ->
  exists w' l', engineIO e w = Ok (false, w') /\ engine_ok w' bs ss ds l' /\
    if MixerQueue.mixerQueueFull (mqueue w) then mqueue w' = mqueue w /\ l' = l
    else exists t, l' ≡ₚ l ++ [{| event := e; mix_time := time_at t |}].
Proof.
  intros Hok Ht Hbusy.
  destruct (engineIO_taped w bs ss ds l e Hok) as (p & t & k & Hok1 & ->). rewrite Ht. simpl.
  pose proof (ok_pos _ _ _ _ (eng_chan _ _ _ _ _ Hok)) as Hpos.
  destruct (first_idle ss (scan_order (lastc w) (Z.of_nat (length bs)))) as [c|] eqn:Hf.
  - apply first_idle_Some in Hf as [Hin Hi]. apply scan_order_range in Hin; [|lia].
    rewrite Hbusy in Hi; done.
  - destruct (io_event_busy _ bs ss ds l e Hok1 Hf) as (w' & l' & H1 & H2 & _ & H3). eauto.
Qed.

(** C8: whatever event the engine thread takes, if the look-up of its sound
    returns, the step ends without undefined behaviour, keeps the invariant of
    the engine and the mixer's channels, and leaves every channel that plays
    as it was. *)
Theorem engineLoop_safe (w : world) bs ss ds l (e : EVENT) (r : option sound_entry) :
  engine_ok w bs ss ds l ->
  engineSoundTableRetrieve lookup_fuel (sound_table w) (sound e) = Ok r ->
  exists res w' bs' ss' ds' l', engineLoop_body e w = Ok (res, w') /\
    engine_ok w' bs' ss' ds' l' /\ kept bs bs'.
Proof.
  intros Hok Hr. unfold engineLoop_body.
  mstep (eq_refl : gets sound_table w = Ok (sound_table w, w)).
  erewrite bind_Ok by (unfold lift; rewrite Hr; reflexivity).
  destruct r as [en|]; [|by exists None, w, bs, ss, ds, l].
  destruct (type e =? event_type_val (stype en)) eqn:Ety; [|by exists None, w, bs, ss, ds, l].
  zbool. destruct (engineIO_safe w bs ss ds l e en Hok Hr Ety)
    as (b & w' & bs' & ss' & ds' & l' & H1 & H2 & H3 & _).
  mstep H1. by exists (Some b), w', bs', ss', ds', l'.
Qed.

End Properties.

(** ** A concrete engine: two channels, one event and one state *)

Definition demo_entries : list (list sound_entry) :=
  [[event_entry "ab" (one_sound 1)];
   [{| name := "st"; data := DState {| mixer_index := 0 |}; stype := STATE_T |}]].

Definition demo_table : list (list sound_entry) :=
  <[195%nat := [event_entry "ab" (one_sound 1)]]>
    (<[231%nat := [{| name := "st"; data := DState {| mixer_index := 0 |}; stype := STATE_T |}]]>
      (replicate 256 [])).

(** [b0], [b1]: whether the channels play. *)
Definition demo_buf (b : bool) : EVENT_BUF :=
  if b then {| snd_buf := Some [1; 1]; len := 2; pos := 0; stereo_pos := d_half; filter_flag := 0 |}
  else zero_ebuf.
Definition demo_sched (b : bool) : engine_sched :=
  if b then {| startt := d1; priorit := 3; minendt := d_zero |} else sched_zero.

Definition demo_world (b0 b1 : bool) : world :=
  let w := set_counts 2 1 (set_eng_ebuffs 2 blank_world) in
  let w := set_ebuffs (PLive [demo_buf b0; demo_buf b1]) w in
  let w := set_sched (PLive [demo_sched b0; demo_sched b1]) w in
  let w := set_dyn_mul (PLive [if b0 then d_half else d_zero; if b1 then d_half else d_zero]) w in
  let w := set_dyn_buf_cnt ((if b0 then 1 else 0) + (if b1 then 1 else 0)) w in
  let w := set_sbuffs (PLive [zero_sbuf]) (set_lin_fade (PLive [zero_fade]) w) in
  let w := set_mqueue (MixerQueue.mixerQueueInit 64) (set_sound_table (PLive demo_table) w) in
  set_lastc 1 w.

Lemma demo_ok (b0 b1 : bool) :
  engine_ok (E := still_env) (demo_world b0 b1) [demo_buf b0; demo_buf b1]
    [demo_sched b0; demo_sched b1]
    [if b0 then d_half else d_zero; if b1 then d_half else d_zero] [].
Proof.
  split.
  - split; try reflexivity; [simpl; lia|by destruct b0, b1|].
    intros [|[|i]] b s d H1 H2 H3; simplify_eq/=; [by destruct b0|by destruct b1].
  - simpl. lia.
  - apply MixerQueue.mixerQueueInit_queued. lia.
  - eexists _, _. split; [reflexivity|]. split; [reflexivity|]. simpl. lia.
  - intros nm en H. apply retrieve_in in H.
    assert (Hf : forall x, x ∈ concat demo_table -> x ∈ concat demo_entries).
    { intros x. assert (concat demo_table = concat demo_entries) as -> by (by vm_compute). done. }
    apply Hf in H. simpl in H.
    apply elem_of_cons in H as [->|H]; [|apply elem_of_cons in H as [->|H]; [|by apply not_elem_of_nil in H]].
    + split_and!; simpl; try lia. apply Forall_singleton. done.
    + by split; vm_compute.
  - by left.
Qed.

Definition demo_event (n : string) (t : Z) : EVENT :=
  {| type := t; loc := 128; prior := 7; vol := 255; dither := 255; flags := 0; sound_len := 2;
     sound := Some n |}.

Lemma demo_playable b0 b1 :
  playable (E := still_env) (demo_world b0 b1) (demo_event "ab" 0) (one_sound 1).
Proof.
  split; [by vm_compute|]. split_and!; simpl; try lia. apply Forall_singleton. done.
Qed.

(** Channel 1 is idle and is looked at first. *)
Lemma engineIO_takes_first_idle_witness :
  exists w' b s snd ln x, engineIO (E := still_env) (demo_event "ab" 0) (demo_world true false) = Ok (true, w') /\
    [demo_buf true; demo_buf false] !! 1%nat = Some b /\ snd_buf b = None /\
    [Some [1; 1]] !! 0%nat = Some (Some snd) /\ [2] !! 0%nat = Some ln /\ priorit s = 7 /\
    lastc w' = 0 /\
    engine_ok (E := still_env) w'
      (<[1%nat := loaded b (Some snd) ln (stereo_of (demo_event "ab" 0)) 0]>
         [demo_buf true; demo_buf false])
      (<[1%nat := s]> [demo_sched true; demo_sched false]) (<[1%nat := x]> [d_half; d_zero]) [].
Proof.
  exact (engineIO_takes_first_idle (L := still_laws) (demo_world true false) _ _ _ _
    (demo_event "ab" 0) (one_sound 1) 1 (demo_ok true false) eq_refl (demo_playable true false)
    ltac:(vm_compute; reflexivity)).
Defined.

Lemma engineIO_queues_or_drops_witness :
  exists w' l', engineIO (E := still_env) (demo_event "ab" 0) (demo_world true true) = Ok (false, w') /\
    engine_ok (E := still_env) w' [demo_buf true; demo_buf true] [demo_sched true; demo_sched true]
      [d_half; d_half] l' /\
    exists t, l' ≡ₚ [{| event := demo_event "ab" 0; mix_time := time_at (Env := still_env) t |}].
Proof.
  apply (engineIO_queues_or_drops (E := still_env) (demo_world true true) _ _ _ []
    (demo_event "ab" 0) (demo_ok true true) eq_refl).
  intros c Hc. simpl in Hc. assert (c = 0 \/ c = 1) as [-> | ->] by lia; by vm_compute.
Defined.

Lemma engineLoop_safe_witness :
  exists res w' bs' ss' ds' l',
    engineLoop_body (E := still_env) (demo_event "st" 1) (demo_world true true) = Ok (res, w') /\
    engine_ok (E := still_env) w' bs' ss' ds' l' /\ kept [demo_buf true; demo_buf true] bs'.
Proof.
  refine (engineLoop_safe (L := still_laws) (demo_world true true) _ _ _ _ (demo_event "st" 1)
    (Some {| name := "st"; data := DState {| mixer_index := 0 |}; stype := STATE_T |})
    (demo_ok true true) _). vm_compute. reflexivity.
Defined.
