(* ===== verification/MixerFacts.v ===== *)
(** * Properties of the mixer

    The lemmas of [Mixer] and the invariant of [Engine] applied to the
    operations of the mixer thread and of the configuration. *)

From stdpp Require Import base list sets strings.
From Stdlib Require Import ZArith Lia.
From S2P Require Import Prelude Events CString Dbl SoundTable MixerQueue World Mixer Engine.
Import SoundTable.
Local Open Scope Z_scope.

(** ** Thresholds *)

(** The index of the last threshold that [vol] is within, counted from [i]. *)
Fixpoint last_match (vol : dbl) (ts : list THRESHOLD) (i : Z) : option Z :=
  match ts with
  | [] => None
  | t :: ts => match last_match vol ts (i + 1) with
               | Some k => Some k
               | None => if in_bounds vol t then Some i else None
               end
  end.

Fixpoint first_match (vol : dbl) (ts : list THRESHOLD) (i : Z) : option Z :=
  match ts with
  | [] => None
  | t :: ts => if in_bounds vol t then Some i else first_match vol ts (i + 1)
  end.

Lemma rd_drop {A} (l : list A) i x xs :
  0 <= i -> drop (Z.to_nat i) l = x :: xs -> rd l i = Ok x /\ drop (Z.to_nat (i + 1)) l = xs.
Proof.
  intros Hi Hd. split.
  - apply rd_Ok. split; [done|]. by rewrite <- (Nat.add_0_r (Z.to_nat i)), <- lookup_drop, Hd.
  - replace (Z.to_nat (i + 1)) with (Z.to_nat i + 1)%nat by lia. by rewrite <- drop_drop, Hd.
Qed.

Lemma last_thresh_drop vol ts rest i index :
  0 <= i -> drop (Z.to_nat i) ts = rest ->
  last_thresh (length rest) i index vol ts = Ok (default index (last_match vol rest i)).
Proof.
  revert i index. induction rest as [|t rest IH]; intros i index Hi Hd; [done|].
  destruct (rd_drop _ _ _ _ Hi Hd) as [Hr Hd']. simpl. rewrite Hr. simpl.
  rewrite IH by (done || lia). destruct (last_match vol rest (i + 1)); simpl; [done|].
  by destruct (in_bounds vol t).
Qed.

Lemma first_thresh_drop vol ts rest i :
  0 <= i -> drop (Z.to_nat i) ts = rest ->
  first_thresh (length rest) i vol ts =
    match first_match vol rest i with Some k => Ok k | None => Fault UninitRead end.
Proof.
  revert i. induction rest as [|t rest IH]; intros i Hi Hd; [done|].
  destruct (rd_drop _ _ _ _ Hi Hd) as [Hr Hd']. simpl. rewrite Hr. simpl.
  destruct (in_bounds vol t); [done|]. apply IH; [lia|done].
Qed.

Lemma last_match_range vol ts i k : last_match vol ts i = Some k -> i <= k < i + Z.of_nat (length ts).
Proof.
  revert i. induction ts as [|t ts IH]; intros i; simpl; [done|].
  destruct (last_match vol ts (i + 1)) eqn:E.
  - intros [= ->]. apply IH in E. lia.
  - case_if; [|done]. intros [= ->]. lia.
Qed.

(** A state buffer as the configuration leaves it. *)
Definition state_wf (b : STATE_BUF) (ts : list THRESHOLD) : Prop :=
  thresh b = Some ts /\ thresh_cnt b = Z.of_nat (length ts) /\ ts <> [] /\
  Forall (fun t => s_snd_buf (state_snd t) <> None) ts.

(** ** Effect flags *)

Section WithEnv.
  Context {E : Env}.

(** [mixerGetStateSndPtr] takes the last threshold that the volume is
    within, and the first threshold of all when it is within none: a state
    always has a sound to play. [mixerGetStateThreshIndex], which the fade
    effect uses for the same purpose, takes the first one that matches and
    returns no value when there is none. *)
Theorem state_threshold_choice (w : world) (sb : list STATE_BUF) (j : Z) (b : STATE_BUF)
    (ts : list THRESHOLD) (vol : dbl) :
  sbuffs w = PLive sb -> 0 <= j -> sb !! Z.to_nat j = Some b -> state_wf b ts ->
  mixerGetStateSndPtr j vol w = Ok (Some (default 0 (last_match vol ts 0)), w) /\
  mixerGetStateThreshIndex j w =
    match first_match (st_vol b) ts 0 with Some k => Ok (k, w) | None => Fault UninitRead end.
Proof.
  intros Hsb Hj Hb (Ht & Hc & Hne & Hf).
  assert (Hlen : 0 < Z.of_nat (length ts)) by (destruct ts; [done|simpl; lia]).
  split.
  - unfold mixerGetStateSndPtr, sbuff. mstep (rd_at_Ok sbuffs w sb j b Hsb Hj Hb).
    rewrite Ht, Hc, Nat2Z.id.
    erewrite bind_Ok by (unfold lift; rewrite (last_thresh_drop vol ts ts 0 0) by done; reflexivity).
    set (k := default 0 (last_match vol ts 0)).
    assert (Hk : 0 <= k < Z.of_nat (length ts)).
    { unfold k. destruct (last_match vol ts 0) eqn:E2; simpl; [|lia].
      apply last_match_range in E2. lia. }
    destruct (Z.leb_spec (Z.of_nat (length ts)) k); [lia|].
    destruct (rd_in_bounds ts k Hk) as [t Hr].
    erewrite bind_Ok by (unfold lift; rewrite Hr; reflexivity).
    apply rd_Ok in Hr as [_ Hr]. pose proof (Forall_lookup_1 _ _ _ _ Hf Hr) as Hs.
    simpl in Hs. by destruct (s_snd_buf (state_snd t)).
  - unfold mixerGetStateThreshIndex, sbuff. mstep (rd_at_Ok sbuffs w sb j b Hsb Hj Hb).
    rewrite Ht, Hc. destruct (Z.leb_spec (Z.of_nat (length ts)) 0); [lia|].
    erewrite bind_Ok by reflexivity. unfold lift.
    rewrite Nat2Z.id, (first_thresh_drop _ ts ts 0) by done.
    by destruct (first_match (st_vol b) ts 0).
Qed.

(** No effect exists for events: [mixerApplyEventFilters] returns its
    sample unchanged whatever the flags; [mixerApplyStateFilters] applies the
    linear fade exactly when bit 0 of the flags is set. *)
Theorem filters_by_flag (w : world) (bs : list EVENT_BUF) (sb : list STATE_BUF) (j : Z)
    (e : EVENT_BUF) (b : STATE_BUF) (data ps : Z) :
  ebuffs w = PLive bs -> sbuffs w = PLive sb -> 0 <= j ->
  bs !! Z.to_nat j = Some e -> sb !! Z.to_nat j = Some b ->
  mixerApplyEventFilters data ps j w = Ok (data, w) /\
  mixerApplyStateFilters data ps j w =
    (if Z.testbit (st_filter_flag b) 0 then mixerFadeEffect data ps j w else Ok (data, w)).
Proof.
  intros He Hs Hj Hbe Hbs. split.
  - unfold mixerApplyEventFilters, ebuff. by mstep (rd_at_Ok ebuffs w bs j e He Hj Hbe).
  - unfold mixerApplyStateFilters, sbuff. mstep (rd_at_Ok sbuffs w sb j b Hs Hj Hbs).
    cbn [filter_loop]. change (1 =? MAX_STATE_FLAG) with false. cbv iota.
    change (Z.shiftl 1 1 =? MAX_STATE_FLAG) with true. cbv iota.
    change (1 =? STATE_LINEAR_FADE_FLAG) with true. cbv iota.
    assert (Hbit : Z.land (st_filter_flag b) 1 = if Z.testbit (st_filter_flag b) 0 then 1 else 0).
    { pose proof (Z.bit0_mod (st_filter_flag b)) as H0.
      change 1 with (Z.ones 1) at 1. rewrite Z.land_ones by lia. change (2 ^ 1) with 2.
      rewrite <- H0. by destruct (Z.testbit (st_filter_flag b) 0). }
    rewrite Hbit. destruct (Z.testbit (st_filter_flag b) 0); [|done].
    cbn [Z.eqb]. unfold mbind, M_bind. by destruct (mixerFadeEffect data ps j w) as [[]| |].
Qed.
End WithEnv.

(** ** A sound from its start to its end *)

(** A channel that plays [buf], of which [pos] samples were mixed. *)
Definition playing (b : EVENT_BUF) (buf : list Z) : Prop :=
  snd_buf b = Some buf /\ len b = Z.of_nat (length buf) /\ len b < 2 ^ 32 - 2 /\
  0 <= pos b /\ Z.even (pos b) = true /\ pos b < len b.

(** The two samples of a channel, as [mixer] computes them. *)
Definition left_sample (b : EVENT_BUF) (mul : dbl) (l : Z) : res Z :=
  d_short (d_mul (d_mul (d_mul (d_of_Z l) mul) EVENT_MULT) (stereo_pos b)).
Definition right_sample (b : EVENT_BUF) (mul : dbl) (r : Z) : res Z :=
  d_short (d_mul (d_mul (d_mul (d_of_Z r) mul) EVENT_MULT) (d_sub d1 (stereo_pos b))).

Definition advanced (b : EVENT_BUF) : EVENT_BUF :=
  {| snd_buf := snd_buf b; len := len b; pos := pos b + 2; stereo_pos := stereo_pos b;
     filter_flag := filter_flag b |}.

Definition mixed (o : list Z) (i l r : Z) : list Z :=
  let o := <[Z.to_nat i := i16 (default 0 (o !! Z.to_nat i) + l)]> o in
  <[Z.to_nat (i + 1) := i16 (default 0 (o !! Z.to_nat (i + 1)) + r)]> o.

Lemma add_output_Ok w o i x :
  output w = PLive o -> 0 <= i < Z.of_nat (length o) ->
  add_output i x w =
    Ok (tt, set_output (PLive (<[Z.to_nat i := i16 (default 0 (o !! Z.to_nat i) + x)]> o)) w).
Proof.
  intros Ho Hi. destruct (lookup_lt_is_Some_2 o (Z.to_nat i)) as [v Hv]; [lia|].
  unfold add_output. mstep (rd_at_Ok output w o i v Ho (proj1 Hi) Hv). rewrite Hv. simpl.
  by rewrite (wr_at_Ok output set_output w o).
Qed.

Section Frames.
Context {E : Env}.

(** [mix_event] up to the test for the end of the sound. *)
Lemma mix_event_advance w bs ss ds o i j b buf mul l r el er :
  chan_ok w bs ss ds -> output w = PLive o ->
  0 <= i -> i + 1 < Z.of_nat (length o) ->
  0 <= j -> bs !! Z.to_nat j = Some b -> playing b buf ->
  ds !! Z.to_nat j = Some mul ->
  buf !! Z.to_nat (pos b) = Some l -> buf !! Z.to_nat (pos b + 1) = Some r ->
  left_sample b mul l = Ok el -> right_sample b mul r = Ok er ->
  mix_event i j w =
    (if pos b + 2 =? len b then
       mixerRemoveEvent j ;;
       q ← gets mqueue;
       if MixerQueue.mixerQueueEmpty q then mret tt else mixerAddOldEvent j
     else mret tt)
    (set_ebuffs (PLive (<[Z.to_nat j := advanced b]> bs)) (set_output (PLive (mixed o i el er)) w)).
Proof.
  intros Hok Ho Hi0 Hi1 Hj Hb (Hs & Hlen & Hmax & Hp0 & Hev & Hp) Hd Hl Hr Hel Her.
  unfold mix_event, ebuff, set_ebuff.
  mstep (rd_at_Ok ebuffs w bs j b (ok_ebuffs _ _ _ _ Hok) Hj Hb). rewrite Hs.
  mstep (rd_at_Ok dyn_mul w ds j mul (ok_dyn _ _ _ _ Hok) Hj Hd).
  erewrite bind_Ok by (unfold lift; rewrite (proj2 (rd_Ok _ _ _) (conj Hp0 Hl)); reflexivity).
  unfold left_sample in Hel. unfold right_sample in Her.
  erewrite bind_Ok by (unfold lift; rewrite Hel; reflexivity).
  rewrite u32_small by lia. assert (Hp1 : 0 <= pos b + 1) by lia.
  erewrite bind_Ok by (unfold lift; rewrite (proj2 (rd_Ok _ _ _) (conj Hp1 Hr)); reflexivity).
  erewrite bind_Ok by (unfold lift; rewrite Her; reflexivity).
  assert (Hfil : forall x p, (if filter_flag b =? 0 then mret x else mixerApplyEventFilters x p j) w
                 = Ok (x, w)).
  { intros x p. destruct (filter_flag b =? 0); [done|]. unfold mixerApplyEventFilters, ebuff.
    by mstep (rd_at_Ok ebuffs w bs j b (ok_ebuffs _ _ _ _ Hok) Hj Hb). }
  mstep (Hfil el (pos b)). mstep (Hfil er (pos b + 1)).
  mstep (add_output_Ok w o i el Ho ltac:(lia)).
  erewrite bind_Ok by (apply add_output_Ok; [reflexivity|rewrite length_insert; lia]).
  erewrite bind_Ok by (eapply rd_at_Ok; [exact (ok_ebuffs _ _ _ _ Hok)|done|exact Hb]).
  unfold STEREO. rewrite u32_small by lia.
  erewrite bind_Ok by (apply wr_at_Ok; [exact (ok_ebuffs _ _ _ _ Hok)|
    pose proof (lookup_lt_Some _ _ _ Hb); lia]).
  unfold advanced, mixed. rewrite Hs. reflexivity.
Qed.

Lemma chan_ok_advance w bs ss ds o j b buf :
  chan_ok w bs ss ds -> bs !! Z.to_nat j = Some b -> playing b buf ->
  chan_ok (set_ebuffs (PLive (<[Z.to_nat j := advanced b]> bs)) (set_output (PLive o) w))
    (<[Z.to_nat j := advanced b]> bs) ss ds.
Proof.
  intros Hok Hb Hpl. pose proof (lookup_lt_Some _ _ _ Hb). destruct Hpl as (Hs & _).
  pose proof (ok_pair _ _ _ _ Hok) as Hpair. destruct Hok. split; cbn; rewrite ?length_insert; try done.
  - rewrite (busy_insert _ _ _ _ Hb). unfold busy1. simpl. lia.
  - intros k b' s d H1 H2 H3. destruct (decide (k = Z.to_nat j)) as [->|Hne].
    + rewrite list_lookup_insert_eq in H1 by lia. simplify_eq.
      pose proof (Hpair _ _ _ _ Hb H2 H3) as Hp. unfold paired in *. simpl. by rewrite Hs in *.
    + rewrite list_lookup_insert_ne in H1 by done. by eapply Hpair.
Qed.

(** An event that was put aside is played on a channel that became free,
    unless it is older than [QUEUE_EXPIRED] seconds. *)
Definition fresh (w : world) (e : ENGINE_EVENT) : bool :=
  d_ltb (d_sub (TP_IN_FP_SECS (time_at (time_calls w))) (TP_IN_FP_SECS (mix_time e)))
    (d_of_Z QUEUE_EXPIRED).

(** The rest of [mixerAddOldEvent] once the sound is known. *)
Definition add_old (e : ENGINE_EVENT) (snd : list Z) (ln j : Z) : M world unit :=
  mixerAddEvent (Some snd) ln (stereo_of (event e)) (flags (event e)) j ;;
  tp ← gettimeofday;
  engineSchedulerInit j (TP_IN_FP_SECS tp) (prior (event e)) (TP_IN_FP_SECS tp) ;;
  mret tt.

(** [mixerAddOldEvent] up to the choice of the sound: the event has left the
    queue, and nothing has happened to the channels. *)
Lemma mixerAddOldEvent_chooses `{!EnvLaws E} w bs ss ds q en ev e j :
  engine_ok w bs ss ds (e :: q) ->
  engineSoundTableRetrieve lookup_fuel (sound_table w) (sound (event e)) = Ok (Some en) ->
  data en = DEvent ev ->
  exists w2 q' snd ln, engine_ok w2 bs ss ds q' /\ q' ≡ₚ q /\
    lastc w2 = lastc w /\ sound_table w2 = sound_table w /\ output w2 = output w /\
    snds ev !! Z.to_nat (chosen ev (rand_calls w)) = Some (Some snd) /\
    lens ev !! Z.to_nat (chosen ev (rand_calls w)) = Some ln /\
    mixerAddOldEvent j w = if fresh w e then add_old e snd ln j w2 else Ok (tt, w2).
Proof.
  intros Hok Hret Hdat. pose proof (eng_table _ _ _ _ _ Hok _ _ Hret) as Hu.
  pose proof (eng_chan _ _ _ _ _ Hok) as Hch.
  destruct (MixerQueue.mixerDequeue_spec _ _ _ (eng_queue _ _ _ _ _ Hok)) as (mq & q' & Eq & Hq' & P & _).
  unfold usable in Hu. rewrite Hdat in Hu. destruct (stype en) eqn:Hty; [|done].
  destruct Hu as (Hcnt & Hl & Hl2 & Hf).
  assert (Hpl : playable w (event e) ev).
  { split; [|exact (conj Hcnt (conj Hl (conj Hl2 Hf)))]. unfold engineSoundTableDataRetrieve. rewrite Hret. simpl. by rewrite Hdat. }
  destruct (playable_sound w (event e) ev Hpl) as (snd & ln & Hc0 & Hsnd & Hln).
  unfold mixerAddOldEvent.
  erewrite bind_Ok by (unfold on_mqueue; cbn; rewrite Eq; reflexivity).
  erewrite bind_Ok by reflexivity. cbn [sound_table set_mqueue].
  mstep (eq_refl : gets sound_table (set_mqueue mq w) = Ok (sound_table w, set_mqueue mq w)).
  erewrite bind_Ok by (unfold lift, engineSoundTableDataRetrieve; rewrite Hret; reflexivity).
  erewrite bind_Ok by reflexivity. cbn [time_calls set_mqueue].
  set (w1 := set_time_calls (S (time_calls w)) (set_mqueue mq w)).
  assert (Hok1 : forall n, engine_ok (set_rand_calls n w1) bs ss ds q').
  { intros n. eapply engine_ok_ext; try done. by eapply chan_ok_ext. }
  unfold fresh. destruct (d_ltb _ _).
  2: { exists w1, q', snd, ln. split_and!; try done. exact (Hok1 (rand_calls w)). }
  assert (Hr1 : rd (snds ev) (chosen ev (rand_calls w)) = Ok (Some snd)) by (by apply rd_Ok).
  assert (Hr2 : rd (lens ev) (chosen ev (rand_calls w)) = Ok ln) by (by apply rd_Ok).
  assert (Hget : forall (A : Type) (k : EVENT_ENTRY -> res A) (z : A),
    (entry ← engineSoundTableRetrieve lookup_fuel (sound_table w) (sound (event e));
     match entry with None => mret z | Some en => ev ← as_event (data en); k ev end) = k ev).
  { intros A k z. rewrite Hret. simpl. by rewrite Hdat. }
  exists (set_rand_calls (S (rand_calls w)) w1), q', snd, ln. split_and!; try done.
  erewrite bind_Ok.
  2: { unfold lift, engineGetNoEventSnds. rewrite Hret. simpl. rewrite Hty.
       rewrite decide_False by (intros H; by apply H). rewrite Hdat. simpl.
       rewrite i32_small by lia. reflexivity. }
  erewrite bind_Ok by reflexivity. change (rand_calls w1) with (rand_calls w).
  erewrite bind_Ok by (unfold lift; rewrite rand_pick_uint by (done || apply rand_range); reflexivity).
  fold (chosen ev (rand_calls w)).
  erewrite bind_Ok by (unfold lift, engineGetEventSnd; rewrite Hget, Hr1; reflexivity).
  by erewrite bind_Ok by (unfold lift, engineGetEventSndLen; rewrite Hget, Hr2; reflexivity).
Qed.

Lemma mixerAddOldEvent_Ok `{!EnvLaws E} w bs ss ds q en ev e j :
  engine_ok w bs ss ds (e :: q) -> 0 <= j < Z.of_nat (length bs) -> is_idle ss j = true ->
  engineSoundTableRetrieve lookup_fuel (sound_table w) (sound (event e)) = Ok (Some en) ->
  data en = DEvent ev ->
  exists w' bs' ss' ds' q', mixerAddOldEvent j w = Ok (tt, w') /\
    engine_ok w' bs' ss' ds' q' /\ q' ≡ₚ q /\ output w' = output w /\
    if fresh w e then
      exists b snd ln s x, bs !! Z.to_nat j = Some b /\
        snds ev !! Z.to_nat (chosen ev (rand_calls w)) = Some (Some snd) /\
        lens ev !! Z.to_nat (chosen ev (rand_calls w)) = Some ln /\
        bs' = <[Z.to_nat j := loaded b (Some snd) ln (stereo_of (event e)) (flags (event e))]> bs /\
        ss' = <[Z.to_nat j := s]> ss /\ ds' = <[Z.to_nat j := x]> ds
    else bs' = bs /\ ss' = ss /\ ds' = ds.
Proof.
  intros Hok Hj Hi Hret Hdat.
  destruct (mixerAddOldEvent_chooses w bs ss ds q en ev e j Hok Hret Hdat)
    as (w2 & q' & snd & ln & Hok2 & P & _ & _ & Ho & Hsnd & Hln & ->).
  destruct (fresh w e); [|exists w2, bs, ss, ds, q'; by split_and!].
  pose proof (eng_chan _ _ _ _ _ Hok2) as Hch. unfold add_old.
  destruct (chan_lookup w2 bs ss ds j Hch Hj) as (b & s & d & Hb & Hs & Hd & Hp).
  assert (Hn : snd_buf b = None).
  { unfold paired in Hp. unfold is_idle in Hi. rewrite Hs in Hi.
    destruct (snd_buf b); [congruence|done]. }
  destruct (mixerAddEvent_free w2 bs ss ds j b (Some snd) ln (stereo_of (event e))
              (flags (event e)) Hch (proj1 Hj) Hb Hn) as [x Hx].
  mstep Hx. erewrite bind_Ok by reflexivity.
  erewrite bind_Ok by (apply engineSchedulerInit_Ok; [exact (ok_sched _ _ _ _ Hch)|
    exact (ok_tlock _ _ _ _ Hch)|rewrite (ok_len_s _ _ _ _ Hch); lia]).
  eexists _, _, _, _, q'. split; [reflexivity|].
  split; [|split; [done|split; [exact Ho|by eexists b, snd, ln, _, x]]].
  destruct Hok2 as [_ Hlc Hq Hst Htb Hpb]. split.
  - eapply (chan_ok_start w2); try done; [exact (time_set _)|by apply Hch..].
  - by rewrite length_insert.
  - done.
  - done.
  - done.
  - done.
Qed.

(** On a channel that plays the sound is refused, which is not looked at: the
    event is gone, and the scheduler takes the channel for the event's. *)
Lemma mixerAddOldEvent_busy `{!EnvLaws E} w bs ss ds q en ev e j b x :
  engine_ok w bs ss ds (e :: q) -> 0 <= j -> bs !! Z.to_nat j = Some b -> snd_buf b = Some x ->
  engineSoundTableRetrieve lookup_fuel (sound_table w) (sound (event e)) = Ok (Some en) ->
  data en = DEvent ev -> fresh w e = true ->
  exists w' q' s, mixerAddOldEvent j w = Ok (tt, w') /\ q' ≡ₚ q /\ priorit s = prior (event e) /\
    engine_ok w' bs (<[Z.to_nat j := s]> ss) ds q'.
Proof.
  intros Hok Hj Hb Hx Hret Hdat Hf.
  destruct (mixerAddOldEvent_chooses w bs ss ds q en ev e j Hok Hret Hdat)
    as (w2 & q' & snd & ln & Hok2 & P & _ & _ & _ & _ & _ & ->). rewrite Hf.
  pose proof (eng_chan _ _ _ _ _ Hok2) as Hch. pose proof (lookup_lt_Some _ _ _ Hb) as Hlt.
  unfold add_old. erewrite bind_Ok by (by eapply mixerAddEvent_busy).
  erewrite bind_Ok by reflexivity.
  erewrite bind_Ok by (apply engineSchedulerInit_Ok; [exact (ok_sched _ _ _ _ Hch)|
    exact (ok_tlock _ _ _ _ Hch)|rewrite (ok_len_s _ _ _ _ Hch); lia]).
  eexists _, q', (Build_engine_sched _ (prior (event e)) _).
  split; [reflexivity|]. split; [done|]. split; [reflexivity|].
  destruct Hok2 as [_ Hlc Hq Hst Htb Hpb]. split; try done.
  pose proof (ok_pair _ _ _ _ Hch) as Hpair. destruct Hch. split; cbn; rewrite ?length_insert; try done.
  intros i b' s' d' H1 H2 H3. destruct (decide (i = Z.to_nat j)) as [->|Hne].
  - rewrite list_lookup_insert_eq in H2 by lia. simplify_eq. unfold paired. rewrite Hx.
    exact (time_set _).
  - rewrite list_lookup_insert_ne in H2 by done. by eapply Hpair.
Qed.
End Frames.

Section Properties.
  Context {E : Env} {L : EnvLaws E}.

Lemma remove_engine_ok w bs ss ds q j b buf :
  engine_ok w bs ss ds q -> 0 <= j -> bs !! Z.to_nat j = Some b ->
  snd_buf b = Some buf ->
  exists w', mixerRemoveEvent j w = Ok (tt, w') /\ output w' = output w /\
    time_calls w' = time_calls w /\ rand_calls w' = rand_calls w /\
    sound_table w' = sound_table w /\ mqueue w' = mqueue w /\
    engine_ok w' (<[Z.to_nat j := stopped b]> bs) (<[Z.to_nat j := sched_zero]> ss)
      (<[Z.to_nat j := d_zero]> ds) q.
Proof.
  intros Hok Hj Hb Hs.
  destruct (mixerRemoveEvent_Ok w bs ss ds j b buf (eng_chan _ _ _ _ _ Hok) Hj Hb Hs)
    as (w' & Er & Hch & Q & T & O & S1 & Lc & Tc & Rc & P & S2 & S3).
  exists w'. split_and!; try congruence. destruct Hok as [_ Hlc Hq Hst Htb Hpb]. split.
  - done.
  - by rewrite length_insert, Lc.
  - by rewrite Q.
  - by rewrite S1, S2, S3.
  - intros nm en Hr. rewrite T in Hr. unfold usable. rewrite S3. by apply (Htb nm).
  - by rewrite P.
Qed.

(** The world after the two samples of channel [j] were mixed in. *)
Definition after_mix (w : world) (bs : list EVENT_BUF) (o : list Z) (i j : Z) (b : EVENT_BUF)
    (el er : Z) : world :=
  set_ebuffs (PLive (<[Z.to_nat j := advanced b]> bs)) (set_output (PLive (mixed o i el er)) w).

Lemma after_mix_ok w bs ss ds q o i j b buf el er :
  engine_ok w bs ss ds q -> bs !! Z.to_nat j = Some b -> playing b buf ->
  engine_ok (after_mix w bs o i j b el er) (<[Z.to_nat j := advanced b]> bs) ss ds q.
Proof.
  intros Hok Hb Hpl. pose proof (chan_ok_advance w bs ss ds (mixed o i el er) _ b buf
    (eng_chan _ _ _ _ _ Hok) Hb Hpl) as Hch.
  destruct Hok as [_ Hlc Hq Hst Htb Hpb]. split; try done. by rewrite length_insert.
Qed.

(** A step that leaves samples to play. *)
Lemma mix_event_goes_on (w : world) bs ss ds q (o : list Z) (i j : Z) (b : EVENT_BUF)
    (buf : list Z) (mul : dbl) (l r el er : Z) :
  engine_ok w bs ss ds q -> output w = PLive o -> 0 <= i -> i + 1 < Z.of_nat (length o) ->
  0 <= j -> bs !! Z.to_nat j = Some b -> playing b buf -> pos b + 2 < len b ->
  ds !! Z.to_nat j = Some mul ->
  buf !! Z.to_nat (pos b) = Some l -> buf !! Z.to_nat (pos b + 1) = Some r ->
  left_sample b mul l = Ok el -> right_sample b mul r = Ok er ->
  exists w', mix_event i j w = Ok (tt, w') /\ output w' = PLive (mixed o i el er) /\
    engine_ok w' (<[Z.to_nat j := advanced b]> bs) ss ds q /\ playing (advanced b) buf.
Proof.
  intros Hok Ho Hi0 Hi1 Hj Hb Hpl Hlt Hd Hl Hr Hel Her.
  rewrite (mix_event_advance w bs ss ds o i j b buf mul l r el er (eng_chan _ _ _ _ _ Hok)) by done.
  fold (after_mix w bs o i j b el er).
  pose proof (after_mix_ok w bs ss ds q o i j b buf el er Hok Hb Hpl) as Hok1.
  destruct Hpl as (Hs & Hlen & Hmax & Hp0 & Hpe & Hp). destruct (Z.eqb_spec (pos b + 2) (len b)); [lia|].
  eexists. split; [reflexivity|]. split; [done|]. split; [done|].
  split; [done|]. simpl. rewrite Z.even_add, Hpe. by split_and!; try lia.
Qed.

(** The last step of a sound, while no event waits. *)
Lemma mix_event_frees (w : world) bs ss ds (o : list Z) (i j : Z) (b : EVENT_BUF)
    (buf : list Z) (mul : dbl) (l r el er : Z) :
  engine_ok w bs ss ds [] -> output w = PLive o -> 0 <= i -> i + 1 < Z.of_nat (length o) ->
  0 <= j -> bs !! Z.to_nat j = Some b -> playing b buf -> pos b + 2 = len b ->
  ds !! Z.to_nat j = Some mul ->
  buf !! Z.to_nat (pos b) = Some l -> buf !! Z.to_nat (pos b + 1) = Some r ->
  left_sample b mul l = Ok el -> right_sample b mul r = Ok er ->
  exists w', mix_event i j w = Ok (tt, w') /\ output w' = PLive (mixed o i el er) /\
    engine_ok w' (<[Z.to_nat j := stopped (advanced b)]> bs) (<[Z.to_nat j := sched_zero]> ss)
      (<[Z.to_nat j := d_zero]> ds) [].
Proof.
  intros Hok Ho Hi0 Hi1 Hj Hb Hpl Hend Hd Hl Hr Hel Her.
  rewrite (mix_event_advance w bs ss ds o i j b buf mul l r el er (eng_chan _ _ _ _ _ Hok)) by done.
  fold (after_mix w bs o i j b el er).
  pose proof (after_mix_ok w bs ss ds [] o i j b buf el er Hok Hb Hpl) as Hok1.
  pose proof (lookup_lt_Some _ _ _ Hb) as Hlt. destruct Hpl as (Hs & _).
  rewrite Hend, Z.eqb_refl.
  destruct (remove_engine_ok _ _ _ _ _ j (advanced b) buf Hok1 Hj)
    as (w' & Er & Ho' & _ & _ & _ & Q & Hok'); [by rewrite list_lookup_insert_eq|done|].
  rewrite list_insert_insert_eq in Hok'.
  exists w'. split; [|by split]. mstep Er.
  mstep (eq_refl : gets mqueue w' = Ok (mqueue w', w')).
  by rewrite (MixerQueue.queued_Empty _ _ (eng_queue _ _ _ _ _ Hok')).
Qed.

(** When a sound ends while events wait in the mixer queue, the channel
    takes the next of them in the same step: it plays a sound of that event
    unless the event is older than [QUEUE_EXPIRED] seconds, in which case it
    stays free. *)
Lemma mix_event_hands_over (w : world) bs ss ds (o : list Z) (i j : Z) (b : EVENT_BUF)
    (buf : list Z) (mul : dbl) (l r el er : Z) (e : ENGINE_EVENT) (q : list ENGINE_EVENT)
    (en : sound_entry) (ev : EVENT_ENTRY) :
  engine_ok w bs ss ds (e :: q) -> output w = PLive o -> 0 <= i -> i + 1 < Z.of_nat (length o) ->
  0 <= j -> bs !! Z.to_nat j = Some b -> playing b buf -> pos b + 2 = len b ->
  ds !! Z.to_nat j = Some mul ->
  buf !! Z.to_nat (pos b) = Some l -> buf !! Z.to_nat (pos b + 1) = Some r ->
  left_sample b mul l = Ok el -> right_sample b mul r = Ok er ->
  engineSoundTableRetrieve lookup_fuel (sound_table w) (sound (event e)) = Ok (Some en) ->
  data en = DEvent ev ->
  exists w' b' s' x' q', mix_event i j w = Ok (tt, w') /\ output w' = PLive (mixed o i el er) /\ q' ≡ₚ q /\
    engine_ok w' (<[Z.to_nat j := b']> bs) (<[Z.to_nat j := s']> ss) (<[Z.to_nat j := x']> ds) q' /\
    if fresh w e then
      exists snd, snd_buf b' = Some snd /\ pos b' = 0 /\
        snds ev !! Z.to_nat (chosen ev (rand_calls w)) = Some (Some snd) /\
        lens ev !! Z.to_nat (chosen ev (rand_calls w)) = Some (len b')
    else snd_buf b' = None.
Proof.
  intros Hok Ho Hi0 Hi1 Hj Hb Hpl Hend Hd Hl Hr Hel Her Hret Hdat.
  rewrite (mix_event_advance w bs ss ds o i j b buf mul l r el er (eng_chan _ _ _ _ _ Hok)) by done.
  fold (after_mix w bs o i j b el er).
  pose proof (after_mix_ok w bs ss ds (e :: q) o i j b buf el er Hok Hb Hpl) as Hok1.
  pose proof (lookup_lt_Some _ _ _ Hb) as Hlt. destruct Hpl as (Hs & _).
  pose proof (ok_len_s _ _ _ _ (eng_chan _ _ _ _ _ Hok)) as Hls.
  destruct (Z.eqb_spec (pos b + 2) (len b)) as [_|]; [|done].
  destruct (remove_engine_ok _ _ _ _ _ j (advanced b) buf Hok1 Hj)
    as (w1 & Er & O1 & Tc & Rc & Tb & Q & Hok2); [by rewrite list_lookup_insert_eq|done|].
  rewrite list_insert_insert_eq in Hok2.
  mstep Er. mstep (eq_refl : gets mqueue w1 = Ok (mqueue w1, w1)).
  rewrite (MixerQueue.queued_Empty _ _ (eng_queue _ _ _ _ _ Hok2)).
  rewrite bool_decide_false by done.
  assert (Hidle : is_idle (<[Z.to_nat j:=sched_zero]> ss) j = true).
  { unfold is_idle. rewrite list_lookup_insert_eq by lia. done. }
  destruct (mixerAddOldEvent_Ok w1 _ _ _ q en ev e j Hok2)
    as (w' & bs' & ss' & ds' & q' & Em & Hok' & P & O2 & Hcase);
    [rewrite length_insert; lia|done|by rewrite Tb|done|].
  assert (Hfr : fresh w1 e = fresh w e) by (unfold fresh; by rewrite Tc).
  rewrite Hfr, Rc in Hcase. change (rand_calls (after_mix w bs o i j b el er)) with (rand_calls w) in Hcase.
  destruct (fresh w e).
  - destruct Hcase as (b2 & snd & ln & s & x & Hb2 & Hsnd & Hln & -> & -> & ->).
    rewrite list_lookup_insert_eq in Hb2 by lia. injection Hb2 as <-.
    rewrite !list_insert_insert_eq in Hok'.
    eexists w', _, s, x, q'. split_and!; [done|by rewrite O2, O1|done|exact Hok'|].
    exists snd. by split_and!.
  - destruct Hcase as (-> & -> & ->). eexists w', _, _, _, q'. split_and!; [done|by rewrite O2, O1|done|exact Hok'|done].
Qed.

(** A sound with an odd number of samples is read past its end: when one
    sample is left, the position does not meet the length and the right sample
    of the step lies behind the sound. *)
Lemma mix_event_odd_overrun (w : world) bs ss ds (i j : Z) (b : EVENT_BUF)
    (buf : list Z) (mul : dbl) (l el : Z) :
  chan_ok w bs ss ds -> 0 <= j -> bs !! Z.to_nat j = Some b -> playing b buf ->
  Z.odd (len b) = true -> pos b = len b - 1 ->
  ds !! Z.to_nat j = Some mul -> buf !! Z.to_nat (pos b) = Some l ->
  left_sample b mul l = Ok el ->
  mix_event i j w = Fault OutOfBounds.
Proof.
  intros Hok Hj Hb (Hs & Hlen & Hmax & Hp0 & _) Hodd Hp Hd Hl Hel. unfold mix_event, ebuff.
  mstep (rd_at_Ok ebuffs w bs j b (ok_ebuffs _ _ _ _ Hok) Hj Hb). rewrite Hs.
  mstep (rd_at_Ok dyn_mul w ds j mul (ok_dyn _ _ _ _ Hok) Hj Hd).
  erewrite bind_Ok by (unfold lift; rewrite (proj2 (rd_Ok _ _ _) (conj Hp0 Hl)); reflexivity).
  unfold left_sample in Hel.
  erewrite bind_Ok by (unfold lift; rewrite Hel; reflexivity).
  rewrite u32_small by lia. unfold mbind, M_bind, lift. by rewrite rd_out by lia.
Qed.

(** C21: one step of a channel that plays, whatever its sound and whatever
    waits. When no right sample is left, which is at the end of a sound of odd
    length, the step reads behind the sound. Else, if both scaled samples fit a
    [short], it adds them to the output, each sum wrapped to 16 bits, changes no
    other channel and keeps the invariant; and then: while samples are left,
    the channel goes on behind the two; at the end of the sound it is free when
    no event waits; and when one does, it takes the first of them and plays a
    sound of it from its start, or is free if that event has expired. *)
Theorem mix_event_outcome (w : world) bs ss ds (q : list ENGINE_EVENT) (o : list Z) (i j : Z) (b : EVENT_BUF)
    (buf : list Z) (mul : dbl) (l el : Z) :
  engine_ok w bs ss ds q -> output w = PLive o -> 0 <= i -> i + 1 < Z.of_nat (length o) ->
  0 <= j -> bs !! Z.to_nat j = Some b -> playing b buf -> ds !! Z.to_nat j = Some mul ->
  buf !! Z.to_nat (pos b) = Some l -> left_sample b mul l = Ok el ->
  match buf !! Z.to_nat (pos b + 1) with
  | None => mix_event i j w = Fault OutOfBounds
  | Some r => forall er, right_sample b mul r = Ok er ->
      if pos b + 2 <? len b then
        exists w', mix_event i j w = Ok (tt, w') /\ output w' = PLive (mixed o i el er) /\
          engine_ok w' (<[Z.to_nat j := advanced b]> bs) ss ds q /\ playing (advanced b) buf
      else match q with
      | [] =>
          exists w', mix_event i j w = Ok (tt, w') /\ output w' = PLive (mixed o i el er) /\
            engine_ok w' (<[Z.to_nat j := stopped (advanced b)]> bs) (<[Z.to_nat j := sched_zero]> ss)
              (<[Z.to_nat j := d_zero]> ds) []
      | e :: q => forall en ev,
          engineSoundTableRetrieve lookup_fuel (sound_table w) (sound (event e)) = Ok (Some en) ->
          data en = DEvent ev ->
          exists w' b' s' x' q', mix_event i j w = Ok (tt, w') /\ output w' = PLive (mixed o i el er) /\ q' ≡ₚ q /\
            engine_ok w' (<[Z.to_nat j := b']> bs) (<[Z.to_nat j := s']> ss) (<[Z.to_nat j := x']> ds) q' /\
            if fresh w e then
              exists snd, snd_buf b' = Some snd /\ pos b' = 0 /\
                snds ev !! Z.to_nat (chosen ev (rand_calls w)) = Some (Some snd) /\
                lens ev !! Z.to_nat (chosen ev (rand_calls w)) = Some (len b')
            else snd_buf b' = None
      end
  end.
Proof.
  intros Hok Ho Hi0 Hi1 Hj Hb Hpl Hd Hl Hel. pose proof Hpl as (Hs & Hlen & Hmax & Hp0 & Hpe & Hp).
  destruct (buf !! Z.to_nat (pos b + 1)) as [r|] eqn:Hr.
  - intros er Her. pose proof (lookup_lt_Some _ _ _ Hr) as Hlt. destruct (Z.ltb_spec (pos b + 2) (len b)).
    + by eapply mix_event_goes_on.
    + assert (pos b + 2 = len b) as Hend by lia. destruct q as [|e q].
      * by eapply mix_event_frees.
      * intros en ev Hret Hdat. by eapply mix_event_hands_over.
  - apply lookup_ge_None in Hr. assert (pos b = len b - 1) as Hend by lia.
    eapply mix_event_odd_overrun; try done; [apply Hok|].
    replace (len b) with (pos b + 1) by lia. by rewrite Z.odd_add, <- Z.negb_even, Hpe.
Qed.
End Properties.

(** ** Bounds checks and initialisation *)

(** [mixerAddStateThreshold] checks its index with [>]: an index below the
    number of thresholds is written and no other, a larger one is refused,
    and the number itself, for which there is no threshold, is written past
    the array. *)
Theorem mixerAddStateThreshold_bounds (w : world) (sb : list STATE_BUF) (j k : Z) (b : STATE_BUF)
    (ts : list THRESHOLD) (lo hi : dbl) (cnt : Z) :
  sbuffs w = PLive sb -> 0 <= j -> sb !! Z.to_nat j = Some b ->
  thresh b = Some ts -> thresh_cnt b = Z.of_nat (length ts) -> Z.of_nat (length ts) < 2 ^ 31 ->
  mlock w = false -> 0 <= k ->
  mixerAddStateThreshold true true j k lo hi cnt w =
    if k <? Z.of_nat (length ts) then
      Ok (MIXER_SUCCESS, set_mlock false (set_sbuffs (PLive (<[Z.to_nat j :=
        with_thresh b (<[Z.to_nat k :=
          {| l_bound := lo; h_bound := hi;
             state_snd := {| s_snd_buf := Some (replicate (Z.to_nat cnt) None);
                             s_len := Some (replicate (Z.to_nat cnt) 0);
                             s_snd_cnt := cnt; s_snd_no := 0; s_pos := 0 |} |}]> ts)]> sb))
        (set_mlock true w)))
    else if k =? Z.of_nat (length ts) then Fault OutOfBounds
    else Ok (MIXER_OUT_OF_BOUNDS, w).
Proof.
  intros Hsb Hj Hb Ht Hc Hlen Hm Hk. unfold mixerAddStateThreshold, sbuff, set_sbuff.
  mstep (rd_at_Ok sbuffs w sb j b Hsb Hj Hb). rewrite Hc, u32_small by lia.
  pose proof (lookup_lt_Some _ _ _ Hb).
  destruct (Z.ltb_spec k (Z.of_nat (length ts))) as [H1|H1].
  - destruct (Z.ltb_spec (Z.of_nat (length ts)) k); [lia|]. rewrite Ht. unfold lock_mixer.
    erewrite bind_Ok by (cbn; by rewrite Hm).
    erewrite bind_Ok by (unfold lift; rewrite wr_in_bounds by lia; reflexivity).
    erewrite bind_Ok by (apply wr_at_Ok; [exact Hsb|lia]). done.
  - destruct (Z.eqb_spec k (Z.of_nat (length ts))) as [->|Hne].
    + rewrite Z.ltb_irrefl, Ht. unfold lock_mixer.
      erewrite bind_Ok by (cbn; by rewrite Hm).
      unfold mbind, M_bind, lift, wr. by rewrite decide_False by lia.
    + destruct (Z.ltb_spec (Z.of_nat (length ts)) k); [done|lia].
Qed.

(** The mixer cannot be started: [mixerInit] reads the first sample of
    the output buffer to size it, and that pointer is null then; so
    [engineInit] never gets to the sound table. *)
Theorem engineInit_null_output (w : world) (countEbuf countSbuf : Z) :
  output w = PNull -> engineInit countEbuf countSbuf w = Fault NullDeref.
Proof.
  intros Ho. unfold engineInit. erewrite bind_Ok by reflexivity.
  apply bind_Fault. unfold mixerInit.
  assert (Hc : d_uint chunk_formula = Ok 90112) by (by vm_compute).
  erewrite bind_Ok by (unfold lift; rewrite Hc; reflexivity). erewrite bind_Ok by reflexivity.
  apply bind_Fault. unfold rd_at. cbn. by rewrite Ho.
Qed.

Lemma dyn_vol_one w :
  no_ebuffs w = 1 -> dyn_buf_cnt w = 1 -> dyn_mul w = PLive [d_zero] ->
  mixerDynVol w = Ok (SpecFloat.S754_nan, w).
Proof.
  intros Hn Hc Hd. unfold mixerDynVol.
  assert (Ht : mixerDynTotVol w = Ok (d_add d_zero d_zero, w)).
  { unfold mixerDynTotVol. mstep (eq_refl : gets no_ebuffs w = Ok (no_ebuffs w, w)).
    rewrite Hn. change (Z.to_nat 1) with 1%nat. cbn [tot_vol_loop].
    by mstep (rd_at_Ok dyn_mul w [d_zero] 0 d_zero Hd ltac:(lia) eq_refl). }
  mstep Ht. unfold mixerDynIMul, mixerDynGMul.
  erewrite bind_Ok by reflexivity. erewrite bind_Ok by reflexivity.
  unfold dyn_ratio. rewrite Hn, Hc. reflexivity.
Qed.

(** With a single event channel the dynamic volume is computed as 0/0:
    the volume of the sound that is started is not a number. *)
Theorem single_channel_volume_nan (w : world) (b : EVENT_BUF) (s : engine_sched) (d : dbl)
    (snd : list Z) (ln : Z) (lo : dbl) (fl : Z) :
  chan_ok w [b] [s] [d] -> snd_buf b = None ->
  exists w', mixerAddEvent (Some snd) ln lo fl 0 w = Ok (MIXER_SUCCESS, w') /\
    dyn_mul w' = PLive [SpecFloat.S754_nan].
Proof.
  intros Hok Hn. pose proof (ok_pair _ _ _ _ Hok 0 b s d eq_refl eq_refl eq_refl) as Hp.
  assert (Hd : d = d_zero) by (unfold paired in Hp; rewrite Hn in Hp; apply Hp). subst d.
  pose proof (ok_n _ _ _ _ Hok) as Hno. pose proof (ok_cnt _ _ _ _ Hok) as Hcnt.
  simpl in Hno, Hcnt. unfold busy1 in Hcnt. rewrite Hn in Hcnt. simpl in Hcnt.
  unfold mixerAddEvent, ebuff, set_ebuff, lock_mixer, unlock_mixer.
  mstep (rd_at_Ok ebuffs w [b] 0 b (ok_ebuffs _ _ _ _ Hok) ltac:(lia) eq_refl). rewrite Hn.
  erewrite bind_Ok by (cbn; by rewrite (ok_mlock _ _ _ _ Hok)).
  erewrite bind_Ok by (apply wr_at_Ok; [exact (ok_ebuffs _ _ _ _ Hok)|simpl; lia]).
  erewrite bind_Ok by reflexivity. cbn [dyn_buf_cnt set_ebuffs set_mlock]. rewrite Hcnt.
  match goal with |- exists w', (mixerDynVol ≫= _) ?W = _ /\ _ =>
    assert (Hv : mixerDynVol W = Ok (SpecFloat.S754_nan, W))
      by (apply dyn_vol_one; [exact Hno|reflexivity|exact (ok_dyn _ _ _ _ Hok)]) end.
  mstep Hv.
  erewrite bind_Ok by (apply wr_at_Ok; [exact (ok_dyn _ _ _ _ Hok)|simpl; lia]).
  eexists. split; [reflexivity|]. done.
Qed.

(** ** Witnesses *)

Definition demo_threshold (lo hi : dbl) : THRESHOLD :=
  {| l_bound := lo; h_bound := hi;
     state_snd := {| s_snd_buf := Some [Some [5; 5]]; s_len := Some [2]; s_snd_cnt := 1;
                     s_snd_no := 0; s_pos := 0 |} |}.

Definition demo_state : STATE_BUF :=
  {| thresh := Some [demo_threshold d_zero d_half; demo_threshold d_half d1]; thresh_cnt := 2;
     st_stereo_pos := d_half; st_vol := d_half; st_filter_flag := 3 |}.

Definition demo_states : world := set_sbuffs (PLive [demo_state]) (demo_world true true).

(** Both thresholds match the volume 0.5. *)
Lemma state_threshold_choice_witness :
  mixerGetStateSndPtr 0 d_half demo_states = Ok (Some 1, demo_states) /\
  mixerGetStateThreshIndex 0 demo_states = Ok (0, demo_states).
Proof.
  apply (state_threshold_choice demo_states [demo_state] 0 demo_state
    [demo_threshold d_zero d_half; demo_threshold d_half d1] d_half); try reflexivity.
  split_and!; [reflexivity|reflexivity|done|by repeat constructor].
Defined.

Lemma filters_by_flag_witness :
  mixerApplyEventFilters 7 0 0 demo_states = Ok (7, demo_states) /\
  mixerApplyStateFilters (E := still_env) 7 0 0 demo_states
    = mixerFadeEffect (E := still_env) 7 0 0 demo_states.
Proof.
  apply (filters_by_flag (E := still_env) demo_states [demo_buf true; demo_buf true] [demo_state] 0
    (demo_buf true) demo_state 7 0); [reflexivity|reflexivity|lia|reflexivity|reflexivity].
Defined.

Lemma demo_playing : playing (demo_buf true) [1; 1].
Proof. by repeat split. Qed.

Definition demo_out (b1 : bool) : world := set_output (PLive [0; 0; 32767; 0]) (demo_world true b1).

Lemma demo_out_ok b1 : engine_ok (E := still_env) (demo_out b1) [demo_buf true; demo_buf b1]
  [demo_sched true; demo_sched b1] [d_half; if b1 then d_half else d_zero] [].
Proof.
  pose proof (demo_ok true b1) as Hok. eapply engine_ok_ext; [exact Hok| |try reflexivity..].
  - eapply chan_ok_ext; [apply Hok|reflexivity..].
  - apply Hok.
Qed.

Definition waiting : ENGINE_EVENT :=
  {| event := demo_event "ab" 0; mix_time := {| tv_sec := 999999999; tv_usec := 0 |} |}.

Definition demo_wait : world :=
  set_mqueue {| MixerQueue.heap := PLive (Some waiting :: replicate 63 None);
                MixerQueue.top := 1; MixerQueue.queueSize := 64; MixerQueue.qlock := false |}
    (demo_out true).

Lemma demo_wait_ok : engine_ok (E := still_env) demo_wait [demo_buf true; demo_buf true]
  [demo_sched true; demo_sched true] [d_half; d_half] [waiting].
Proof.
  pose proof (demo_out_ok true) as Hok. eapply engine_ok_ext; [exact Hok| |reflexivity| |reflexivity..].
  - eapply chan_ok_ext; [apply Hok|reflexivity..].
  - split; [|done]. eexists. split; [reflexivity|]. split_and!; [reflexivity|simpl; lia|reflexivity].
Qed.

Definition odd_buf : EVENT_BUF :=
  {| snd_buf := Some [1; 1; 1]; len := 3; pos := 2; stereo_pos := d_half; filter_flag := 0 |}.

Definition demo_odd : world := set_ebuffs (PLive [odd_buf; demo_buf false]) (demo_out false).

Lemma demo_odd_ok : engine_ok (E := still_env) demo_odd [odd_buf; demo_buf false]
  [demo_sched true; demo_sched false] [d_half; d_zero] [].
Proof.
  destruct (demo_out_ok false) as [Hch Hlc Hq Hst Htb Hpb]. split; try done.
  split; try reflexivity; [simpl; lia|].
  intros [|[|i]] b s d H1 H2 H3; by simplify_eq/=.
Qed.

(** The second channel's sound ends: the channel is free, or the event that
    waits is played on it; and a sound of three samples. *)
Lemma mix_event_outcome_witness :
  (exists w', mix_event (E := still_env) 2 0 (demo_out false) = Ok (tt, w') /\
    output w' = PLive (mixed [0; 0; 32767; 0] 2 0 0) /\
    engine_ok (E := still_env) w' [stopped (advanced (demo_buf true)); demo_buf false]
      [sched_zero; demo_sched false] [d_zero; d_zero] []) /\
  (exists w' b' s' x' q', mix_event (E := still_env) 0 1 demo_wait = Ok (tt, w') /\
    output w' = PLive (mixed [0; 0; 32767; 0] 0 0 0) /\ q' ≡ₚ [] /\
    engine_ok (E := still_env) w' [demo_buf true; b'] [demo_sched true; s'] [d_half; x'] q' /\
    exists snd, snd_buf b' = Some snd /\ pos b' = 0 /\
      [Some [1; 1]] !! 0%nat = Some (Some snd) /\ [2] !! 0%nat = Some (len b')) /\
  mix_event (E := still_env) 0 0 demo_odd = Fault OutOfBounds.
Proof.
  assert (left_sample (demo_buf true) d_half 1 = Ok 0 /\ right_sample (demo_buf true) d_half 1 = Ok 0 /\
    left_sample odd_buf d_half 1 = Ok 0) as (L & R & L') by (split_and!; vm_compute; reflexivity).
  split; [|split].
  - exact (mix_event_outcome (E := still_env) (L := still_laws) (demo_out false) _ _ _ [] [0; 0; 32767; 0] 2 0 (demo_buf true)
      [1; 1] d_half 1 0 (demo_out_ok false) eq_refl ltac:(lia) ltac:(simpl; lia) ltac:(lia)
      eq_refl demo_playing eq_refl eq_refl L 0 R).
  - exact (mix_event_outcome (E := still_env) (L := still_laws) demo_wait _ _ _ [waiting] [0; 0; 32767; 0] 0 1
      (demo_buf true) [1; 1] d_half 1 0 demo_wait_ok eq_refl ltac:(lia) ltac:(simpl; lia) ltac:(lia) eq_refl
      demo_playing eq_refl eq_refl L 0 R (event_entry "ab" (one_sound 1)) (one_sound 1)
      ltac:(vm_compute; reflexivity) eq_refl).
  - exact (mix_event_outcome (E := still_env) (L := still_laws) demo_odd _ _ _ [] [0; 0; 32767; 0] 0 0 odd_buf [1; 1; 1] d_half 1 0
      demo_odd_ok eq_refl ltac:(lia) ltac:(simpl; lia) ltac:(lia) eq_refl ltac:(by repeat split) eq_refl eq_refl L').
Defined.

Lemma mixerAddStateThreshold_bounds_witness :
  mixerAddStateThreshold true true 0 2 d_zero d1 1 demo_states = Fault OutOfBounds.
Proof.
  rewrite (mixerAddStateThreshold_bounds demo_states [demo_state] 0 2 demo_state
    [demo_threshold d_zero d_half; demo_threshold d_half d1] d_zero d1 1
    eq_refl ltac:(lia) eq_refl eq_refl eq_refl ltac:(simpl; lia) eq_refl ltac:(lia)).
  reflexivity.
Defined.

Lemma engineInit_null_output_witness :
  output blank_world = PNull /\ engineInit 32 16 blank_world = Fault NullDeref.
Proof. split; [reflexivity|]. apply engineInit_null_output. reflexivity. Defined.

Definition one_channel : world :=
  set_counts 1 0 (set_eng_ebuffs 1 (set_ebuffs (PLive [zero_ebuf]) (set_sched (PLive [sched_zero])
    (set_dyn_mul (PLive [d_zero]) blank_world)))).

Lemma one_channel_ok : chan_ok one_channel [zero_ebuf] [sched_zero] [d_zero].
Proof.
  split; try reflexivity; [simpl; lia|]. intros [|i] b s d H1 H2 H3; by simplify_eq/=.
Qed.

Lemma single_channel_volume_nan_witness :
  exists w', mixerAddEvent (Some [3; 3]) 2 d_half 0 0 one_channel = Ok (MIXER_SUCCESS, w') /\
    dyn_mul w' = PLive [SpecFloat.S754_nan].
Proof. exact (single_channel_volume_nan one_channel _ _ _ [3; 3] 2 d_half 0 one_channel_ok eq_refl). Defined.
