(* ===== verification/Steps.v ===== *)
(** * Reasoning about the steps of the threads

    Two frame rules for computations on the shared state. [steps R m]: however
    [m] ends, the state before and the state after are related by the preorder
    [R]. It is closed under sequencing, so that it is enough to look at the
    elementary accesses; the hint database [steps] does that. *)

From stdpp Require Import base list sets strings.
From Stdlib Require Import ZArith Lia.
From S2P Require Import Prelude Events CString Dbl SoundTable MixerQueue World Playback Mixer Engine MixerFacts.
Import SoundTable.
Local Open Scope Z_scope.

Definition steps (R : world -> world -> Prop) {A} (m : M world A) : Prop :=
  forall w a w', m w = Ok (a, w') -> R w w'.

Create HintDb steps.

Section Closure.
Context {E : Env} {R : world -> world -> Prop} `{!PreOrder R}.

Lemma steps_ret {A} (a : A) : steps R (mret a).
Proof. intros w b w' [= <- <-]. reflexivity. Qed.

Lemma steps_bind {A B} (m : M world A) (k : A -> M world B) :
  steps R m -> (forall a, steps R (k a)) -> steps R (m ≫= k).
Proof.
  intros Hm Hk w b w' H. apply bind_inv in H as (a & v & H1 & H2).
  transitivity v; [by eapply Hm|by eapply Hk].
Qed.

Lemma steps_lift {A} (r : res A) : steps R (lift r).
Proof. intros w a w' H. unfold lift in H. destruct r; try done. injection H as <- <-. reflexivity. Qed.

Lemma steps_gets {A} (f : world -> A) : steps R (gets f).
Proof. intros w a w' [= <- <-]. reflexivity. Qed.

Lemma steps_rd_at {A} (f : world -> ptr (list A)) i : steps R (rd_at f i).
Proof.
  intros w a w' H. unfold rd_at in H. apply bind_ok in H as (l & _ & H).
  apply bind_ok in H as (x & _ & [= <- <-]). reflexivity.
Qed.

Lemma steps_modify f : (forall w, R w (f w)) -> steps R (modify f).
Proof. intros H w a w' [= <- <-]. apply H. Qed.

(** A write to an array keeps its length. *)
Lemma steps_wr_at {A} (f : world -> ptr (list A)) set i x :
  (forall w l l', f w = PLive l -> length l' = length l -> R w (set (PLive l') w)) ->
  steps R (wr_at f set i x).
Proof.
  intros HR w a w' H. unfold wr_at in H. apply bind_ok in H as (l & Hl & H).
  apply bind_ok in H as (l' & Hw & [= <- <-]). apply wr_Ok in Hw as [_ ->].
  apply (HR w l); [by destruct (f w); simplify_eq/=|]. apply length_insert.
Qed.

Lemma steps_rand : (forall n w, R w (set_rand_calls n w)) -> steps R rand.
Proof. intros H w a w' [= <- <-]. apply H. Qed.

Lemma steps_time : (forall n w, R w (set_time_calls n w)) -> steps R gettimeofday.
Proof. intros H w a w' [= <- <-]. apply H. Qed.

Lemma steps_on_mqueue {A} (m : M MixerQueue.state A) :
  (forall q w, R w (set_mqueue q w)) -> steps R (on_mqueue m).
Proof.
  intros H w a w' Hm. unfold on_mqueue in Hm. apply bind_ok in Hm as ([x q] & _ & [= <- <-]). apply H.
Qed.

Lemma steps_threads :
  (forall x w, R w (set_mlock x w)) -> (forall x w, R w (set_tlock x w)) ->
  steps R lock_mixer /\ steps R unlock_mixer /\ steps R lock_sched /\ steps R unlock_sched.
Proof.
  intros H1 H2. split_and!; intros w a w' H; apply bind_ok in H as (x & _ & [= <- <-]); auto.
Qed.
End Closure.

(** [go_steps]: go through the steps of a computation. *)
Ltac go_steps :=
  repeat match goal with
    | |- steps _ (mbind _ _) => apply steps_bind; [|intros ?]
    | |- steps _ (match ?x with _ => _ end) => destruct x
    | |- steps _ (let _ := _ in _) => cbv zeta
    end;
  eauto with steps.

#[export] Hint Extern 0 (steps _ (mret _)) => apply steps_ret : steps.
#[export] Hint Extern 0 (steps _ (lift _)) => apply steps_lift : steps.
#[export] Hint Extern 0 (steps _ (gets _)) => apply steps_gets : steps.
#[export] Hint Extern 0 (steps _ (rd_at _ _)) => apply steps_rd_at : steps.

(** *** Arrays of the same size *)

Definition same_size {A} (p p' : ptr (list A)) : Prop :=
  forall l, p = PLive l -> exists l', p' = PLive l' /\ length l' = length l.

Lemma same_size_refl {A} (p : ptr (list A)) : same_size p p.
Proof. intros l Hl. eauto. Qed.

Lemma same_size_trans {A} (p q r : ptr (list A)) : same_size p q -> same_size q r -> same_size p r.
Proof.
  intros H1 H2 l Hl. destruct (H1 l Hl) as (l1 & E1 & L1). destruct (H2 l1 E1) as (l2 & E2 & L2).
  exists l2. split; [done|congruence].
Qed.

Lemma same_size_live {A} (p : ptr (list A)) l l' :
  p = PLive l -> length l' = length l -> same_size p (PLive l').
Proof. intros -> Hl l0 [= <-]. eauto. Qed.

#[export] Hint Resolve same_size_refl same_size_live : steps.

(** [frame_wr]: a write keeps a relation that does not mention the variable,
    or only the size of the array. *)
Ltac frame_wr := intros; split; cbn; eauto with steps.

(** ** What does not change once the threads run

    The sound table, the size of a chunk and of the output buffer; and what was
    played, but for the chunk that [mixer] plays at its end. Only recording an
    event changes the playback as well. *)

Record heard (w w' : world) : Prop := {
  he_table : sound_table w' = sound_table w;
  he_chunk : chunk_size w' = chunk_size w;
  he_played : played w' = played w;
  he_output : same_size (output w) (output w')
}.

Record base (w w' : world) : Prop := {
  ba_table : sound_table w' = sound_table w;
  ba_chunk : chunk_size w' = chunk_size w;
  ba_played : played w' = played w;
  ba_pb : pb w' = pb w;
  ba_output : same_size (output w) (output w')
}.

#[export] Instance heard_preorder : PreOrder heard.
Proof.
  split.
  - intros w. by split; eauto with steps.
  - intros u v w [] []. split; first [congruence | by eapply same_size_trans].
Qed.

Lemma base_heard w w' : base w w' -> heard w w'.
Proof. by intros []. Qed.

Lemma heard_taped p t c w : heard w (taped p t c w).
Proof. split; eauto with steps. Qed.

#[export] Instance base_preorder : PreOrder base.
Proof.
  split.
  - intros w. by split; eauto with steps.
  - intros u v w [] []. split; first [congruence | by eapply same_size_trans].
Qed.

Lemma base_wr {A} (f : world -> ptr (list A)) set i x :
  (forall w l l', f w = PLive l -> length l' = length l -> base w (set (PLive l') w)) ->
  steps base (wr_at f set i x).
Proof. apply steps_wr_at. Qed.

#[export] Hint Extern 1 (steps base (wr_at _ _ _ _)) => apply base_wr; frame_wr : steps.
#[export] Hint Extern 1 (steps base (modify _)) => apply steps_modify; frame_wr : steps.
#[export] Hint Extern 1 (steps base (on_mqueue _)) => apply steps_on_mqueue; frame_wr : steps.
#[export] Hint Extern 1 (steps base gettimeofday) => apply steps_time; frame_wr : steps.
#[export] Hint Extern 1 (steps base rand) => apply steps_rand; frame_wr : steps.

Lemma base_threads :
  steps base lock_mixer /\ steps base unlock_mixer /\ steps base lock_sched /\ steps base unlock_sched.
Proof. apply steps_threads; frame_wr. Qed.

#[export] Hint Extern 1 (steps base lock_mixer) => apply base_threads : steps.
#[export] Hint Extern 1 (steps base unlock_mixer) => apply base_threads : steps.
#[export] Hint Extern 1 (steps base lock_sched) => apply base_threads : steps.
#[export] Hint Extern 1 (steps base unlock_sched) => apply base_threads : steps.

Section Base.
Context {E : Env}.

Lemma base_sched j st pr me : steps base (engineSchedulerInit j st pr me).
Proof. unfold engineSchedulerInit. go_steps. Qed.
Hint Resolve base_sched : steps.

Lemma base_remove j : steps base (mixerRemoveEvent j).
Proof. unfold mixerRemoveEvent, ebuff, set_ebuff. go_steps. Qed.

Lemma base_tot_vol n : forall i sum, steps base (tot_vol_loop n i sum).
Proof. induction n as [|n IH]; intros i sum; cbn [tot_vol_loop]; go_steps. Qed.
Hint Resolve base_remove base_tot_vol : steps.

Lemma base_add snd ln lo fl j : steps base (mixerAddEvent snd ln lo fl j).
Proof.
  unfold mixerAddEvent, mixerDynVol, mixerDynTotVol, mixerDynIMul, mixerDynGMul, ebuff, set_ebuff.
  go_steps.
Qed.
Hint Resolve base_add : steps.

Lemma base_add_old j : steps base (mixerAddOldEvent j).
Proof. unfold mixerAddOldEvent. go_steps. Qed.

Lemma base_choose n : forall i b, steps base (choose_loop n i b).
Proof. induction n as [|n IH]; intros i b; cbn [choose_loop]; unfold prefer; go_steps. Qed.
Hint Resolve base_choose : steps.

Lemma base_io_event e : steps base (io_event e).
Proof. unfold io_event, play_on, mixerInterrupt. go_steps. Qed.

Lemma base_io_state e : steps base (io_state e).
Proof.
  unfold io_state, mixerGetFadeTime, mixerSetFadeTime, mixerSetStateSnd, sbuff, set_sbuff. go_steps.
Qed.

Lemma base_pick j : steps base (mixerPickRndStateSnd j).
Proof. unfold mixerPickRndStateSnd, mixerGetStateSndPtr, get_state_snd, sbuff. go_steps. Qed.

Lemma base_add_output i x : steps base (add_output i x).
Proof. unfold add_output. go_steps. Qed.

Lemma base_put_snd j k s : steps base (put_state_snd j k s).
Proof. unfold put_state_snd, sbuff, set_sbuff. go_steps. Qed.
End Base.

#[export] Hint Resolve base_remove base_add_old base_io_event base_io_state base_pick : steps.

(** ** What the sound of the states leaves alone

    The work on the states writes the output buffer, the positions in their sounds and
    the fades, and draws random numbers. *)

Record frame (w w' : world) : Prop := {
  fr_base : base w w';
  fr_ebuffs : ebuffs w' = ebuffs w;
  fr_sched : sched w' = sched w;
  fr_dyn : dyn_mul w' = dyn_mul w;
  fr_n : no_ebuffs w' = no_ebuffs w;
  fr_ne : eng_ebuffs w' = eng_ebuffs w;
  fr_mlock : mlock w' = mlock w;
  fr_tlock : tlock w' = tlock w;
  fr_cnt : dyn_buf_cnt w' = dyn_buf_cnt w;
  fr_lastc : lastc w' = lastc w;
  fr_queue : mqueue w' = mqueue w;
  fr_pb : pb w' = pb w;
  fr_ns : no_sbuffs w' = no_sbuffs w;
  fr_states : same_size (sbuffs w) (sbuffs w');
  fr_fades : same_size (lin_fade w) (lin_fade w')
}.

#[export] Instance frame_preorder : PreOrder frame.
Proof.
  split.
  - intros w. split; eauto with steps. reflexivity.
  - intros u v w [] []. split; first [congruence | by eapply same_size_trans | by etransitivity].
Qed.

(** As [frame_wr]. *)
Ltac frame_base := intros; split; cbn; [frame_wr|..]; eauto with steps.

Lemma frame_wr_states i x : steps frame (wr_at sbuffs set_sbuffs i x).
Proof. apply steps_wr_at. frame_base. Qed.
Lemma frame_wr_fade i x : steps frame (wr_at lin_fade set_lin_fade i x).
Proof. apply steps_wr_at. frame_base. Qed.
Lemma frame_wr_output i x : steps frame (wr_at output set_output i x).
Proof. apply steps_wr_at. frame_base. Qed.
#[export] Hint Resolve frame_wr_states frame_wr_fade frame_wr_output : steps.

Section Frame.
Context {E : Env}.

Lemma frame_rand : steps frame rand.
Proof. apply steps_rand. frame_base. Qed.
Hint Resolve frame_rand : steps.

Lemma frame_snd_ptr j vol : steps frame (mixerGetStateSndPtr j vol).
Proof. unfold mixerGetStateSndPtr, sbuff. go_steps. Qed.
Lemma frame_get_snd j k : steps frame (get_state_snd j k).
Proof. unfold get_state_snd, sbuff. go_steps. Qed.
Lemma frame_put_snd j k s : steps frame (put_state_snd j k s).
Proof. unfold put_state_snd, sbuff, set_sbuff. go_steps. Qed.
Lemma frame_thresh_index j : steps frame (mixerGetStateThreshIndex j).
Proof. unfold mixerGetStateThreshIndex, sbuff. go_steps. Qed.
Lemma frame_add_output i x : steps frame (add_output i x).
Proof. unfold add_output. go_steps. Qed.
Hint Resolve frame_snd_ptr frame_get_snd frame_put_snd frame_thresh_index frame_add_output : steps.

Lemma frame_pick j : steps frame (mixerPickRndStateSnd j).
Proof. unfold mixerPickRndStateSnd, sbuff. go_steps. Qed.
Hint Resolve frame_pick : steps.

Lemma frame_fade data ps j : steps frame (mixerFadeEffect data ps j).
Proof. unfold mixerFadeEffect, fade_between, sbuff. go_steps. Qed.
Hint Resolve frame_fade : steps.

Lemma frame_filter fuel i max flag effect r :
  (forall i x, steps frame (effect i x)) -> steps frame (filter_loop fuel i max flag effect r).
Proof.
  intros He. revert i r. induction fuel as [|fuel IH]; intros i r; cbn [filter_loop]; go_steps.
Qed.

Lemma frame_event_filters data ps j : steps frame (mixerApplyEventFilters data ps j).
Proof. unfold mixerApplyEventFilters, ebuff. go_steps. apply frame_filter. go_steps. Qed.
Lemma frame_state_filters data ps j : steps frame (mixerApplyStateFilters data ps j).
Proof. unfold mixerApplyStateFilters, sbuff. go_steps. apply frame_filter. intros; go_steps. Qed.
Hint Resolve frame_event_filters frame_state_filters : steps.

Lemma frame_mix_state i j : steps frame (mix_state i j).
Proof. unfold mix_state, mix_state_snd, sbuff. go_steps. Qed.

Lemma steps_channels (R : world -> world -> Prop) `{!PreOrder R} n body : forall j,
  (forall j, steps R (body j)) -> steps R (for_channels n j body).
Proof. induction n as [|n IH]; intros j Hb; cbn [for_channels]; go_steps. Qed.

Lemma frame_clear n : steps frame (clear_output n).
Proof.
  intros w a w' H. unfold clear_output in H. apply bind_ok in H as (o & Ho & H).
  case_decide; [|done]. injection H as <- <-. split; cbn; [split; cbn|..]; eauto with steps.
  apply (same_size_live _ o); [by destruct (output w); simplify_eq/=|].
  rewrite length_app, length_replicate, length_drop. lia.
Qed.

Lemma play_output_inv n w w' :
  play_output n w = Ok (tt, w') ->
  exists o, output w = PLive o /\ w' = set_played (played w ++ [take (Z.to_nat n) o]) w.
Proof.
  intros H. unfold play_output in H. apply bind_ok in H as (o & Ho & [= <-]).
  exists o. split; [by destruct (output w); simplify_eq/=|done].
Qed.

Lemma clear_output_size n w a w' :
  clear_output n w = Ok (a, w') -> exists o, output w = PLive o /\ n <= Z.of_nat (length o).
Proof.
  intros H. unfold clear_output in H. apply bind_ok in H as (o & Ho & H).
  case_decide; [|done]. exists o. split; [by destruct (output w); simplify_eq/=|done].
Qed.
End Frame.

#[export] Hint Resolve frame_add_output frame_event_filters frame_mix_state : steps.

(** ** The invariant of the two threads

    To [engine_ok], what the mixer relies on: every event that waits in the
    mixer queue has sounds in the table. *)

Section Invariant.
Context {E : Env} {L : EnvLaws E}.

Definition known (w : world) (e : ENGINE_EVENT) : Prop :=
  exists en ev, engineSoundTableRetrieve lookup_fuel (sound_table w) (sound (event e)) = Ok (Some en) /\
    data en = DEvent ev.

Definition threads_ok (w : world) (l : list ENGINE_EVENT) : Prop :=
  (exists bs ss ds, engine_ok w bs ss ds l) /\ Forall (known w) l.

Lemma known_heard w w' l : heard w w' -> Forall (known w) l -> Forall (known w') l.
Proof.
  intros Hb H. apply (Forall_impl _ _ _ H). intros e (en & ev & Hr & Hd). exists en, ev.
  by rewrite (he_table _ _ Hb).
Qed.

Lemma known_base w w' l : base w w' -> Forall (known w) l -> Forall (known w') l.
Proof. intros Hb. by apply known_heard, base_heard. Qed.

Lemma chan_ok_frame w w' bs ss ds : chan_ok w bs ss ds -> frame w w' -> chan_ok w' bs ss ds.
Proof. intros H F. eapply chan_ok_ext; [exact H|apply F..]. Qed.

Lemma engine_ok_frame w w' bs ss ds l : engine_ok w bs ss ds l -> frame w w' -> engine_ok w' bs ss ds l.
Proof.
  intros H F. pose proof (chan_ok_frame _ _ _ _ _ (eng_chan _ _ _ _ _ H) F) as Hc.
  destruct H as [_ Hlc Hq (sb & fr & Hsb & Hfr & H1 & H2 & H3) Ht Hpb]. split.
  - done.
  - by rewrite (fr_lastc _ _ F).
  - by rewrite (fr_queue _ _ F).
  - destruct (fr_states _ _ F sb Hsb) as (sb' & -> & Ls). destruct (fr_fades _ _ F fr Hfr) as (fr' & -> & Lf).
    rewrite (fr_ns _ _ F). exists sb', fr'. split_and!; [done|done|lia|lia|done].
  - intros nm en. rewrite (ba_table _ _ (fr_base _ _ F)). intros Hr. apply Ht in Hr.
    unfold usable in *. by rewrite (fr_ns _ _ F).
  - by rewrite (fr_pb _ _ F).
Qed.

Lemma threads_frame w w' l : threads_ok w l -> frame w w' -> threads_ok w' l.
Proof.
  intros [(bs & ss & ds & H) Hk] F. split; [|by eapply known_base; [apply F|]].
  exists bs, ss, ds. by eapply engine_ok_frame.
Qed.

(** Moving on in a sound that plays. *)
Lemma chan_ok_move w bs ss ds j b b' :
  chan_ok w bs ss ds -> bs !! Z.to_nat j = Some b -> snd_buf b <> None -> snd_buf b' = snd_buf b ->
  chan_ok (set_ebuffs (PLive (<[Z.to_nat j := b']> bs)) w) (<[Z.to_nat j := b']> bs) ss ds.
Proof.
  intros Hok Hb Hs Hs'. pose proof (lookup_lt_Some _ _ _ Hb).
  pose proof (ok_pair _ _ _ _ Hok) as Hpair. destruct Hok. split; cbn; rewrite ?length_insert; try done.
  - rewrite (busy_insert _ _ _ _ Hb). unfold busy1. rewrite Hs'. lia.
  - intros k c s d H1 H2 H3. destruct (decide (k = Z.to_nat j)) as [->|Hne].
    + rewrite list_lookup_insert_eq in H1 by lia. simplify_eq.
      pose proof (Hpair _ _ _ _ Hb H2 H3) as Hp. unfold paired in *. rewrite Hs'. by destruct (snd_buf b).
    + rewrite list_lookup_insert_ne in H1 by done. by eapply Hpair.
Qed.

(** A channel whose sound has ended: it is free, or takes an event that waits. *)
Definition after_end (j : Z) : M world unit :=
  mixerRemoveEvent j ;;
  q ← gets mqueue;
  if MixerQueue.mixerQueueEmpty q then mret tt else mixerAddOldEvent j.

Lemma after_end_ok w bs ss ds l j b buf :
  engine_ok w bs ss ds l -> Forall (known w) l -> 0 <= j -> bs !! Z.to_nat j = Some b ->
  snd_buf b = Some buf ->
  exists w' l', after_end j w = Ok (tt, w') /\ threads_ok w' l' /\ exists x, l ≡ₚ x ++ l'.
Proof.
  intros Hok Hk Hj Hb Hs. pose proof (lookup_lt_Some _ _ _ Hb) as Hlt.
  destruct (remove_engine_ok w bs ss ds l j b buf Hok Hj Hb Hs)
    as (w1 & Er & _ & _ & _ & Tb & _ & Hok1).
  assert (Hk1 : Forall (known w1) l).
  { eapply known_base; [|exact Hk]. by apply (base_remove j w tt). }
  unfold after_end. mstep Er. mstep (eq_refl : gets mqueue w1 = Ok (mqueue w1, w1)).
  rewrite (MixerQueue.queued_Empty _ _ (eng_queue _ _ _ _ _ Hok1)).
  destruct l as [|e q]; cbn [bool_decide].
  - rewrite bool_decide_true by done. exists w1, []. split; [done|]. split; [|by exists []].
    split; [by eexists _, _, _|done].
  - rewrite bool_decide_false by done.
    pose proof (Forall_inv Hk1) as (en & ev & Hr & Hd).
    assert (Hidle : is_idle (<[Z.to_nat j:=sched_zero]> ss) j = true).
    { pose proof (ok_len_s _ _ _ _ (eng_chan _ _ _ _ _ Hok)).
      unfold is_idle. rewrite list_lookup_insert_eq by lia. done. }
    destruct (mixerAddOldEvent_Ok w1 _ _ _ q en ev e j Hok1)
      as (w' & bs' & ss' & ds' & q' & Em & Hok' & P & _);
      [rewrite length_insert; lia|done|done|done|].
    exists w', q'. split; [exact Em|]. split.
    + split; [by eexists _, _, _|]. rewrite P. eapply known_base; [by apply (base_add_old j w1 tt)|].
      by apply Forall_inv_tail in Hk1.
    + exists [e]. by rewrite P.
Qed.

(** [step_frame F H]: the first step of the computation of [H] keeps the frame,
    which [F] has for the steps before it. *)
Ltac step_frame F H :=
  let v := fresh "v" in let E := fresh "E" in let S := fresh in
  apply bind_inv in H as (? & v & E & H);
  match type of E with ?m _ = Ok _ => assert (steps frame m) as S by go_steps end;
  apply S, (transitivity F) in E; clear S F; rename E into F.

Lemma rd_at_inv {A} (f : world -> ptr (list A)) i w x w' :
  rd_at f i w = Ok (x, w') -> exists l, f w = PLive l /\ 0 <= i /\ l !! Z.to_nat i = Some x /\ w' = w.
Proof.
  intros H. unfold rd_at in H. apply bind_ok in H as (l & Hl & H).
  apply bind_ok in H as (y & [Hi Hy]%rd_Ok & [= <- <-]). exists l.
  split_and!; try done. by destruct (f w); simplify_eq/=.
Qed.

Lemma wr_at_inv {A} (f : world -> ptr (list A)) set i x w u w' :
  wr_at f set i x w = Ok (u, w') ->
  exists l, f w = PLive l /\ w' = set (PLive (<[Z.to_nat i := x]> l)) w.
Proof.
  intros H. unfold wr_at in H. apply bind_ok in H as (l & Hl & H).
  apply bind_ok in H as (l' & [_ ->]%wr_Ok & [= <- <-]). exists l.
  split; [|done]. by destruct (f w); simplify_eq/=.
Qed.

(** The samples of an event channel: up to the place where its position is
    written, the world keeps its frame. *)
Lemma mix_event_inv i j w w' :
  mix_event i j w = Ok (tt, w') ->
  w' = w \/
  exists v bs b ps, frame w v /\ ebuffs v = PLive bs /\ 0 <= j /\ bs !! Z.to_nat j = Some b /\
    snd_buf b <> None /\
    (if ps =? len b then after_end j else mret tt)
      (set_ebuffs (PLive (<[Z.to_nat j := {| snd_buf := snd_buf b; len := len b; pos := ps;
         stereo_pos := stereo_pos b; filter_flag := filter_flag b |}]> bs)) v) = Ok (tt, w').
Proof.
  intros H. unfold mix_event, ebuff, set_ebuff in H. apply bind_inv in H as (a & v0 & (bs & Hbs & Hj & Hb & ->)%rd_at_inv & H).
  destruct (snd_buf a) as [buf|] eqn:Hs; [|left; by injection H as <-]. right.
  assert (frame w w) as F by reflexivity. do 9 step_frame F H.
  match type of F with frame _ ?v => rename v into v8 end.
  apply bind_inv in H as (b & v9 & Eb & H).
  apply rd_at_inv in Eb as (bs' & Hbs' & _ & Hb' & ->).
  rewrite (fr_ebuffs _ _ F), Hbs in Hbs'. injection Hbs' as <-.
  rewrite Hb in Hb'. injection Hb' as <-.
  apply bind_inv in H as ([] & v10 & Ew & H).
  apply wr_at_inv in Ew as (bs' & Hbs' & ->). rewrite (fr_ebuffs _ _ F), Hbs in Hbs'. injection Hbs' as <-.
  eexists v8, bs, a, _. split_and!; [done|by rewrite (fr_ebuffs _ _ F)|done|done|by rewrite Hs|exact H].
Qed.

Lemma threads_at w l bs : threads_ok w l -> ebuffs w = PLive bs ->
  (exists ss ds, engine_ok w bs ss ds l) /\ Forall (known w) l.
Proof.
  intros [(bs' & ss & ds & H) Hk] Hb. rewrite (ok_ebuffs _ _ _ _ (eng_chan _ _ _ _ _ H)) in Hb.
  injection Hb as ->. eauto.
Qed.

(** Writing the position of a channel that plays. *)
Lemma threads_move w l bs j b b' :
  threads_ok w l -> ebuffs w = PLive bs -> bs !! Z.to_nat j = Some b -> snd_buf b <> None ->
  snd_buf b' = snd_buf b ->
  exists ss ds, engine_ok (set_ebuffs (PLive (<[Z.to_nat j := b']> bs)) w) (<[Z.to_nat j := b']> bs) ss ds l /\
    Forall (known (set_ebuffs (PLive (<[Z.to_nat j := b']> bs)) w)) l.
Proof.
  intros Hok Hbs Hb Hs Hs'. destruct (threads_at w l bs Hok Hbs) as [(ss & ds & H) Hk].
  exists ss, ds. split; [|exact Hk]. pose proof (chan_ok_move w bs ss ds j b b' (eng_chan _ _ _ _ _ H) Hb Hs Hs').
  destruct H as [_ Hlc Hq Hst Htb Hpb]. split; try done. by rewrite length_insert.
Qed.

Lemma mix_event_ok i j w w' l :
  threads_ok w l -> mix_event i j w = Ok (tt, w') ->
  exists l', threads_ok w' l' /\ exists x, l ≡ₚ x ++ l'.
Proof.
  intros Hok [->|(v & bs & b & ps & F & Hbs & Hj & Hb & Hs & H)]%mix_event_inv; [by exists l; split; [|exists []]|].
  apply (threads_frame w v) in Hok; [|done]. pose proof (lookup_lt_Some _ _ _ Hb) as Hlt.
  match type of H with context [<[_ := ?c]> bs] => set (b' := c) in H end.
  destruct (threads_move v l bs j b b' Hok Hbs Hb Hs eq_refl) as (ss & ds & He & Hk).
  destruct (ps =? len b).
  - assert (exists buf, snd_buf b' = Some buf) as [buf Eb] by (simpl; destruct (snd_buf b); [eauto|done]).
    destruct (after_end_ok _ _ ss ds l j b' buf He Hk Hj) as (w1 & l' & H1 & H2 & H3);
      [by rewrite list_lookup_insert_eq|done|].
    rewrite H1 in H. injection H as <-. by exists l'.
  - injection H as <-. exists l. split; [split; [by eexists _, _, _|done]|by exists []].
Qed.

Lemma base_mix_event i j : steps base (mix_event i j).
Proof.
  intros w [] w' [->|(v & bs & b & ps & F & _ & _ & _ & _ & H)]%mix_event_inv; [reflexivity|].
  etransitivity; [apply F|].
  match type of H with (if ?b then after_end _ else _) ?v' = _ =>
    assert (steps base (if b then after_end j else mret tt)) as Hs by (unfold after_end; go_steps);
    transitivity v'; [frame_wr|exact (Hs _ _ _ H)]
  end.
Qed.

(** A chunk. *)
Lemma channels_ok n : forall i j w w' l,
  threads_ok w l -> for_channels n j (mix_event i) w = Ok (tt, w') ->
  exists l', threads_ok w' l' /\ exists x, l ≡ₚ x ++ l'.
Proof.
  induction n as [|n IH]; intros i j w w' l Hok H; cbn [for_channels] in H.
  { injection H as <-. exists l. split; [done|by exists []]. }
  apply bind_inv in H as ([] & v & H1 & H2).
  destruct (mix_event_ok _ _ _ _ _ Hok H1) as (l1 & Hok1 & x1 & P1).
  destruct (IH _ _ _ _ _ Hok1 H2) as (l2 & Hok2 & x2 & P2).
  exists l2. split; [done|]. exists (x1 ++ x2). by rewrite P1, P2, app_assoc.
Qed.

Lemma mix_frames_ok n : forall i w w' l,
  threads_ok w l -> mix_frames n i w = Ok (tt, w') ->
  base w w' /\ exists l', threads_ok w' l' /\ exists x, l ≡ₚ x ++ l'.
Proof.
  induction n as [|n IH]; intros i w w' l Hok H; cbn [mix_frames] in H.
  { injection H as <-. split; [reflexivity|]. exists l. split; [done|by exists []]. }
  apply bind_inv in H as ([] & v & H & Hn). unfold mix_frame in H.
  apply bind_inv in H as (n1 & ? & [= <- <-] & H). apply bind_inv in H as ([] & v1 & H1 & H).
  apply bind_inv in H as (n2 & ? & [= <- <-] & H2).
  destruct (channels_ok _ _ _ _ _ _ Hok H1) as (l1 & Hok1 & x1 & P1).
  assert (frame v1 v) as F by (refine (steps_channels frame _ _ _ _ _ _ _ H2); intros; go_steps).
  destruct (IH _ _ _ _ (threads_frame _ _ _ Hok1 F) Hn) as (Hb & l2 & Hok2 & x2 & P2).
  split; [|exists l2; split; [done|]; exists (x1 ++ x2); by rewrite P1, P2, app_assoc].
  etransitivity; [|exact Hb]. etransitivity; [|apply F].
  refine (steps_channels base _ _ _ _ _ _ _ H1). apply base_mix_event.
Qed.

Lemma threads_played w l p : threads_ok w l -> threads_ok (set_played p w) l.
Proof.
  intros [(bs & ss & ds & H) Hk]. split; [|exact Hk]. exists bs, ss, ds.
  eapply engine_ok_ext; [exact H| |done| |done..]; [|apply H].
  eapply chan_ok_ext; [apply H|done..].
Qed.

Lemma mixer_ok w w' l :
  threads_ok w l -> mixer w = Ok (tt, w') ->
  (exists l' x, threads_ok w' l' /\ l ≡ₚ x ++ l') /\ sound_table w' = sound_table w /\ pb w' = pb w /\
  exists chunk, played w' = played w ++ [chunk] /\ List.length chunk = Z.to_nat (chunk_size w).
Proof.
  intros Hok H. unfold mixer in H. apply bind_inv in H as (n & ? & [= <- <-] & H).
  apply bind_inv in H as ([] & v & Hc & H). apply bind_inv in H as ([] & v1 & Hm & Hp).
  pose proof (frame_clear _ _ _ _ Hc) as F.
  destruct (mix_frames_ok _ _ _ _ _ (threads_frame _ _ _ Hok F) Hm) as (Hb & l' & Hok' & x & P).
  apply play_output_inv in Hp as (o & Ho & ->).
  assert (base w v1) as B by (etransitivity; [apply F|done]).
  apply clear_output_size in Hc as (o0 & Ho0 & Hn).
  destruct (ba_output _ _ B o0 Ho0) as (o1 & Ho1 & Hlen). rewrite Ho in Ho1. injection Ho1 as <-.
  split; [|split; [apply B|split; [apply B|]]].
  - exists l', x. split; [|done]. by apply threads_played.
  - eexists. split; [cbn; by rewrite (ba_played _ _ B)|]. rewrite length_take. lia.
Qed.

(** ** A step of the engine thread *)

(** What [engineIO] does with an event once it has been recorded. *)
Lemma base_io e : steps base (if type e =? event_type_val EVENT_T then io_event e
  else if type e =? event_type_val STATE_T then io_state e ;; mret true else mret true).
Proof. go_steps. Qed.

Lemma engineIO_heard w bs ss ds l e b w' :
  engine_ok w bs ss ds l -> engineIO e w = Ok (b, w') -> heard w w'.
Proof.
  intros Hok H. destruct (engineIO_taped w bs ss ds l e Hok) as (p & t & c & _ & E1). rewrite E1 in H.
  etransitivity; [apply heard_taped|]. by apply base_heard, (base_io e _ _ _ H).
Qed.

(** The step is defined when the look-up of the sound returns; an event that is
    put aside has sounds in the table. *)
Lemma engine_step w l e r :
  threads_ok w l -> engineSoundTableRetrieve lookup_fuel (sound_table w) (sound e) = Ok r ->
  exists o w' l', engineLoop_body e w = Ok (o, w') /\ threads_ok w' l' /\ heard w w' /\
    (l' ≡ₚ l \/ exists t, l' ≡ₚ l ++ [{| event := e; mix_time := t |}]).
Proof.
  intros Hok Hr. unfold engineLoop_body.
  mstep (eq_refl : gets sound_table w = Ok (sound_table w, w)).
  erewrite bind_Ok by (unfold lift; rewrite Hr; reflexivity).
  destruct r as [en|]; [|exists None, w, l; split_and!; [done|done|reflexivity|by left]].
  destruct (type e =? event_type_val (stype en)) eqn:Ety;
    [|exists None, w, l; split_and!; [done|done|reflexivity|by left]].
  zbool. destruct Hok as [(bs & ss & ds & H) Hk].
  destruct (engineIO_safe w bs ss ds l e en H Hr Ety)
    as (b & w' & bs' & ss' & ds' & l' & H1 & H2 & _ & H3).
  pose proof (engineIO_heard _ _ _ _ _ _ _ _ H H1) as B.
  apply (known_heard _ _ _ B) in Hk. mstep H1. exists (Some b), w', l'. split; [done|].
  destruct H3 as [P|(t & ev & P & Hd)].
  - split_and!; [split; [by eexists _, _, _|by rewrite P]|done|by left].
  - split_and!; [split; [by eexists _, _, _|]|done|right; by exists t].
    rewrite P. apply Forall_app. split; [done|]. apply Forall_singleton. exists en, ev.
    by rewrite (he_table _ _ B).
Qed.

Lemma engine_step_inv w l e o w' :
  threads_ok w l -> engineLoop_body e w = Ok (o, w') ->
  exists l', threads_ok w' l' /\ heard w w' /\
    (l' ≡ₚ l \/ exists t, l' ≡ₚ l ++ [{| event := e; mix_time := t |}]).
Proof.
  intros Hok H. assert (exists r, engineSoundTableRetrieve lookup_fuel (sound_table w) (sound e) = Ok r) as [r Hr].
  { unfold engineLoop_body in H. apply bind_inv in H as (t & ? & [= <- <-] & H).
    apply bind_inv in H as (r & ? & H & _). unfold lift in H. exists r.
    by destruct (engineSoundTableRetrieve _ _ _); simplify_eq/=. }
  destruct (engine_step w l e r Hok Hr) as (o' & v & l' & H' & H1 & H2 & H3).
  rewrite H in H'. injection H' as <- <-. by exists l'.
Qed.
End Invariant.
