(* ===== verification/Release.v ===== *)
(** * What the end of the program frees

    [engineShutdown] and [mixerShutdown] walk through the sound table, the
    events that wait and the sounds of the states, and free them. Here is what
    they rely on ([releasable]), that the rounds of the engine and the mixer
    thread keep it, and that then both return, having freed each sound they
    own once. *)

From stdpp Require Import base list sets strings.
From Stdlib Require Import ZArith Lia.
From S2P Require Import Prelude Events CString Dbl SoundTable MixerQueue World Playback Mixer Engine MixerFacts Steps.
Import SoundTable.
Local Open Scope Z_scope.

(** ** The sounds of the states *)

(** A threshold has as many places for sounds as it says. *)
Definition full_snd (s : STATE_SND) : Prop :=
  s_snd_cnt s <= 0 \/ exists bufs, s_snd_buf s = Some bufs /\ s_snd_cnt s <= Z.of_nat (length bufs).

(** So have the thresholds of a state, and there are as many as it says. *)
Definition full_state (b : STATE_BUF) : Prop :=
  (forall ts, thresh b = Some ts -> Forall (fun t => full_snd (state_snd t)) ts) /\
  (thresh_cnt b <= 0 \/ exists ts, thresh b = Some ts /\ thresh_cnt b <= Z.of_nat (length ts)).

Definition full_states (w : world) : Prop :=
  exists sb, sbuffs w = PLive sb /\ no_sbuffs w <= Z.of_nat (length sb) /\ Forall full_state sb.

(** Steps that keep this. *)
Definition fills (w w' : world) : Prop := full_states w -> full_states w'.

#[export] Instance fills_preorder : PreOrder fills.
Proof. split; [intros w; exact id|]. intros u v w H1 H2 H. auto. Qed.

(** Steps that have nothing to do with the states. *)
Definition stateless (w w' : world) : Prop := sbuffs w' = sbuffs w /\ no_sbuffs w' = no_sbuffs w.

#[export] Instance stateless_preorder : PreOrder stateless.
Proof. split; [intros w; by split|]. intros u v w [] []. split; congruence. Qed.

Lemma stateless_fills w w' : stateless w w' -> fills w w'.
Proof. intros [E N] (sb & H1 & H2 & H3). exists sb. by rewrite E, N. Qed.

#[export] Hint Extern 1 (steps stateless (wr_at _ _ _ _)) => apply steps_wr_at; by intros; split : steps.
#[export] Hint Extern 1 (steps stateless (modify _)) => apply steps_modify; by intros; split : steps.
#[export] Hint Extern 1 (steps stateless (on_mqueue _)) => apply steps_on_mqueue; by intros; split : steps.
#[export] Hint Extern 1 (steps stateless gettimeofday) => apply steps_time; by intros; split : steps.
#[export] Hint Extern 1 (steps stateless rand) => apply steps_rand; by intros; split : steps.

Lemma stateless_threads :
  steps stateless lock_mixer /\ steps stateless unlock_mixer /\
  steps stateless lock_sched /\ steps stateless unlock_sched.
Proof. apply steps_threads; by intros; split. Qed.

#[export] Hint Extern 1 (steps stateless lock_mixer) => apply stateless_threads : steps.
#[export] Hint Extern 1 (steps stateless unlock_mixer) => apply stateless_threads : steps.
#[export] Hint Extern 1 (steps stateless lock_sched) => apply stateless_threads : steps.
#[export] Hint Extern 1 (steps stateless unlock_sched) => apply stateless_threads : steps.

Section Stateless.
Context {E : Env}.

Lemma stateless_tot_vol n : forall i sum, steps stateless (tot_vol_loop n i sum).
Proof. induction n as [|n IH]; intros i sum; cbn [tot_vol_loop]; go_steps. Qed.
Lemma stateless_choose n : forall i b, steps stateless (choose_loop n i b).
Proof. induction n as [|n IH]; intros i b; cbn [choose_loop]; unfold prefer; go_steps. Qed.
Lemma stateless_filter fuel i max flag effect r :
  (forall i x, steps stateless (effect i x)) -> steps stateless (filter_loop fuel i max flag effect r).
Proof.
  intros He. revert i r. induction fuel as [|fuel IH]; intros i r; cbn [filter_loop]; go_steps.
Qed.
Hint Resolve stateless_tot_vol stateless_choose : steps.

Lemma stateless_sched j st pr me : steps stateless (engineSchedulerInit j st pr me).
Proof. unfold engineSchedulerInit. go_steps. Qed.
Hint Resolve stateless_sched : steps.
Lemma stateless_remove j : steps stateless (mixerRemoveEvent j).
Proof. unfold mixerRemoveEvent, ebuff, set_ebuff. go_steps. Qed.
Lemma stateless_add snd ln lo fl j : steps stateless (mixerAddEvent snd ln lo fl j).
Proof.
  unfold mixerAddEvent, mixerDynVol, mixerDynTotVol, mixerDynIMul, mixerDynGMul, ebuff, set_ebuff.
  go_steps.
Qed.
Hint Resolve stateless_remove stateless_add : steps.
Lemma stateless_add_old j : steps stateless (mixerAddOldEvent j).
Proof. unfold mixerAddOldEvent. go_steps. Qed.
Hint Resolve stateless_add_old : steps.
Lemma stateless_io_event e : steps stateless (io_event e).
Proof. unfold io_event, play_on, mixerInterrupt. go_steps. Qed.

Lemma stateless_event_filters data ps j : steps stateless (mixerApplyEventFilters data ps j).
Proof. unfold mixerApplyEventFilters, ebuff. go_steps. apply stateless_filter. go_steps. Qed.
Hint Resolve stateless_event_filters : steps.
Lemma stateless_mix_event i j : steps stateless (mix_event i j).
Proof. unfold mix_event, add_output, ebuff, set_ebuff. go_steps. Qed.

Lemma stateless_pick j : steps stateless (mixerPickRndStateSnd j).
Proof. unfold mixerPickRndStateSnd, mixerGetStateSndPtr, get_state_snd, sbuff. go_steps. Qed.
Hint Resolve stateless_pick : steps.
Lemma stateless_snd_ptr j vol : steps stateless (mixerGetStateSndPtr j vol).
Proof. unfold mixerGetStateSndPtr, sbuff. go_steps. Qed.
Lemma stateless_get_snd j k : steps stateless (get_state_snd j k).
Proof. unfold get_state_snd, sbuff. go_steps. Qed.
Lemma stateless_thresh_index j : steps stateless (mixerGetStateThreshIndex j).
Proof. unfold mixerGetStateThreshIndex, sbuff. go_steps. Qed.
Lemma stateless_add_output i x : steps stateless (add_output i x).
Proof. unfold add_output. go_steps. Qed.
Lemma stateless_sbuff j : steps stateless (sbuff j).
Proof. unfold sbuff. go_steps. Qed.
End Stateless.

#[export] Hint Resolve stateless_io_event stateless_mix_event stateless_pick stateless_snd_ptr
  stateless_get_snd stateless_thresh_index stateless_add_output stateless_sbuff : steps.

(** *** The writes to the states *)

Section Fills.
Context {E : Env}.

Lemma steps_fills {A} (m : M world A) : steps stateless m -> steps fills m.
Proof. intros H w a w' Hm. eapply stateless_fills, H, Hm. Qed.

(** Writing a state that is full. *)
Lemma full_set_sbuff j b w u w' :
  set_sbuff j b w = Ok (u, w') -> full_state b -> fills w w'.
Proof.
  intros H Hb (sb & H1 & H2 & H3). unfold set_sbuff in H.
  apply wr_at_inv in H as (sb' & Hs & ->). rewrite H1 in Hs. injection Hs as <-.
  eexists. split; [reflexivity|]. rewrite length_insert. split; [done|]. by apply Forall_insert.
Qed.

Lemma full_sbuff j w b w' : sbuff j w = Ok (b, w') -> full_states w -> w' = w /\ full_state b.
Proof.
  intros H (sb & H1 & _ & H3). unfold sbuff in H. apply rd_at_inv in H as (sb' & Hs & _ & Hb & ->).
  rewrite H1 in Hs. injection Hs as <-. split; [done|]. by eapply (Forall_lookup_1 full_state).
Qed.

Lemma fills_state_snd j vol stereo flgs : steps fills (mixerSetStateSnd j vol stereo flgs).
Proof.
  intros w a w' H Hw. unfold mixerSetStateSnd in H. apply bind_inv in H as (b & v & Hb & H).
  destruct (full_sbuff _ _ _ _ Hb Hw) as [-> [F1 F2]]. eapply full_set_sbuff; [exact H| |exact Hw]. by split.
Qed.

Lemma full_get_snd j k w s w' :
  get_state_snd j k w = Ok (s, w') -> full_states w -> w' = w /\ full_snd s.
Proof.
  intros H Hw. unfold get_state_snd in H. apply bind_inv in H as (b & v & Hb & H).
  destruct (full_sbuff _ _ _ _ Hb Hw) as [-> [F1 F2]].
  apply bind_inv in H as (ts & v & Ht & H). destruct (thresh b) as [ts'|]; [|done]. injection Ht as <- <-.
  apply bind_inv in H as (t & v & Hr & [= <- <-]). unfold lift in Hr.
  destruct (rd ts' k) as [t'| |] eqn:Er; [|done..]. injection Hr as <- <-. apply rd_Ok in Er as [_ Er].
  split; [done|]. exact (Forall_lookup_1 _ _ _ _ (F1 _ eq_refl) Er).
Qed.

Lemma full_put_snd j k s w u w' : put_state_snd j k s w = Ok (u, w') -> full_snd s -> fills w w'.
Proof.
  intros H Hs Hw. unfold put_state_snd in H. apply bind_inv in H as (b & v & Hb & H).
  destruct (full_sbuff _ _ _ _ Hb Hw) as [-> [F1 F2]].
  apply bind_inv in H as (ts & v & Ht & H). destruct (thresh b) as [ts'|]; [|done]. injection Ht as <- <-.
  apply bind_inv in H as (t & v & Hr & H). unfold lift in Hr. destruct (rd ts' k); [|done..]. injection Hr as <- <-.
  apply bind_inv in H as (ts & v & Hr & H). unfold lift in Hr.
  destruct (wr ts' k (with_state_snd _ s)) as [ts1| |] eqn:Ew; [|done..]. injection Hr as <- <-.
  apply wr_Ok in Ew as [_ ->]. eapply full_set_sbuff; [exact H| |exact Hw]. split; cbn.
  - intros ts [= <-]. by apply Forall_insert; [apply F1|].
  - destruct F2 as [F2|(ts & [= <-] & F2)]; [by left|right]. eexists. split; [reflexivity|].
    by rewrite length_insert.
Qed.

(** A sound that was read is full, and may be written back with another position. *)
Lemma fills_get {A} j k (m : STATE_SND -> M world A) :
  (forall s, full_snd s -> steps fills (m s)) -> steps fills (get_state_snd j k ≫= m).
Proof.
  intros Hm w a w' H Hw. apply bind_inv in H as (s & v & Hs & H).
  destruct (full_get_snd _ _ _ _ _ Hs Hw) as [-> F]. exact (Hm s F _ _ _ H Hw).
Qed.

Lemma fills_put j k s : full_snd s -> steps fills (put_state_snd j k s).
Proof. intros Hs w u w' H. by eapply full_put_snd. Qed.
End Fills.

(** [go_fills]: go through the steps of a computation, remembering the sounds of
    the states that it reads. *)
Ltac go_fills :=
  repeat match goal with
    | |- steps fills (get_state_snd _ _ ≫= _) => apply fills_get; intros ? ?
    | |- steps fills (put_state_snd _ _ _) => apply fills_put; assumption
    | |- steps fills (mbind _ _) => apply steps_bind; [|intros ?]
    | |- steps fills (match ?x with _ => _ end) => destruct x
    | |- steps fills (let _ := _ in _) => cbv zeta
    | |- steps fills _ => apply steps_fills; solve [go_steps]
    end; eauto with steps.

Section Rounds.
Context {E : Env}.

Lemma fills_fade data ps j : steps fills (mixerFadeEffect data ps j).
Proof. unfold mixerFadeEffect, fade_between. go_fills. Qed.
Hint Resolve fills_fade : steps.

Lemma fills_filter fuel i max flag effect r :
  (forall i x, steps fills (effect i x)) -> steps fills (filter_loop fuel i max flag effect r).
Proof.
  intros He. revert i r. induction fuel as [|fuel IH]; intros i r; cbn [filter_loop]; go_fills.
Qed.

Lemma fills_state_filters data ps j : steps fills (mixerApplyStateFilters data ps j).
Proof. unfold mixerApplyStateFilters. go_fills. apply fills_filter. intros. go_fills. Qed.
Hint Resolve fills_state_filters : steps.

Lemma fills_mix_state i j : steps fills (mix_state i j).
Proof. unfold mix_state, mix_state_snd. go_fills. Qed.
End Rounds.

(** ** What the end relies on *)

Definition live_output (w : world) : Prop := exists o, output w = PLive o.

(** Every entry of the sound table owns as many sounds as it says. *)
Definition owning_table (w : world) : Prop :=
  exists tbl, sound_table w = PLive tbl /\ Forall typed (List.concat tbl).

Record releasable (w : world) : Prop := {
  rl_states : full_states w;
  rl_table : owning_table w;
  rl_output : live_output w
}.

Lemma usable_typed w en : usable w en -> typed en.
Proof.
  unfold usable, typed. destruct (data en), (stype en); try done. by intros (_ & H2 & H3 & _).
Qed.

Lemma heard_owning w w' : heard w w' -> owning_table w -> owning_table w'.
Proof. intros H. unfold owning_table. by rewrite (he_table _ _ H). Qed.

Lemma heard_output w w' : heard w w' -> live_output w -> live_output w'.
Proof. intros H [o Ho]. destruct (he_output _ _ H o Ho) as (o' & Ho' & _). by exists o'. Qed.

Section Rounds.
Context {E : Env} {L : EnvLaws E}.

Lemma fills_io_state e : steps fills (io_state e).
Proof.
  unfold io_state, mixerGetFadeTime, mixerSetFadeTime.
  repeat match goal with
    | |- steps fills (mixerSetStateSnd _ _ _ _) => apply fills_state_snd
    | |- steps fills (mbind _ _) => apply steps_bind; [|intros ?]
    | |- steps fills (match ?x with _ => _ end) => destruct x
    | |- steps fills (let _ := _ in _) => cbv zeta
    | |- steps fills _ => apply steps_fills; solve [go_steps]
    end.
Qed.
Hint Resolve fills_io_state : steps.

(** A round of the engine thread. *)
Lemma engine_releasable w l e o w' :
  threads_ok w l -> engineLoop_body e w = Ok (o, w') -> releasable w -> releasable w'.
Proof.
  intros Hok H [R1 R2 R3]. destruct (engine_step_inv _ _ _ _ _ Hok H) as (l' & _ & Hh & _).
  split; [|by eapply heard_owning|by eapply heard_output].
  destruct Hok as [(bs & ss & ds & Hok) _]. unfold engineLoop_body in H.
  apply bind_inv in H as (t & v & [= <- <-] & H). apply bind_inv in H as (r & v & Hr & H).
  unfold lift in Hr. destruct (engineSoundTableRetrieve _ _ _); [|done..]. injection Hr as <- <-.
  destruct a as [en|]; [|by injection H as _ <-]. destruct (_ =? _); [|by injection H as _ <-].
  apply bind_inv in H as (b & v & H & [= _ <-]).
  destruct (engineIO_taped w bs ss ds l e Hok) as (p & t & c & _ & E1). rewrite E1 in H.
  assert (steps fills (if type e =? event_type_val EVENT_T then io_event e
    else if type e =? event_type_val STATE_T then io_state e ;; mret true else mret true)) as Hf.
  { destruct (_ =? _); [apply steps_fills; go_steps|]. destruct (_ =? _); [|apply steps_ret].
    apply steps_bind; [apply fills_io_state|intros ?; apply steps_ret]. }
  exact (Hf _ _ _ H R1).
Qed.

(** A round of the mixer thread. *)
Lemma mixer_releasable w l w' :
  threads_ok w l -> mixer w = Ok (tt, w') -> releasable w -> releasable w'.
Proof.
  intros Hok H [R1 R2 R3]. destruct (mixer_ok _ _ _ Hok H) as (_ & Ht & _).
  unfold mixer in H. apply bind_inv in H as (n & ? & [= <- <-] & H).
  apply bind_inv in H as ([] & v & Hc & H). apply bind_inv in H as ([] & v1 & Hm & Hp).
  apply play_output_inv in Hp as (o & Ho & ->). split.
  - assert (stateless w v) as S1.
    { unfold clear_output in Hc. apply bind_ok in Hc as (o1 & _ & Hc). case_decide; [|done]. by injection Hc as <-. }
    assert (steps fills (mix_frames (Z.to_nat ((chunk_size w + 1) / STEREO)) 0)) as Hf.
    { generalize (Z.to_nat ((chunk_size w + 1) / STEREO)) as k, 0 as i. intros k.
      induction k as [|k IH]; intros i; cbn [mix_frames]; [apply steps_ret|].
      apply steps_bind; [|intros ?; apply IH]. unfold mix_frame.
      apply steps_bind; [go_steps|intros n1]. apply steps_bind; [|intros ?].
      { apply steps_channels; [apply _|]. intros j. apply steps_fills. go_steps. }
      apply steps_bind; [go_steps|intros n2]. apply steps_channels; [apply _|]. intros j. apply fills_mix_state. }
    exact (Hf _ _ _ Hm (stateless_fills _ _ S1 R1)).
  - destruct R2 as (tbl & Htb & Hty). exists tbl. by rewrite Ht.
  - by exists o.
Qed.
End Rounds.

(** ** The end of the engine and of the mixer *)

Section Ends.
Context {E : Env} {L : EnvLaws E}.

(** The events that wait are taken out one after the other. *)
Lemma drain_queued n : forall q l,
  MixerQueue.queued q l -> (length l < n)%nat -> exists q', MixerQueue.drain n q = Ok q' /\ MixerQueue.queued q' [].
Proof.
  induction n as [|n IH]; intros q l Hq Hn; [lia|]. cbn [MixerQueue.drain].
  rewrite (MixerQueue.queued_Empty _ _ Hq). destruct l as [|e l].
  - rewrite bool_decide_true by done. by exists q.
  - rewrite bool_decide_false by done.
    destruct (MixerQueue.mixerDequeue_spec q e l Hq) as (q1 & l' & H1 & Hq1 & P & _).
    rewrite H1. cbn [mbind res_bind]. apply (IH q1 l' Hq1). rewrite P. cbn in Hn. lia.
Qed.

Lemma mixerQueueDestroy_frees q l :
  MixerQueue.queued q l -> exists q', MixerQueue.mixerQueueDestroy q = Ok q' /\ MixerQueue.heap q' = PFreed.
Proof.
  intros Hq. unfold MixerQueue.mixerQueueDestroy. pose proof Hq as ((h & Hh & _) & Ht & _). rewrite Hh.
  destruct (drain_queued (S (Z.to_nat (MixerQueue.top q))) q l Hq) as (q' & -> & ((h' & Hh' & _) & _)); [lia|].
  cbn [mbind res_bind]. rewrite Hh'. cbn. by eexists.
Qed.

(** [engineShutdown] frees the scheduler, every sound of the table and the
    queue of events that wait. *)
Lemma engineShutdown_frees w l tbl :
  threads_ok w l -> sound_table w = PLive tbl -> Forall typed (List.concat tbl) ->
  exists q, engineShutdown w = Ok (List.concat (owned <$> List.concat tbl),
    set_mqueue q (set_sound_table PNull (set_sched PFreed w))) /\ MixerQueue.heap q = PFreed.
Proof.
  intros [(bs & ss & ds & H) _] Ht Hty. destruct (mixerQueueDestroy_frees _ _ (eng_queue _ _ _ _ _ H)) as (q & Hq & Hh).
  exists q. split; [|done]. unfold engineShutdown, free_var, destroy_table, destroy_mqueue.
  unfold mbind, M_bind. cbn. rewrite (ok_sched _ _ _ _ (eng_chan _ _ _ _ _ H)). cbn.
  rewrite Ht. unfold engineSoundTableDestroy. cbn. rewrite destroy_chain_owned by done. cbn. by rewrite Hq.
Qed.

(** The sounds of a state. *)
Definition state_sounds (b : STATE_BUF) : list samples :=
  match thresh b with
  | None => []
  | Some ts => List.concat ((fun t => match s_snd_buf (state_snd t) with
                                      | None => []
                                      | Some bufs => take (Z.to_nat (s_snd_cnt (state_snd t))) bufs
                                      end) <$> take (Z.to_nat (thresh_cnt b)) ts)
  end.

Lemma rd_drop_cons {A} (l : list A) k x xs : 0 <= k -> drop (Z.to_nat k) l = x :: xs ->
  rd l k = Ok x /\ drop (Z.to_nat (k + 1)) l = xs.
Proof.
  intros Hk Hd. assert (l !! Z.to_nat k = Some x) as Hx.
  { rewrite <- (Nat.add_0_r (Z.to_nat k)), <- lookup_drop, Hd. done. }
  split; [apply rd_Ok; done|]. replace (Z.to_nat (k + 1)) with (Z.to_nat k + 1)%nat by lia.
  rewrite <- drop_drop, Hd. done.
Qed.

Lemma free_segments_full n : forall k s bufs,
  s_snd_buf s = Some bufs -> 0 <= k -> (Z.to_nat k + n <= length bufs)%nat ->
  free_segments n k s = Ok (take n (drop (Z.to_nat k) bufs)).
Proof.
  induction n as [|n IH]; intros k s bufs Hb Hk Hn; cbn [free_segments]; [done|]. rewrite Hb. cbn [some_ptr mbind res_bind].
  destruct (drop (Z.to_nat k) bufs) as [|x xs] eqn:Hd.
  { apply (f_equal length) in Hd. rewrite length_drop in Hd. cbn in Hd. lia. }
  destruct (rd_drop_cons _ _ _ _ Hk Hd) as [-> Hd']. cbn [mbind res_bind].
  rewrite (IH _ _ bufs) by (done || lia). by rewrite Hd'.
Qed.

Lemma free_thresholds_full n : forall j b ts,
  thresh b = Some ts -> Forall (fun t => full_snd (state_snd t)) ts -> 0 <= j -> (Z.to_nat j + n <= length ts)%nat ->
  free_thresholds n j b = Ok (List.concat ((fun t => match s_snd_buf (state_snd t) with
                                      | None => []
                                      | Some bufs => take (Z.to_nat (s_snd_cnt (state_snd t))) bufs
                                      end) <$> take n (drop (Z.to_nat j) ts))).
Proof.
  induction n as [|n IH]; intros j b ts Hb Hf Hj Hn; cbn [free_thresholds]; [done|]. rewrite Hb. cbn [some_ptr mbind res_bind].
  destruct (drop (Z.to_nat j) ts) as [|t r] eqn:Hd.
  { apply (f_equal length) in Hd. rewrite length_drop in Hd. cbn in Hd. lia. }
  destruct (rd_drop_cons _ _ _ _ Hj Hd) as [Hr Hd']. pose proof Hr as [_ Hx]%rd_Ok.
  rewrite Hr. cbn [mbind res_bind]. pose proof (Forall_lookup_1 _ _ _ _ Hf Hx) as Hs.
  assert (free_segments (Z.to_nat (s_snd_cnt (state_snd t))) 0 (state_snd t) =
    Ok (match s_snd_buf (state_snd t) with
        | None => [] | Some bufs => take (Z.to_nat (s_snd_cnt (state_snd t))) bufs end)) as ->.
  { destruct Hs as [Hs|(bufs & Hbf & Hl)].
    - replace (Z.to_nat (s_snd_cnt (state_snd t))) with 0%nat by lia. by destruct (s_snd_buf _).
    - rewrite Hbf. by rewrite (free_segments_full _ _ _ bufs) by (done || lia). }
  cbn [mbind res_bind]. rewrite (IH _ _ ts) by (done || lia). cbn [mbind res_bind mret res_ret]. by rewrite Hd'.
Qed.

Lemma free_state_full b : full_state b -> free_thresholds (Z.to_nat (thresh_cnt b)) 0 b = Ok (state_sounds b).
Proof.
  intros [F1 F2]. unfold state_sounds. destruct F2 as [F2|(ts & Ht & Hl)].
  - replace (Z.to_nat (thresh_cnt b)) with 0%nat by lia. by destruct (thresh b).
  - rewrite Ht. rewrite (free_thresholds_full _ _ _ ts) by (done || lia || by apply F1). done.
Qed.

Lemma free_states_full n : forall i w sb,
  sbuffs w = PLive sb -> Forall full_state sb -> 0 <= i -> (Z.to_nat i + n <= length sb)%nat ->
  free_states n i w = Ok (List.concat (state_sounds <$> take n (drop (Z.to_nat i) sb)), w).
Proof.
  induction n as [|n IH]; intros i w sb Hs Hf Hi Hn; cbn [free_states]; [done|].
  destruct (drop (Z.to_nat i) sb) as [|b r] eqn:Hd.
  { apply (f_equal length) in Hd. rewrite length_drop in Hd. cbn in Hd. lia. }
  destruct (rd_drop_cons _ _ _ _ Hi Hd) as [Hr Hd']. pose proof Hr as [_ Hx]%rd_Ok.
  unfold mbind, M_bind, sbuff, rd_at. rewrite Hs. cbn [deref mbind res_bind]. rewrite Hr. cbn [mbind res_bind mret res_ret].
  rewrite (free_state_full b) by (by eapply (Forall_lookup_1 full_state)). cbn [lift].
  rewrite (IH _ w sb) by (done || lia). by rewrite Hd'.
Qed.

Lemma free_var_live {A} (get : world -> ptr A) set w x : get w = PLive x -> free_var get set w = Ok (tt, set PFreed w).
Proof. intros H. unfold free_var. by rewrite H. Qed.

(** [mixerShutdown] frees the arrays and every sound of the states. *)
Lemma mixerShutdown_frees w bs ds o sb fr :
  mlock w = false -> ebuffs w = PLive bs -> dyn_mul w = PLive ds -> output w = PLive o -> lin_fade w = PLive fr ->
  sbuffs w = PLive sb -> no_sbuffs w <= Z.of_nat (length sb) -> Forall full_state sb ->
  mixerShutdown w = Ok (List.concat (state_sounds <$> take (Z.to_nat (no_sbuffs w)) sb),
    set_mlock false (set_lin_fade PFreed (set_output PFreed (set_dyn_mul PFreed (set_sbuffs PFreed
      (set_ebuffs PFreed (set_mlock true w))))))).
Proof.
  intros Hl He Hd Ho Hf Hs Hn Hfull. unfold mixerShutdown, mixerFadeEffectShutdown.
  erewrite bind_Ok by (unfold lock_mixer; rewrite Hl; reflexivity).
  erewrite bind_Ok by (apply (free_var_live _ _ _ bs), He).
  erewrite bind_Ok by reflexivity.
  erewrite bind_Ok by (apply (free_states_full _ _ _ sb); [exact Hs|exact Hfull|lia|cbn; lia]).
  erewrite bind_Ok by (apply (free_var_live _ _ _ sb), Hs).
  erewrite bind_Ok by (apply (free_var_live _ _ _ ds), Hd).
  erewrite bind_Ok by (apply (free_var_live _ _ _ o), Ho).
  erewrite bind_Ok by (apply (free_var_live _ _ _ fr), Hf). reflexivity.
Qed.
End Ends.
