(* ===== verification/Render.v ===== *)
(** * What a chunk of sound is (the reference of [mixer])

    A definition of the chunk that the mixer hands to the sound card, by what
    the channels and the states play rather than by the steps of the mixer:
    sample by sample the sum of their own two samples, reduced to 16 bits at the
    end. The mixer, which adds channel by channel and state by state into a
    buffer of 16-bit numbers and moves every one of them on, computes it. *)

From stdpp Require Import base list sets strings.
From Stdlib Require Import ZArith Lia.
From S2P Require Import Prelude Events CString Dbl SoundTable MixerQueue World Playback Mixer Engine MixerFacts Steps Release.
Import SoundTable.
Local Open Scope Z_scope.

(** ** The reference *)

(** *** Channels *)

(** Whether the sound of a channel has ended [k] frames from now. *)
Definition ends (k : nat) (b : EVENT_BUF) : bool :=
  match snd_buf b with None => false | Some _ => len b <=? pos b + 2 * Z.of_nat k end.

(** The left and the right sample of a channel, [k] frames from now: none behind
    the end of its sound. *)
Definition channel_frame (k : nat) (b : EVENT_BUF) (mul : dbl) : res (Z * Z) :=
  match snd_buf b with
  | None => mret (0, 0)
  | Some buf =>
      if ends k b then mret (0, 0)
      else
        l ← rd buf (pos b + 2 * Z.of_nat k);
        r ← rd buf (pos b + 2 * Z.of_nat k + 1);
        el ← left_sample b mul l;
        er ← right_sample b mul r;
        mret (el, er)
  end.

(** The sums over the channels, as integers without bounds. *)
Fixpoint frame_sum (k : nat) (bs : list EVENT_BUF) (ds : list dbl) : res (Z * Z) :=
  match bs, ds with
  | b :: bs, d :: ds =>
      '(l, r) ← channel_frame k b d;
      '(ls, rs) ← frame_sum k bs ds;
      mret (l + ls, r + rs)
  | _, _ => mret (0, 0)
  end.

(** A channel after [k] frames, its times and its volume. *)
Definition moved (k : nat) (b : EVENT_BUF) : EVENT_BUF :=
  match snd_buf b with
  | None => b
  | Some _ =>
      if ends k b then stopped b
      else {| snd_buf := snd_buf b; len := len b; pos := pos b + 2 * Z.of_nat k;
              stereo_pos := stereo_pos b; filter_flag := filter_flag b |}
  end.
Definition sched_after (k : nat) (b : EVENT_BUF) (s : engine_sched) : engine_sched :=
  if ends k b then sched_zero else s.
Definition vol_after (k : nat) (b : EVENT_BUF) (d : dbl) : dbl := if ends k b then d_zero else d.

(** A channel is free, or plays for more than [n] frames, or its sound, of even
    length, may end while nothing waits for the channel. *)
Definition sound_for (n : nat) (q : list ENGINE_EVENT) (b : EVENT_BUF) : Prop :=
  match snd_buf b with
  | None => True
  | Some buf => playing b buf /\ (pos b + 2 * Z.of_nat n < len b \/ (q = [] /\ Z.even (len b) = true))
  end.

(** *** States *)

(** The index of the threshold whose sound a state plays: the last one that its
    volume is within, or the first one. *)
Definition heard_index (b : STATE_BUF) (ts : list THRESHOLD) : nat :=
  Z.to_nat (default 0 (last_match (st_vol b) ts 0)).

(** The sound that a state plays, if it is heard. *)
Definition state_plays (b : STATE_BUF) : option (STATE_SND * list Z) :=
  if d_eqb (st_vol b) d_zero then None
  else
    ts ← thresh b;
    t ← ts !! heard_index b ts;
    bufs ← s_snd_buf (state_snd t);
    s ← bufs !! Z.to_nat (s_snd_no (state_snd t));
    buf ← s;
    mret (state_snd t, buf).

Definition state_left (b : STATE_BUF) (l : Z) : res Z :=
  d_short (d_mul (d_mul (d_mul (st_vol b) (st_stereo_pos b)) STATE_MULT) (d_of_Z l)).
Definition state_right (b : STATE_BUF) (r : Z) : res Z :=
  d_short (d_mul (d_mul (d_mul (st_vol b) (d_sub d1 (st_stereo_pos b))) STATE_MULT) (d_of_Z r)).

Definition state_frame (k : nat) (b : STATE_BUF) : res (Z * Z) :=
  match state_plays b with
  | None => mret (0, 0)
  | Some (s, buf) =>
      l ← rd buf (s_pos s + 2 * Z.of_nat k);
      r ← rd buf (s_pos s + 2 * Z.of_nat k + 1);
      el ← state_left b l;
      er ← state_right b r;
      mret (el, er)
  end.

Fixpoint state_sum (k : nat) (sb : list STATE_BUF) : res (Z * Z) :=
  match sb with
  | [] => mret (0, 0)
  | b :: sb =>
      '(l, r) ← state_frame k b;
      '(ls, rs) ← state_sum k sb;
      mret (l + ls, r + rs)
  end.

Definition snd_moved (k : nat) (s : STATE_SND) : STATE_SND :=
  {| s_snd_buf := s_snd_buf s; s_len := s_len s; s_snd_cnt := s_snd_cnt s; s_snd_no := s_snd_no s;
     s_pos := s_pos s + 2 * Z.of_nat k |}.
Definition thresh_moved (k : nat) (t : THRESHOLD) : THRESHOLD := with_state_snd t (snd_moved k (state_snd t)).

(** A state after [k] frames. *)
Definition state_moved (k : nat) (b : STATE_BUF) : STATE_BUF :=
  match state_plays b, thresh b with
  | Some _, Some ts => with_thresh b (alter (thresh_moved k) (heard_index b ts) ts)
  | _, _ => b
  end.

(** The sound of a state that is heard plays for more than [n] frames, and does
    not fade. *)
Definition steady (n : nat) (b : STATE_BUF) : Prop :=
  match thresh b with
  | None => True
  | Some ts =>
      thresh_cnt b = Z.of_nat (length ts) /\
      forall t bufs, ts !! heard_index b ts = Some t -> s_snd_buf (state_snd t) = Some bufs ->
        0 <= s_snd_no (state_snd t) < Z.of_nat (length bufs)
  end /\
  match state_plays b with
  | None => True
  | Some (s, _) =>
      st_filter_flag b = 0 /\ 0 <= s_pos s /\
      exists lens ln, s_len s = Some lens /\ lens !! Z.to_nat (s_snd_no s) = Some ln /\
        s_pos s + 2 * Z.of_nat n < ln < 2 ^ 32
  end.

(** *** The chunk *)

(** [n] frames from frame [k] on. *)
Fixpoint render (n k : nat) (bs : list EVENT_BUF) (ds : list dbl) (sb : list STATE_BUF) : res (list Z) :=
  match n with
  | O => mret []
  | S n =>
      '(l, r) ← frame_sum k bs ds;
      '(ls, rs) ← state_sum k sb;
      rest ← render n (S k) bs ds sb;
      mret (i16 (l + ls) :: i16 (r + rs) :: rest)
  end.

(** ** Facts *)

Lemma i16_add x y : i16 (i16 x + y) = i16 (x + y).
Proof.
  unfold i16, swrap. f_equal.
  replace ((x + 2 ^ (16 - 1)) mod 2 ^ 16 - 2 ^ (16 - 1) + y + 2 ^ (16 - 1))
    with ((x + 2 ^ (16 - 1)) mod 2 ^ 16 + y) by lia.
  rewrite Zplus_mod_idemp_l. f_equal. lia.
Qed.

Lemma mixed_middle p x y s i l r :
  Z.of_nat (length p) = i -> mixed (p ++ x :: y :: s) i l r = p ++ i16 (x + l) :: i16 (y + r) :: s.
Proof.
  intros <-. unfold mixed. replace (Z.to_nat (Z.of_nat (length p) + 1)) with (length p + 1)%nat by lia.
  rewrite Nat2Z.id, !list_lookup_middle by done. simpl default.
  rewrite (insert_app_r_alt _ _ (length p)) by lia. rewrite Nat.sub_diag. cbn [insert list_insert].
  rewrite lookup_app_r by lia. replace (length p + 1 - length p)%nat with 1%nat by lia. cbn [lookup list_lookup].
  simpl default. rewrite insert_app_r_alt by lia.
  by replace (length p + 1 - length p)%nat with 1%nat by lia.
Qed.

(** [insert] at the place behind a prefix. *)
Lemma insert_middle {A} (p : list A) x y s : <[length p := y]> (p ++ x :: s) = p ++ y :: s.
Proof. rewrite insert_app_r_alt by lia. by rewrite Nat.sub_diag. Qed.

(** *** Time passing *)

Lemma ends_moved k n b : ends n (moved k b) = ends (k + n) b && negb (ends k b).
Proof.
  unfold ends, moved, ends. destruct b as [[x|] l p s f]; cbn; [|done].
  destruct (Z.leb_spec l (p + 2 * Z.of_nat k)); cbn; [by rewrite andb_false_r|].
  rewrite andb_true_r. f_equal. lia.
Qed.

Lemma ends_later k n b : ends k b = true -> ends (k + n) b = true.
Proof. unfold ends. destruct (snd_buf b); [|done]. rewrite !Z.leb_le. lia. Qed.

Lemma moved_0 q n b : sound_for n q b -> ends 0 b = false /\ moved 0 b = b.
Proof.
  unfold sound_for, moved, ends. destruct b as [[x|] l p s f]; cbn; [|done].
  intros [(_ & _ & _ & _ & _ & Hp) _]. cbn in Hp. change (Z.of_nat 0) with 0. rewrite Z.mul_0_r, Z.add_0_r.
  by destruct (Z.leb_spec l p); [lia|].
Qed.

Lemma moved_moved k b : moved 1 (moved k b) = moved (S k) b.
Proof.
  unfold moved, ends. destruct b as [[x|] l p s f]; cbn [snd_buf len pos]; [|done].
  destruct (Z.leb_spec l (p + 2 * Z.of_nat k)); cbn [snd_buf stopped len pos].
  - destruct (Z.leb_spec l (p + 2 * Z.of_nat (S k))); [done|lia].
  - replace (p + 2 * Z.of_nat k + 2 * Z.of_nat 1) with (p + 2 * Z.of_nat (S k)) by lia.
    by destruct (l <=? _).
Qed.

Lemma sched_moved k b s : sched_after 1 (moved k b) (sched_after k b s) = sched_after (S k) b s.
Proof.
  unfold sched_after. rewrite ends_moved, Nat.add_1_r. destruct (ends k b) eqn:Hk.
  - pose proof (ends_later k 1 b Hk) as H1. rewrite Nat.add_1_r in H1. by rewrite H1.
  - by rewrite andb_true_r.
Qed.

Lemma vol_moved k b d : vol_after 1 (moved k b) (vol_after k b d) = vol_after (S k) b d.
Proof.
  unfold vol_after. rewrite ends_moved, Nat.add_1_r. destruct (ends k b) eqn:Hk.
  - pose proof (ends_later k 1 b Hk) as H1. rewrite Nat.add_1_r in H1. by rewrite H1.
  - by rewrite andb_true_r.
Qed.

Lemma channel_frame_moved k b d : channel_frame 0 (moved k b) (vol_after k b d) = channel_frame k b d.
Proof.
  unfold channel_frame, vol_after, moved, ends. destruct b as [[x|] l p s f]; cbn [snd_buf len pos]; [|done].
  destruct (Z.leb_spec l (p + 2 * Z.of_nat k)); cbn [snd_buf stopped len pos]; [done|].
  change (Z.of_nat 0) with 0. rewrite Z.mul_0_r, !Z.add_0_r.
  by destruct (Z.leb_spec l (p + 2 * Z.of_nat k)); [lia|].
Qed.

Lemma frame_sum_moved k bs ds :
  frame_sum 0 (moved k <$> bs) (zip_with (vol_after k) bs ds) = frame_sum k bs ds.
Proof.
  revert ds. induction bs as [|b bs IH]; intros [|d ds]; cbn [frame_sum fmap list_fmap zip_with]; try done.
  by rewrite channel_frame_moved, IH.
Qed.

Lemma sound_for_moved k n q b : sound_for (k + n) q b -> sound_for n q (moved k b).
Proof.
  unfold sound_for, moved, ends. destruct b as [[x|] l p s f]; cbn [snd_buf len pos]; [|done].
  destruct (Z.leb_spec l (p + 2 * Z.of_nat k)); cbn [snd_buf stopped len pos]; [done|].
  intros [(Hx & Hl & Hm & Hp & Hev & Hlt) Hn]. cbn in *. split.
  - split_and!; cbn; try done; try lia. by rewrite Z.even_add, Z.even_mul, Hev.
  - destruct Hn as [Hn|Hn]; [left; lia|by right].
Qed.

Lemma sound_for_le m n q b : (m <= n)%nat -> sound_for n q b -> sound_for m q b.
Proof.
  intros Hm. unfold sound_for. destruct (snd_buf b); [|done]. intros [H1 [H2|H2]]; split; try done; [left; lia|by right].
Qed.

(** *** States in time *)

Lemma last_match_alter vol k i : forall ts j, last_match vol (alter (thresh_moved k) i ts) j = last_match vol ts j.
Proof.
  induction i as [|i IH]; intros [|t ts] j; cbn; [done..|]. by rewrite IH.
Qed.

Lemma heard_index_moved k i b ts ts' :
  heard_index (with_thresh b ts') (alter (thresh_moved k) i ts) = heard_index b ts.
Proof. unfold heard_index. cbn [st_vol with_thresh]. by rewrite last_match_alter. Qed.

(** What of a state does not depend on the positions of its sounds. *)
Lemma moved_plays k b :
  state_plays (state_moved k b) = (fun p => (snd_moved k p.1, p.2)) <$> state_plays b.
Proof.
  unfold state_moved. destruct (state_plays b) as [[s buf]|] eqn:E; [|by rewrite E].
  destruct (thresh b) as [ts|] eqn:Et.
  2:{ unfold state_plays in E. destruct (d_eqb _ _); [done|]. by rewrite Et in E. }
  unfold state_plays in *. cbn [st_vol with_thresh thresh]. destruct (d_eqb (st_vol b) d_zero); [done|].
  rewrite Et in E. cbn in E |- *.
  rewrite heard_index_moved.
  rewrite list_lookup_alter_eq. destruct (ts !! heard_index b ts) as [t|]; [|done]. cbn in *.
  destruct (s_snd_buf (state_snd t)) as [bufs|]; [|done]. cbn in *.
  destruct (bufs !! Z.to_nat (s_snd_no (state_snd t))) as [[x|]|]; [|done..]. cbn in *.
  by injection E as <- <-.
Qed.

Lemma state_moved_0 b : state_moved 0 b = b.
Proof.
  unfold state_moved. destruct (state_plays b); [|done]. destruct (thresh b) as [ts|] eqn:E; [|done].
  destruct b as [th c sp v f]. cbn in *. subst. unfold with_thresh. cbn. do 2 f_equal.
  apply list_alter_id. intros t. destruct t as [lo hi [sb sl sc sn sp']]. unfold thresh_moved, snd_moved, with_state_snd.
  cbn. by rewrite Z.add_0_r.
Qed.

Lemma state_moved_moved k b : state_moved 1 (state_moved k b) = state_moved (S k) b.
Proof.
  unfold state_moved at 1. rewrite moved_plays. unfold state_moved.
  destruct (state_plays b) as [p|] eqn:E; [|by cbn; destruct (thresh b)].
  destruct (thresh b) as [ts|] eqn:Et; cbn [fmap option_fmap option_map]; [|by rewrite Et].
  cbn [thresh with_thresh].
  rewrite heard_index_moved.
  unfold with_thresh. cbn. do 2 f_equal. rewrite list_alter_alter_eq. apply list_alter_ext; [|done].
  intros t _. unfold compose, thresh_moved, snd_moved, with_state_snd. cbn. do 2 f_equal. lia.
Qed.

Lemma moved_sound k b : st_vol (state_moved k b) = st_vol b /\ st_stereo_pos (state_moved k b) = st_stereo_pos b /\
  st_filter_flag (state_moved k b) = st_filter_flag b /\ thresh_cnt (state_moved k b) = thresh_cnt b.
Proof. unfold state_moved. by destruct (state_plays b), (thresh b). Qed.

Lemma state_frame_moved k b : state_frame 0 (state_moved k b) = state_frame k b.
Proof.
  unfold state_frame. rewrite moved_plays. destruct (state_plays b) as [[s buf]|]; cbn [fmap option_fmap option_map fst snd]; [|done].
  unfold state_left, state_right. destruct (moved_sound k b) as (-> & -> & _). cbn [snd_moved s_pos].
  change (Z.of_nat 0) with 0. by rewrite Z.mul_0_r, Z.add_0_r.
Qed.

Lemma state_sum_moved k sb : state_sum 0 (state_moved k <$> sb) = state_sum k sb.
Proof.
  induction sb as [|b sb IH]; cbn [state_sum fmap list_fmap]; [done|]. by rewrite state_frame_moved, IH.
Qed.

Lemma steady_moved k n b : steady (k + n) b -> steady n (state_moved k b).
Proof.
  unfold steady. rewrite moved_plays. destruct (moved_sound k b) as (_ & _ & -> & ->). intros [H1 H2]. split.
  - unfold state_moved. destruct (state_plays b); [|done]. destruct (thresh b) as [ts|] eqn:Et; [|by rewrite Et].
    cbn [thresh with_thresh]. destruct H1 as [-> H1]. rewrite length_alter. split; [done|].
    rewrite heard_index_moved.
    rewrite list_lookup_alter_eq. intros t bufs Ht. destruct (ts !! heard_index b ts) as [t0|]; [|done].
    injection Ht as <-. cbn. intros Hb. by apply (H1 t0).
  - destruct (state_plays b) as [[s buf]|]; cbn [fmap option_fmap option_map fst snd]; [|done].
    destruct H2 as (Hf & Hp & lens & ln & Hl & Hln & Hlt). cbn. split; [done|]. split; [lia|].
    exists lens, ln. split; [done|]. split; [done|]. lia.
Qed.

Lemma steady_le m n b : (m <= n)%nat -> steady n b -> steady m b.
Proof.
  intros Hm [H1 H2]. split; [done|]. destruct (state_plays b) as [[s buf]|]; [|done].
  destruct H2 as (Hf & Hp & lens & ln & Hl & Hln & Hlt). split; [done|]. split; [done|]. exists lens, ln. split_and!; try done; lia.
Qed.

(** Before the first frame. *)
Lemma nothing_moved n bs ss ds (sb : list STATE_BUF) q :
  Forall (sound_for n q) bs -> length ss = length bs -> length ds = length bs ->
  moved 0 <$> bs = bs /\ zip_with (sched_after 0) bs ss = ss /\ zip_with (vol_after 0) bs ds = ds /\
  state_moved 0 <$> sb = sb.
Proof.
  intros Hf. assert (state_moved 0 <$> sb = sb) as ->.
  { rewrite <- (list_fmap_id sb) at 2. apply list_fmap_ext. intros i b _. apply state_moved_0. }
  revert ss ds. induction Hf as [|b bs Hb _ IH]; intros ss ds Hs Hd; destruct ss as [|s ss], ds as [|d ds]; try done.
  destruct (moved_0 _ _ _ Hb) as [He Hm]. cbn in Hs, Hd. injection Hs as Hs. injection Hd as Hd.
  destruct (IH ss ds Hs Hd) as (E1 & E2 & E3 & _). cbn [fmap list_fmap zip_with]. unfold sched_after at 1, vol_after at 1.
  rewrite Hm, He. split_and!; try done; by f_equal.
Qed.

(** ** The steps of the mixer *)

Section Mixing.
Context {E : Env}.

(** The state of the mixer between two steps of a chunk. *)
Record mixing (w : world) bs ss ds q (sb : list STATE_BUF) (o : list Z) : Prop := {
  mx_engine : engine_ok w bs ss ds q;
  mx_output : output w = PLive o;
  mx_states : sbuffs w = PLive sb
}.

(** One channel at the two places behind [p] in the output. *)
Lemma channel_step w pre b bs spre s ss dpre d ds q sb p x y rest l r :
  mixing w (pre ++ b :: bs) (spre ++ s :: ss) (dpre ++ d :: ds) q sb (p ++ i16 x :: i16 y :: rest) ->
  length spre = length pre -> length dpre = length pre ->
  sound_for 1 q b -> channel_frame 0 b d = Ok (l, r) ->
  exists w', mix_event (Z.of_nat (length p)) (Z.of_nat (length pre)) w = Ok (tt, w') /\
    mixing w' (pre ++ moved 1 b :: bs) (spre ++ sched_after 1 b s :: ss) (dpre ++ vol_after 1 b d :: ds) q sb
      (p ++ i16 (x + l) :: i16 (y + r) :: rest).
Proof.
  intros [Hok Ho Hsb] Hls Hld Hs Hf. pose proof (eng_chan _ _ _ _ _ Hok) as Hch.
  assert (Hb : (pre ++ b :: bs) !! Z.to_nat (Z.of_nat (length pre)) = Some b)
    by (rewrite Nat2Z.id; by apply list_lookup_middle).
  assert (Hd : (dpre ++ d :: ds) !! Z.to_nat (Z.of_nat (length pre)) = Some d)
    by (rewrite Nat2Z.id, <- Hld; by apply list_lookup_middle).
  pose proof (moved_0 _ _ _ Hs) as [He0 _]. unfold channel_frame in Hf. unfold sound_for in Hs.
  assert (Hkeep : forall w', mix_event (Z.of_nat (length p)) (Z.of_nat (length pre)) w = Ok (tt, w') -> sbuffs w' = PLive sb).
  { intros w' Hw. by rewrite (proj1 (stateless_mix_event _ _ _ _ _ Hw)). }
  destruct (snd_buf b) as [buf|] eqn:Eb.
  - destruct Hs as [Hpl Hn]. rewrite He0 in Hf. change (Z.of_nat 0) with 0 in Hf. rewrite Z.mul_0_r, !Z.add_0_r in Hf.
    apply bind_ok in Hf as (lv & H1 & Hf). apply bind_ok in Hf as (rv & H2 & Hf).
    apply bind_ok in Hf as (el & H3 & Hf). apply bind_ok in Hf as (er & H4 & [= -> ->]).
    apply rd_Ok in H1 as [_ H1]. apply rd_Ok in H2 as [_ H2].
    assert (Hlen : Z.of_nat (length p) + 1 < Z.of_nat (length (p ++ i16 x :: i16 y :: rest)))
      by (rewrite length_app; cbn [length]; lia).
    destruct (decide (pos b + 2 < len b)) as [Hlt|Hge].
    + destruct (mix_event_goes_on w _ _ _ q _ (Z.of_nat (length p)) (Z.of_nat (length pre)) b buf d lv rv l r Hok Ho
        ltac:(lia) Hlen ltac:(lia) Hb Hpl Hlt Hd H1 H2 H3 H4) as (w' & Hw & Ho' & Hok' & _).
      exists w'. split; [exact Hw|]. rewrite Nat2Z.id, insert_middle in Hok'. unfold advanced in Hok'. rewrite Eb in Hok'.
      unfold moved, sched_after, vol_after.
      assert (ends 1 b = false) as -> by (unfold ends; rewrite Eb; apply Z.leb_gt; lia).
      rewrite Eb. rewrite mixed_middle, !i16_add in Ho' by done. split; [exact Hok'|exact Ho'|by apply Hkeep].
    + destruct Hn as [Hn|[-> Hev]]; [lia|]. assert (pos b + 2 = len b) as Hend.
      { destruct Hpl as (_ & _ & _ & _ & Hpe & Hp). apply Z.even_spec in Hpe as [a Ha], Hev as [c Hc]. lia. }
      destruct (mix_event_frees w _ _ _ _ (Z.of_nat (length p)) (Z.of_nat (length pre)) b buf d lv rv l r Hok Ho
        ltac:(lia) Hlen ltac:(lia) Hb Hpl Hend Hd H1 H2 H3 H4) as (w' & Hw & Ho' & Hok').
      exists w'. split; [exact Hw|]. rewrite Nat2Z.id in Hok'. rewrite <- Hls in Hok' at 2. rewrite <- Hld in Hok' at 2.
      rewrite !insert_middle in Hok'. unfold moved, sched_after, vol_after.
      assert (ends 1 b = true) as -> by (unfold ends; rewrite Eb; apply Z.leb_le; lia).
      rewrite Eb. rewrite mixed_middle, !i16_add in Ho' by done. split; [exact Hok'|exact Ho'|by apply Hkeep].
  - injection Hf as <- <-. rewrite !Z.add_0_r. unfold moved, sched_after, vol_after, ends. rewrite Eb.
    exists w. split; [|by split]. unfold mix_event, ebuff.
    mstep (rd_at_Ok ebuffs w _ _ b (ok_ebuffs _ _ _ _ Hch) (Nat2Z.is_nonneg _) Hb). by rewrite Eb.
Qed.

(** The channels from [length pre] on. *)
Lemma channels_at bs : forall w pre spre ss dpre ds q sb p x y rest l r,
  mixing w (pre ++ bs) (spre ++ ss) (dpre ++ ds) q sb (p ++ i16 x :: i16 y :: rest) ->
  length spre = length pre -> length dpre = length pre -> length ss = length bs -> length ds = length bs ->
  Forall (sound_for 1 q) bs -> frame_sum 0 bs ds = Ok (l, r) ->
  exists w', for_channels (length bs) (Z.of_nat (length pre)) (mix_event (Z.of_nat (length p))) w = Ok (tt, w') /\
    mixing w' (pre ++ (moved 1 <$> bs)) (spre ++ zip_with (sched_after 1) bs ss)
      (dpre ++ zip_with (vol_after 1) bs ds) q sb (p ++ i16 (x + l) :: i16 (y + r) :: rest).
Proof.
  induction bs as [|b bs IH]; intros w pre spre ss dpre ds q sb p x y rest l r Hm Hls Hld Hss Hds Hf Hr.
  { destruct ss, ds; try done. injection Hr as <- <-. exists w. rewrite !Z.add_0_r. by split. }
  destruct ss as [|s ss], ds as [|d ds]; try done. cbn [frame_sum] in Hr.
  apply bind_ok in Hr as ([l1 r1] & Hr1 & Hr). apply bind_ok in Hr as ([l2 r2] & Hr2 & [= <- <-]).
  apply Forall_cons in Hf as [Hb Hf].
  destruct (channel_step w pre b bs spre s ss dpre d ds q sb p x y rest l1 r1 Hm Hls Hld Hb Hr1) as (w1 & E1 & Hm1).
  cbn [length for_channels fmap list_fmap zip_with]. mstep E1.
  destruct (IH w1 (pre ++ [moved 1 b]) (spre ++ [sched_after 1 b s]) ss (dpre ++ [vol_after 1 b d]) ds q sb p
    (x + l1) (y + r1) rest l2 r2) as (w2 & E2 & Hm2); rewrite <- ?app_assoc; try done;
    [rewrite !length_app; cbn; lia..|by injection Hss|by injection Hds|].
  exists w2. rewrite length_app, Nat2Z.inj_add in E2. split; [exact E2|].
  rewrite <- !app_assoc in Hm2. by rewrite !Z.add_assoc.
Qed.
End Mixing.

(** *** States *)

Section States.
Context {E : Env}.

Lemma heard_index_range b ts : ts <> [] -> (heard_index b ts < length ts)%nat.
Proof.
  intros Hts. unfold heard_index. assert (0 < length ts)%nat by (destruct ts; [done|simpl; lia]).
  destruct (last_match (st_vol b) ts 0) as [k|] eqn:E1; simpl; [|done]. apply last_match_range in E1. lia.
Qed.

(** The threshold that is chosen. *)
Lemma snd_ptr w sb i b ts :
  sbuffs w = PLive sb -> sb !! i = Some b -> thresh b = Some ts -> thresh_cnt b = Z.of_nat (length ts) ->
  mixerGetStateSndPtr (Z.of_nat i) (st_vol b) w =
    Ok (match ts !! heard_index b ts with
        | Some t => match s_snd_buf (state_snd t) with
                    | Some _ => Some (Z.of_nat (heard_index b ts)) | None => None end
        | None => None end, w).
Proof.
  intros Hsb Hb Ht Hc. unfold mixerGetStateSndPtr, sbuff.
  mstep (rd_at_Ok sbuffs w sb (Z.of_nat i) b Hsb (Nat2Z.is_nonneg _) ltac:(by rewrite Nat2Z.id)). rewrite Ht, Hc, Nat2Z.id.
  erewrite bind_Ok by (unfold lift; rewrite (last_thresh_drop _ ts ts 0 0) by done; reflexivity).
  assert (0 <= default 0 (last_match (st_vol b) ts 0)) as H0.
  { destruct (last_match _ ts 0) eqn:E1; simpl; [|done]. apply last_match_range in E1. lia. }
  destruct ts as [|t0 ts0] eqn:Ets; [done|]. rewrite <- Ets in *.
  assert (ts <> []) as Hne by by rewrite Ets. pose proof (heard_index_range b ts Hne) as Hr. clear Ets.
  assert (default 0 (last_match (st_vol b) ts 0) = Z.of_nat (heard_index b ts)) as ->
    by (unfold heard_index; lia).
  destruct (Z.leb_spec (Z.of_nat (length ts)) (Z.of_nat (heard_index b ts))); [lia|].
  destruct (lookup_lt_is_Some_2 ts _ Hr) as [t Htt]. rewrite Htt.
  erewrite bind_Ok by (unfold lift; rewrite (rd_nat ts _ t Htt); reflexivity).
  by destruct (s_snd_buf (state_snd t)).
Qed.

Lemma get_snd w sb i b ts k t :
  sbuffs w = PLive sb -> sb !! i = Some b -> thresh b = Some ts -> ts !! k = Some t ->
  get_state_snd (Z.of_nat i) (Z.of_nat k) w = Ok (state_snd t, w).
Proof.
  intros Hsb Hb Ht Hk. unfold get_state_snd, sbuff.
  mstep (rd_at_Ok sbuffs w sb (Z.of_nat i) b Hsb (Nat2Z.is_nonneg _) ltac:(by rewrite Nat2Z.id)). rewrite Ht.
  erewrite bind_Ok by reflexivity. by erewrite bind_Ok by (unfold lift; rewrite (rd_nat ts _ t Hk); reflexivity).
Qed.

Lemma put_snd w sb i b ts k t s :
  sbuffs w = PLive sb -> sb !! i = Some b -> thresh b = Some ts -> ts !! k = Some t ->
  put_state_snd (Z.of_nat i) (Z.of_nat k) s w =
    Ok (tt, set_sbuffs (PLive (<[i := with_thresh b (<[k := with_state_snd t s]> ts)]> sb)) w).
Proof.
  intros Hsb Hb Ht Hk. unfold put_state_snd, sbuff, set_sbuff.
  mstep (rd_at_Ok sbuffs w sb (Z.of_nat i) b Hsb (Nat2Z.is_nonneg _) ltac:(by rewrite Nat2Z.id)). rewrite Ht.
  erewrite bind_Ok by reflexivity. erewrite bind_Ok by (unfold lift; rewrite (rd_nat ts _ t Hk); reflexivity).
  pose proof (lookup_lt_Some _ _ _ Hk). pose proof (lookup_lt_Some _ _ _ Hb).
  erewrite bind_Ok by (unfold lift; rewrite wr_in_bounds by lia; reflexivity).
  rewrite (wr_at_Ok sbuffs set_sbuffs w sb) by (done || lia). by rewrite !Nat2Z.id.
Qed.

(** A state that is not heard. *)
Lemma mix_state_unheard w sb i b o :
  sbuffs w = PLive sb -> sb !! i = Some b -> steady 1 b -> state_plays b = None ->
  mix_state o (Z.of_nat i) w = Ok (tt, w).
Proof.
  intros Hsb Hb [Hst _] Hp. unfold mix_state, sbuff.
  mstep (rd_at_Ok sbuffs w sb (Z.of_nat i) b Hsb (Nat2Z.is_nonneg _) ltac:(by rewrite Nat2Z.id)).
  unfold state_plays in Hp. destruct (thresh b) as [ts|] eqn:Et.
  - destruct Hst as [Hc Hno]. mstep (snd_ptr w sb i b ts Hsb Hb Et Hc).
    destruct (d_eqb (st_vol b) d_zero); [done|]. cbn in Hp.
    destruct (ts !! heard_index b ts) as [t|] eqn:Ht; [|done]. cbn in Hp.
    destruct (s_snd_buf (state_snd t)) as [bufs|] eqn:Es; [|done]. cbn in Hp.
    mstep (get_snd w sb i b ts _ t Hsb Hb Et Ht). rewrite Es. erewrite bind_Ok by reflexivity.
    specialize (Hno t bufs eq_refl Es). destruct (lookup_lt_is_Some_2 bufs (Z.to_nat (s_snd_no (state_snd t)))) as [so Hso]; [lia|].
    assert (@rd (option (list Z)) bufs (s_snd_no (state_snd t)) = Ok so) as Hrd by (apply rd_Ok; by split; [lia|]).
    erewrite bind_Ok by (unfold lift; rewrite Hrd; reflexivity).
    unfold samples in *. rewrite Hso in Hp. by destruct so.
  - unfold mixerGetStateSndPtr, sbuff. unfold mbind at 1, M_bind at 1.
    mstep (rd_at_Ok sbuffs w sb (Z.of_nat i) b Hsb (Nat2Z.is_nonneg _) ltac:(by rewrite Nat2Z.id)). rewrite Et.
    cbn. by destruct (d_eqb (st_vol b) d_zero).
Qed.

Lemma state_plays_inv b s buf :
  state_plays b = Some (s, buf) ->
  exists ts t bufs, d_eqb (st_vol b) d_zero = false /\ thresh b = Some ts /\ ts !! heard_index b ts = Some t /\
    s = state_snd t /\ s_snd_buf s = Some bufs /\ bufs !! Z.to_nat (s_snd_no s) = Some (Some buf).
Proof.
  unfold state_plays. destruct (d_eqb (st_vol b) d_zero); [done|]. destruct (thresh b) as [ts|]; [|done]. cbn.
  destruct (ts !! heard_index b ts) as [t|] eqn:Ht; [|done]. cbn.
  destruct (s_snd_buf (state_snd t)) as [bufs|] eqn:Hs; [|done]. cbn.
  destruct (bufs !! Z.to_nat (s_snd_no (state_snd t))) as [[x|]|] eqn:Hb; [|done..]. cbn. intros [= <- <-].
  by exists ts, t, bufs.
Qed.

(** The two additions to the output. *)
Lemma add_frame w p x y rest l r :
  output w = PLive (p ++ i16 x :: i16 y :: rest) ->
  exists w1, add_output (Z.of_nat (length p)) l w = Ok (tt, w1) /\
    add_output (Z.of_nat (length p) + 1) r w1 =
      Ok (tt, set_output (PLive (p ++ i16 (x + l) :: i16 (y + r) :: rest)) w) /\ exists o, w1 = set_output o w.
Proof.
  intros Ho. eexists. split; [|split].
  - apply add_output_Ok; [exact Ho|rewrite length_app; cbn; lia].
  - erewrite add_output_Ok; [|reflexivity|rewrite length_insert, length_app; cbn; lia].
    match goal with |- Ok (_, set_output (PLive ?o) _) = _ =>
      change o with (mixed (p ++ i16 x :: i16 y :: rest) (Z.of_nat (length p)) l r) end.
    by rewrite mixed_middle, !i16_add.
  - by eexists.
Qed.

(** A state that is heard. *)
Lemma mix_state_heard w sb i b s buf p x y rest l r :
  sbuffs w = PLive sb -> sb !! i = Some b -> steady 1 b -> state_plays b = Some (s, buf) ->
  output w = PLive (p ++ i16 x :: i16 y :: rest) -> state_frame 0 b = Ok (l, r) ->
  mix_state (Z.of_nat (length p)) (Z.of_nat i) w =
    Ok (tt, set_sbuffs (PLive (<[i := state_moved 1 b]> sb))
              (set_output (PLive (p ++ i16 (x + l) :: i16 (y + r) :: rest)) w)).
Proof.
  intros Hsb Hb [Hst Hsnd] Hp Ho Hf. unfold state_frame in Hf. rewrite Hp in *.
  pose proof Hp as (ts & t & bufs & Hv & Et & Ht & -> & Hbufs & Hbuf)%state_plays_inv.
  rewrite Et in Hst. destruct Hst as [Hc Hno]. destruct Hsnd as (Hfl & Hp0 & lens & ln & Hlens & Hln & Hlt).
  specialize (Hno t bufs Ht Hbufs). change (Z.of_nat 0) with 0 in Hf. rewrite Z.mul_0_r, !Z.add_0_r in Hf.
  apply bind_ok in Hf as (lv & H1 & Hf). apply bind_ok in Hf as (rv & H2 & Hf).
  apply bind_ok in Hf as (el & H3 & Hf). apply bind_ok in Hf as (er & H4 & [= -> ->]).
  assert (Hg : forall o, get_state_snd (Z.of_nat i) (Z.of_nat (heard_index b ts)) (set_output o w)
                         = Ok (state_snd t, set_output o w)) by (intros o; by apply (get_snd _ sb i b ts)).
  assert (Hrd : @rd (option (list Z)) bufs (s_snd_no (state_snd t)) = Ok (Some buf)) by (apply rd_Ok; by split; [lia|]).
  pose proof (rd_at_Ok sbuffs w sb (Z.of_nat i) b Hsb (Nat2Z.is_nonneg _) ltac:(by rewrite Nat2Z.id)) as Hrb.
  pose proof (get_snd w sb i b ts _ t Hsb Hb Et Ht) as Hg0.
  destruct (add_frame w p x y rest l r Ho) as (w1 & A1 & A2 & o1 & ->).
  unfold mix_state, sbuff. mstep Hrb. mstep (snd_ptr w sb i b ts Hsb Hb Et Hc). rewrite Hv, Ht, Hbufs.
  mstep Hg0. rewrite Hbufs. erewrite bind_Ok by reflexivity.
  erewrite bind_Ok by (unfold lift; rewrite Hrd; reflexivity).
  unfold mix_state_snd, sbuff. mstep Hrb. mstep Hg0. rewrite Hbufs. erewrite bind_Ok by reflexivity.
  erewrite bind_Ok by (unfold lift; rewrite Hrd; reflexivity). erewrite bind_Ok by reflexivity.
  erewrite bind_Ok by (unfold lift; rewrite H1; reflexivity).
  unfold state_left in H3. unfold state_right in H4.
  erewrite bind_Ok by (unfold lift; rewrite H3; reflexivity). rewrite u32_small by lia.
  erewrite bind_Ok by (unfold lift; rewrite H2; reflexivity).
  erewrite bind_Ok by (unfold lift; rewrite H4; reflexivity). rewrite Hfl. cbn [Z.eqb].
  erewrite bind_Ok by reflexivity. mstep Hg0. erewrite bind_Ok by reflexivity. mstep A1. mstep A2.
  mstep (Hg (PLive (p ++ i16 (x + l) :: i16 (y + r) :: rest))). unfold STEREO.
  rewrite (u32_small (s_pos (state_snd t) + 2)) by lia.
  assert (E2 : forall s, put_state_snd (Z.of_nat i) (Z.of_nat (heard_index b ts)) s
    (set_output (PLive (p ++ i16 (x + l) :: i16 (y + r) :: rest)) w) = _)
    by (intros s; exact (put_snd (set_output _ w) sb i b ts _ t s Hsb Hb Et Ht)).
  mstep (E2 (snd_moved 1 (state_snd t))). cbn [s_len s_snd_no s_pos]. rewrite Hlens. erewrite bind_Ok by reflexivity.
  assert (Hrl : rd lens (s_snd_no (state_snd t)) = Ok ln) by (apply rd_Ok; by split; [lia|]).
  erewrite bind_Ok by (unfold lift; rewrite Hrl; reflexivity). cbn [s_pos].
  destruct (Z.leb_spec ln (s_pos (state_snd t) + 2)); [lia|].
  unfold state_moved. rewrite Hp, Et, (alter_at _ _ _ _ Ht). reflexivity.
Qed.
End States.

(** ** A chunk *)

Section Chunk.
Context {E : Env}.

Lemma state_at_mixes w bs ss ds q pre b sb p x y rest l r :
  mixing w bs ss ds q (pre ++ b :: sb) (p ++ i16 x :: i16 y :: rest) -> steady 1 b -> state_frame 0 b = Ok (l, r) ->
  exists w', mix_state (Z.of_nat (length p)) (Z.of_nat (length pre)) w = Ok (tt, w') /\
    mixing w' bs ss ds q (pre ++ state_moved 1 b :: sb) (p ++ i16 (x + l) :: i16 (y + r) :: rest).
Proof.
  intros [Hok Ho Hsb] Hst Hf. pose proof (list_lookup_middle pre sb b _ eq_refl) as Hb.
  destruct (state_plays b) as [[s buf]|] eqn:Hp.
  - pose proof (mix_state_heard w _ _ b s buf p x y rest l r Hsb Hb Hst Hp Ho Hf) as Hm.
    eexists. split; [exact Hm|]. split; [|done|cbn; by rewrite insert_middle].
    eapply engine_ok_frame; [exact Hok|]. exact (frame_mix_state _ _ _ _ _ Hm).
  - pose proof (mix_state_unheard w _ _ b (Z.of_nat (length p)) Hsb Hb Hst Hp) as Hm. exists w. split; [exact Hm|].
    unfold state_frame in Hf. rewrite Hp in Hf. injection Hf as <- <-. unfold state_moved. rewrite Hp, !Z.add_0_r.
    by split.
Qed.

Lemma states_at sb : forall w bs ss ds q pre p x y rest l r,
  mixing w bs ss ds q (pre ++ sb) (p ++ i16 x :: i16 y :: rest) -> Forall (steady 1) sb -> state_sum 0 sb = Ok (l, r) ->
  exists w', for_channels (length sb) (Z.of_nat (length pre)) (mix_state (Z.of_nat (length p))) w = Ok (tt, w') /\
    mixing w' bs ss ds q (pre ++ (state_moved 1 <$> sb)) (p ++ i16 (x + l) :: i16 (y + r) :: rest).
Proof.
  induction sb as [|b sb IH]; intros w bs ss ds q pre p x y rest l r Hm Hf Hr.
  { injection Hr as <- <-. exists w. rewrite !Z.add_0_r. by split. }
  cbn [state_sum] in Hr. apply bind_ok in Hr as ([l1 r1] & Hr1 & Hr). apply bind_ok in Hr as ([l2 r2] & Hr2 & [= <- <-]).
  apply Forall_cons in Hf as [Hb Hf].
  destruct (state_at_mixes w bs ss ds q pre b sb p x y rest l1 r1 Hm Hb Hr1) as (w1 & E1 & Hm1).
  cbn [length for_channels fmap list_fmap]. mstep E1.
  destruct (IH w1 bs ss ds q (pre ++ [state_moved 1 b]) p (x + l1) (y + r1) rest l2 r2) as (w2 & E2 & Hm2);
    rewrite <- ?app_assoc; try done.
  exists w2. rewrite length_app, Nat2Z.inj_add in E2. split; [exact E2|].
  rewrite <- !app_assoc in Hm2. by rewrite !Z.add_assoc.
Qed.

(** One frame. *)
Lemma frame_at w bs ss ds q sb p rest l r ls rs :
  mixing w bs ss ds q sb (p ++ 0 :: 0 :: rest) -> Forall (sound_for 1 q) bs -> Forall (steady 1) sb ->
  frame_sum 0 bs ds = Ok (l, r) -> state_sum 0 sb = Ok (ls, rs) ->
  exists w', mix_frame (Z.of_nat (length p)) w = Ok (tt, w') /\
    mixing w' (moved 1 <$> bs) (zip_with (sched_after 1) bs ss) (zip_with (vol_after 1) bs ds) q
      (state_moved 1 <$> sb) (p ++ i16 (l + ls) :: i16 (r + rs) :: rest).
Proof.
  intros Hm Hbs Hsb Hl Hls. pose proof (eng_chan _ _ _ _ _ (mx_engine _ _ _ _ _ _ _ Hm)) as Hch.
  destruct (channels_at bs w [] [] ss [] ds q sb p 0 0 rest l r Hm eq_refl eq_refl (ok_len_s _ _ _ _ Hch)
    (ok_len_d _ _ _ _ Hch) Hbs Hl) as (w1 & E1 & Hm1).
  unfold mix_frame. erewrite bind_Ok by reflexivity. rewrite (ok_n _ _ _ _ Hch), Nat2Z.id.
  cbn [length] in E1. mstep E1. erewrite bind_Ok by reflexivity.
  destruct (states_at sb w1 _ _ _ q [] p _ _ rest ls rs Hm1 Hsb Hls) as (w2 & E2 & Hm2).
  assert (Z.to_nat (no_sbuffs w1) = length sb) as ->.
  { destruct (eng_states _ _ _ _ _ (mx_engine _ _ _ _ _ _ _ Hm1)) as (sb' & _ & Hs & _ & Hn & _).
    rewrite (mx_states _ _ _ _ _ _ _ Hm1) in Hs. injection Hs as <-. lia. }
  exists w2. split; [exact E2|exact Hm2].
Qed.

Lemma moved_map {A} (f : nat -> A -> A) k (l : list A) :
  (forall x, f 1%nat (f k x) = f (S k) x) -> f 1%nat <$> (f k <$> l) = f (S k) <$> l.
Proof. intros H. rewrite <- list_fmap_compose. apply list_fmap_ext. intros i x _. apply H. Qed.

Lemma zip_moved {A} (f : nat -> EVENT_BUF -> A -> A) k bs (l : list A) :
  (forall b x, f 1%nat (moved k b) (f k b x) = f (S k) b x) ->
  zip_with (f 1%nat) (moved k <$> bs) (zip_with (f k) bs l) = zip_with (f (S k)) bs l.
Proof. intros H. revert l. induction bs as [|b bs IH]; intros [|x l]; cbn; [done..|]. by rewrite H, IH. Qed.

(** The channels and states after [k] frames. *)
Notation mixing_from w k bs ss ds q sb o :=
  (mixing w (moved k <$> bs) (zip_with (sched_after k) bs ss) (zip_with (vol_after k) bs ds) q (state_moved k <$> sb) o).

Lemma frames_at bs ss ds q sb n : forall k w p rest out,
  mixing_from w k bs ss ds q sb (p ++ replicate (2 * n) 0 ++ rest) ->
  Forall (sound_for (k + n) q) bs -> Forall (steady (k + n)) sb -> render n k bs ds sb = Ok out ->
  exists w', mix_frames n (Z.of_nat (length p)) w = Ok (tt, w') /\
    mixing_from w' (k + n)%nat bs ss ds q sb (p ++ out ++ rest).
Proof.
  induction n as [|n IH]; intros k w p rest out Hm Hbs Hsb Hr.
  { injection Hr as <-. exists w. by rewrite Nat.add_0_r. }
  cbn [render] in Hr. apply bind_ok in Hr as ([l r] & Hl & Hr). apply bind_ok in Hr as ([ls rs] & Hls & Hr).
  apply bind_ok in Hr as (out' & Hr & [= <-]).
  replace (2 * S n)%nat with (S (S (2 * n))) in Hm by lia. cbn [replicate app] in Hm.
  destruct (frame_at w _ _ _ q _ p (replicate (2 * n) 0 ++ rest) l r ls rs Hm) as (w1 & E1 & Hm1).
  { apply Forall_fmap. eapply Forall_impl; [exact Hbs|]. intros b Hb. apply (sound_for_moved k 1).
    eapply sound_for_le; [|exact Hb]. lia. }
  { apply Forall_fmap. eapply Forall_impl; [exact Hsb|]. intros b Hb. apply (steady_moved k 1).
    eapply steady_le; [|exact Hb]. lia. }
  { by rewrite frame_sum_moved. }
  { by rewrite state_sum_moved. }
  rewrite (moved_map moved), (moved_map state_moved), !zip_moved in Hm1
    by auto using moved_moved, state_moved_moved, sched_moved, vol_moved.
  destruct (IH (S k) w1 (p ++ [i16 (l + ls); i16 (r + rs)]) rest out') as (w2 & E2 & Hm2).
  { by rewrite <- !app_assoc. }
  { by rewrite Nat.add_succ_comm. }
  { by rewrite Nat.add_succ_comm. }
  { done. }
  rewrite Nat.add_succ_comm in Hm2. exists w2. cbn [mix_frames]. mstep E1. rewrite length_app, Nat2Z.inj_add in E2.
  split; [exact E2|]. by rewrite <- !app_assoc in Hm2.
Qed.

Lemma base_mix_state i j : steps base (mix_state i j).
Proof. intros v a v' H. apply frame_mix_state in H. apply H. Qed.

Lemma base_mix_frames n : forall i, steps base (mix_frames n i).
Proof.
  induction n as [|n IH]; intros i; cbn [mix_frames]; unfold mix_frame; go_steps.
  - apply (steps_channels base). intros j. apply base_mix_event.
  - apply (steps_channels base). intros j. apply base_mix_state.
Qed.

Lemma render_length n k bs ds sb out : render n k bs ds sb = Ok out -> length out = (2 * n)%nat.
Proof.
  revert k out. induction n as [|n IH]; intros k out H; cbn [render] in H; [by injection H as <-|].
  apply bind_ok in H as ([l r] & _ & H). apply bind_ok in H as ([ls rs] & _ & H).
  apply bind_ok in H as (rest & H & [= <-]). cbn [length]. rewrite (IH _ _ H). lia.
Qed.
End Chunk.

(** ** Property *)

(** C9: the mixer computes the reference. Suppose that in a chunk of [n] frames
    no state that is heard comes to the end of its sound or fades; that a
    channel's sound ends only if no event waits, and then has an even length; and
    that the reference has a value, that is, no sample is read outside of its
    sound and every scaled one fits a [short]. Then the mixer returns, and the
    chunk that it hands to the sound card has, for every frame, the sum of what
    the channels and the states play, the left and the right sample of each
    scaled by its volume and its place, reduced to 16 bits. A channel that plays
    has moved on by the frames of the chunk, or is free with its times and its
    volume cleared when its sound has ended; a state that is heard has moved on in
    its sound; and the waiting events are as before. *)
Theorem mixer_renders {E : Env} (w : world) bs ss ds q (sb : list STATE_BUF) (o out : list Z) (n : nat) :
  engine_ok w bs ss ds q -> output w = PLive o -> sbuffs w = PLive sb ->
  chunk_size w = 2 * Z.of_nat n -> (2 * n <= length o)%nat ->
  Forall (sound_for n q) bs -> Forall (steady n) sb -> render n 0 bs ds sb = Ok out ->
  exists w', mixer w = Ok (tt, w') /\ played w' = played w ++ [out] /\
    engine_ok w' (moved n <$> bs) (zip_with (sched_after n) bs ss) (zip_with (vol_after n) bs ds) q /\
    sbuffs w' = PLive (state_moved n <$> sb).
Proof.
  intros Hok Ho Hsb Hc Hlo Hbs Hst Hr. unfold mixer. erewrite bind_Ok by reflexivity. rewrite Hc.
  assert (Hcl : clear_output (2 * Z.of_nat n) w
    = Ok (tt, set_output (PLive (replicate (2 * n) 0 ++ drop (2 * n) o)) w)).
  { unfold clear_output. rewrite Ho. cbn [deref mbind res_bind]. rewrite decide_True by lia.
    by replace (Z.to_nat (2 * Z.of_nat n)) with (2 * n)%nat by lia. }
  mstep Hcl. set (w1 := set_output _ w).
  pose proof (eng_chan _ _ _ _ _ Hok) as Hch.
  destruct (nothing_moved n bs ss ds sb q Hbs (ok_len_s _ _ _ _ Hch) (ok_len_d _ _ _ _ Hch)) as (E1 & E2 & E3 & E4).
  destruct (frames_at bs ss ds q sb n 0 w1 [] (drop (2 * n) o) out) as (w2 & Em & Hm2); [|done..|].
  { rewrite E1, E2, E3, E4. split; [|done|done]. eapply engine_ok_ext; [exact Hok| |try done..]; [|apply Hok].
    by eapply chan_ok_ext. }
  replace (Z.to_nat ((2 * Z.of_nat n + 1) / STEREO)) with n.
  2:{ unfold STEREO. rewrite Z.mul_comm, Z.div_add_l by lia. change (1 / 2) with 0. lia. }
  change (Z.of_nat (length [])) with 0 in Em. mstep Em. destruct Hm2 as [Hok2 Ho2 Hsb2].
  assert (played w2 = played w) as Hpl.
  { assert (steps base (mix_frames n 0)) as Hb by apply base_mix_frames. by rewrite (ba_played _ _ (Hb _ _ _ Em)). }
  assert (Hpo : play_output (2 * Z.of_nat n) w2 = Ok (tt, set_played (played w ++ [out]) w2)).
  { unfold play_output. rewrite Ho2, Hpl. cbn [deref mbind res_bind app].
    rewrite take_app_le, take_ge; [done| |]; rewrite (render_length _ _ _ _ _ _ Hr); lia. }
  eexists. split; [exact Hpo|]. split; [done|]. cbn [Nat.add] in Hok2, Hsb2. split; [|exact Hsb2].
  eapply engine_ok_ext; [exact Hok2| |try done..]; [|apply Hok2]. by eapply chan_ok_ext; [apply Hok2|..].
Qed.

(** ** Witness *)

(** The invariant for other sounds on the same channels and states. *)
Lemma engine_ok_sounds `{E : Env} w bs ss ds bs' sb sb' o c l :
  engine_ok w bs ss ds l -> length bs' = length bs -> busy bs' = busy bs ->
  (forall i b s d, bs' !! i = Some b -> ss !! i = Some s -> ds !! i = Some d -> paired b s d) ->
  sbuffs w = PLive sb -> length sb' = length sb ->
  engine_ok (set_chunk_size c (set_sbuffs (PLive sb') (set_ebuffs (PLive bs') (set_output o w)))) bs' ss ds l.
Proof.
  intros [Hch Hlc Hq (sb0 & fr & H1 & H2 & H3) Htb Hpb] Hl Hb Hp Hsb Hls. split; try done.
  - destruct Hch. split; cbn; rewrite ?Hl, ?Hb; done.
  - cbn. by rewrite Hl.
  - exists sb', fr. rewrite Hsb in H1. injection H1 as <-. rewrite Hls. by split.
Qed.

(** Two channels that play, one of them to its end, a state, and a chunk of two
    frames. *)
Definition long_buf (xs : list Z) : EVENT_BUF :=
  {| snd_buf := Some xs; len := Z.of_nat (length xs); pos := 0; stereo_pos := d_half; filter_flag := 0 |}.

Definition two_bufs : list EVENT_BUF :=
  [long_buf [32000; 4000; -8000; 16000; 0; 0]; long_buf [30000; 400; 800; -1600]].

Definition state_samples : list Z := [9; 20000; 20000; -20000; 20; 30; 40; 50].
Definition demo_snd : STATE_SND :=
  {| s_snd_buf := Some [Some state_samples]; s_len := Some [8]; s_snd_cnt := 1; s_snd_no := 0; s_pos := 2 |}.
Definition loud_state : STATE_BUF :=
  {| thresh := Some [{| l_bound := d_zero; h_bound := d1; state_snd := demo_snd |}];
     thresh_cnt := 1; st_stereo_pos := d_half; st_vol := d1; st_filter_flag := 0 |}.
Definition one_state : list STATE_BUF := [loud_state].

Lemma loud_plays : state_plays loud_state = Some (demo_snd, state_samples).
Proof. vm_compute. reflexivity. Qed.

Lemma loud_steady : steady 2 loud_state.
Proof.
  split; [split; [reflexivity|]|].
  - intros t bufs Ht Hb. assert (heard_index loud_state [{| l_bound := d_zero; h_bound := d1; state_snd := demo_snd |}] = 0%nat)
      as Hi by (vm_compute; reflexivity).
    rewrite Hi in Ht. injection Ht as <-. injection Hb as <-. cbn. lia.
  - rewrite loud_plays. split; [reflexivity|]. split; [cbn; lia|]. exists [8], 8.
    split; [reflexivity|]. split; [reflexivity|]. cbn. lia.
Qed.

Definition demo_two : world :=
  set_chunk_size 4 (set_sbuffs (PLive one_state) (set_ebuffs (PLive two_bufs)
    (set_output (PLive [5; 5; 5; 5; 5]) (demo_world true true)))).

Lemma demo_two_ok : engine_ok (E := still_env) demo_two two_bufs [demo_sched true; demo_sched true]
  [d_half; d_half] [].
Proof.
  apply (engine_ok_sounds _ [demo_buf true; demo_buf true] _ _ _ [zero_sbuf]);
    [apply demo_ok|reflexivity|reflexivity| |reflexivity|reflexivity].
  intros [|[|i]] b s d H1 H2 H3; by simplify_eq/=.
Qed.

Lemma mixer_renders_witness :
  exists out w', render 2 0 two_bufs [d_half; d_half] one_state = Ok out /\
    mixer (E := still_env) demo_two = Ok (tt, w') /\ played w' = [out] /\
    engine_ok (E := still_env) w' (moved 2 <$> two_bufs) [demo_sched true; sched_zero] [d_half; d_zero] [] /\
    sbuffs w' = PLive (state_moved 2 <$> one_state).
Proof.
  assert (exists out, render 2 0 two_bufs [d_half; d_half] one_state = Ok out) as [out Hr]
    by (eexists; vm_compute; reflexivity).
  exists out.
  destruct (mixer_renders (E := still_env) demo_two two_bufs [demo_sched true; demo_sched true] [d_half; d_half]
    [] one_state [5; 5; 5; 5; 5] out 2 demo_two_ok eq_refl eq_refl eq_refl) as (w' & H1 & H2 & H3 & H4).
  - simpl. lia.
  - unfold two_bufs. apply Forall_cons. split; [split; [by repeat split|left; cbn; lia]|].
    apply Forall_singleton. split; [by repeat split|right; by split].
  - apply Forall_singleton. exact loud_steady.
  - exact Hr.
  - exists w'. split; [exact Hr|]. split; [exact H1|]. split; [exact H2|]. split; [exact H3|exact H4].
Defined.
