(* ===== verification/Handover.v ===== *)
(** * Two threads at one channel

    [mixer] frees a channel and hands it to a waiting event in two steps, and
    [mixerAddEvent] looks at a channel before it locks the mixer. The engine
    thread may run in between. Here the steps are separate operations, in an
    order that the scheduler may choose. *)

From stdpp Require Import base list strings.
From Stdlib Require Import ZArith Lia.
From S2P Require Import Prelude Events CString Dbl SoundTable MixerQueue World Playback Mixer Engine MixerFacts Steps.
Import SoundTable.
Local Open Scope Z_scope.

Section Split.
Context {E : Env}.

(** [mixerAddEvent] up to its test, and from the lock on. *)
Definition add_test (voice : Z) : M world bool :=
  b ← ebuff voice; mret (bool_decide (snd_buf b = None)).

Definition add_locked (snd : samples) (ln : Z) (loc : dbl) (flgs : Z) (voice : Z) : M world Z :=
  lock_mixer ;;
  b ← ebuff voice;
  set_ebuff voice {| snd_buf := snd; len := ln; pos := pos b; stereo_pos := loc;
                     filter_flag := flgs |} ;;
  modify (fun w => set_dyn_buf_cnt (u32 (dyn_buf_cnt w + 1)) w) ;;
  v ← mixerDynVol;
  wr_at dyn_mul set_dyn_mul voice v ;;
  unlock_mixer ;;
  mret MIXER_SUCCESS.

Lemma ebuff_Ok w bs j b :
  ebuffs w = PLive bs -> 0 <= j -> bs !! Z.to_nat j = Some b -> ebuff j w = Ok (b, w).
Proof. apply rd_at_Ok. Qed.

Lemma add_test_Ok w bs j b :
  ebuffs w = PLive bs -> 0 <= j -> bs !! Z.to_nat j = Some b ->
  add_test j w = Ok (bool_decide (snd_buf b = None), w).
Proof. intros H1 H2 H3. unfold add_test. by mstep (ebuff_Ok w bs j b H1 H2 H3). Qed.

(** The end of a sound in [mixer] with a waiting event, and the engine in
    between. *)
Definition interrupted_handover (j : Z) (e : EVENT) : M world bool :=
  mixerRemoveEvent j ;;
  r ← engineIO e;
  mixerAddOldEvent j ;;
  mret r.

(** One after the other they are [mixerAddEvent]. *)
Lemma mixerAddEvent_split snd ln lo fl w bs j b :
  ebuffs w = PLive bs -> 0 <= j -> bs !! Z.to_nat j = Some b -> mlock w = false ->
  mixerAddEvent snd ln lo fl j w =
    (free ← add_test j;
     if (free : bool) then add_locked snd ln lo fl j else mret MIXER_CHAN_BUSY) w.
Proof.
  intros H1 H2 H3 Hl. mstep (add_test_Ok w bs j b H1 H2 H3). unfold mixerAddEvent.
  mstep (ebuff_Ok w bs j b H1 H2 H3). destruct (snd_buf b); [by rewrite bool_decide_false|].
  rewrite bool_decide_true by done. unfold add_locked.
  assert (El : lock_mixer w = Ok (tt, set_mlock true w)) by (unfold lock_mixer; by rewrite Hl).
  mstep El. mstep El. by mstep (ebuff_Ok (set_mlock true w) bs j b H1 H2 H3).
Qed.

(** The locked part on a channel of which the arrays have an element: it does
    not ask whether the channel is free. *)
Lemma add_locked_Ok snd ln lo fl w bs ds j b :
  ebuffs w = PLive bs -> 0 <= j -> bs !! Z.to_nat j = Some b -> mlock w = false ->
  dyn_mul w = PLive ds -> length ds = length bs -> no_ebuffs w = Z.of_nat (length bs) ->
  exists x, add_locked snd ln lo fl j w =
    Ok (MIXER_SUCCESS,
        set_mlock false (set_dyn_mul (PLive (<[Z.to_nat j := x]> ds))
          (set_dyn_buf_cnt (u32 (dyn_buf_cnt w + 1))
            (set_ebuffs (PLive (<[Z.to_nat j := loaded b snd ln lo fl]> bs))
              (set_mlock true w))))).
Proof.
  intros H1 H2 H3 Hl Hd Hld Hn. pose proof (lookup_lt_Some _ _ _ H3).
  assert (El : lock_mixer w = Ok (tt, set_mlock true w)) by (unfold lock_mixer; by rewrite Hl).
  unfold add_locked. mstep El. mstep (ebuff_Ok (set_mlock true w) bs j b H1 H2 H3).
  unfold set_ebuff.
  erewrite bind_Ok by (apply wr_at_Ok; [exact H1|lia]).
  erewrite bind_Ok by reflexivity. cbn [set_dyn_buf_cnt dyn_buf_cnt set_ebuffs set_mlock].
  match goal with |- exists x, (mixerDynVol ≫= _) ?W = _ =>
    destruct (mixerDynVol_Ok W ds) as [x Hx]; [exact Hd|cbn; by rewrite Hn, Hld|] end.
  exists x. mstep Hx. erewrite bind_Ok by (apply wr_at_Ok; [exact Hd|lia]).
  by erewrite bind_Ok by reflexivity.
Qed.
End Split.

(** ** Properties *)

(** Both threads test a free channel before either of them locks the
    mixer: both load their sound, the second in the place of the first; both
    are told that they succeeded; and the count of playing channels, by which
    the volumes are divided, is one more than the channels that play. *)
Theorem add_race_miscounts `{E : Env} (w : world) bs ss ds (j : Z) (b : EVENT_BUF)
    (snd1 snd2 : list Z) (ln1 ln2 : Z) (lo1 lo2 : dbl) (fl1 fl2 : Z) :
  chan_ok w bs ss ds -> 0 <= j -> bs !! Z.to_nat j = Some b -> snd_buf b = None ->
  exists w', (free1 ← add_test j; free2 ← add_test j;
      r1 ← add_locked (Some snd1) ln1 lo1 fl1 j; r2 ← add_locked (Some snd2) ln2 lo2 fl2 j;
      mret (free1, free2, r1, r2)) w = Ok ((true, true, MIXER_SUCCESS, MIXER_SUCCESS), w') /\
    let bs' := <[Z.to_nat j := loaded b (Some snd2) ln2 lo2 fl2]> bs in
    ebuffs w' = PLive bs' /\ dyn_buf_cnt w' = busy bs' + 1.
Proof.
  intros Hch Hj Hb Hn. pose proof (lookup_lt_Some _ _ _ Hb) as Hlt.
  pose proof (busy_idle bs _ b Hb Hn). pose proof (busy_bounds bs). pose proof (ok_pos _ _ _ _ Hch).
  mstep (add_test_Ok w bs j b (ok_ebuffs _ _ _ _ Hch) Hj Hb).
  mstep (add_test_Ok w bs j b (ok_ebuffs _ _ _ _ Hch) Hj Hb). rewrite Hn.
  destruct (add_locked_Ok (Some snd1) ln1 lo1 fl1 w bs ds j b) as [x1 E1]; try apply Hch; try done.
  mstep E1. match type of E1 with _ = Ok (_, ?W) => set (w1 := W) end.
  destruct (add_locked_Ok (Some snd2) ln2 lo2 fl2 w1 (<[Z.to_nat j := loaded b (Some snd1) ln1 lo1 fl1]> bs)
    (<[Z.to_nat j := x1]> ds) j (loaded b (Some snd1) ln1 lo1 fl1)) as [x2 E2];
    [done|done|by rewrite list_lookup_insert_eq|done|done
    |rewrite !length_insert; apply Hch|rewrite length_insert; apply Hch|].
  mstep E2. eexists. split; [reflexivity|]. cbn. rewrite list_insert_insert_eq. split; [done|].
  rewrite (busy_insert _ _ _ _ Hb). unfold busy1. rewrite Hn. cbn.
  rewrite (ok_cnt _ _ _ _ Hch), (u32_small (busy bs + 1)), u32_small by lia. lia.
Qed.

(** C15: the engine takes the channel between the two steps of a hand-over. A
    sound has ended on channel [j] and an event waits, whose turn it is; the
    engine starts its own event [e] on the channel that has just become free;
    then the mixer goes on: it takes the waiting event out of the queue, finds
    the channel busy and goes on as if it played. The event is lost, its sound
    was never on a channel, and the channel plays [e] with the priority of the
    lost event. *)
Theorem handover_race_loses_event `{E : Env} `{L : !EnvLaws E} (w : world) bs ss ds (j : Z)
    (b : EVENT_BUF) (buf : list Z) (old : ENGINE_EVENT) (q : list ENGINE_EVENT)
    (en : sound_entry) (oldev : EVENT_ENTRY) (e : EVENT) (ev : EVENT_ENTRY) :
  engine_ok w bs ss ds (old :: q) -> 0 <= j -> bs !! Z.to_nat j = Some b -> snd_buf b = Some buf ->
  first_idle (<[Z.to_nat j := sched_zero]> ss) (scan_order (lastc w) (Z.of_nat (length bs))) = Some j ->
  type e = event_type_val EVENT_T -> playable w e ev ->
  engineSoundTableRetrieve lookup_fuel (sound_table w) (sound (event old)) = Ok (Some en) ->
  data en = DEvent oldev -> (forall w', fresh w' old = true) ->
  exists w3 q' s x snd ln, interrupted_handover j e w = Ok (true, w3) /\ q' ≡ₚ q /\ priorit s = prior (event old) /\
    snds ev !! Z.to_nat (chosen ev (rand_calls w)) = Some (Some snd) /\
    engine_ok w3 (<[Z.to_nat j := loaded (stopped b) (Some snd) ln (stereo_of e) (flags e)]> bs)
      (<[Z.to_nat j := s]> ss) (<[Z.to_nat j := x]> ds) q'.
Proof.
  intros Hok Hj Hb Hs Hfi Hty Hpl Hret Hdat Hfr. pose proof (lookup_lt_Some _ _ _ Hb) as Hlt.
  destruct (remove_engine_ok w bs ss ds (old :: q) j b buf Hok Hj Hb Hs)
    as (w1 & E1 & _ & _ & Rc & Tb & _ & Hok1).
  assert (Hpl1 : playable w1 e ev) by (unfold playable in *; by rewrite Tb).
  destruct (engineIO_taped w1 _ _ _ _ e Hok1) as (p & t & k & Hok1t & Hio).
  destruct (io_event_idle _ _ _ _ _ e ev j Hok1t Hpl1)
    as (w2 & b2 & s2 & snd & ln & x & Eio & _ & Hb2 & _ & Hsnd & _ & _ & _ & Hok2).
  { destruct (mixerRemoveEvent_Ok w bs ss ds j b buf (eng_chan _ _ _ _ _ Hok) Hj Hb Hs)
      as (w1' & E1' & _ & _ & _ & _ & _ & Lc & _). rewrite E1 in E1'. injection E1' as <-.
    change (lastc (taped p t k w1)) with (lastc w1). by rewrite length_insert, Lc. }
  rewrite list_lookup_insert_eq in Hb2 by lia. injection Hb2 as <-.
  rewrite !list_insert_insert_eq in Hok2.
  rewrite Hty in Hio. cbn [event_type_val Z.eqb Pos.eqb] in Hio. rewrite Eio in Hio.
  pose proof (engineIO_heard _ _ _ _ _ _ _ _ Hok1 Hio) as B.
  destruct (mixerAddOldEvent_busy w2 _ _ _ q en oldev old j
      (loaded (stopped b) (Some snd) ln (stereo_of e) (flags e)) snd Hok2 Hj)
    as (w3 & q' & s & E3 & P & Hpr & Hok3);
    [by apply list_lookup_insert_eq|done|by rewrite (he_table _ _ B), Tb|done|apply Hfr|].
  rewrite list_insert_insert_eq in Hok3. change (rand_calls (taped p t k w1)) with (rand_calls w1) in Hsnd.
  rewrite Rc in Hsnd. exists w3, q', s, x, snd, ln. split; [|by split_and!].
  unfold interrupted_handover. mstep E1. mstep Hio. by mstep E3.
Qed.

(** *** Witnesses *)

Lemma add_race_miscounts_witness :
  exists w', (free1 ← add_test 1; free2 ← add_test 1;
      r1 ← add_locked (Some [1; 1]) 2 d_half 0 1; r2 ← add_locked (Some [2; 2]) 2 d_half 0 1;
      mret (free1, free2, r1, r2)) (demo_out false)
    = Ok ((true, true, MIXER_SUCCESS, MIXER_SUCCESS), w') /\
    ebuffs w' = PLive [demo_buf true; loaded zero_ebuf (Some [2; 2]) 2 d_half 0] /\
    dyn_buf_cnt w' = 2 + 1.
Proof.
  exact (add_race_miscounts (E := still_env) (demo_out false) _ _ _ 1 (demo_buf false) [1; 1] [2; 2] 2 2
    d_half d_half 0 0 (eng_chan _ _ _ _ _ (demo_out_ok false)) ltac:(lia) eq_refl eq_refl).
Defined.

(** The event that waits in the demonstration, with the clock of [still_env]. *)
Lemma waiting_fresh w : fresh (E := still_env) w waiting = true.
Proof. by vm_compute. Qed.

Lemma demo_wait_playable : playable (E := still_env) demo_wait (demo_event "ab" 0) (one_sound 1).
Proof. split; [by vm_compute|]. split_and!; simpl; try lia. apply Forall_singleton. done. Qed.

Lemma handover_race_loses_event_witness :
  exists w3 q' s x snd ln,
    interrupted_handover (E := still_env) 1 (demo_event "ab" 0) demo_wait = Ok (true, w3) /\ q' ≡ₚ [] /\ priorit s = 7 /\
    [Some [1; 1]] !! 0%nat = Some (Some snd) /\
    engine_ok (E := still_env) w3
      [demo_buf true; loaded (stopped (demo_buf true)) (Some snd) ln (stereo_of (demo_event "ab" 0)) 0]
      [demo_sched true; s] [d_half; x] q'.
Proof.
  exact (handover_race_loses_event (E := still_env) (L := still_laws) demo_wait _ _ _ 1 (demo_buf true) [1; 1]
    waiting [] (event_entry "ab" (one_sound 1)) (one_sound 1) (demo_event "ab" 0) (one_sound 1)
    demo_wait_ok ltac:(lia) eq_refl eq_refl ltac:(vm_compute; reflexivity) eq_refl demo_wait_playable
    ltac:(vm_compute; reflexivity) eq_refl waiting_fresh).
Defined.
