(* ===== verification/Wire.v ===== *)
(** * Memory buffers and the packet format ([server.h])

    A buffer is the list of its bytes, each from 0 to 255. Integers in memory
    are little endian, as on the x86 hosts the server runs on; those of a
    packet are big endian, and [ntohl]/[htonl] swap them. *)

From stdpp Require Import base list strings.
From Stdlib Require Import ZArith Lia Ascii String.
From S2P Require Import Prelude Events CString.
Local Open Scope Z_scope.

(** ** Reading memory *)

(** [memcpy] of [n] bytes from offset [off]; a negative count is a huge
    [size_t]. *)
Definition slice (buf : list Z) (off n : Z) : res (list Z) :=
  if decide (0 <= off /\ 0 <= n /\ off + n <= Z.of_nat (List.length buf))
  then Ok (take (Z.to_nat n) (drop (Z.to_nat off) buf))
  else Fault OutOfBounds.

Definition char_of (b : Z) : ascii := ascii_of_nat (Z.to_nat b).

(** The C string that starts a block of bytes: up to the first null. *)
Fixpoint c_string (l : list Z) : string :=
  match l with
  | [] => EmptyString
  | b :: l => if b =? 0 then EmptyString else String (char_of b) (c_string l)
  end.

(** The C string at offset [off]; the block must hold its terminating null. *)
Definition c_string_at (buf : list Z) (off : Z) : res string :=
  if decide (0 <= off < Z.of_nat (List.length buf)) then
    let l := drop (Z.to_nat off) buf in
    if existsb (fun b => b =? 0) l then Ok (c_string l) else Fault OutOfBounds
  else Fault OutOfBounds.

(** The bytes of a string, without a terminating null. *)
Fixpoint bytes_of (s : string) : list Z :=
  match s with
  | EmptyString => []
  | String c s => Z.of_nat (nat_of_ascii c) :: bytes_of s
  end.

(** ** Integers in memory *)

(** The four bytes of a 32-bit integer, lowest first. *)
Definition le32 (z : Z) : list Z :=
  [z mod 256; z / 256 mod 256; z / 65536 mod 256; z / 16777216 mod 256].

Definition of_le32 (b0 b1 b2 b3 : Z) : Z := i32 (b0 + 256 * b1 + 65536 * b2 + 16777216 * b3).

(** [ntohl] and [htonl] on a little-endian host. *)
Definition bswap (z : Z) : Z :=
  match le32 z with
  | [b0; b1; b2; b3] => of_le32 b3 b2 b1 b0
  | _ => 0
  end.

Definition ntohl : Z -> Z := bswap.
Definition htonl : Z -> Z := bswap.

(** ** Packets *)

Definition PROT_VERSION : Z := 2.
Definition PROT_BC_SERVER : Z := 1.
Definition PROT_BC_CLIENT : Z := 2.
Definition PROT_CLIENT_EVENT : Z := 4.
Definition PROT_SERVER_STILL_ALIVE : Z := 8.
Definition PROT_CLIENT_STILL_ALIVE : Z := 16.
Definition PROT_CONTENT_XML : Z := 1.
Definition PROT_CONTENT_EVENT : Z := 2.
Definition PROT_CONTENT_MSG : Z := 4.
Definition PROT_CONTENT_LEASE : Z := 16.
Definition PROT_MAGIC_NUMBER : Z := 3735928559.
Definition MAX_UDP_PACKET_SIZE : Z := 512.
Definition PROT_CLASSDELIM : string := "!".

(** The fields as they are in memory. *)
Record HEADER : Type := {
  version : Z;
  htype : Z;
  content : Z;
  reserved : list Z;
  magic : Z;
  hlen : Z
}.

Definition sizeof_HEADER : Z := 16.
(** [sizeof (EVENT_BODY) - sizeof (char * )], the part of an event on the wire. *)
Definition sizeof_EVENT_wire : Z := 16.

Definition header_bytes (h : HEADER) : list Z :=
  [version h; htype h; content h] ++ reserved h ++ le32 (magic h) ++ le32 (hlen h).

(** [memcpy (&header, buffer, sizeof (HEADER))] *)
Definition read_header (buf : list Z) : res HEADER :=
  l ← slice buf 0 sizeof_HEADER;
  match l with
  | [v; t; c; r0; r1; r2; r3; r4; m0; m1; m2; m3; l0; l1; l2; l3] =>
      mret {| version := v; htype := t; content := c; reserved := [r0; r1; r2; r3; r4];
              magic := of_le32 m0 m1 m2 m3; hlen := of_le32 l0 l1 l2 l3 |}
  | _ => Fault OutOfBounds
  end.

(** The two integers swapped to the byte order of the host. *)
Definition host_order (h : HEADER) : HEADER :=
  {| version := version h; htype := htype h; content := content h; reserved := reserved h;
     magic := ntohl (magic h); hlen := ntohl (hlen h) |}.

(** [msg.header.magic != PROT_MAGIC_NUMBER], a comparison of unsigned integers. *)
Definition magic_ok (h : HEADER) : bool := u32 (magic h) =? PROT_MAGIC_NUMBER.

(** ** Facts *)

Definition is_byte (b : Z) : Prop := 0 <= b < 256.

Lemma slice_Ok buf off n :
  0 <= off -> 0 <= n -> off + n <= Z.of_nat (List.length buf) ->
  slice buf off n = Ok (take (Z.to_nat n) (drop (Z.to_nat off) buf)).
Proof. intros. unfold slice. by rewrite decide_True. Qed.

Lemma slice_out buf off n :
  0 <= off -> Z.of_nat (List.length buf) < off + n \/ n < 0 -> slice buf off n = Fault OutOfBounds.
Proof. intros. unfold slice. rewrite decide_False by lia. done. Qed.

Lemma slice_app a b c off n :
  off = Z.of_nat (List.length a) -> n = Z.of_nat (List.length b) ->
  slice (a ++ b ++ c) off n = Ok b.
Proof.
  intros -> ->. rewrite slice_Ok by (rewrite ?length_app; lia).
  rewrite !Nat2Z.id, drop_app_length, take_app_length. done.
Qed.

Lemma le32_of_le32 z : - 2 ^ 31 <= z < 2 ^ 31 ->
  of_le32 (z mod 256) (z / 256 mod 256) (z / 65536 mod 256) (z / 16777216 mod 256) = z.
Proof.
  intros Hz. unfold of_le32, i32, swrap.
  replace (z mod 256 + 256 * (z / 256 mod 256) + 65536 * (z / 65536 mod 256) +
           16777216 * (z / 16777216 mod 256) + 2 ^ (32 - 1)) with (z mod 2 ^ 32 + 2 ^ 31).
  - rewrite Zplus_mod_idemp_l, Z.mod_small by lia. lia.
  - change (2 ^ (32 - 1)) with (2 ^ 31). f_equal. change (2 ^ 32) with 4294967296.
    Z.div_mod_to_equations. lia.
Qed.

Lemma of_le32_digits b0 b1 b2 b3 :
  is_byte b0 -> is_byte b1 -> is_byte b2 -> is_byte b3 ->
  le32 (of_le32 b0 b1 b2 b3) = [b0; b1; b2; b3].
Proof.
  unfold is_byte, le32, of_le32, i32, swrap. intros.
  change (2 ^ (32 - 1)) with 2147483648. change (2 ^ 32) with 4294967296.
  set (s := b0 + 256 * b1 + 65536 * b2 + 16777216 * b3).
  assert (Hs : (s + 2147483648) mod 4294967296 - 2147483648 = s \/
               (s + 2147483648) mod 4294967296 - 2147483648 = s - 4294967296).
  { unfold s. Z.div_mod_to_equations. lia. }
  assert (Hd : forall k, (s + k * 4294967296) mod 256 = b0 /\
            (s + k * 4294967296) / 256 mod 256 = b1 /\
            (s + k * 4294967296) / 65536 mod 256 = b2 /\
            (s + k * 4294967296) / 16777216 mod 256 = b3).
  { intros k. unfold s. repeat split; Z.div_mod_to_equations; lia. }
  destruct Hs as [-> | ->]; [destruct (Hd 0) as (H1' & H2' & H3' & H4')
                            |destruct (Hd (-1)) as (H1' & H2' & H3' & H4')].
  - rewrite Z.mul_0_l, Z.add_0_r in *. congruence.
  - replace (s - 4294967296) with (s + -1 * 4294967296) by lia. congruence.
Qed.

Lemma bswap_bswap z : - 2 ^ 31 <= z < 2 ^ 31 -> bswap (bswap z) = z.
Proof.
  intros Hz. unfold bswap at 1.
  assert (H : le32 (bswap z) = [z / 16777216 mod 256; z / 65536 mod 256; z / 256 mod 256; z mod 256]).
  { unfold bswap. simpl. apply of_le32_digits; unfold is_byte; apply Z.mod_pos_bound; lia. }
  rewrite H. by apply le32_of_le32.
Qed.

Definition header_wf (h : HEADER) : Prop :=
  is_byte (version h) /\ is_byte (htype h) /\ is_byte (content h) /\
  List.length (reserved h) = 5%nat /\
  - 2 ^ 31 <= magic h < 2 ^ 31 /\ - 2 ^ 31 <= hlen h < 2 ^ 31.

Lemma read_header_bytes h rest : header_wf h -> read_header (header_bytes h ++ rest) = Ok h.
Proof.
  intros (_ & _ & _ & Hr & Hm & Hl). destruct h as [v t c r m l]. simpl in Hr, Hm, Hl.
  destruct r as [|r0 [|r1 [|r2 [|r3 [|r4 [|? ?]]]]]]; try done.
  unfold read_header.
  set (b := header_bytes {| version := v; htype := t; content := c;
    reserved := [r0; r1; r2; r3; r4]; magic := m; hlen := l |}).
  assert (Hs : slice (b ++ rest) 0 sizeof_HEADER = Ok b) by (by apply (slice_app [])).
  rewrite Hs. simpl. by rewrite !le32_of_le32.
Qed.

Lemma c_string_bytes_of s rest :
  Forall (fun b => b <> 0) (bytes_of s) -> c_string (bytes_of s ++ 0 :: rest) = s.
Proof.
  induction s as [|c s IH]; simpl; [done|]. intros [Hc Hs]%Forall_cons.
  destruct (Z.eqb_spec (Z.of_nat (nat_of_ascii c)) 0); [done|].
  unfold char_of. rewrite Nat2Z.id, ascii_nat_embedding. f_equal. by apply IH.
Qed.

Lemma length_bytes_of s : List.length (bytes_of s) = String.length s.
Proof. induction s as [|c s IH]; [done|]. simpl. by rewrite IH. Qed.
