(* ===== verification/Notice.v ===== *)
(** * XML notices ([xml.c], [xml_notice.c], [notice.c])

    A client may describe an event in XML. The parser (expat) is not part of
    the program: its callbacks are given as a list, in the order in which it
    makes them, and the functions below are the handlers. *)

From stdpp Require Import base list strings.
From Stdlib Require Import ZArith Lia Ascii String.
From S2P Require Import Prelude Events CString Wire.
Local Open Scope Z_scope.

(** ** Normalised text ([createXmlNormalizedString])

    [mem] is the memory from [s] on: the [len] characters of the text and
    whatever the parser's buffer holds behind them. The result has room for
    [len + 1] characters. *)

Definition is_char (b : Z) (c : ascii) : bool := b =? Z.of_nat (nat_of_ascii c).

(** [str] holds the [j] characters written so far, in reverse order, of a
    block of [size]. *)
Definition push_char (size : Z) (str : list Z) (b : Z) : res (list Z) :=
  if Z.of_nat (List.length str) <? size then Ok (b :: str) else Fault OutOfBounds.

Fixpoint normalize_loop (fuel : nat) (mem : list Z) (len i : Z) (str : list Z) : res (list Z) :=
  match fuel with
  | O => NoFuel
  | S fuel =>
      if i <? len then
        c ← rd mem i;
        if (c =? 10) || (c =? 9) then normalize_loop fuel mem len (i + 1) str
        else if c =? 32 then
          n ← rd mem (i + 1);
          if isalnum (char_of n) then
            str ← push_char (len + 1) str 32;
            str ← push_char (len + 1) str n;
            x ← rd mem (i + 2);            (* the case falls through *)
            str ← push_char (len + 1) str x;
            normalize_loop fuel mem len (i + 3) str
          else normalize_loop fuel mem len (i + 1) str
        else
          str ← push_char (len + 1) str c;
          normalize_loop fuel mem len (i + 1) str
      else mret str
  end.

(** [None] when the result is empty. *)
Definition createXmlNormalizedString (mem : list Z) (len : Z) : res (option string) :=
  str ← normalize_loop (S (Z.to_nat len)) mem len 0 [];
  str ← push_char (len + 1) str 0;
  let s := c_string (rev str) in
  match s with
  | EmptyString => mret None
  | _ => mret (Some s)
  end.

(** ** Notices *)

Record NOTICE : Type := {
  n_host : option string;
  n_client : option string;
  n_sound : option string;
  n_data : option string;
  n_type : Z;
  n_location : Z;
  n_priority : Z;
  n_volume : Z;
  n_dither : Z;
  n_metric : Z;
  n_flags : Z;
  n_date : option string   (* the text given to [strptime] *)
}.

Definition noticeCreateNotice : NOTICE :=
  {| n_host := None; n_client := None; n_sound := None; n_data := None; n_type := -1;
     n_location := -1; n_priority := -1; n_volume := -1; n_dither := -1; n_metric := -1;
     n_flags := 0; n_date := None |}.

(** The callbacks of the parser. *)
Inductive xml_call : Type :=
| XStart (tag : string) (attribs : list (string * string))
| XEnd (tag : string)
| XChar (mem : list Z) (len : Z).

Record CLIENT_PARSE_INFO : Type := {
  notice : NOTICE;
  current_tag : option string
}.

Definition xmlParseClientStart (tag_name : string) (i : CLIENT_PARSE_INFO) : CLIENT_PARSE_INFO :=
  {| notice := notice i; current_tag := Some tag_name |}.

Definition xmlParseClientEnd (tag_name : string) (i : CLIENT_PARSE_INFO) : CLIENT_PARSE_INFO := i.

(** The field that the text of tag [t] sets. *)
Definition set_notice (t s : string) (n : NOTICE) : NOTICE :=
  let u := u8 (atoi s) in
  if ci_eq t "host" then {| n_host := Some s; n_client := n_client n; n_sound := n_sound n;
    n_data := n_data n; n_type := n_type n; n_location := n_location n; n_priority := n_priority n;
    n_volume := n_volume n; n_dither := n_dither n; n_metric := n_metric n; n_flags := n_flags n;
    n_date := n_date n |}
  else if ci_eq t "data" then {| n_host := n_host n; n_client := n_client n; n_sound := n_sound n;
    n_data := Some s; n_type := n_type n; n_location := n_location n; n_priority := n_priority n;
    n_volume := n_volume n; n_dither := n_dither n; n_metric := n_metric n; n_flags := n_flags n;
    n_date := n_date n |}
  else if ci_eq t "client" then {| n_host := n_host n; n_client := Some s; n_sound := n_sound n;
    n_data := n_data n; n_type := n_type n; n_location := n_location n; n_priority := n_priority n;
    n_volume := n_volume n; n_dither := n_dither n; n_metric := n_metric n; n_flags := n_flags n;
    n_date := n_date n |}
  else if ci_eq t "sound" then {| n_host := n_host n; n_client := n_client n; n_sound := Some s;
    n_data := n_data n; n_type := n_type n; n_location := n_location n; n_priority := n_priority n;
    n_volume := n_volume n; n_dither := n_dither n; n_metric := n_metric n; n_flags := n_flags n;
    n_date := n_date n |}
  else if ci_eq t "type" then {| n_host := n_host n; n_client := n_client n; n_sound := n_sound n;
    n_data := n_data n; n_type := u; n_location := n_location n; n_priority := n_priority n;
    n_volume := n_volume n; n_dither := n_dither n; n_metric := n_metric n; n_flags := n_flags n;
    n_date := n_date n |}
  else if ci_eq t "location" then {| n_host := n_host n; n_client := n_client n; n_sound := n_sound n;
    n_data := n_data n; n_type := n_type n; n_location := u; n_priority := n_priority n;
    n_volume := n_volume n; n_dither := n_dither n; n_metric := n_metric n; n_flags := n_flags n;
    n_date := n_date n |}
  else if ci_eq t "priority" then {| n_host := n_host n; n_client := n_client n; n_sound := n_sound n;
    n_data := n_data n; n_type := n_type n; n_location := n_location n; n_priority := u;
    n_volume := n_volume n; n_dither := n_dither n; n_metric := n_metric n; n_flags := n_flags n;
    n_date := n_date n |}
  else if ci_eq t "volume" then {| n_host := n_host n; n_client := n_client n; n_sound := n_sound n;
    n_data := n_data n; n_type := n_type n; n_location := n_location n; n_priority := n_priority n;
    n_volume := u; n_dither := n_dither n; n_metric := n_metric n; n_flags := n_flags n;
    n_date := n_date n |}
  else if ci_eq t "dither" then {| n_host := n_host n; n_client := n_client n; n_sound := n_sound n;
    n_data := n_data n; n_type := n_type n; n_location := n_location n; n_priority := n_priority n;
    n_volume := n_volume n; n_dither := u; n_metric := n_metric n; n_flags := n_flags n;
    n_date := n_date n |}
  else if ci_eq t "flags" then {| n_host := n_host n; n_client := n_client n; n_sound := n_sound n;
    n_data := n_data n; n_type := n_type n; n_location := n_location n; n_priority := n_priority n;
    n_volume := n_volume n; n_dither := n_dither n; n_metric := n_metric n; n_flags := atoi s;
    n_date := n_date n |}
  else if ci_eq t "metric" then {| n_host := n_host n; n_client := n_client n; n_sound := n_sound n;
    n_data := n_data n; n_type := n_type n; n_location := n_location n; n_priority := n_priority n;
    n_volume := n_volume n; n_dither := n_dither n; n_metric := atoi s; n_flags := n_flags n;
    n_date := n_date n |}
  else if ci_eq t "date" then {| n_host := n_host n; n_client := n_client n; n_sound := n_sound n;
    n_data := n_data n; n_type := n_type n; n_location := n_location n; n_priority := n_priority n;
    n_volume := n_volume n; n_dither := n_dither n; n_metric := n_metric n; n_flags := n_flags n;
    n_date := Some s |}
  else n.

Definition xmlParseClientChar (mem : list Z) (len : Z) (i : CLIENT_PARSE_INFO)
  : res CLIENT_PARSE_INFO :=
  str ← createXmlNormalizedString mem len;
  match str with
  | None => mret i
  | Some s =>
      match current_tag i with
      | None => Fault NullDeref
      | Some t => mret {| notice := set_notice t s (notice i); current_tag := current_tag i |}
      end
  end.

(** [XML_Parse] making its callbacks. *)
Fixpoint client_calls (cs : list xml_call) (i : CLIENT_PARSE_INFO) : res CLIENT_PARSE_INFO :=
  match cs with
  | [] => mret i
  | XStart t _ :: cs => client_calls cs (xmlParseClientStart t i)
  | XEnd t :: cs => client_calls cs (xmlParseClientEnd t i)
  | XChar m l :: cs => i ← xmlParseClientChar m l i; client_calls cs i
  end.

Section Expat.
  (** The callbacks expat makes for a document. *)
  Context (expat : string -> list xml_call).

Definition xmlParseClientEvent (xml_string : string) (n : NOTICE) : res NOTICE :=
  i ← client_calls (expat xml_string) {| notice := n; current_tag := None |};
  mret (notice i).

Definition processEventNoticeString (xml_string : string) (n : NOTICE) : res NOTICE :=
  xmlParseClientEvent xml_string n.

End Expat.

(** [serverConvertNoticeToEngineEvent] on an uninitialised event; [None] when
    it returns without writing to it. *)
Definition serverConvertNoticeToEngineEvent (n : NOTICE) : option EVENT :=
  match n_sound n with
  | None => None
  | Some s =>
      Some {| type := u8 (n_type n); loc := u8 (n_location n); prior := u8 (n_priority n);
              vol := u8 (n_volume n); dither := u8 (n_dither n); flags := n_flags n;
              sound_len := i32 (strlen s); sound := Some s |}
  end.

(** ** Facts *)

Lemma push_char_Ok size str b :
  Z.of_nat (List.length str) < size -> push_char size str b = Ok (b :: str).
Proof. intros H. unfold push_char. destruct (Z.ltb_spec (Z.of_nat (List.length str)) size); [done|lia]. Qed.

Lemma push_char_returns size str b : returns (push_char size str b).
Proof. unfold push_char. solve_returns. Qed.

(** The loop ends, whatever is in the memory. *)
Lemma normalize_loop_returns fuel mem len i str :
  (Z.to_nat (len - i) < fuel)%nat -> returns (normalize_loop fuel mem len i str).
Proof.
  revert i str. induction fuel as [|fuel IH]; intros i str Hf; [lia|]. cbn [normalize_loop].
  destruct (Z.ltb_spec i len); [|discriminate].
  assert (forall k s, 0 < k -> returns (normalize_loop fuel mem len (i + k) s)) as IH'.
  { intros k s Hk. apply IH. lia. }
  pose proof (@rd_returns Z). pose proof push_char_returns.
  solve_returns; apply IH'; lia.
Qed.

Lemma client_calls_returns cs i : returns (client_calls cs i).
Proof.
  revert i. induction cs as [|[t a|t|m l] cs IH]; intros i; cbn [client_calls]; [discriminate|auto..|].
  apply bind_returns; [|auto]. unfold xmlParseClientChar, createXmlNormalizedString.
  solve_returns; try apply push_char_returns. apply normalize_loop_returns. lia.
Qed.

(** Text without blanks. *)
Definition plain_byte (b : Z) : Prop := 0 < b < 256 /\ b <> 10 /\ b <> 9 /\ b <> 32.

Lemma rd_middle (pre l : list Z) (k : nat) (x : Z) :
  l !! k = Some x -> rd (pre ++ l) (Z.of_nat (List.length pre + k)) = Ok x.
Proof. intros H. apply rd_nat. rewrite lookup_app_r by lia. rewrite <- H. f_equal. lia. Qed.

(** The loop over text without blanks. *)
Lemma normalize_plain text fuel rest len pre str :
  Forall plain_byte text -> (List.length str <= List.length pre)%nat ->
  Z.of_nat (List.length pre + List.length text) <= len ->
  normalize_loop (List.length text + fuel) (pre ++ text ++ rest) len
    (Z.of_nat (List.length pre)) str
  = normalize_loop fuel (pre ++ text ++ rest) len
      (Z.of_nat (List.length pre + List.length text)) (rev text ++ str).
Proof.
  revert pre str. induction text as [|b text IH]; intros pre str Hp Hs Hl.
  { simpl. by rewrite Nat.add_0_r. }
  apply Forall_cons in Hp as [Hb Hp]. cbn [List.length Nat.add normalize_loop] in *.
  destruct (Z.ltb_spec (Z.of_nat (List.length pre)) len); [|lia].
  rewrite <- (Nat.add_0_r (List.length pre)) at 1. rewrite (rd_middle pre _ 0 b) by done.
  cbn [mbind res_bind]. unfold plain_byte in Hb.
  destruct (Z.eqb_spec b 10); [lia|]. destruct (Z.eqb_spec b 9); [lia|].
  destruct (Z.eqb_spec b 32); [lia|]. simpl orb. cbv iota.
  rewrite push_char_Ok by lia. cbn [mbind res_bind].
  specialize (IH (pre ++ [b]) (b :: str) Hp). rewrite length_app in IH. simpl List.length in IH.
  rewrite <- !app_assoc in IH. simpl app in *.
  replace (Z.of_nat (List.length pre) + 1) with (Z.of_nat (List.length pre + 1)) by lia.
  rewrite IH by lia. rewrite <- app_assoc. simpl. do 2 f_equal. lia.
Qed.

Lemma c_string_cons text :
  Forall plain_byte text -> text <> [] -> exists c s, c_string (text ++ [0]) = String c s.
Proof.
  intros Hp Hne. destruct text as [|b text]; [done|]. apply Forall_cons in Hp as [[Hb _] _].
  simpl. destruct (Z.eqb_spec b 0); [lia|]. eauto.
Qed.

(** Text without blanks is copied. *)
Lemma createXmlNormalizedString_plain text rest :
  Forall plain_byte text -> text <> [] ->
  createXmlNormalizedString (text ++ rest) (Z.of_nat (List.length text))
    = Ok (Some (c_string (text ++ [0]))).
Proof.
  intros Hp Hne. unfold createXmlNormalizedString. rewrite Nat2Z.id.
  pose proof (normalize_plain text 1 rest (Z.of_nat (List.length text)) [] [] Hp) as Hn.
  rewrite app_nil_l, app_nil_r, Nat.add_1_r in Hn. simpl List.length in Hn.
  change (Z.of_nat 0) with 0 in Hn. rewrite Hn by lia. cbn [normalize_loop].
  rewrite Nat.add_0_l, Z.ltb_irrefl. cbn [mbind res_bind mret res_ret].
  rewrite push_char_Ok by (rewrite length_rev; lia).
  cbn [mbind res_bind]. simpl rev. rewrite rev_involutive.
  destruct (c_string_cons text Hp Hne) as (c & s & ->). done.
Qed.

(** The callbacks for a document that is a list of elements with text. *)
Definition element (t : string) (x : list Z) : list xml_call :=
  [XStart t []; XChar x (Z.of_nat (List.length x)); XEnd t].

Fixpoint elements (els : list (string * list Z)) : list xml_call :=
  match els with
  | [] => []
  | (t, x) :: els => element t x ++ elements els
  end.

Definition document (root : string) (els : list (string * list Z)) : list xml_call :=
  XStart root [] :: elements els ++ [XEnd root].

(** The notice a document describes: each text sets the field of its tag. *)
Fixpoint described (els : list (string * list Z)) (n : NOTICE) : NOTICE :=
  match els with
  | [] => n
  | (t, x) :: els => described els (set_notice t (c_string (x ++ [0])) n)
  end.

Definition plain_text (x : list Z) : Prop := Forall plain_byte x /\ x <> [].

Lemma client_calls_elements els cs i :
  Forall (fun tx => plain_text tx.2) els ->
  exists t, client_calls (elements els ++ cs) i =
    client_calls cs {| notice := described els (notice i); current_tag := t |}.
Proof.
  intros H. revert i. induction H as [|[t x] els [Hx Hne] _ IH]; intros i.
  { exists (current_tag i). by destruct i. }
  cbn [elements described]. rewrite <- app_assoc. cbn [element app client_calls].
  unfold xmlParseClientChar.
  pose proof (createXmlNormalizedString_plain x [] Hx Hne) as Hn. rewrite app_nil_r in Hn.
  rewrite Hn. cbn [mbind res_bind mret res_ret].
  apply IH.
Qed.

Lemma xml_client_event (expat : string -> list xml_call) (doc root : string)
    (els : list (string * list Z)) (n : NOTICE) :
  expat doc = document root els -> Forall (fun tx => plain_text tx.2) els ->
  processEventNoticeString expat doc n = Ok (described els n).
Proof.
  intros Hd Hp. unfold processEventNoticeString, xmlParseClientEvent. rewrite Hd. simpl.
  destruct (client_calls_elements els [XEnd root]
    (xmlParseClientStart root {| notice := n; current_tag := None |}) Hp) as [t E].
  by rewrite E.
Qed.

(** ** Properties *)

(** Text that ends in a blank and one letter or digit is written past the
    block allocated for it: the loop copies the character behind the text too,
    and the terminating null has no room left. *)
Theorem normalized_string_overflow (pre rest : list Z) (c x : Z) :
  Forall plain_byte pre -> isalnum (char_of c) = true ->
  createXmlNormalizedString (pre ++ 32 :: c :: x :: rest) (Z.of_nat (List.length pre) + 2)
    = Fault OutOfBounds.
Proof.
  intros Hp Hc. unfold createXmlNormalizedString.
  set (n := List.length pre). set (mem := pre ++ 32 :: c :: x :: rest).
  replace (S (Z.to_nat (Z.of_nat n + 2))) with (n + 3)%nat by lia.
  pose proof (normalize_plain pre 3 (32 :: c :: x :: rest) (Z.of_nat n + 2) [] [] Hp) as Hn.
  rewrite app_nil_l, app_nil_r in Hn. simpl List.length in Hn. change (Z.of_nat 0) with 0 in Hn.
  fold n mem in Hn. rewrite Hn by (unfold n; lia). cbn [normalize_loop Nat.add].
  destruct (Z.ltb_spec (Z.of_nat n) (Z.of_nat n + 2)); [|lia].
  assert (H0 : rd mem (Z.of_nat n) = Ok 32)
    by (rewrite <- (Nat.add_0_r n); by apply rd_middle).
  assert (H1 : rd mem (Z.of_nat n + 1) = Ok c)
    by (change 1 with (Z.of_nat 1); rewrite <- Nat2Z.inj_add; by apply rd_middle).
  assert (H2 : rd mem (Z.of_nat n + 2) = Ok x)
    by (change 2 with (Z.of_nat 2); rewrite <- Nat2Z.inj_add; by apply rd_middle).
  assert (Hr : List.length (rev pre) = n) by apply length_rev.
  rewrite H0. cbn [mbind res_bind Z.eqb Pos.eqb orb]. rewrite H1. cbn [mbind res_bind]. rewrite Hc.
  rewrite push_char_Ok by lia. cbn [mbind res_bind].
  rewrite push_char_Ok by (simpl; lia). cbn [mbind res_bind]. rewrite H2. cbn [mbind res_bind].
  rewrite push_char_Ok by (simpl; lia). cbn [mbind res_bind].
  destruct (Z.ltb_spec (Z.of_nat n + 3) (Z.of_nat n + 2)); [lia|].
  cbn [mbind res_bind mret res_ret]. unfold push_char. simpl List.length. rewrite Hr.
  destruct (Z.ltb_spec (Z.of_nat (S (S (S n)))) (Z.of_nat n + 2 + 1)); [lia|done].
Qed.

(** The text is "a", blank, "b"; the parser's buffer goes on with "<". *)
Lemma normalized_string_overflow_witness :
  createXmlNormalizedString (bytes_of "a b<") 3 = Fault OutOfBounds.
Proof.
  apply (normalized_string_overflow [97] [] 98 60); [|reflexivity].
  apply Forall_singleton. unfold plain_byte. lia.
Defined.
