(* ===== verification/NoticeMem.v ===== *)
(** * The memory of a notice ([notice.c], [xml_notice.c], [xml.c])

    [Notice] has the values of a notice; here is where its four strings are:
    the blocks that the handlers allocate, in a store, and what
    [noticeFreeNotice] gives back. *)

From stdpp Require Import base gmap list strings functions.
From Stdlib Require Import ZArith Lia Ascii String.
From S2P Require Import Prelude Events CString Wire Notice.
Local Open Scope Z_scope.

(** The members of [NOTICE] that point to strings. *)
Inductive string_field : Type := FHost | FClient | FSound | FData.

#[export] Instance string_field_eq_dec : EqDecision string_field.
Proof. solve_decision. Defined.

Definition blocks : Type := store string.
Notation NOTICE_STRINGS := (string_field -> option addr).

Definition no_strings : NOTICE_STRINGS := fun _ => None.

(** [noticeCreateNoticeString] with the [strcpy] that follows it. *)
Definition noticeCreateNoticeString (s : string) (st : blocks) : addr * blocks := s_alloc st s.

Definition noticeFreeNoticeString (p : option addr) (st : blocks) : res blocks := s_free st p.

Definition freeXmlNormalizedString (p : option addr) (st : blocks) : res blocks := s_free st p.

Definition free_field (p : NOTICE_STRINGS) (f : string_field) (st : blocks) : res blocks :=
  match p f with
  | Some a => noticeFreeNoticeString (Some a) st
  | None => mret st
  end.

(** The strings that [noticeFreeNotice] frees; the notice itself is a block
    of its own. *)
Definition noticeFreeNotice (p : NOTICE_STRINGS) (st : blocks) : res blocks :=
  st ← free_field p FHost st;
  st ← free_field p FClient st;
  st ← free_field p FSound st;
  free_field p FData st.

(** [executeEventNoticeHook]: all of its body is within a condition on
    [DEBUG_LEVEL & DBG_HOOK], which is 0 at every level, as both names are
    enumerators and none of them a macro. *)
Definition executeEventNoticeHook (xml : list Z) (p : NOTICE_STRINGS) (st : blocks) : blocks := st.

(** The member that the text of a tag is copied to. *)
Definition field_of (t : string) : option string_field :=
  if ci_eq t "host" then Some FHost
  else if ci_eq t "data" then Some FData
  else if ci_eq t "client" then Some FClient
  else if ci_eq t "sound" then Some FSound
  else None.

(** [xmlParseClientChar]: the normalised text is a block too. *)
Definition xmlParseClientChar_mem (mem : list Z) (len : Z) (tag : option string)
    (st : blocks) (p : NOTICE_STRINGS) : res (blocks * NOTICE_STRINGS) :=
  str ← createXmlNormalizedString mem len;
  match str with
  | None => mret (st, p)
  | Some s =>
      let (q, st) := s_alloc st s in
      match tag with
      | None => Fault NullDeref
      | Some t =>
          let (st, p) := match field_of t with
                         | Some f => let (a, st) := noticeCreateNoticeString s st in
                                     (st, <[f := Some a]> p)
                         | None => (st, p)
                         end in
          st ← freeXmlNormalizedString (Some q) st;
          mret (st, p)
      end
  end.

(** The callbacks of the parser, as [client_calls]. *)
Fixpoint client_calls_mem (cs : list xml_call) (tag : option string) (st : blocks)
    (p : NOTICE_STRINGS) : res (blocks * NOTICE_STRINGS) :=
  match cs with
  | [] => mret (st, p)
  | XStart t _ :: cs => client_calls_mem cs (Some t) st p
  | XEnd _ :: cs => client_calls_mem cs tag st p
  | XChar m l :: cs =>
      '(st, p) ← xmlParseClientChar_mem m l tag st p;
      client_calls_mem cs tag st p
  end.

(** The part of [serverProcessClientEvent] that deals with the memory of the
    notice: parsing, the hook and the release. *)
Definition notice_memory (cs : list xml_call) (xml : list Z) (st : blocks) : res blocks :=
  '(st, p) ← client_calls_mem cs None st no_strings;
  noticeFreeNotice p (executeEventNoticeHook xml p st).

(** ** Facts *)

Definition string_of (f : string_field) (n : NOTICE) : option string :=
  match f with FHost => n_host n | FClient => n_client n | FSound => n_sound n | FData => n_data n end.

(** The strings of [n] are in blocks of their own among those of [st]. *)
Record holds (st : blocks) (p : NOTICE_STRINGS) (n : NOTICE) : Prop := {
  holds_wf : store_wf st;
  holds_at f : string_of f n = match p f with Some a => cells st !! a | None => None end;
  holds_live f a : p f = Some a -> is_Some (cells st !! a);
  holds_inj f g a : p f = Some a -> p g = Some a -> f = g
}.

Lemma set_notice_strings t s n f :
  string_of f (set_notice t s n) = if decide (field_of t = Some f) then Some s else string_of f n.
Proof.
  unfold set_notice, field_of.
  repeat (case_if; [destruct f; reflexivity|]). destruct f; reflexivity.
Qed.

(** The texts a list of callbacks copies into a notice. *)
Fixpoint copied (cs : list xml_call) (tag : option string) : nat :=
  match cs with
  | [] => 0
  | XStart t _ :: cs => copied cs (Some t)
  | XEnd _ :: cs => copied cs tag
  | XChar m l :: cs =>
      match createXmlNormalizedString m l, tag with
      | Ok (Some _), Some t => match field_of t with Some _ => 1 | None => 0 end
      | _, _ => 0
      end + copied cs tag
  end%nat.

Lemma size_insert_fresh (m : gmap positive string) a s :
  m !! a = None -> size (<[a := s]> m) = S (size m).
Proof. apply map_size_insert_None. Qed.

(** A text that arrives: the blocks follow the values. *)
Lemma xmlParseClientChar_refines mem len st p i i' :
  holds st p (notice i) -> xmlParseClientChar mem len i = Ok i' ->
  exists st' p', xmlParseClientChar_mem mem len (current_tag i) st p = Ok (st', p') /\
    holds st' p' (notice i') /\ current_tag i' = current_tag i /\
    size (cells st') = (copied [XChar mem len] (current_tag i) + size (cells st))%nat.
Proof.
  intros Hh H. unfold xmlParseClientChar in H. unfold xmlParseClientChar_mem. cbn [copied].
  destruct (createXmlNormalizedString mem len) as [[s|]| |]; cbn [mbind res_bind] in *; try done.
  2:{ injection H as <-. eauto 10. }
  destruct (current_tag i) as [t|] eqn:Et; [|done]. injection H as <-. cbn [notice current_tag].
  destruct Hh as [Hwf Hat Hlive Hinj]. pose proof (store_wf_fresh st Hwf) as Hf.
  unfold noticeCreateNoticeString, freeXmlNormalizedString, s_alloc.
  destruct (field_of t) as [f|] eqn:Ef; cbn [s_free cells brk fst snd].
  - rewrite lookup_insert_ne, lookup_insert by lia. cbn [mbind res_bind mret res_ret].
    rewrite decide_True by done. cbn [mbind res_bind mret res_ret].
    rewrite delete_insert_ne, delete_insert_id by (done || lia).
    assert (Hf' : cells st !! (brk st + 1)%positive = None).
    { destruct (cells st !! (brk st + 1)%positive) eqn:E; [|done].
      assert (is_Some (cells st !! (brk st + 1)%positive)) as Hs%Hwf by eauto. lia. }
    assert (Hnew : forall g, p g <> Some (brk st + 1)%positive).
    { intros g Eg. apply Hlive in Eg as [x Hx]. by pose proof (eq_trans (eq_sym Hf') Hx). }
    eexists _, _. split; [reflexivity|]. split_and!; [|done|cbn [cells]; by rewrite size_insert_fresh].
    split; cbn [cells brk].
    + intros q. cbn [cells brk]. rewrite lookup_insert. case_decide; [lia|]. intros ?%Hwf. lia.
    + intros g. rewrite set_notice_strings, Ef. destruct (decide (f = g)) as [<-|Hne].
      * rewrite decide_True, fn_lookup_insert by done. by rewrite lookup_insert, decide_True.
      * rewrite decide_False, fn_lookup_insert_ne, Hat by congruence.
        destruct (p g) as [a|] eqn:Eg; [|done]. rewrite lookup_insert_ne; [done|].
        intros <-. by apply (Hnew g).
    + intros g a. destruct (decide (f = g)) as [<-|Hne].
      * rewrite fn_lookup_insert. intros [= <-]. rewrite lookup_insert, decide_True; eauto.
      * rewrite fn_lookup_insert_ne by done. intros Hg. rewrite lookup_insert. case_decide; eauto.
    + intros g g' a. destruct (decide (f = g)) as [<-|Hne], (decide (f = g')) as [<-|Hne'];
        rewrite ?fn_lookup_insert, ?fn_lookup_insert_ne by done; [done| | |apply Hinj].
      all: intros H1 H2; simplify_eq; naive_solver.
  - rewrite lookup_insert, decide_True by done. cbn [mbind res_bind mret res_ret].
    rewrite delete_insert_id by done.
    eexists _, _. split; [reflexivity|]. split_and!; [|done|done].
    split; cbn [cells brk]; [intros q; cbn [cells brk]; intros ?%Hwf; lia| |done|done].
    intros g. rewrite set_notice_strings, Ef, decide_False by done. apply Hat.
Qed.

Lemma client_calls_refines cs : forall st p i i',
  holds st p (notice i) -> client_calls cs i = Ok i' ->
  exists st' p', client_calls_mem cs (current_tag i) st p = Ok (st', p') /\
    holds st' p' (notice i') /\ size (cells st') = (copied cs (current_tag i) + size (cells st))%nat.
Proof.
  induction cs as [|[t a|t|m l] cs IH]; intros st p i i' Hh H; cbn [client_calls] in H.
  - injection H as <-. exists st, p. done.
  - exact (IH st p (xmlParseClientStart t i) i' Hh H).
  - exact (IH st p i i' Hh H).
  - apply bind_ok in H as (i1 & H1 & H).
    destruct (xmlParseClientChar_refines _ _ _ _ _ _ Hh H1) as (st1 & p1 & E1 & Hh1 & Ht & Hs).
    destruct (IH st1 p1 _ _ Hh1 H) as (st2 & p2 & E2 & Hh2 & Hs2). rewrite Ht in *.
    exists st2, p2. cbn [client_calls_mem]. rewrite E1. split_and!; [done|done|].
    rewrite Hs2, Hs. cbn [copied]. lia.
Qed.

(** The strings a notice has. *)
Definition set_strings (n : NOTICE) : nat :=
  List.length (omap (fun f => string_of f n) [FHost; FClient; FSound; FData]).

Fixpoint free_all (fs : list string_field) (p : NOTICE_STRINGS) (st : blocks) : res blocks :=
  match fs with
  | [] => mret st
  | f :: fs => st ← free_field p f st; free_all fs p st
  end.

Lemma noticeFreeNotice_all p st : noticeFreeNotice p st = free_all [FHost; FClient; FSound; FData] p st.
Proof.
  unfold noticeFreeNotice. cbn [free_all].
  repeat (destruct (free_field _ _ _) as [?| |]; cbn [mbind res_bind]; try done).
Qed.

Lemma free_all_ok p n fs : forall st,
  NoDup fs -> (forall f, f ∈ fs -> string_of f n = match p f with Some a => cells st !! a | None => None end) ->
  (forall f a, f ∈ fs -> p f = Some a -> is_Some (cells st !! a)) ->
  (forall f g a, p f = Some a -> p g = Some a -> f = g) ->
  exists st', free_all fs p st = Ok st' /\
    (List.length (omap (fun f => string_of f n) fs) + size (cells st') = size (cells st))%nat.
Proof.
  induction fs as [|f fs IH]; intros st Hnd Hat Hl Hinj; [by exists st|].
  apply list.NoDup_cons in Hnd as [Hf Hnd].
  assert (Hfl := Hat f ltac:(set_solver)). cbn [free_all].
  unfold free_field. cbn [omap list_omap]. destruct (p f) as [a|] eqn:Ep.
  - destruct (Hl f a ltac:(set_solver) Ep) as [s Hs]. rewrite Hs in Hfl.
    unfold noticeFreeNoticeString. rewrite (s_free_Some _ _ _ Hs), Hfl. cbn [List.length mbind res_bind].
    destruct (IH (Store (delete a (cells st)) (brk st))) as (st' & E & Hsz); [done| | |done|].
    + intros g Hg. rewrite Hat by set_solver. destruct (p g) as [b|] eqn:Eg; [|done]. cbn [cells].
      rewrite lookup_delete_ne; [done|]. intros <-. by rewrite (Hinj _ _ _ Ep Eg) in Hf.
    + intros g b Hg Eg. cbn [cells]. rewrite lookup_delete_ne; [apply (Hl g); [set_solver|done]|].
      intros <-. by rewrite (Hinj _ _ _ Ep Eg) in Hf.
    + exists st'. split; [exact E|]. cbn [cells] in Hsz. rewrite map_size_delete_Some in Hsz by eauto.
      assert (0 < size (cells st))%nat; [|lia].
      destruct (decide (cells st = ∅)) as [E0|E0]; [by rewrite E0 in Hs|].
      pose proof (map_size_non_empty_iff (cells st)) as [_ H0]. specialize (H0 E0). lia.
  - rewrite Hfl. cbn [mbind res_bind mret res_ret]. destruct (IH st) as (st' & E & Hsz); [done|set_solver|set_solver|done|].
    exists st'. done.
Qed.

(** ** Properties *)

(** C40: the memory of a notice. For every sequence of callbacks that the
    parser makes and the handlers get through, the blocks hold the strings of
    the notice, each in a block of its own; releasing the notice frees each of
    them once and uses no block that is gone; and the blocks that are left are
    the texts that another text for the same member had replaced: as many as
    the texts copied less the strings the notice has in the end. *)
Theorem notice_memory_leak (cs : list xml_call) (xml : list Z) (i : CLIENT_PARSE_INFO) :
  client_calls cs {| notice := noticeCreateNotice; current_tag := None |} = Ok i ->
  exists st p st', client_calls_mem cs None empty_store no_strings = Ok (st, p) /\
    (forall f, string_of f (notice i) = match p f with Some a => cells st !! a | None => None end) /\
    notice_memory cs xml empty_store = Ok st' /\
    (size (cells st') + set_strings (notice i) = copied cs None)%nat.
Proof.
  intros H. edestruct (client_calls_refines cs empty_store no_strings
    {| notice := noticeCreateNotice; current_tag := None |} i) as (st & p & E & Hh & Hs);
    [|exact H|].
  { split; [intros q [x Hx]; discriminate Hx|by intros []|done|done]. }
  cbn [current_tag] in *. destruct Hh as [_ Hat Hl Hi].
  destruct (free_all_ok p (notice i) [FHost; FClient; FSound; FData] st) as (st' & Ef & Hsz);
    [|intros f _; apply Hat|intros f a _; apply Hl|done|].
  { refine (bool_decide_unpack _ _). by vm_compute. }
  exists st, p, st'. split; [done|]. split; [done|]. split.
  - unfold notice_memory. rewrite E. cbn [mbind res_bind]. by rewrite noticeFreeNotice_all.
  - unfold set_strings. rewrite Hs in Hsz. cbn [cells empty_store] in Hsz. rewrite map_size_empty in Hsz. lia.
Qed.

(** A notice with two hosts and a sound: the first host stays allocated. *)
Lemma notice_memory_leak_witness :
  let cs := document "notice" [("host", bytes_of "a"); ("host", bytes_of "b"); ("sound", bytes_of "c")] in
  exists i st p st', client_calls cs {| notice := noticeCreateNotice; current_tag := None |} = Ok i /\
    client_calls_mem cs None empty_store no_strings = Ok (st, p) /\
    notice_memory cs [] empty_store = Ok st' /\ (size (cells st') + 2 = 3)%nat.
Proof.
  intros cs. eexists. edestruct (notice_memory_leak cs []) as (st & p & st' & H1 & _ & H2 & H3);
    [vm_compute; reflexivity|].
  exists st, p, st'. split; [vm_compute; reflexivity|]. split; [exact H1|]. split; [exact H2|]. exact H3.
Defined.
