(* ===== verification/Server.v ===== *)
(** * The part common to the servers ([server.c])

    The class identifier, the broadcast packets and the decoding of the events
    that clients send. A datagram that is sent is recorded with the address
    and the port it goes to. *)

From stdpp Require Import base list strings.
From Stdlib Require Import ZArith Lia Ascii String.
From S2P Require Import Prelude Events CString Wire Notice.
Local Open Scope Z_scope.
Local Open Scope list_scope.

Definition SERVER_SUCCESS : Z := 1.
Definition SERVER_FAILURE : Z := -1.
Definition SERVER_ALLOC_FAILED : Z := -2.
Definition INADDR_BROADCAST : Z := 4294967295.

Record datagram : Type := { to_host : Z; to_port : Z; payload : list Z }.

Record server : Type := {
  identifier : option string;
  port : Z;
  broadcast_list : list Z;
  sent : list datagram
}.

Definition with_id (s : server) i :=
  {| identifier := i; port := port s; broadcast_list := broadcast_list s; sent := sent s |}.
Definition with_sent (s : server) d :=
  {| identifier := identifier s; port := port s; broadcast_list := broadcast_list s; sent := d |}.

Definition serverSetPort (p : Z) (s : server) : server :=
  {| identifier := identifier s; port := p; broadcast_list := broadcast_list s; sent := sent s |}.

Definition serverGetPort (s : server) : Z := port s.

(** [ok]: whether the allocation succeeds. *)
Definition serverAddBroadcastPort (ok : bool) (p : Z) (s : server) : Z * server :=
  if ok then (SERVER_SUCCESS, {| identifier := identifier s; port := port s;
                                 broadcast_list := broadcast_list s ++ [p]; sent := sent s |})
  else (SERVER_FAILURE, s).

(** ** Class identifiers *)

Definition serverAddIDClass (ok : bool) (class : string) (s : server) : Z * server :=
  if ok then
    match identifier s with
    | None => (SERVER_SUCCESS, with_id s (Some (class +:+ PROT_CLASSDELIM)))
    | Some i => (SERVER_SUCCESS, with_id s (Some (i +:+ class +:+ PROT_CLASSDELIM)))
    end
  else (SERVER_ALLOC_FAILED, with_id s None).

Definition serverGetIDString (s : server) : option string := identifier s.

Definition serverContainsIDClass (class : string) (s : server) : bool :=
  match identifier s with
  | None => false
  | Some i => strstr i (class +:+ PROT_CLASSDELIM)
  end.

(** ** Packets to clients *)

(** Only server broadcasts are handled. *)
Definition createPacketBuffer (h : HEADER) (body : string) : option (list Z) :=
  if htype h =? PROT_BC_SERVER then Some (header_bytes h ++ bytes_of body ++ [0]) else None.

(** The announcement of a server. [junk] are the reserved bytes of the header:
    null where the packet is cleared before it is filled in, indeterminate
    where it is not. *)
Definition announcement (junk : list Z) (id : string) : HEADER :=
  {| version := PROT_VERSION; htype := PROT_BC_SERVER; content := PROT_CONTENT_MSG;
     reserved := junk; magic := htonl PROT_MAGIC_NUMBER; hlen := htonl (strlen id) |}.

Definition send_announcement (junk : list Z) (host hport : Z) (s : server) : res server :=
  match identifier s with
  | None => Fault NullDeref
  | Some id =>
      match createPacketBuffer (announcement junk id) id with
      | None => Fault NullDeref
      | Some b => Ok (with_sent s (sent s ++ [{| to_host := host; to_port := hport; payload := b |}]))
      end
  end.

Fixpoint broadcast_loop (ports : list Z) (s : server) : res server :=
  match ports with
  | [] => Ok s
  | p :: ports =>
      s ← send_announcement [0; 0; 0; 0; 0] INADDR_BROADCAST (u16 p) s;
      broadcast_loop ports s
  end.

(** [ok]: whether the calls that set up the socket succeed; [fd] is it. *)
Definition initializeBroadcast (ok : bool) (fd : Z) (s : server) : res (Z * server) :=
  if ok then
    let s := match identifier s with None => with_id s (Some "") | Some _ => s end in
    s ← broadcast_loop (broadcast_list s) s;
    mret (fd, s)
  else mret (SERVER_FAILURE, s).

Definition serverRespondToClient (junk : list Z) (newhost host_port : Z) (s : server) : res server :=
  send_announcement junk newhost host_port s.

(** ** Broadcasts of clients *)

(** The loop over the classes a client names, in the block [mem]; [act] is
    done once, when a class is found. *)
Fixpoint classes_loop {S} (fuel : nat) (id : server) (mem : list Z) (q : Z) (act : S -> res S) (s : S)
  : res S :=
  match fuel with
  | O => NoFuel
  | Datatypes.S fuel =>
      c ← rd mem q;
      if (c =? 0) || isspace (char_of c) then mret s
      else if is_char c "!" then
        mem ← wr mem q 0;
        class ← c_string_at mem q;
        if serverContainsIDClass class id then act s
        else classes_loop fuel id mem (q + 1) act s
      else classes_loop fuel id mem (q + 1) act s
  end.

Definition serverProcessClientBC (junk : list Z) (id_string : list Z) (id_len : Z)
    (host hport : Z) (s : server) : res server :=
  mem ← wr id_string id_len 0;
  classes_loop (Datatypes.S (List.length mem)) s mem 0 (serverRespondToClient junk host hport) s.

(** [buffer] is the receive buffer: the datagram followed by whatever was in
    it before. Its size is not compared with the length in the header. *)
Definition receiveUDPPacket (junk : list Z) (buffer : list Z) (host hport : Z) (s : server) : res server :=
  h ← read_header buffer;
  let h := host_order h in
  if negb (magic_ok h) then mret s
  else if htype h =? PROT_BC_SERVER then mret s
  else if htype h =? PROT_BC_CLIENT then
    body ← slice buffer sizeof_HEADER (hlen h);
    serverProcessClientBC junk (body ++ [0]) (hlen h) host hport s
  else mret s.

(** ** Events of clients

    The result is the event that is put into the engine queue. *)

(** The event whose fixed part is [l], its string being in [data]. *)
Definition event_of (l data : list Z) : res EVENT :=
  match l with
  | [t; lo; pr; v; d; _; _; _; f0; f1; f2; f3; s0; s1; s2; s3] =>
      snd ← slice data sizeof_EVENT_wire (ntohl (of_le32 s0 s1 s2 s3));
      mret {| type := t; loc := lo; prior := pr; vol := v; dither := d;
              flags := ntohl (of_le32 f0 f1 f2 f3); sound_len := ntohl (of_le32 s0 s1 s2 s3);
              sound := Some (c_string (snd ++ [0])) |}
  | _ => Fault OutOfBounds
  end.

(** The event in the first 16 bytes of a packet body, converted to the byte
    order of the host, with its string behind it. *)
Definition read_event (data : list Z) : res EVENT :=
  l ← slice data 0 sizeof_EVENT_wire;
  event_of l data.

Section Expat.
  Context (expat : string -> list xml_call).

(** XML: the [len] bytes of the body are copied, parsed, and the notice is
    turned into an event. When the notice names no sound, the event that is
    enqueued has not been written. *)
Definition process_xml (msg : list Z) (len : Z) : res EVENT :=
  l ← slice msg 0 len;
  n ← processEventNoticeString expat (c_string (l ++ [0])) noticeCreateNotice;
  match serverConvertNoticeToEngineEvent n with
  | None => Fault UninitRead
  | Some e => mret e
  end.

Definition serverProcessClientEvent (cont : Z) (msg : list Z + EVENT) (msg_len : Z) : res (option EVENT) :=
  if cont =? PROT_CONTENT_XML then
    match msg with
    | inl m => e ← process_xml m msg_len; mret (Some e)
    | inr _ => Fault BadCast
    end
  else if cont =? PROT_CONTENT_EVENT then
    match msg with inr e => mret (Some e) | inl _ => Fault BadCast end
  else mret None.

(** What [packet->body] is after [serverProcessClientEventPacket]. *)
Inductive body_ptr : Type :=
| BUninit      (* never assigned *)
| BNull
| BHeap        (* a block on the heap *)
| BFreed       (* a block that was freed *)
| BInterior.   (* into the receive buffer *)

Definition serverProcessClientEventPacket (h : HEADER) (data_buffer : list Z) (body : body_ptr)
  : res (option EVENT * body_ptr) :=
  if content h =? PROT_CONTENT_XML then
    e ← serverProcessClientEvent (content h) (inl data_buffer) (hlen h);
    mret (e, BInterior)
  else if content h =? PROT_CONTENT_EVENT then
    e ← read_event data_buffer;
    e ← serverProcessClientEvent (content h) (inr e) (hlen h);
    mret (e, BNull)
  else mret (None, body).

End Expat.

Definition serverShutdown (s : server) : server :=
  {| identifier := None; port := port s; broadcast_list := broadcast_list s; sent := sent s |}.

(** ** Facts *)

(** Whether a client's list has a delimiter before its first blank. *)
Fixpoint has_delim (l : list Z) : bool :=
  match l with
  | [] => false
  | b :: l => if (b =? 0) || isspace (char_of b) then false
              else is_char b "!" || has_delim l
  end.

Lemma c_string_at_null pre l :
  c_string_at (pre ++ 0 :: l) (Z.of_nat (List.length pre)) = Ok "".
Proof.
  unfold c_string_at. rewrite decide_True by (rewrite length_app; simpl; lia).
  rewrite Nat2Z.id, drop_app_length. done.
Qed.

(** The class that is looked up is always the empty string. *)
Lemma classes_loop_spec {S} (id : server) (act : S -> res S) (s : S) fuel pre l :
  (List.length l < fuel)%nat ->
  classes_loop fuel id (pre ++ l ++ [0]) (Z.of_nat (List.length pre)) act s =
    if has_delim l && serverContainsIDClass "" id then act s else Ok s.
Proof.
  revert pre l. induction fuel as [|fuel IH]; intros pre l Hf; [lia|]. cbn [classes_loop].
  destruct l as [|b l].
  - rewrite <- (Nat.add_0_r (List.length pre)), (rd_middle pre _ 0 0) by done. done.
  - rewrite <- (Nat.add_0_r (List.length pre)) at 1. rewrite (rd_middle pre _ 0 b) by done.
    cbn [mbind res_bind has_delim]. destruct (_ || _); [done|].
    assert (Hq : Z.of_nat (List.length pre) + 1 = Z.of_nat (List.length pre + 1)) by lia.
    simpl in Hf. destruct (is_char b "!").
    + rewrite wr_in_bounds by (rewrite length_app; simpl; lia). cbn [mbind res_bind].
      rewrite Nat2Z.id, insert_app_r_alt, Nat.sub_diag by lia.
      change (<[0%nat := 0]> ((b :: l) ++ [0])) with (0 :: l ++ [0]).
      rewrite c_string_at_null. cbn [mbind res_bind].
      destruct (serverContainsIDClass "" id) eqn:Ec; [done|].
      specialize (IH (pre ++ [0]) l). rewrite length_app, <- app_assoc in IH.
      cbn [app List.length] in IH.
      rewrite Hq, IH by lia. by rewrite !andb_false_r.
    + specialize (IH (pre ++ [b]) l). rewrite length_app, <- app_assoc in IH.
      cbn [app List.length] in IH.
      rewrite Hq. simpl app. by rewrite IH by lia.
Qed.

Lemma slice_returns buf off n : returns (slice buf off n).
Proof. unfold slice. solve_returns. Qed.

Lemma read_header_returns buf : returns (read_header buf).
Proof. unfold read_header. pose proof slice_returns. solve_returns. Qed.

Lemma client_event_packet_returns expat h data b :
  returns (serverProcessClientEventPacket expat h data b).
Proof.
  pose proof slice_returns. unfold serverProcessClientEventPacket, serverProcessClientEvent,
    process_xml, read_event, event_of, processEventNoticeString, xmlParseClientEvent.
  solve_returns. all: apply client_calls_returns.
Qed.

(** *** Identifiers *)

Fixpoint no_delim (s : string) : bool :=
  match s with
  | EmptyString => true
  | String c s => negb (bool_decide (c = "!"%char)) && no_delim s
  end.

(** The identifier made of [cs]. *)
Fixpoint ident (cs : list string) : string :=
  match cs with
  | [] => ""
  | c :: cs => c +:+ PROT_CLASSDELIM +:+ ident cs
  end.

Fixpoint is_suffix (c w : string) : bool :=
  bool_decide (c = w) || match w with EmptyString => false | String _ w => is_suffix c w end.

Lemma prefix_delim c w rest :
  no_delim c = true -> no_delim w = true ->
  String.prefix (c +:+ "!") (w +:+ "!" +:+ rest) = bool_decide (c = w).
Proof.
  revert w. induction c as [|a c IH]; intros [|b w] Hc Hw.
  - rewrite bool_decide_true by done. apply (prefix_app "!" rest).
  - rewrite bool_decide_false by done. rewrite string_app_cons.
    change ("" +:+ "!") with (String "!" ""). rewrite prefix_cons. case_decide; [|done].
    subst. done.
  - rewrite bool_decide_false by done. rewrite string_app_cons.
    change ("" +:+ "!" +:+ rest) with (String "!" rest). rewrite prefix_cons. case_decide; [|done].
    subst. done.
  - rewrite !string_app_cons, prefix_cons. simpl in Hc, Hw.
    apply andb_true_iff in Hc as [_ Hc], Hw as [_ Hw].
    case_decide as Hab; [|rewrite bool_decide_false; congruence].
    rewrite IH by done. subst. apply bool_decide_ext. split; congruence.
Qed.

Lemma strstr_empty c : strstr "" (c +:+ "!") = false.
Proof. by destruct c. Qed.

Lemma strstr_delim c w rest :
  no_delim c = true -> no_delim w = true ->
  strstr (w +:+ "!" +:+ rest) (c +:+ "!") = is_suffix c w || strstr rest (c +:+ "!").
Proof.
  intros Hc. induction w as [|b w IH]; intros Hw; rewrite strstr_eq, prefix_delim by done.
  - simpl. by rewrite orb_false_r.
  - cbn [is_suffix]. rewrite string_app_cons. simpl in Hw. apply andb_true_iff in Hw as [_ Hw].
    rewrite IH by done. by rewrite orb_assoc.
Qed.

Lemma strstr_ident c cs :
  no_delim c = true -> Forall (fun w => no_delim w = true) cs ->
  strstr (ident cs) (c +:+ "!") = existsb (is_suffix c) cs.
Proof.
  intros Hc H. induction H as [|w cs Hw _ IH]; [apply strstr_empty|].
  cbn [ident existsb]. rewrite strstr_delim by done. by rewrite IH.
Qed.

(** Adding the classes [cs], in order. *)
Fixpoint add_classes (cs : list string) (s : server) : server :=
  match cs with
  | [] => s
  | c :: cs => add_classes cs (serverAddIDClass true c s).2
  end.

Lemma string_app_nil (a : string) : a +:+ "" = a.
Proof. induction a as [|x a IH]; [done|]. by rewrite string_app_cons, IH. Qed.

Lemma add_classes_ident cs s i :
  identifier s = Some i -> identifier (add_classes cs s) = Some (i +:+ ident cs).
Proof.
  revert s i. induction cs as [|c cs IH]; intros s i Hi; cbn [add_classes ident].
  - by rewrite Hi, string_app_nil.
  - rewrite (IH _ (i +:+ c +:+ PROT_CLASSDELIM)).
    + by rewrite !string_app_assoc.
    + unfold serverAddIDClass. rewrite Hi. done.
Qed.

Lemma add_classes_fresh c cs s :
  identifier s = None -> identifier (add_classes (c :: cs) s) = Some (ident (c :: cs)).
Proof.
  intros Hi. cbn [add_classes ident]. rewrite (add_classes_ident _ _ (c +:+ PROT_CLASSDELIM)).
  - by rewrite string_app_assoc.
  - unfold serverAddIDClass. by rewrite Hi.
Qed.

(** ** Properties *)

(** The class identifier after the classes [c :: cs] were added: the
    server answers to a class exactly when the class is a suffix of one of its
    own, so to its own classes and to any ending of them. *)
Theorem class_membership (c w : string) (cs : list string) (s : server) :
  identifier s = None -> no_delim w = true -> Forall (fun x => no_delim x = true) (c :: cs) ->
  serverContainsIDClass w (add_classes (c :: cs) s) = existsb (is_suffix w) (c :: cs).
Proof.
  intros Hi Hw Hcs. unfold serverContainsIDClass. rewrite add_classes_fresh by done.
  by apply strstr_ident.
Qed.

(** A client that broadcasts a list of classes is answered exactly when
    the list has a delimiter before its first blank and the server has any
    class at all: the class that is looked up is the empty string, because the
    pointer to its end is passed. *)
Theorem client_broadcast_answer (junk ids : list Z) (host hport : Z) (s : server) :
  serverProcessClientBC junk (ids ++ [0]) (Z.of_nat (List.length ids)) host hport s =
    if has_delim ids && serverContainsIDClass "" s
    then serverRespondToClient junk host hport s else Ok s.
Proof.
  unfold serverProcessClientBC.
  rewrite wr_in_bounds by (rewrite length_app; simpl; lia). cbn [mbind res_bind].
  rewrite Nat2Z.id, insert_app_r_alt by lia. rewrite Nat.sub_diag. simpl insert.
  apply (classes_loop_spec s _ s _ [] ids). rewrite length_app. simpl. lia.
Qed.

(** *** The event format *)

(** A 32-bit integer in network byte order. *)
Definition be32 (z : Z) : list Z := rev (le32 z).

(** The fixed part of an event whose string has [n] bytes, as a client sends
    it; [r0] to [r2] are the reserved bytes. *)
Definition event_head (e : EVENT) (r0 r1 r2 n : Z) : list Z :=
  [type e; loc e; prior e; vol e; dither e; r0; r1; r2] ++ be32 (flags e) ++ be32 n.

Lemma ntohl_be32 z :
  - 2 ^ 31 <= z < 2 ^ 31 ->
  ntohl (of_le32 (z / 16777216 mod 256) (z / 65536 mod 256) (z / 256 mod 256) (z mod 256)) = z.
Proof. apply bswap_bswap. Qed.

Lemma event_of_head e r0 r1 r2 n data :
  - 2 ^ 31 <= n < 2 ^ 31 -> - 2 ^ 31 <= flags e < 2 ^ 31 ->
  event_of (event_head e r0 r1 r2 n) data =
    (snd ← slice data 16 n;
     mret {| type := type e; loc := loc e; prior := prior e; vol := vol e; dither := dither e;
             flags := flags e; sound_len := n; sound := Some (c_string (snd ++ [0])) |}).
Proof. intros Hn Hf. unfold event_of, event_head, be32. simpl. by rewrite !ntohl_be32. Qed.

Lemma read_event_head e r0 r1 r2 n data :
  - 2 ^ 31 <= n < 2 ^ 31 -> - 2 ^ 31 <= flags e < 2 ^ 31 ->
  read_event (event_head e r0 r1 r2 n ++ data) =
    (snd ← slice (event_head e r0 r1 r2 n ++ data) 16 n;
     mret {| type := type e; loc := loc e; prior := prior e; vol := vol e; dither := dither e;
             flags := flags e; sound_len := n; sound := Some (c_string (snd ++ [0])) |}).
Proof.
  intros Hn Hf. unfold read_event.
  assert (Hs : slice (event_head e r0 r1 r2 n ++ data) 0 sizeof_EVENT_wire
               = Ok (event_head e r0 r1 r2 n)) by (by apply (slice_app [] _ data)).
  rewrite Hs. cbn [mbind res_bind]. by apply event_of_head.
Qed.

(** C28: an event that a client encodes is the event the server enqueues: for
    a packet body that holds the whole string, whatever follows it in the
    buffer. *)
Theorem event_packet_roundtrip (expat : string -> list xml_call) (h : HEADER) (e : EVENT)
    (s : string) (r0 r1 r2 : Z) (rest : list Z) (b : body_ptr) :
  content h = PROT_CONTENT_EVENT -> - 2 ^ 31 <= flags e < 2 ^ 31 -> sound e = Some s ->
  sound_len e = Z.of_nat (List.length (bytes_of s)) -> sound_len e < 2 ^ 31 ->
  Forall (fun b => b <> 0) (bytes_of s) ->
  serverProcessClientEventPacket expat h
    (event_head e r0 r1 r2 (sound_len e) ++ bytes_of s ++ rest) b = Ok (Some e, BNull).
Proof.
  intros Hc Hf Hs Hl Hl2 Hz. unfold serverProcessClientEventPacket. rewrite Hc.
  change (PROT_CONTENT_EVENT =? PROT_CONTENT_XML) with false.
  change (PROT_CONTENT_EVENT =? PROT_CONTENT_EVENT) with true. cbv iota.
  rewrite read_event_head by lia.
  rewrite (slice_app (event_head e r0 r1 r2 (sound_len e)) (bytes_of s) rest) by done.
  cbn [mbind res_bind mret res_ret]. rewrite c_string_bytes_of by done.
  destruct e as [t lo p v d f n so]. simpl in *. by subst.
Qed.

(** The length of the string in an event packet is not compared with the
    size of the packet: a length that goes beyond the receive buffer, or a
    negative one, makes the server read outside of it. *)
Theorem event_packet_overread (expat : string -> list xml_call) (h : HEADER) (e : EVENT)
    (r0 r1 r2 n : Z) (data : list Z) (b : body_ptr) :
  content h = PROT_CONTENT_EVENT -> - 2 ^ 31 <= flags e < 2 ^ 31 -> - 2 ^ 31 <= n < 2 ^ 31 ->
  n < 0 \/ Z.of_nat (List.length data) < n ->
  serverProcessClientEventPacket expat h (event_head e r0 r1 r2 n ++ data) b = Fault OutOfBounds.
Proof.
  intros Hc Hf Hn Hbad. unfold serverProcessClientEventPacket. rewrite Hc.
  change (PROT_CONTENT_EVENT =? PROT_CONTENT_XML) with false.
  change (PROT_CONTENT_EVENT =? PROT_CONTENT_EVENT) with true. cbv iota.
  rewrite read_event_head by lia. rewrite slice_out; [done|lia|].
  rewrite length_app. change (List.length (event_head e r0 r1 r2 n)) with 16%nat. lia.
Qed.

(** A client event in XML becomes the event of the notice it describes,
    each number reduced to a byte, a field that is missing becoming 255; and
    when the document has no sound, the event that is put into the engine
    queue was never written. *)
Theorem xml_event_enqueued (expat : string -> list xml_call) (h : HEADER) (doc root : string)
    (els : list (string * list Z)) (rest : list Z) (b : body_ptr) :
  content h = PROT_CONTENT_XML -> hlen h = Z.of_nat (List.length (bytes_of doc)) ->
  Forall (fun b => b <> 0) (bytes_of doc) ->
  expat doc = document root els -> Forall (fun tx => plain_text tx.2) els ->
  let n := described els noticeCreateNotice in
  serverProcessClientEventPacket expat h (bytes_of doc ++ rest) b =
    match n_sound n with
    | None => Fault UninitRead
    | Some s => Ok (Some {| type := u8 (n_type n); loc := u8 (n_location n);
                            prior := u8 (n_priority n); vol := u8 (n_volume n);
                            dither := u8 (n_dither n); flags := n_flags n;
                            sound_len := i32 (strlen s); sound := Some s |}, BInterior)
    end.
Proof.
  intros Hc Hl Hz He Hp n. unfold serverProcessClientEventPacket, serverProcessClientEvent, process_xml.
  rewrite Hc. change (PROT_CONTENT_XML =? PROT_CONTENT_XML) with true. cbv iota.
  rewrite Hl, (slice_app [] (bytes_of doc) rest) by done. cbn [mbind res_bind].
  rewrite c_string_bytes_of by done.
  rewrite (xml_client_event expat doc root els) by done. cbn [mbind res_bind].
  fold n. unfold serverConvertNoticeToEngineEvent. by destruct (n_sound n).
Qed.

(** ** Witnesses *)

Definition blank_server : server :=
  {| identifier := None; port := 2001; broadcast_list := []; sent := [] |}.

(** "a" is answered as a class although only "alpha" and "beta" were added. *)
Lemma class_membership_witness :
  serverContainsIDClass "a" (add_classes ["alpha"; "beta"] blank_server) = true.
Proof.
  rewrite (class_membership "alpha" "a" ["beta"] blank_server); [reflexivity|reflexivity|reflexivity|].
  by repeat constructor.
Defined.

Definition ev_header (c : Z) (n : Z) : HEADER :=
  {| version := 2; htype := PROT_CLIENT_EVENT; content := c; reserved := [0; 0; 0; 0; 0];
     magic := i32 PROT_MAGIC_NUMBER; hlen := n |}.

Definition sample_ev (n : Z) : EVENT :=
  {| type := 0; loc := 128; prior := 3; vol := 200; dither := 255; flags := -2; sound_len := n;
     sound := Some "click" |}.

Lemma event_packet_roundtrip_witness :
  serverProcessClientEventPacket (fun _ => []) (ev_header PROT_CONTENT_EVENT 21)
    (event_head (sample_ev 5) 0 0 0 5 ++ bytes_of "click" ++ [7; 7]) BUninit
  = Ok (Some (sample_ev 5), BNull).
Proof.
  apply event_packet_roundtrip; [reflexivity|simpl; lia|reflexivity|reflexivity|simpl; lia|].
  by repeat constructor.
Defined.

Lemma event_packet_overread_witness :
  serverProcessClientEventPacket (fun _ => []) (ev_header PROT_CONTENT_EVENT 21)
    (event_head (sample_ev 5) 0 0 0 5000 ++ replicate 480 0) BUninit = Fault OutOfBounds.
Proof. apply event_packet_overread; [reflexivity|simpl; lia|lia|right; simpl; lia]. Defined.

(** An XML event that only names a type. *)
Lemma xml_event_enqueued_witness :
  serverProcessClientEventPacket (fun _ => document "notice" [("type", bytes_of "0")])
    (ev_header PROT_CONTENT_XML 9) (bytes_of "<notice/>" ++ [0]) BUninit = Fault UninitRead.
Proof.
  apply (xml_event_enqueued _ (ev_header PROT_CONTENT_XML 9) "<notice/>" "notice"
           [("type", bytes_of "0")] [0] BUninit); try reflexivity; [by repeat constructor|].
  repeat constructor; try done; unfold plain_byte; simpl; lia.
Defined.
