(* ===== verification/UdpServer.v ===== *)
(** * The UDP server ([udp_server.c])

    It keeps a linked list of the clients that hold a lease, in a store of
    heap blocks so that dangling pointers are seen, and handles one datagram
    after the other with a packet structure that is never cleared. *)

From stdpp Require Import base gmap list sets strings.
From Stdlib Require Import ZArith Lia Ascii String.
From S2P Require Import Prelude Events CString Wire Notice Server.
Local Open Scope Z_scope.
Local Open Scope list_scope.

Definition PROT_SERVER_LEASE_MIN : Z := 5.
Definition PROT_SERVER_LEASE_SEC : Z := 0.
Definition PROT_SERVER_WAKEUP_MIN : Z := 4.
Definition PROT_SERVER_WAKEUP_SEC : Z := 30.
Definition PROT_WAKEUPS_BEFORE_EXPIRED : Z := 2.

Record leaselist : Type := {
  l_host : Z;
  l_port : Z;
  l_expired : timeval;
  nextent : option addr
}.

Record udp : Type := {
  srv : server;
  hlhead : option addr;
  leases : store leaselist;
  body : body_ptr;
  data_buffer : list Z
}.

Definition with_srv (u : udp) s :=
  {| srv := s; hlhead := hlhead u; leases := leases u; body := body u;
     data_buffer := data_buffer u |}.
Definition with_leases (u : udp) h l :=
  {| srv := srv u; hlhead := h; leases := l; body := body u;
     data_buffer := data_buffer u |}.
Definition with_body (u : udp) b :=
  {| srv := srv u; hlhead := hlhead u; leases := leases u; body := b;
     data_buffer := data_buffer u |}.

Definition with_data_buffer (u : udp) d :=
  {| srv := srv u; hlhead := hlhead u; leases := leases u; body := body u; data_buffer := d |}.

Definition set_expired (n : leaselist) t :=
  {| l_host := l_host n; l_port := l_port n; l_expired := t; nextent := nextent n |}.
Definition set_nextent (n : leaselist) p :=
  {| l_host := l_host n; l_port := l_port n; l_expired := l_expired n; nextent := p |}.

(** The fuel of a walk over the list. *)
Definition walk_fuel (u : udp) : nat := S (size (cells (leases u))).

(** The end of a lease that starts [now]. *)
Definition lease_end (now : timeval) : timeval :=
  {| tv_sec := tv_sec now + (PROT_SERVER_WAKEUP_MIN * 60 + PROT_SERVER_WAKEUP_SEC) *
                            PROT_WAKEUPS_BEFORE_EXPIRED;
     tv_usec := 0 |}.

Fixpoint find_loop (fuel : nat) (s : store leaselist) (p : option addr) (host port : Z)
  : res (option addr) :=
  match fuel with
  | O => NoFuel
  | S fuel =>
      match p with
      | None => mret None
      | Some _ =>
          '(l, n) ← s_load s p;
          if (l_host n =? host) && (l_port n =? port) then mret (Some l)
          else find_loop fuel s (nextent n) host port
      end
  end.

Definition serverFindLeaseEntry (host port : Z) (u : udp) : res (option addr) :=
  find_loop (walk_fuel u) (leases u) (hlhead u) host port.

(** The loop of [serverAddLeaseEntry] to the last entry. *)
Fixpoint last_loop (fuel : nat) (s : store leaselist) (p : option addr) : res addr :=
  match fuel with
  | O => NoFuel
  | S fuel =>
      '(l, n) ← s_load s p;
      match nextent n with
      | None => mret l
      | Some q => last_loop fuel s (Some q)
      end
  end.

(** A block from [calloc], with the host and the port filled in. *)
Definition new_lease (host port : Z) : leaselist :=
  {| l_host := host; l_port := port; l_expired := {| tv_sec := 0; tv_usec := 0 |};
     nextent := None |}.

Definition serverAddLeaseEntry (host port : Z) (u : udp) : res (addr * udp) :=
  match hlhead u with
  | None =>
      let (p, s) := s_alloc (leases u) (new_lease host port) in
      mret (p, with_leases u (Some p) s)
  | Some h =>
      l ← last_loop (walk_fuel u) (leases u) (Some h);
      '(_, n) ← s_load (leases u) (Some l);
      let (p, s) := s_alloc (leases u) (new_lease host port) in
      mret (p, with_leases u (hlhead u) (s_set s l (set_nextent n (Some p))))
  end.

(** The packet that tells clients the length of a lease: the length field is
    in the byte order of the host. *)
Definition lease_packet : list Z :=
  header_bytes {| version := PROT_VERSION; htype := PROT_SERVER_STILL_ALIVE;
                  content := PROT_CONTENT_LEASE; reserved := [0; 0; 0; 0; 0];
                  magic := htonl PROT_MAGIC_NUMBER; hlen := 2 |}
  ++ [PROT_SERVER_LEASE_MIN; PROT_SERVER_LEASE_SEC].

Definition serverNotifyClientLease (host port : Z) (u : udp) : udp :=
  with_srv u (with_sent (srv u)
    (sent (srv u) ++ [{| to_host := host; to_port := port; payload := lease_packet |}])).

(** [now] is the time of the clock in the call. *)
Definition serverAddClient (now : timeval) (junk : list Z) (host port : Z) (u : udp) : res udp :=
  f ← serverFindLeaseEntry host port u;
  '(lease, u) ← match f with
                | Some l => mret (l, u)
                | None => serverAddLeaseEntry host port u
                end;
  '(_, n) ← s_load (leases u) (Some lease);
  let n := set_expired n (lease_end now) in
  let u := with_leases u (hlhead u) (s_set (leases u) lease n) in
  s ← serverRespondToClient junk (l_host n) (l_port n) (srv u);
  mret (serverNotifyClientLease (l_host n) (l_port n) (with_srv u s)).

(** The loop of [serverUpdateClient]: the port is not compared. *)
Fixpoint update_loop (fuel : nat) (s : store leaselist) (p : option addr) (host : Z) (t : timeval)
  : res (store leaselist) :=
  match fuel with
  | O => NoFuel
  | S fuel =>
      match p with
      | None => mret s
      | Some _ =>
          '(l, n) ← s_load s p;
          if l_host n =? host then mret (s_set s l (set_expired n t))
          else update_loop fuel s (nextent n) host t
      end
  end.

Definition serverUpdateClient (now : timeval) (host : Z) (u : udp) : res udp :=
  s ← update_loop (walk_fuel u) (leases u) (hlhead u) host (lease_end now);
  mret (with_leases u (hlhead u) s).

Definition serverProcessClientAlive (now : timeval) (host : Z) (u : udp) : res udp :=
  serverUpdateClient now host u.

(** The loop of [serverPurgeHostList], with its variables [hlhead], [p], [q]. *)
Fixpoint purge_loop (fuel : nat) (current : Z) (s : store leaselist) (h p q : option addr)
  : res (option addr * store leaselist) :=
  match fuel with
  | O => NoFuel
  | S fuel =>
      match p with
      | None => mret (h, s)
      | Some _ =>
          '(_, n) ← s_load s p;
          if tv_sec (l_expired n) <=? current then
            if decide (p = h) then
              s ← s_free s h;
              purge_loop fuel current s (nextent n) (nextent n) q
            else
              '(lq, nq) ← s_load s q;
              let s := s_set s lq (set_nextent nq (nextent n)) in
              s ← s_free s p;
              (* q = p; p = p->nextent; *)
              '(_, n) ← s_load s p;
              purge_loop fuel current s h (nextent n) p
          else purge_loop fuel current s h (nextent n) p
      end
  end.

Definition serverPurgeHostList (now : timeval) (u : udp) : res udp :=
  '(h, s) ← purge_loop (walk_fuel u) (tv_sec now) (leases u) (hlhead u) (hlhead u) None;
  mret (with_leases u h s).

Fixpoint alive_loop (fuel : nat) (s : store leaselist) (p : option addr) (out : list datagram)
  : res (list datagram) :=
  match fuel with
  | O => NoFuel
  | S fuel =>
      match p with
      | None => mret out
      | Some _ =>
          '(_, n) ← s_load s p;
          alive_loop fuel s (nextent n)
            (out ++ [{| to_host := l_host n; to_port := l_port n; payload := lease_packet |}])
      end
  end.

Definition serverSendStillAlive (u : udp) : res udp :=
  out ← alive_loop (walk_fuel u) (leases u) (hlhead u) (sent (srv u));
  mret (with_srv u (with_sent (srv u) out)).

Definition serverHandleAlarm (now : timeval) (u : udp) : res udp :=
  u ← serverPurgeHostList now u;
  serverSendStillAlive u.

Definition serverProcessBC (now : timeval) (junk id_string : list Z) (id_len host port : Z) (u : udp)
  : res udp :=
  mem ← wr id_string id_len 0;
  classes_loop (S (List.length mem)) (srv u) mem 0 (serverAddClient now junk host port) u.

(** [free (msg.body)]. *)
Definition free_body (b : body_ptr) : res body_ptr :=
  match b with
  | BUninit => Fault UninitRead
  | BNull => Ok BNull
  | BHeap => Ok BFreed
  | BFreed => Fault UseAfterFree
  | BInterior => Fault OutOfBounds
  end.

Section Expat.
  Context (expat : string -> list xml_call).

(** [recvfrom] into [data_buffer]: the datagram covers what was in the buffer
    before, as far as it goes. *)
Definition recv (d : list Z) (u : udp) : udp :=
  let d := take (Z.to_nat MAX_UDP_PACKET_SIZE) d in
  with_data_buffer u (d ++ drop (List.length d) (data_buffer u)).

(** What follows the reception of a datagram from [host] and [port] in the
    loop of [serverRealStart]. The result has the event that is put into the
    engine queue, if any. *)
Definition serverRealStart_packet (now : timeval) (junk : list Z) (host port : Z) (u : udp)
  : res (option EVENT * udp) :=
  let buffer := data_buffer u in
  h ← read_header buffer;
  let h := host_order h in
  if negb (magic_ok h) then
    b ← free_body (body u); mret (None, with_body u b)
  else if htype h =? PROT_CLIENT_EVENT then
    '(e, b) ← serverProcessClientEventPacket expat h (drop (Z.to_nat sizeof_HEADER) buffer) (body u);
    mret (e, with_body u b)
  else
    bytes ← slice buffer sizeof_HEADER (hlen h);
    let u := with_body u BHeap in
    u ← (if htype h =? PROT_BC_CLIENT then
           serverProcessBC now junk (bytes ++ [0]) (hlen h) host port u
         else if htype h =? PROT_CLIENT_STILL_ALIVE then serverProcessClientAlive now host u
         else mret u);
    b ← free_body (body u);
    mret (None, with_body u b).

(** What the server waits for: a datagram, or the signal of the alarm. *)
Inductive udp_input : Type :=
| Datagram (now : timeval) (junk d : list Z) (host port : Z)
| Alarm (now : timeval).

Definition serverRealStart_round (i : udp_input) (u : udp) : res (option EVENT * udp) :=
  match i with
  | Datagram now junk d host port => serverRealStart_packet now junk host port (recv d u)
  | Alarm now => u ← serverHandleAlarm now u; mret (None, u)
  end.

(** The server on a sequence of inputs; the result has the events that it
    puts into the engine queue, in order. *)
Fixpoint serverRealStart (ins : list udp_input) (u : udp) : res (list EVENT * udp) :=
  match ins with
  | [] => mret ([], u)
  | i :: ins =>
      '(e, u) ← serverRealStart_round i u;
      '(es, u) ← serverRealStart ins u;
      mret (option_list e ++ es, u)
  end.

End Expat.

(** [named] and [resolved] say whether the name and the address of the host are
    found, [ok] and [fd] are for [initializeBroadcast]. *)
Definition serverRealInit (named resolved ok : bool) (fd : Z) (u : udp) : res (Z * udp) :=
  if negb named then mret (SERVER_FAILURE, u)
  else if negb resolved then mret (SERVER_FAILURE, u)
  else
    '(server_fd, s) ← initializeBroadcast ok fd (srv u);
    let u := with_srv u s in
    mret (if server_fd <? 0 then SERVER_FAILURE else SERVER_SUCCESS, u).

(** The list of leases is freed at the end. *)
Fixpoint free_leases (fuel : nat) (s : store leaselist) (p : option addr) : res (store leaselist) :=
  match fuel with
  | O => NoFuel
  | S fuel =>
      match p with
      | None => mret s
      | Some _ => '(_, n) ← s_load s p; s ← s_free s p; free_leases fuel s (nextent n)
      end
  end.

Definition serverRealShutdown (u : udp) : res udp :=
  s ← free_leases (walk_fuel u) (leases u) (hlhead u);
  mret (with_leases u (hlhead u) s).

(** ** The list of leases, abstractly *)

Record client : Type := { c_host : Z; c_port : Z; c_expired : timeval }.

Definition client_of (n : leaselist) : client :=
  {| c_host := l_host n; c_port := l_port n; c_expired := l_expired n |}.

Definition key (c : client) : Z * Z := (c_host c, c_port c).

(** [chain s h ps cs]: from [h], the store holds the entries [cs] at [ps]. *)
Fixpoint chain (s : store leaselist) (h : option addr) (ps : list addr) (cs : list client) : Prop :=
  match ps, cs with
  | [], [] => h = None
  | p :: ps, c :: cs =>
      h = Some p /\ exists n, cells s !! p = Some n /\ client_of n = c /\ chain s (nextent n) ps cs
  | _, _ => False
  end.

Definition rep (u : udp) (cs : list client) : Prop :=
  exists ps, chain (leases u) (hlhead u) ps cs /\ NoDup ps /\ store_wf (leases u).

Lemma chain_frame s s' h ps cs :
  chain s h ps cs -> (forall p, p ∈ ps -> cells s' !! p = cells s !! p) -> chain s' h ps cs.
Proof.
  revert h cs. induction ps as [|p ps IH]; intros h [|c cs]; simpl; try done.
  intros (-> & n & Hn & Hc & Hch) Hs. split; [done|]. exists n.
  rewrite Hs by left. split_and!; try done. apply IH; [done|]. intros q Hq. apply Hs. by right.
Qed.

Lemma chain_dom s h ps cs p : chain s h ps cs -> p ∈ ps -> is_Some (cells s !! p).
Proof.
  revert h cs. induction ps as [|q ps IH]; intros h [|c cs]; simpl; try done.
  { intros _ ?%elem_of_nil. done. }
  intros (-> & n & Hn & _ & Hch) [->|Hp]%elem_of_cons; [eauto|]. by eapply IH.
Qed.

Lemma chain_length s h ps cs : chain s h ps cs -> List.length ps = List.length cs.
Proof.
  revert h cs. induction ps as [|q ps IH]; intros h [|c cs]; simpl; try done.
  intros (_ & n & _ & _ & Hch). f_equal. by eapply IH.
Qed.

Lemma chain_fuel s h ps cs : chain s h ps cs -> NoDup ps -> (List.length ps <= size (cells s))%nat.
Proof.
  intros Hch Hnd. rewrite <- size_dom.
  assert (size (list_to_set ps : gset positive) = List.length ps) as Hs by (by apply size_list_to_set).
  rewrite <- Hs.
  apply subseteq_size. intros p Hp. rewrite elem_of_list_to_set in Hp.
  apply elem_of_dom. by eapply chain_dom.
Qed.

Lemma chain_lookup s h ps cs i c :
  chain s h ps cs -> cs !! i = Some c ->
  exists p n, ps !! i = Some p /\ cells s !! p = Some n /\ client_of n = c.
Proof.
  revert h ps i. induction cs as [|c' cs IH]; intros h [|p ps] i; simpl; try done.
  intros (_ & n & Hn & Hc & Hch). destruct i as [|i]; intros Hi; simplify_eq/=.
  - by exists p, n.
  - by eapply IH.
Qed.

(** Changing the contents of entry [i]. *)
Lemma chain_set s h ps cs i p n n' :
  chain s h ps cs -> NoDup ps -> ps !! i = Some p -> cells s !! p = Some n ->
  nextent n' = nextent n -> chain (s_set s p n') h ps (<[i := client_of n']> cs).
Proof.
  revert h cs i. induction ps as [|q ps IH]; intros h [|c cs] i; simpl; try done.
  intros (-> & m & Hm & Hc & Hch) [Hq Hnd]%NoDup_cons Hi Hn Hnext. destruct i as [|i]; simplify_eq/=.
  - split; [done|]. exists n'. rewrite lookup_insert_eq, Hnext. split_and!; try done.
    eapply chain_frame; [exact Hch|]. intros r Hr. simpl.
    rewrite lookup_insert_ne; [done|]. by intros ->.
  - split; [done|]. exists m. assert (p <> q) by (intros ->; by eapply Hq, list_elem_of_lookup_2).
    rewrite lookup_insert_ne by done. split_and!; try done. by eapply IH.
Qed.

(** Adding an entry at [q] behind the last one. *)
Lemma chain_snoc s h ps cs p n q m :
  chain s h ps cs -> NoDup ps -> last ps = Some p -> cells s !! p = Some n -> q ∉ ps ->
  nextent m = None ->
  chain (s_set {| cells := <[q := m]> (cells s); brk := (brk s + 1)%positive |} p (set_nextent n (Some q)))
    h (ps ++ [q]) (cs ++ [client_of m]).
Proof.
  revert h cs. induction ps as [|r ps IH]; intros h [|c cs]; simpl; try done.
  intros (-> & k & Hk & Hc & Hch) [Hr Hnd]%NoDup_cons Hl Hn Hq Hm.
  assert (q <> r /\ q ∉ ps) as [Hqr Hqp] by set_solver.
  destruct ps as [|r' ps].
  - simplify_eq/=. destruct cs; [|done]. split; [done|]. exists (set_nextent k (Some q)).
    rewrite lookup_insert_eq. split; [done|]. split; [done|]. simpl. split; [done|]. exists m.
    rewrite lookup_insert_ne, lookup_insert_eq by done. done.
  - rewrite last_cons_cons in Hl. assert (p <> r).
    { intros ->. apply Hr. rewrite last_lookup in Hl. by eapply list_elem_of_lookup_2. }
    split; [done|]. exists k. rewrite !lookup_insert_ne by done. split_and!; try done.
    by apply IH.
Qed.

(** The first entry of a host and a port. *)
Fixpoint find_client (host port : Z) (cs : list client) : option nat :=
  match cs with
  | [] => None
  | c :: cs => if (c_host c =? host) && (c_port c =? port) then Some O
               else S <$> find_client host port cs
  end.

Lemma find_loop_spec fuel s h ps cs host port :
  chain s h ps cs -> (List.length ps < fuel)%nat ->
  find_loop fuel s h host port = Ok (match find_client host port cs with
                                     | Some i => ps !! i | None => None end).
Proof.
  revert fuel h cs. induction ps as [|p ps IH]; intros fuel h [|c cs]; simpl; try done.
  { intros -> Hf. destruct fuel; [lia|]. done. }
  intros (-> & n & Hn & Hc & Hch) Hf. destruct fuel as [|fuel]; [lia|]. simpl. rewrite Hn. simpl.
  subst c. simpl. destruct (_ && _); [done|]. rewrite (IH fuel _ cs) by (done || lia).
  by destruct (find_client host port cs).
Qed.

Lemma last_loop_spec fuel s h ps cs p :
  chain s h ps cs -> last ps = Some p -> (List.length ps <= fuel)%nat -> last_loop fuel s h = Ok p.
Proof.
  revert fuel h cs. induction ps as [|q ps IH]; intros fuel h [|c cs]; simpl; try done.
  intros (-> & n & Hn & Hc & Hch) Hl Hf. destruct fuel as [|fuel]; [lia|]. simpl. rewrite Hn. simpl.
  destruct ps as [|r ps].
  - simplify_eq/=. destruct cs; [|done]. by rewrite Hch.
  - rewrite last_cons_cons in Hl. pose proof Hch as Hch'. destruct cs as [|c' cs]; [done|].
    destruct Hch as (Hnx & _). rewrite Hnx. rewrite Hnx in Hch'. eapply IH; [exact Hch'|done|].
    simpl in *. lia.
Qed.

(** What [serverAddClient] does to the list. *)
Definition lease_add (host port : Z) (t : timeval) (cs : list client) : list client :=
  match find_client host port cs with
  | Some i => <[i := {| c_host := host; c_port := port; c_expired := t |}]> cs
  | None => cs ++ [{| c_host := host; c_port := port; c_expired := t |}]
  end.

Lemma find_client_Some host port cs i :
  find_client host port cs = Some i ->
  exists c, cs !! i = Some c /\ c_host c = host /\ c_port c = port.
Proof.
  revert i. induction cs as [|c cs IH]; intros i; simpl; [done|].
  destruct (_ && _) eqn:E.
  - intros [= <-]. zbool. by exists c.
  - destruct (find_client host port cs) as [k|]; [|done]. intros [= <-]. by apply IH.
Qed.

Lemma find_client_None host port cs :
  find_client host port cs = None -> (host, port) ∉ key <$> cs.
Proof.
  induction cs as [|c cs IH]; simpl; [intros _ ?%elem_of_nil; done|].
  destruct (_ && _) eqn:E; [done|].
  destruct (find_client host port cs); [done|]. intros _ [Heq|Hin]%elem_of_cons; [|by apply IH].
  unfold key in Heq. injection Heq as -> ->. by rewrite !Z.eqb_refl in E.
Qed.

(** The list has one entry for a host and a port. *)
Lemma lease_add_NoDup host port t cs :
  NoDup (key <$> cs) -> NoDup (key <$> lease_add host port t cs).
Proof.
  intros Hnd. unfold lease_add. destruct (find_client host port cs) as [i|] eqn:E.
  - apply find_client_Some in E as (c & Hc & Hh & Hp).
    assert (key <$> (<[i:={| c_host := host; c_port := port; c_expired := t |}]> cs) = key <$> cs)
      as ->; [|done].
    rewrite list_fmap_insert. apply list_insert_id. rewrite list_lookup_fmap, Hc. simpl.
    unfold key. by rewrite Hh, Hp.
  - rewrite fmap_app. apply NoDup_app. split_and!; [done| |apply NoDup_singleton].
    intros x Hx. pose proof (find_client_None _ _ _ E) as Hn.
    intros ->%list_elem_of_singleton. by apply Hn.
Qed.

(** What [serverUpdateClient] does: the first client of the host. *)
Fixpoint lease_update (host : Z) (t : timeval) (cs : list client) : list client :=
  match cs with
  | [] => []
  | c :: cs => if c_host c =? host
               then {| c_host := c_host c; c_port := c_port c; c_expired := t |} :: cs
               else c :: lease_update host t cs
  end.

Lemma lease_update_keys host t cs : key <$> lease_update host t cs = key <$> cs.
Proof.
  induction cs as [|c cs IH]; [done|]. simpl. destruct (_ =? _); [done|]. by rewrite fmap_cons, IH.
Qed.

Definition c_late (now : Z) (c : client) : bool := tv_sec (c_expired c) <=? now.

(** The clients from the first one on whose lease has not expired. *)
Fixpoint live (now : Z) (cs : list client) : list client :=
  match cs with
  | [] => []
  | c :: cs' => if c_late now c then live now cs' else cs
  end.

Lemma live_suffix now cs : exists pre, cs = pre ++ live now cs.
Proof.
  induction cs as [|c cs [pre IH]]; [by exists []|]. simpl. destruct (c_late now c); [|by exists []].
  exists (c :: pre). by rewrite IH at 1.
Qed.

Lemma live_NoDup now cs : NoDup (key <$> cs) -> NoDup (key <$> live now cs).
Proof.
  destruct (live_suffix now cs) as [pre H]. intros Hn. rewrite H, fmap_app in Hn.
  by apply NoDup_app in Hn as (_ & _ & ?).
Qed.

Lemma update_loop_spec fuel s h ps cs host t :
  chain s h ps cs -> NoDup ps -> store_wf s -> (List.length ps < fuel)%nat ->
  exists s', update_loop fuel s h host t = Ok s' /\ chain s' h ps (lease_update host t cs) /\
             store_wf s' /\ forall p, p ∉ ps -> cells s' !! p = cells s !! p.
Proof.
  revert fuel h cs. induction ps as [|p ps IH]; intros fuel h [|c cs]; simpl; try done.
  { intros -> _ Hwf Hf. destruct fuel; [lia|]. by exists s. }
  intros (-> & n & Hn & Hc & Hch) [Hp Hnd]%NoDup_cons Hwf Hf. destruct fuel as [|fuel]; [lia|].
  simpl. rewrite Hn. simpl. subst c. simpl. destruct (l_host n =? host).
  - eexists. split; [done|]. split; [|split].
    + simpl. split; [done|]. exists (set_expired n t). rewrite lookup_insert_eq. split_and!; try done.
      eapply chain_frame; [exact Hch|]. intros q Hq. simpl. rewrite lookup_insert_ne; [done|].
      by intros ->.
    + by apply store_wf_set.
    + intros q Hq. simpl. rewrite lookup_insert_ne; [done|]. intros ->. apply Hq. by left.
  - destruct (IH fuel _ _ Hch Hnd Hwf) as (s' & Hs' & Hch' & Hwf' & Hfr); [lia|].
    exists s'. split; [done|]. split; [|split; [done|]].
    + simpl. split; [done|]. exists n. rewrite Hfr by done. by split_and!.
    + intros q Hq. apply Hfr. intros ?. apply Hq. by right.
Qed.

(** The purge behind an entry [q] that stays: an expired entry is freed and
    then read. *)
Lemma purge_behind fuel now s h p ps cs lq :
  chain s p ps cs -> NoDup (lq :: ps) -> is_Some (cells s !! lq) ->
  (forall l, h = Some l -> l ∉ ps) -> (List.length ps < fuel)%nat ->
  purge_loop fuel now s h p (Some lq) =
    if existsb (c_late now) cs then Fault UseAfterFree else Ok (h, s).
Proof.
  revert fuel p cs lq. induction ps as [|r ps IH]; intros fuel p [|c cs] lq; simpl; try done.
  { intros -> _ _ _ Hf. by destruct fuel; [lia|]. }
  intros (-> & n & Hn & Hc & Hch) [Hlq [Hr Hnd]%NoDup_cons]%NoDup_cons [nq Hnq] Hh Hf.
  destruct fuel as [|fuel]; [lia|].
  simpl. rewrite Hn. simpl. subst c. unfold c_late at 1. simpl.
  destruct (_ <=? _); simpl.
  - rewrite decide_False by (intros <-; by apply (Hh r); [|left]).
    rewrite Hnq. simpl. rewrite lookup_insert_ne by set_solver. rewrite Hn. simpl.
    by rewrite lookup_delete_eq.
  - apply IH; [done|by apply NoDup_cons|by eexists| |lia].
    intros l Hl Hin. apply (Hh l Hl). by right.
Qed.

(** The purge from the head of the list. *)
Lemma purge_head fuel now s h ps cs :
  chain s h ps cs -> NoDup ps -> store_wf s -> (List.length ps < fuel)%nat ->
  if existsb (c_late now) (live now cs)
  then purge_loop fuel now s h h None = Fault UseAfterFree
  else exists h' s' ps', purge_loop fuel now s h h None = Ok (h', s') /\
         chain s' h' ps' (live now cs) /\ NoDup ps' /\ store_wf s'.
Proof.
  revert fuel s h cs. induction ps as [|r ps IH]; intros fuel s h [|c cs]; simpl; try done.
  { intros -> _ Hwf Hf. destruct fuel; [lia|]. exists None, s, []. by split_and!; [..|constructor|]. }
  intros (-> & n & Hn & Hc & Hch) [Hr Hnd]%NoDup_cons Hwf Hf. destruct fuel as [|fuel]; [lia|].
  simpl. rewrite Hn. simpl. destruct (c_late now c) eqn:El.
  - pose proof El as El'. unfold c_late in El'. subst c. simpl in El'. rewrite El', decide_True by done.
    apply IH; [|done|by apply store_wf_delete|lia].
    eapply chain_frame; [exact Hch|]. intros q Hq. simpl. rewrite lookup_delete_ne; [done|].
    by intros ->.
  - pose proof El as El'. unfold c_late in El'. subst c. simpl in El'. rewrite El'.
    simpl. rewrite El. simpl.
    rewrite (purge_behind fuel now s (Some r) (nextent n) ps cs r); try done.
    + destruct (existsb _ cs); [done|]. exists (Some r), s, (r :: ps). split_and!; try done.
      * simpl. split; [done|]. by exists n.
      * by apply NoDup_cons.
    + by apply NoDup_cons.
    + by intros l [= <-].
    + lia.
Qed.

(** ** The operations on the list *)

(** The list has the clients [cs], one for a host and a port. *)
Definition udp_ok (u : udp) (cs : list client) : Prop := rep u cs /\ NoDup (key <$> cs).

Lemma walk_fuel_enough u ps cs :
  chain (leases u) (hlhead u) ps cs -> NoDup ps -> (List.length ps < walk_fuel u)%nat.
Proof. intros Hch Hnd. pose proof (chain_fuel _ _ _ _ Hch Hnd). unfold walk_fuel. lia. Qed.

Lemma set_last_alloc (s : store leaselist) p q n m :
  p <> q -> s_set (s_set (Store (<[q := m]> (cells s)) (brk s + 1)) p n) q m
            = s_set (Store (<[q := m]> (cells s)) (brk s + 1)) p n.
Proof.
  intros H. unfold s_set. simpl. f_equal. rewrite insert_insert_ne by done.
  by rewrite insert_insert_eq.
Qed.

(** The entry that [serverAddClient] uses, before its lease is set. *)
Lemma lease_entry_spec host port u cs :
  rep u cs ->
  exists l u' n ps cs',
    (f ← serverFindLeaseEntry host port u;
     match f with Some l => mret (l, u) | None => serverAddLeaseEntry host port u end) = Ok (l, u') /\
    chain (leases u') (hlhead u') ps cs' /\ NoDup ps /\ store_wf (leases u') /\
    srv u' = srv u /\ cells (leases u') !! l = Some n /\ l_host n = host /\ l_port n = port /\
    exists i, ps !! i = Some l /\
      forall t, <[i := client_of (set_expired n t)]> cs' = lease_add host port t cs.
Proof.
  intros (ps & Hch & Hnd & Hwf). unfold serverFindLeaseEntry.
  pose proof (walk_fuel_enough _ _ _ Hch Hnd) as Hf.
  rewrite (find_loop_spec _ _ _ _ _ _ _ Hch) by done. cbn [mbind res_bind]. unfold lease_add.
  destruct (find_client host port cs) as [i|] eqn:Ef.
  - apply find_client_Some in Ef as (c & Hi & <- & <-).
    destruct (chain_lookup _ _ _ _ _ _ Hch Hi) as (l & n & Hl & Hn & <-). rewrite Hl.
    exists l, u, n, ps, cs. split_and!; try done. by exists i.
  - unfold serverAddLeaseEntry. destruct (hlhead u) as [h|] eqn:Eh.
    + destruct (last ps) as [p|] eqn:El.
      2:{ apply last_None in El as ->. by destruct cs. }
      rewrite (last_loop_spec _ _ _ _ _ _ Hch El) by lia. cbn [mbind res_bind].
      assert (p ∈ ps) as Hp by (rewrite last_lookup in El; by eapply list_elem_of_lookup_2).
      destruct (chain_dom _ _ _ _ _ Hch Hp) as [n Hn]. rewrite (s_load_Some _ _ _ Hn).
      cbn [mbind res_bind]. unfold s_alloc.
      assert (brk (leases u) ∉ ps) as Hq.
      { intros Hin. destruct (chain_dom _ _ _ _ _ Hch Hin) as [? Hb].
        by rewrite store_wf_fresh in Hb. }
      assert (brk (leases u) <> p) by (intros Heq; apply Hq; by rewrite Heq).
      eexists _, _, (new_lease host port), _, _. split; [done|].
      split; [by eapply chain_snoc|]. split; [|split; [|split; [done|split]]].
      * apply NoDup_app. split_and!; [done| |apply NoDup_singleton].
        intros x Hx ->%list_elem_of_singleton. done.
      * apply store_wf_set; [by apply (store_wf_alloc _ _ Hwf)|]. simpl.
        rewrite lookup_insert_ne by done. by eexists.
      * simpl. by rewrite lookup_insert_ne, lookup_insert_eq by done.
      * split_and!; try done. exists (List.length ps). rewrite lookup_app_r, Nat.sub_diag by lia.
        split; [done|]. intros t. rewrite (chain_length _ _ _ _ Hch), insert_app_r_alt by lia.
        by rewrite Nat.sub_diag.
    + destruct ps as [|? ?], cs as [|? ?]; try done; [|by destruct Hch]. unfold s_alloc.
      eexists _, _, (new_lease host port), [_], [_]. split; [done|]. simpl. split_and!; try done.
      * exists (new_lease host port). by rewrite lookup_insert_eq.
      * apply NoDup_singleton.
      * by apply (store_wf_alloc _ _ Hwf).
      * by rewrite lookup_insert_eq.
      * by exists 0%nat.
Qed.

Definition packet_to (host port : Z) (p : list Z) : datagram :=
  {| to_host := host; to_port := port; payload := p |}.

(** What a client that is added is sent: the announcement of the server and
    the length of the lease. *)
Definition welcome (junk : list Z) (id : string) (host port : Z) : list datagram :=
  [packet_to host port (header_bytes (announcement junk id) ++ bytes_of id ++ [0]);
   packet_to host port lease_packet].

Lemma add_client_spec now junk host port u cs id :
  udp_ok u cs -> identifier (srv u) = Some id ->
  exists u', serverAddClient now junk host port u = Ok u' /\
             udp_ok u' (lease_add host port (lease_end now) cs) /\
             srv u' = with_sent (srv u) (sent (srv u) ++ welcome junk id host port).
Proof.
  intros [Hrep Hkeys] Hid. unfold serverAddClient.
  destruct (lease_entry_spec host port u cs Hrep)
    as (l & u' & n & ps & cs' & He & Hch & Hnd & Hwf & Hsrv & Hl & Hh & Hp & i & Hi & Hadd).
  destruct (serverFindLeaseEntry host port u) as [f| |] eqn:Ef; try done.
  cbn [mbind res_bind] in He |- *. rewrite He. cbn [mbind res_bind].
  rewrite (s_load_Some _ _ _ Hl). cbn [mbind res_bind].
  unfold serverRespondToClient, send_announcement.
  cbn [srv with_leases l_host l_port set_expired]. rewrite Hsrv, Hid, Hh, Hp.
  change (createPacketBuffer (announcement junk id) id)
    with (Some (header_bytes (announcement junk id) ++ bytes_of id ++ [0])).
  cbn [mbind res_bind]. eexists. split; [done|]. split; [split|].
  - exists ps. cbn [serverNotifyClientLease with_srv with_leases leases hlhead].
    rewrite <- Hadd. split; [|split; [done|]].
    + by eapply chain_set.
    + apply store_wf_set; [done|]. by eexists.
  - by apply lease_add_NoDup.
  - unfold serverNotifyClientLease, with_srv, with_leases, with_sent.
    cbn [srv sent]. by rewrite <- app_assoc.
Qed.

(** C25: a client that is added is the last of the list unless it is in it
    already, its lease starts again, no host and port is in the list twice,
    and the client is sent the announcement and the lease. *)
Theorem serverAddClient_adds (now : timeval) (junk : list Z) (host port : Z) (u : udp)
    (cs : list client) (id : string) :
  udp_ok u cs -> identifier (srv u) = Some id ->
  exists u', serverAddClient now junk host port u = Ok u' /\
             udp_ok u' (lease_add host port (lease_end now) cs) /\
             srv u' = with_sent (srv u) (sent (srv u) ++ welcome junk id host port).
Proof. apply add_client_spec. Qed.

Lemma update_client_spec now host u cs :
  udp_ok u cs ->
  exists u', serverUpdateClient now host u = Ok u' /\
             udp_ok u' (lease_update host (lease_end now) cs) /\ srv u' = srv u.
Proof.
  intros [(ps & Hch & Hnd & Hwf) Hk]. unfold serverUpdateClient.
  destruct (update_loop_spec _ _ _ _ _ host (lease_end now) Hch Hnd Hwf
              (walk_fuel_enough _ _ _ Hch Hnd)) as (s' & -> & Hch' & Hwf' & _).
  cbn [mbind res_bind]. eexists. split; [done|]. split; [split|done].
  - by exists ps.
  - by rewrite lease_update_keys.
Qed.

Definition lease_to (c : client) : datagram := packet_to (c_host c) (c_port c) lease_packet.

Lemma alive_loop_spec fuel s h ps cs out :
  chain s h ps cs -> (List.length ps < fuel)%nat ->
  alive_loop fuel s h out = Ok (out ++ (lease_to <$> cs)).
Proof.
  revert fuel h cs out. induction ps as [|p ps IH]; intros fuel h [|c cs] out; simpl; try done.
  { intros -> Hf. destruct fuel; [lia|]. simpl. by rewrite app_nil_r. }
  intros (-> & n & Hn & <- & Hch) Hf. destruct fuel as [|fuel]; [lia|]. simpl. rewrite Hn. simpl.
  rewrite (IH _ _ cs) by (done || lia). by rewrite <- app_assoc.
Qed.

Lemma alarm_spec now u cs :
  udp_ok u cs ->
  if existsb (c_late (tv_sec now)) (live (tv_sec now) cs)
  then serverHandleAlarm now u = Fault UseAfterFree
  else exists u', serverHandleAlarm now u = Ok u' /\ udp_ok u' (live (tv_sec now) cs) /\
         srv u' = with_sent (srv u) (sent (srv u) ++ (lease_to <$> live (tv_sec now) cs)) /\
         body u' = body u /\ data_buffer u' = data_buffer u.
Proof.
  intros [(ps & Hch & Hnd & Hwf) Hk]. unfold serverHandleAlarm, serverPurgeHostList.
  pose proof (purge_head _ (tv_sec now) _ _ _ _ Hch Hnd Hwf (walk_fuel_enough _ _ _ Hch Hnd)) as H.
  destruct (existsb _ _).
  { rewrite H. done. }
  destruct H as (h' & s' & ps' & -> & Hch' & Hnd' & Hwf'). cbn [mbind res_bind].
  unfold serverSendStillAlive. cbn [mret res_ret mbind res_bind leases hlhead srv with_leases].
  rewrite (alive_loop_spec _ _ _ _ _ _ Hch')
    by (apply (walk_fuel_enough (with_leases u h' s') _ _ Hch' Hnd')).
  cbn [mbind res_bind]. eexists. split; [done|]. split; [split|done].
  - by exists ps'.
  - by apply live_NoDup.
Qed.

(** C26: the alarm: the expired clients at the front of the list are freed and
    every client that remains is sent the lease; but if an expired client is
    behind one whose lease runs on, it is freed and then read. *)
Theorem serverHandleAlarm_purges (now : timeval) (u : udp) (cs : list client) :
  udp_ok u cs ->
  let rest := live (tv_sec now) cs in
  if existsb (c_late (tv_sec now)) rest
  then serverHandleAlarm now u = Fault UseAfterFree
  else exists u', serverHandleAlarm now u = Ok u' /\ udp_ok u' rest /\
         srv u' = with_sent (srv u) (sent (srv u) ++ (lease_to <$> rest)) /\
         body u' = body u /\ data_buffer u' = data_buffer u.
Proof. apply alarm_spec. Qed.

(** A packet of a client that is alive restarts the lease of the first
    client of the list with its host: not that of the client with its port. *)
Theorem serverProcessClientAlive_updates (now : timeval) (host : Z) (u : udp) (cs : list client) :
  udp_ok u cs ->
  exists u', serverProcessClientAlive now host u = Ok u' /\
             udp_ok u' (lease_update host (lease_end now) cs) /\ srv u' = srv u.
Proof. apply update_client_spec. Qed.

(** ** The loop of the server *)

Definition srv_ok (u : udp) : Prop := (exists cs, udp_ok u cs) /\ is_Some (identifier (srv u)).

Lemma slice_length buf off n l : slice buf off n = Ok l -> n = Z.of_nat (List.length l).
Proof.
  unfold slice. case_decide; [|done]. intros [= <-]. rewrite length_take, length_drop. lia.
Qed.

(** A broadcast adds the client when the server has a class at all. *)
Lemma process_bc_spec now junk ids host port u :
  serverProcessBC now junk (ids ++ [0]) (Z.of_nat (List.length ids)) host port u =
    if has_delim ids && serverContainsIDClass "" (srv u)
    then serverAddClient now junk host port u else Ok u.
Proof.
  unfold serverProcessBC. rewrite wr_in_bounds by (rewrite length_app; simpl; lia).
  cbn [mbind res_bind]. rewrite Nat2Z.id, insert_app_r_alt, Nat.sub_diag by lia.
  change (<[0%nat := 0]> [0]) with [0].
  apply (classes_loop_spec (srv u) _ u _ [] ids). rewrite length_app. simpl. lia.
Qed.

Lemma udp_ok_ext u u' cs :
  udp_ok u cs -> leases u' = leases u -> hlhead u' = hlhead u -> udp_ok u' cs.
Proof. intros [(ps & Hps) Hk] El Eh. split; [exists ps; by rewrite El, Eh|done]. Qed.

Lemma srv_ok_ext u u' :
  srv_ok u -> srv u' = srv u -> leases u' = leases u -> hlhead u' = hlhead u -> srv_ok u'.
Proof.
  intros [[cs Hcs] Hid] Es El Eh. split; [|by rewrite Es]. exists cs. by eapply udp_ok_ext.
Qed.

(** What a computation keeps: it does not run out of fuel, and its result
    satisfies [P]. *)
Definition keeps {A} (P : A -> Prop) (m : res A) : Prop :=
  match m with Ok a => P a | Fault _ => True | NoFuel => False end.

Lemma keeps_bind {A B} (P : A -> Prop) (Q : B -> Prop) m k :
  keeps P m -> (forall a, m = Ok a -> P a -> keeps Q (k a)) -> keeps Q (m ≫= k).
Proof. destruct m; simpl; auto. Qed.

Lemma keeps_returns {A} (m : res A) : returns m -> keeps (fun _ => True) m.
Proof. by destruct m. Qed.

Lemma add_client_keeps now junk host port u :
  srv_ok u -> keeps srv_ok (serverAddClient now junk host port u).
Proof.
  intros [[cs Hcs] [id Hid]].
  destruct (add_client_spec now junk host port u cs id Hcs Hid) as (u' & -> & Hok & Hs).
  split; [by eexists|]. rewrite Hs. by exists id.
Qed.

Lemma packet_keeps expat now junk host port u :
  srv_ok u -> keeps (fun r => srv_ok r.2) (serverRealStart_packet expat now junk host port u).
Proof.
  intros Hu. unfold serverRealStart_packet.
  assert (Hfree : forall v, srv_ok v -> keeps (fun r : option EVENT * udp => srv_ok r.2)
                    (b ← free_body (body v); mret (None, with_body v b))).
  { intros v Hv. destruct (body v); simpl; try done; by eapply srv_ok_ext. }
  apply (keeps_bind (fun _ => True)); [apply keeps_returns, read_header_returns|]. intros h _ _.
  cbv zeta. destruct (negb _); [by apply Hfree|]. destruct (_ =? _).
  { apply (keeps_bind (fun _ => True)); [apply keeps_returns, client_event_packet_returns|].
    intros [e b] _ _. by eapply srv_ok_ext. }
  apply (keeps_bind (fun _ => True)); [apply keeps_returns, slice_returns|]. intros bytes Hb _.
  apply slice_length in Hb. rewrite Hb.
  assert (srv_ok (with_body u BHeap)) as Hv by (by eapply srv_ok_ext).
  apply (keeps_bind srv_ok); [|intros v _ Hv'; by apply Hfree]. destruct (_ =? _).
  { rewrite process_bc_spec. destruct (_ && _); [by apply add_client_keeps|done]. }
  destruct (_ =? _); [|done]. destruct Hv as [[cs Hcs] Hid].
  destruct (update_client_spec now host _ cs Hcs) as (u' & Hu' & Hok & Hs).
  unfold serverProcessClientAlive. rewrite Hu'. split; [by eexists|]. by rewrite Hs.
Qed.

Lemma round_keeps expat (i : udp_input) u :
  srv_ok u -> keeps (fun r => srv_ok r.2) (serverRealStart_round expat i u).
Proof.
  intros Hu. destruct i as [now junk d host port|now]; cbn [serverRealStart_round].
  - apply packet_keeps. by eapply srv_ok_ext.
  - destruct Hu as [[cs Hcs] Hid]. pose proof (alarm_spec now u cs Hcs) as H.
    destruct (existsb _ _); [by rewrite H|]. destruct H as (u' & -> & Hok & Hs & _).
    split; [by eexists|]. simpl. by rewrite Hs.
Qed.

(** C13: the server on any sequence of datagrams and alarms: every round ends,
    and as long as there is no undefined behaviour the list of leases is well
    formed, with one entry for a host and a port. *)
Theorem serverRealStart_safe (expat : string -> list xml_call) (ins : list udp_input) (u : udp) :
  srv_ok u -> keeps (fun r => srv_ok r.2) (serverRealStart expat ins u).
Proof.
  revert u. induction ins as [|i ins IH]; intros u Hu; [done|]. cbn [serverRealStart].
  apply (keeps_bind (fun r => srv_ok r.2)).
  - by apply round_keeps.
  - intros [e v] _ Hv. apply (keeps_bind (fun r => srv_ok r.2)); [by apply IH|].
    intros [es w] _ Hw. done.
Qed.

(** What [msg.body] is when the packet with header [h] was handled. *)
Definition body_after (h : HEADER) (b : body_ptr) : body_ptr :=
  if htype h =? PROT_CLIENT_EVENT then
    if content h =? PROT_CONTENT_XML then BInterior
    else if content h =? PROT_CONTENT_EVENT then BNull else b
  else BFreed.

Lemma add_client_body now junk host port u u' :
  serverAddClient now junk host port u = Ok u' -> body u' = body u.
Proof.
  unfold serverAddClient. intros H. apply bind_ok in H as (f & _ & H).
  apply bind_ok in H as ([l v] & Hv & H). apply bind_ok in H as ([l' n] & _ & H).
  apply bind_ok in H as (s & _ & [= <-]). simpl.
  destruct f as [a|]; [by injection Hv as _ <-|]. unfold serverAddLeaseEntry in Hv.
  destruct (hlhead u); [|by injection Hv as _ <-].
  apply bind_ok in Hv as (p & _ & Hv). apply bind_ok in Hv as ([q m] & _ & Hv).
  by injection Hv as _ <-.
Qed.

Lemma alive_body now host u u' : serverProcessClientAlive now host u = Ok u' -> body u' = body u.
Proof. intros H. by apply bind_ok in H as (s & _ & [= <-]). Qed.

Lemma recv_header h b u :
  header_wf h -> exists tail, data_buffer (recv (header_bytes h ++ b) u) = header_bytes h ++ tail.
Proof.
  intros (_ & _ & _ & Hr & _). assert (List.length (header_bytes h) = 16%nat) as Hl.
  { unfold header_bytes. rewrite !length_app, Hr. done. }
  unfold recv. cbn [data_buffer with_data_buffer].
  rewrite take_app_ge by (rewrite Hl; unfold MAX_UDP_PACKET_SIZE; lia).
  rewrite <- app_assoc. by eexists.
Qed.

Lemma event_packet_body expat h data b e b' :
  serverProcessClientEventPacket expat h data b = Ok (e, b') -> htype h = PROT_CLIENT_EVENT ->
  b' = body_after h b.
Proof.
  intros H Ht. unfold body_after. rewrite Ht.
  change (PROT_CLIENT_EVENT =? PROT_CLIENT_EVENT) with true. cbv iota.
  unfold serverProcessClientEventPacket in H. destruct (content h =? PROT_CONTENT_XML).
  { by apply bind_ok in H as (? & _ & [= _ <-]). }
  destruct (content h =? PROT_CONTENT_EVENT); [|by injection H as _ <-].
  apply bind_ok in H as (? & _ & H). by apply bind_ok in H as (? & _ & [= _ <-]).
Qed.

Lemma packet_body expat now junk host port h tail u e u' :
  header_wf h -> data_buffer u = header_bytes h ++ tail -> magic_ok (host_order h) = true ->
  serverRealStart_packet expat now junk host port u = Ok (e, u') ->
  body u' = body_after (host_order h) (body u).
Proof.
  intros Hh Hd Hm H. unfold serverRealStart_packet in H.
  rewrite Hd, read_header_bytes in H by done. cbn [mbind res_bind] in H. rewrite Hm in H.
  cbn [negb] in H. destruct (Z.eqb_spec (htype (host_order h)) PROT_CLIENT_EVENT) as [Ht|Ht].
  { apply bind_ok in H as ([e' b'] & H & [= _ <-]). by eapply event_packet_body in H. }
  apply bind_ok in H as (bytes & Hb & H). apply bind_ok in H as (v & Hv & H).
  unfold body_after. destruct (Z.eqb_spec (htype (host_order h)) PROT_CLIENT_EVENT); [done|].
  assert (body v = BHeap) as Hbv.
  { destruct (_ =? PROT_BC_CLIENT).
    - apply slice_length in Hb. rewrite Hb, process_bc_spec in Hv.
      destruct (_ && _); [by apply add_client_body in Hv|by injection Hv as <-].
    - destruct (_ =? PROT_CLIENT_STILL_ALIVE); [by apply alive_body in Hv|by injection Hv as <-]. }
  rewrite Hbv in H. by injection H as _ <-.
Qed.

(** A datagram with a bad magic number: the server frees the packet body
    of the datagram before, so after a packet that is not an event there is a
    double free, and after an event in XML a pointer into the receive buffer
    is freed; only after an event in binary the datagram is discarded. *)
Theorem bad_magic_frees_body (expat : string -> list xml_call) (now1 now2 : timeval)
    (junk1 junk2 b1 b2 : list Z) (h1 h2 : HEADER) (host1 host2 port1 port2 : Z) (u u1 : udp)
    (e : option EVENT) :
  header_wf h1 -> header_wf h2 ->
  magic_ok (host_order h1) = true -> magic_ok (host_order h2) = false ->
  serverRealStart_round expat (Datagram now1 junk1 (header_bytes h1 ++ b1) host1 port1) u = Ok (e, u1) ->
  serverRealStart_round expat (Datagram now2 junk2 (header_bytes h2 ++ b2) host2 port2) u1 =
    match body_after (host_order h1) (body u) with
    | BFreed => Fault UseAfterFree
    | BInterior => Fault OutOfBounds
    | BUninit => Fault UninitRead
    | BNull => Ok (None, recv (header_bytes h2 ++ b2) u1)
    | BHeap => Ok (None, with_body (recv (header_bytes h2 ++ b2) u1) BFreed)
    end.
Proof.
  intros Hh1 Hh2 Hm1 Hm2 H1. cbn [serverRealStart_round] in *.
  destruct (recv_header h1 b1 u Hh1) as [t1 Ht1]. destruct (recv_header h2 b2 u1 Hh2) as [t2 Ht2].
  apply (packet_body _ _ _ _ _ h1 t1) in H1; [|done..].
  change (body (recv (header_bytes h1 ++ b1) u)) with (body u) in H1. rewrite <- H1.
  unfold serverRealStart_packet. rewrite Ht2, read_header_bytes by done. cbn [mbind res_bind].
  rewrite Hm2. cbn [negb]. change (body (recv (header_bytes h2 ++ b2) u1)) with (body u1).
  destruct (body u1) eqn:Eb; try done. cbn. unfold with_body, recv, with_data_buffer.
  simpl. by rewrite Eb.
Qed.

(** ** Witnesses *)

Definition web_server : server :=
  {| identifier := Some "web!"; port := 2001; broadcast_list := [2000]; sent := [] |}.

(** A server that has just started. *)
Definition fresh_udp : udp :=
  {| srv := web_server; hlhead := None; leases := empty_store; body := BUninit;
     data_buffer := replicate (Z.to_nat MAX_UDP_PACKET_SIZE) 0 |}.

Definition at_sec (t : Z) : timeval := {| tv_sec := t; tv_usec := 0 |}.

(** Two clients on one host, whose leases end at [t1] and [t2]. *)
Definition two_leases (t1 t2 : Z) : udp :=
  {| srv := web_server; hlhead := Some 1%positive;
     leases := Store (<[1%positive := {| l_host := 167772161; l_port := 100; l_expired := at_sec t1;
                                         nextent := Some 2%positive |}]>
                     (<[2%positive := {| l_host := 167772161; l_port := 200; l_expired := at_sec t2;
                                         nextent := None |}]> ∅)) 3;
     body := BUninit; data_buffer := replicate (Z.to_nat MAX_UDP_PACKET_SIZE) 0 |}.

Definition two_clients (t1 t2 : Z) : list client :=
  [{| c_host := 167772161; c_port := 100; c_expired := at_sec t1 |};
   {| c_host := 167772161; c_port := 200; c_expired := at_sec t2 |}].

Lemma fresh_udp_ok : udp_ok fresh_udp [].
Proof.
  split; [|constructor]. exists []. split_and!; [done|constructor|].
  intros p [x Hx]. done.
Qed.

Lemma two_leases_ok t1 t2 : udp_ok (two_leases t1 t2) (two_clients t1 t2).
Proof.
  split.
  - exists [1%positive; 2%positive]. split_and!.
    + simpl. split; [done|]. eexists. split; [done|]. split; [done|]. split; [done|].
      eexists. split; [done|]. by split.
    + repeat constructor; set_solver.
    + intros p. simpl. rewrite !lookup_insert. repeat case_decide; [intros _; lia..|].
      by intros [x Hx].
  - simpl. repeat constructor; set_solver.
Qed.

(** A client with a lease comes back on another port. *)
Lemma serverAddClient_adds_witness :
  exists u', serverAddClient (at_sec 1000) [0; 0; 0; 0; 0] 167772161 300 (two_leases 2000 500) = Ok u' /\
    udp_ok u' (two_clients 2000 500 ++ [{| c_host := 167772161; c_port := 300; c_expired := at_sec 1540 |}]) /\
    List.length (sent (srv u')) = 2%nat.
Proof.
  destruct (serverAddClient_adds (at_sec 1000) [0; 0; 0; 0; 0] 167772161 300 _ _ "web!"
              (two_leases_ok 2000 500) eq_refl) as (u' & H & Hok & Hs).
  exists u'. split; [exact H|]. split; [exact Hok|]. rewrite Hs. reflexivity.
Defined.

(** The lease of the second client has expired, that of the first has not. *)
Lemma serverHandleAlarm_purges_witness :
  serverHandleAlarm (at_sec 1000) (two_leases 2000 500) = Fault UseAfterFree /\
  (exists u', serverHandleAlarm (at_sec 1000) (two_leases 500 2000) = Ok u' /\
     List.length (sent (srv u')) = 1%nat).
Proof.
  split.
  - exact (serverHandleAlarm_purges (at_sec 1000) _ _ (two_leases_ok 2000 500)).
  - destruct (serverHandleAlarm_purges (at_sec 1000) _ _ (two_leases_ok 500 2000))
      as (u' & H & _ & Hs & _).
    exists u'. split; [exact H|]. rewrite Hs. reflexivity.
Defined.

(** The second client is alive; the lease of the first is restarted. *)
Lemma serverProcessClientAlive_updates_witness :
  exists u', serverProcessClientAlive (at_sec 1000) 167772161 (two_leases 1200 1200) = Ok u' /\
    udp_ok u' (two_clients 1540 1200).
Proof.
  destruct (serverProcessClientAlive_updates (at_sec 1000) 167772161 _ _ (two_leases_ok 1200 1200))
    as (u' & H & Hok & _). exists u'. split; [exact H|exact Hok].
Defined.

Definition alive_header : HEADER :=
  {| version := PROT_VERSION; htype := PROT_CLIENT_STILL_ALIVE; content := 0;
     reserved := [0; 0; 0; 0; 0]; magic := htonl PROT_MAGIC_NUMBER; hlen := 0 |}.
Definition bad_header : HEADER :=
  {| version := 0; htype := 0; content := 0; reserved := [0; 0; 0; 0; 0]; magic := 1; hlen := 0 |}.

Definition alive_datagram (t : Z) : udp_input :=
  Datagram (at_sec t) [] (header_bytes alive_header ++ []) 167772161 100.
Definition bad_datagram (t : Z) : udp_input :=
  Datagram (at_sec t) [] (header_bytes bad_header ++ []) 167772161 100.

Lemma serverRealStart_safe_witness :
  keeps (fun r => srv_ok r.2) (serverRealStart (fun _ => []) [alive_datagram 10; Alarm (at_sec 20)] fresh_udp)
  /\ is_ok (serverRealStart (fun _ => []) [alive_datagram 10; Alarm (at_sec 20)] fresh_udp).
Proof.
  split.
  - apply serverRealStart_safe. split; [exists []; apply fresh_udp_ok|by exists "web!"].
  - eexists. vm_compute. reflexivity.
Defined.

Lemma bad_magic_frees_body_witness :
  exists u1, serverRealStart_round (fun _ => []) (alive_datagram 10) fresh_udp = Ok (None, u1) /\
    serverRealStart_round (fun _ => []) (bad_datagram 11) u1 = Fault UseAfterFree.
Proof.
  exists (with_body (recv (header_bytes alive_header ++ []) fresh_udp) BFreed).
  assert (H : serverRealStart_round (fun _ => []) (alive_datagram 10) fresh_udp =
    Ok (None, with_body (recv (header_bytes alive_header ++ []) fresh_udp) BFreed))
    by (vm_compute; reflexivity).
  split; [exact H|].
  apply (bad_magic_frees_body (fun _ => []) (at_sec 10) (at_sec 11) [] [] [] []
           alive_header bad_header 167772161 167772161 100 100 fresh_udp _ None); try exact H;
    try reflexivity; unfold header_wf, is_byte; cbv; repeat split; discriminate || reflexivity.
Defined.
