(* ===== verification/TcpServer.v ===== *)
(** * The servlets of the TCP server ([tcp_server.c])

    A servlet handles one connection. The connection is the sequence of
    results its reads will have: bytes that arrive together, or an error; a
    read takes no more than it asks for. *)

From stdpp Require Import base list strings.
From Stdlib Require Import ZArith Lia Ascii String.
From S2P Require Import Prelude Events CString Wire Notice Server.
Local Open Scope Z_scope.
Local Open Scope list_scope.

(** [None]: an error. At the end of the list the peer has closed. *)
Definition conn : Type := list (option (list Z)).

(** [read (fd, buffer, n)]: the value, the bytes and what is left. A negative
    [n] is a huge count, and the block that was allocated with it is null. *)
Definition read_conn (n : Z) (c : conn) : Z * list Z * conn :=
  if n <? 0 then (-1, [], c)
  else if n =? 0 then (0, [], c)
  else match c with
       | [] => (0, [], [])
       | None :: c => (-1, [], c)
       | Some l :: c =>
           if Z.of_nat (List.length l) <=? n then (Z.of_nat (List.length l), l, c)
           else (n, take (Z.to_nat n) l, Some (drop (Z.to_nat n) l) :: c)
       end.

(** [t_header] is [msg.header], which keeps what a short read does not cover. *)
Record servlet : Type := {
  t_header : HEADER;
  t_conn : conn;
  t_srv : server
}.

(** The bytes of a header read on top of an older one. *)
Definition overlay_header (bytes : list Z) (old : HEADER) : res HEADER :=
  read_header (bytes ++ drop (List.length bytes) (header_bytes old)).

Section Expat.
Context (expat : string -> list xml_call) (junk : list Z) (host hport : Z).

(** The body of a packet with header [h]; a block of no bytes stands for the
    null pointer as well. The result has the event that is enqueued. *)
Definition servlet_body (h : HEADER) (c : conn) (s : server) : res (option EVENT * servlet) :=
  let '(size_recv, bytes, c) := read_conn (hlen h) c in
  if htype h =? PROT_BC_CLIENT then
    if negb (size_recv =? hlen h) then mret (None, {| t_header := h; t_conn := c; t_srv := s |})
    else
      s ← serverProcessClientBC junk bytes (hlen h) host hport s;
      mret (None, {| t_header := h; t_conn := c; t_srv := s |})
  else if htype h =? PROT_CLIENT_EVENT then
    if negb (size_recv =? hlen h) then mret (None, {| t_header := h; t_conn := c; t_srv := s |})
    else
      '(e, _) ← serverProcessClientEventPacket expat h bytes BUninit;
      mret (e, {| t_header := h; t_conn := c; t_srv := s |})
  else mret (None, {| t_header := h; t_conn := c; t_srv := s |}).

(** One round of the loop; the second component is [None] when the
    connection is closed. *)
Definition servlet_round (t : servlet) : res (option EVENT * option servlet) :=
  let '(size_recv, bytes, c) := read_conn sizeof_HEADER (t_conn t) in
  if size_recv <=? 0 then mret (None, None)
  else
    h ← overlay_header bytes (t_header t);
    let h := host_order h in
    if negb (magic_ok h) then
      mret (None, Some {| t_header := h; t_conn := c; t_srv := t_srv t |})
    else
      '(e, t) ← servlet_body h c (t_srv t);
      mret (e, Some t).

Fixpoint servlet_loop (fuel : nat) (t : servlet) : res (list EVENT * server) :=
  match fuel with
  | O => NoFuel
  | S fuel =>
      '(e, t') ← servlet_round t;
      match t' with
      | None => mret (option_list e, t_srv t)
      | Some t' =>
          '(es, s) ← servlet_loop fuel t';
          mret (option_list e ++ es, s)
      end
  end.

(** The bytes and the results that a connection still has. *)
Fixpoint conn_size (c : conn) : nat :=
  match c with
  | [] => O
  | None :: c => S (conn_size c)
  | Some l :: c => S (List.length l + conn_size c)
  end.

(** A servlet on a new connection: the events it enqueues, in order. *)
Definition serverServlet (uninit : HEADER) (c : conn) (s : server) : res (list EVENT * server) :=
  servlet_loop (S (conn_size c)) {| t_header := uninit; t_conn := c; t_srv := s |}.

(** ** Facts *)

Lemma read_conn_size n c k bytes c' :
  read_conn n c = (k, bytes, c') -> (conn_size c' <= conn_size c)%nat.
Proof.
  unfold read_conn. destruct (Z.ltb_spec n 0); [by intros [= <- <- <-]|].
  destruct (Z.eqb_spec n 0); [by intros [= <- <- <-]|].
  destruct c as [|[l|] c]; [by intros [= <- <- <-]| |intros [= <- <- <-]; simpl; lia].
  destruct (Z.leb_spec (Z.of_nat (List.length l)) n); intros [= <- <- <-]; simpl; [lia|].
  rewrite length_drop. lia.
Qed.

Lemma read_conn_less n c k bytes c' :
  0 < k -> read_conn n c = (k, bytes, c') -> (conn_size c' < conn_size c)%nat.
Proof.
  unfold read_conn. intros Hk. destruct (Z.ltb_spec n 0); [intros [= <- <- <-]; lia|].
  destruct (Z.eqb_spec n 0); [intros [= <- <- <-]; lia|].
  destruct c as [|[l|] c]; [intros [= <- <- <-]; lia| |intros [= <- <- <-]; simpl; lia].
  destruct (Z.leb_spec (Z.of_nat (List.length l)) n); intros [= <- <- <-]; simpl; [lia|].
  rewrite length_drop. lia.
Qed.

(** A read that does not fail and gets as much as it asks for. *)
Lemma read_conn_exact l rest c :
  l <> [] -> read_conn (Z.of_nat (List.length l)) (Some (l ++ rest) :: c)
  = (Z.of_nat (List.length l), l, if decide (rest = []) then c else Some rest :: c).
Proof.
  intros Hl. unfold read_conn. destruct l as [|x l]; [done|].
  destruct (Z.ltb_spec (Z.of_nat (List.length (x :: l))) 0); [lia|].
  destruct (Z.eqb_spec (Z.of_nat (List.length (x :: l))) 0); [simpl in *; lia|].
  rewrite length_app. case_decide as Hr.
  - subst. rewrite app_nil_r. simpl List.length. rewrite Nat.add_0_r, Z.leb_refl. done.
  - destruct rest as [|y rest]; [done|].
    destruct (Z.leb_spec (Z.of_nat (List.length (x :: l) + List.length (y :: rest)))
                (Z.of_nat (List.length (x :: l)))); [simpl in *; lia|].
    by rewrite Nat2Z.id, take_app_length, drop_app_length.
Qed.

Lemma classes_loop_returns {S} fuel id mem q (act : S -> res S) s :
  (Z.to_nat (Z.of_nat (List.length mem) - q) < fuel)%nat -> (forall s, returns (act s)) ->
  returns (classes_loop fuel id mem q act s).
Proof.
  intros Hf Ha. revert mem q Hf. induction fuel as [|fuel IH]; intros mem q Hf; [lia|].
  cbn [classes_loop]. apply bind_returns; [apply rd_returns|]. intros c Hc%rd_bounds.
  destruct (_ || _); [discriminate|]. destruct (is_char c "!"); [|apply IH; lia].
  apply bind_returns; [unfold wr; solve_returns|]. intros mem' [_ ->]%wr_Ok.
  apply bind_returns; [unfold c_string_at; solve_returns|]. intros class _.
  destruct (serverContainsIDClass _ _); [apply Ha|]. apply IH. rewrite length_insert. lia.
Qed.

Lemma client_bc_returns ids n s : returns (serverProcessClientBC junk ids n host hport s).
Proof.
  unfold serverProcessClientBC. apply bind_returns; [unfold wr; solve_returns|]. intros mem _.
  apply classes_loop_returns; [lia|]. intros s'.
  unfold serverRespondToClient, send_announcement. solve_returns.
Qed.

Lemma servlet_body_returns h c s : returns (servlet_body h c s).
Proof.
  pose proof client_bc_returns. pose proof client_event_packet_returns.
  unfold servlet_body. destruct (read_conn (hlen h) c) as [[k bytes] c'].
  repeat case_if; try discriminate; apply bind_returns; eauto; try discriminate.
  by intros [e b] _.
Qed.

Lemma servlet_body_conn h c s e t :
  servlet_body h c s = Ok (e, t) -> (conn_size (t_conn t) <= conn_size c)%nat.
Proof.
  unfold servlet_body. destruct (read_conn (hlen h) c) as [[k bytes] c'] eqn:Er.
  apply read_conn_size in Er. intros H. repeat case_if; try (by injection H as _ <-).
  - by apply bind_ok in H as (v & _ & [= _ <-]).
  - by apply bind_ok in H as ([v b] & _ & [= _ <-]).
Qed.

(** A round consumes something of the connection. *)
Lemma servlet_round_less t e t' :
  servlet_round t = Ok (e, Some t') -> (conn_size (t_conn t') < conn_size (t_conn t))%nat.
Proof.
  unfold servlet_round. destruct (read_conn sizeof_HEADER (t_conn t)) as [[k bytes] c'] eqn:Er.
  destruct (Z.leb_spec k 0) as [|Hk]; [done|]. apply read_conn_less in Er; [|done].
  intros H. apply bind_ok in H as (h & _ & H). cbv zeta in H. destruct (negb _).
  { by injection H as _ <-. }
  apply bind_ok in H as ([e' v] & Hv & [= -> ->]). apply servlet_body_conn in Hv. lia.
Qed.

Lemma servlet_loop_returns fuel t :
  (conn_size (t_conn t) < fuel)%nat -> returns (servlet_loop fuel t).
Proof.
  revert t. induction fuel as [|fuel IH]; intros t Hf; [lia|]. cbn [servlet_loop].
  apply bind_returns.
  - unfold servlet_round. destruct (read_conn sizeof_HEADER (t_conn t)) as [[k bytes] c'].
    destruct (k <=? 0); [discriminate|]. apply bind_returns; [apply read_header_returns|].
    intros h _. cbv zeta. destruct (negb _); [discriminate|].
    apply bind_returns; [apply servlet_body_returns|]. by intros [e v] _.
  - intros [e [t'|]] Hr; [|discriminate]. apply servlet_round_less in Hr.
    apply bind_returns; [apply IH; lia|]. by intros [es s] _.
Qed.

Lemma read_conn_length n c k bytes c' :
  read_conn n c = (k, bytes, c') -> k = n -> n < 0 \/ n = Z.of_nat (List.length bytes).
Proof.
  unfold read_conn. destruct (Z.ltb_spec n 0); [by left|]. right.
  destruct (Z.eqb_spec n 0); [by simplify_eq/=|].
  destruct c as [|[l|] c]; [simplify_eq/=; lia| |simplify_eq/=; lia].
  destruct (Z.leb_spec (Z.of_nat (List.length l)) n); simplify_eq/=; [lia|].
  rewrite length_take. lia.
Qed.

(** The block of the body has no room for the null that is written behind it. *)
Lemma client_bc_overflow bytes n s :
  n < 0 \/ n = Z.of_nat (List.length bytes) ->
  serverProcessClientBC junk bytes n host hport s = Fault OutOfBounds.
Proof.
  intros Hn. unfold serverProcessClientBC, wr. by rewrite decide_False by lia.
Qed.

Lemma servlet_body_srv h c s e t : servlet_body h c s = Ok (e, t) -> t_srv t = s.
Proof.
  unfold servlet_body. destruct (read_conn (hlen h) c) as [[k bytes] c'] eqn:Er.
  intros H. repeat case_if; try (by injection H as _ <-).
  - exfalso. rewrite client_bc_overflow in H; [done|].
    eapply read_conn_length; [exact Er|]. destruct (Z.eqb_spec k (hlen h)); done.
  - by apply bind_ok in H as ([v b] & _ & [= _ <-]).
Qed.

Lemma servlet_round_srv t e t' : servlet_round t = Ok (e, Some t') -> t_srv t' = t_srv t.
Proof.
  unfold servlet_round. destruct (read_conn sizeof_HEADER (t_conn t)) as [[k bytes] c'].
  destruct (k <=? 0); [done|]. intros H. apply bind_ok in H as (h & _ & H). cbv zeta in H.
  destruct (negb _); [by injection H as _ <-|].
  apply bind_ok in H as ([e' v] & Hv & [= -> ->]). by apply servlet_body_srv in Hv.
Qed.

Lemma servlet_loop_srv fuel t es s : servlet_loop fuel t = Ok (es, s) -> s = t_srv t.
Proof.
  revert t es. induction fuel as [|fuel IH]; intros t es H; [done|]. cbn [servlet_loop] in H.
  apply bind_ok in H as ([e [t'|]] & Hr & H); [|by injection H as _ <-].
  apply bind_ok in H as ([es' s'] & Hl & [= _ <-]). apply IH in Hl. by apply servlet_round_srv in Hr as <-.
Qed.

(** *** Packets of events *)

Definition packet_header (n : Z) : HEADER :=
  {| version := PROT_VERSION; htype := PROT_CLIENT_EVENT; content := PROT_CONTENT_EVENT;
     reserved := [0; 0; 0; 0; 0]; magic := htonl PROT_MAGIC_NUMBER; hlen := htonl n |}.

(** What a client sends for an event. *)
Definition event_packet (e : EVENT) : list Z :=
  match sound e with
  | None => []
  | Some s => header_bytes (packet_header (16 + sound_len e)) ++
              event_head e 0 0 0 (sound_len e) ++ bytes_of s
  end.

Definition wire_event (e : EVENT) : Prop :=
  - 2 ^ 31 <= flags e < 2 ^ 31 /\ sound_len e < 2 ^ 31 - 16 /\
  exists s, sound e = Some s /\ sound_len e = Z.of_nat (List.length (bytes_of s)) /\
            Forall (fun b => b <> 0) (bytes_of s).

Lemma htonl_range z : - 2 ^ 31 <= htonl z < 2 ^ 31.
Proof. unfold htonl, bswap. cbn -[Z.pow Z.div Z.modulo i32]. apply (swrap_range 32). lia. Qed.

Lemma packet_header_wf n : header_wf (packet_header n).
Proof.
  unfold header_wf, packet_header, is_byte. cbn [version htype content reserved magic hlen].
  pose proof (htonl_range n). pose proof (htonl_range PROT_MAGIC_NUMBER). cbv [PROT_VERSION
    PROT_CLIENT_EVENT PROT_CONTENT_EVENT]. repeat split; try done; lia.
Qed.

(** The header in the byte order of the host. *)
Definition host_header (n : Z) : HEADER :=
  {| version := PROT_VERSION; htype := PROT_CLIENT_EVENT; content := PROT_CONTENT_EVENT;
     reserved := [0; 0; 0; 0; 0]; magic := i32 PROT_MAGIC_NUMBER; hlen := n |}.

Lemma host_order_packet n : - 2 ^ 31 <= n < 2 ^ 31 -> host_order (packet_header n) = host_header n.
Proof.
  intros Hn. unfold host_order, packet_header, host_header. cbn [version htype content reserved magic hlen].
  assert (ntohl (htonl n) = n) as -> by (by apply bswap_bswap). reflexivity.
Qed.

Lemma header_bytes_length n : List.length (header_bytes (packet_header n)) = 16%nat.
Proof. done. Qed.

Lemma overlay_full h bytes old :
  header_wf h -> bytes = header_bytes h -> List.length (header_bytes h) = 16%nat ->
  overlay_header bytes old = Ok h.
Proof. intros Hh -> Hl. unfold overlay_header. by apply read_header_bytes. Qed.

(** The round that handles a packet that has arrived whole. *)
Lemma round_event e h0 rest c s :
  wire_event e ->
  servlet_round {| t_header := h0; t_conn := Some (event_packet e ++ rest) :: c; t_srv := s |} =
  Ok (Some e, Some {| t_header := host_header (16 + sound_len e);
                      t_conn := if decide (rest = []) then c else Some rest :: c; t_srv := s |}).
Proof.
  intros (Hf & Hl & snd & Hs & Hn & Hz). unfold event_packet. rewrite Hs.
  set (b := event_head e 0 0 0 (sound_len e) ++ bytes_of snd).
  assert (Hb : 16 + sound_len e = Z.of_nat (List.length b)).
  { unfold b. rewrite length_app. change (List.length (event_head _ _ _ _ _)) with 16%nat. lia. }
  unfold servlet_round. cbn [t_conn t_header t_srv]. rewrite <- app_assoc.
  change sizeof_HEADER with (Z.of_nat (List.length (header_bytes (packet_header (16 + sound_len e))))).
  rewrite read_conn_exact by done. rewrite decide_False by (unfold b; by destruct (bytes_of snd)).
  rewrite header_bytes_length. change (Z.of_nat 16 <=? 0) with false. cbv iota.
  rewrite (overlay_full (packet_header (16 + sound_len e))) by (done || apply packet_header_wf).
  cbn [mbind res_bind]. cbv zeta. rewrite host_order_packet by lia.
  change (negb (magic_ok (host_header (16 + sound_len e)))) with false. cbv iota.
  unfold servlet_body. cbn [hlen htype host_header]. rewrite Hb, read_conn_exact by done.
  change (PROT_CLIENT_EVENT =? PROT_BC_CLIENT) with false.
  change (PROT_CLIENT_EVENT =? PROT_CLIENT_EVENT) with true. cbv iota. rewrite Z.eqb_refl.
  cbn [negb]. cbv iota. unfold b. rewrite <- (app_nil_r (bytes_of snd)) at 2.
  unfold serverProcessClientEventPacket. cbn [content host_header].
  change (PROT_CONTENT_EVENT =? PROT_CONTENT_XML) with false.
  change (PROT_CONTENT_EVENT =? PROT_CONTENT_EVENT) with true. cbv iota.
  rewrite read_event_head by lia. rewrite (slice_app (event_head e 0 0 0 (sound_len e))) by done.
  cbn [mbind res_bind mret res_ret]. rewrite c_string_bytes_of by done. destruct e. simpl in *.
  by subst.
Qed.

(** A group of packets that arrive together. *)
Definition group (es : list EVENT) : list Z := List.concat (event_packet <$> es).

Lemma loop_group es fuel h0 c s r :
  es <> [] -> Forall wire_event es -> (conn_size (Some (group es) :: c) < fuel)%nat ->
  (forall fuel h, (conn_size c < fuel)%nat ->
     servlet_loop fuel {| t_header := h; t_conn := c; t_srv := s |} = Ok (r, s)) ->
  servlet_loop fuel {| t_header := h0; t_conn := Some (group es) :: c; t_srv := s |} = Ok (es ++ r, s).
Proof.
  revert fuel h0. induction es as [|e es IH]; intros fuel h0 Hne Hes Hf Hc; [done|].
  apply Forall_cons in Hes as [He Hes]. destruct fuel as [|fuel]; [lia|]. cbn [servlet_loop].
  change (group (e :: es)) with (event_packet e ++ group es) in *. rewrite round_event by done.
  cbn [mbind res_bind]. cbn [conn_size] in Hf. rewrite length_app in Hf. destruct es as [|e' es].
  - rewrite decide_True by done. rewrite Hc by lia. done.
  - assert (event_packet e <> []) as Hpe.
    { destruct He as (_ & _ & snd & Hs & _). unfold event_packet. by rewrite Hs. }
    assert (0 < List.length (event_packet e))%nat by (destruct (event_packet e); [done|simpl; lia]).
    rewrite decide_False.
    2:{ apply Forall_cons in Hes as [(_ & _ & snd & Hs & _) _]. unfold group. simpl.
        unfold event_packet at 1. rewrite Hs. done. }
    rewrite IH; [done|done|done|cbn [conn_size]; lia|done].
Qed.
End Expat.

(** ** Properties *)

(** The events that clients send on a connection are enqueued, all of
    them, once and in their order, however the network groups their packets,
    as long as it splits none. *)
Theorem serverServlet_delivers (expat : string -> list xml_call) (junk : list Z) (host hport : Z)
    (uninit : HEADER) (groups : list (list EVENT)) (s : server) :
  Forall (fun es => es <> [] /\ Forall wire_event es) groups ->
  serverServlet expat junk host hport uninit ((fun es => Some (group es)) <$> groups) s
  = Ok (List.concat groups, s).
Proof.
  intros Hg. unfold serverServlet.
  assert (forall fuel h, (conn_size ((fun es => Some (group es)) <$> groups) < fuel)%nat ->
    servlet_loop expat junk host hport fuel
      {| t_header := h; t_conn := (fun es => Some (group es)) <$> groups; t_srv := s |}
    = Ok (List.concat groups, s)) as H; [|apply H; lia].
  induction Hg as [|es groups [Hne Hes] _ IH]; intros fuel h Hf; [by destruct fuel; [lia|]|].
  by apply loop_group.
Qed.

(** A servlet ends when its connection does, whatever arrives on it, and
    it never answers: a broadcast of a client, which the server would answer,
    is undefined behaviour. *)
Theorem serverServlet_returns (expat : string -> list xml_call) (junk : list Z) (host hport : Z)
    (uninit : HEADER) (c : conn) (s : server) :
  match serverServlet expat junk host hport uninit c s with
  | Ok (_, s') => s' = s
  | Fault _ => True
  | NoFuel => False
  end.
Proof.
  unfold serverServlet. destruct (servlet_loop _ _ _ _ _ _) as [[es s']| |] eqn:E; [|done|].
  - by apply servlet_loop_srv in E.
  - eapply servlet_loop_returns, E. simpl. lia.
Qed.

(** The broadcast of a client that arrives whole: a null is written
    behind the block of its body. *)
Theorem serverServlet_broadcast_overflow (expat : string -> list xml_call) (junk : list Z)
    (host hport : Z) (uninit h : HEADER) (body rest : list Z) (c : conn) (s : server) :
  header_wf h -> magic_ok (host_order h) = true -> htype h = PROT_BC_CLIENT -> body <> [] ->
  hlen (host_order h) = Z.of_nat (List.length body) ->
  serverServlet expat junk host hport uninit (Some (header_bytes h ++ body ++ rest) :: c) s
  = Fault OutOfBounds.
Proof.
  intros Hh Hm Ht Hb Hl. unfold serverServlet. cbn [servlet_loop]. unfold servlet_round.
  cbn [t_conn t_header t_srv].
  assert (List.length (header_bytes h) = 16%nat) as H16.
  { destruct Hh as (_ & _ & _ & Hr & _). unfold header_bytes. rewrite !length_app, Hr. done. }
  replace sizeof_HEADER with (Z.of_nat (List.length (header_bytes h))) by (by rewrite H16).
  rewrite read_conn_exact by (by destruct (header_bytes h)).
  rewrite decide_False by (by destruct body).
  rewrite H16. change (Z.of_nat 16 <=? 0) with false. cbv iota.
  rewrite (overlay_full h) by done. cbn [mbind res_bind]. cbv zeta. rewrite Hm. cbn [negb].
  unfold servlet_body. rewrite Hl, read_conn_exact by done. cbn [htype host_order]. rewrite Ht.
  change (PROT_BC_CLIENT =? PROT_BC_CLIENT) with true. cbv iota. rewrite Z.eqb_refl. cbn [negb].
  by rewrite client_bc_overflow by (by right).
Qed.

Lemma read_conn_short n l c :
  0 < n -> Z.of_nat (List.length l) <= n ->
  read_conn n (Some l :: c) = (Z.of_nat (List.length l), l, c).
Proof.
  intros Hn Hl. unfold read_conn. destruct (Z.ltb_spec n 0); [lia|].
  destruct (Z.eqb_spec n 0); [lia|].
  destruct (Z.leb_spec (Z.of_nat (List.length l)) n); [done|lia].
Qed.

(** A short read leaves the magic number of the header before, which has been
    swapped already. *)
Lemma overlay_short b n :
  - 2 ^ 31 <= n < 2 ^ 31 -> (0 < List.length b <= 8)%nat ->
  exists h, overlay_header b (host_header n) = Ok h /\ magic_ok (host_order h) = false.
Proof.
  intros Hn Hb. unfold overlay_header, read_header.
  destruct b as [|b0 [|b1 [|b2 [|b3 [|b4 [|b5 [|b6 [|b7 [|? ?]]]]]]]]]; simpl in Hb; try lia;
    rewrite slice_Ok by (unfold sizeof_HEADER; simpl; lia); cbn; eexists; (split; [done|reflexivity]).
Qed.

Section Split.
Context (expat : string -> list xml_call) (junk : list Z) (host hport : Z).

Lemma servlet_loop_step fuel t t' :
  servlet_round expat junk host hport t = Ok (None, Some t') ->
  servlet_loop expat junk host hport (S fuel) t = servlet_loop expat junk host hport fuel t'.
Proof.
  intros H. cbn [servlet_loop]. rewrite H. cbn [mbind res_bind].
  by destruct (servlet_loop _ _ _ _ fuel t') as [[es s]| |].
Qed.

(** The round that reads a header and less than the body it announces. *)
Lemma round_lost n h0 a c s :
  - 2 ^ 31 <= n < 2 ^ 31 -> a <> [] -> Z.of_nat (List.length a) < n ->
  servlet_round expat junk host hport
    {| t_header := h0; t_conn := Some (header_bytes (packet_header n) ++ a) :: c; t_srv := s |}
  = Ok (None, Some {| t_header := host_header n; t_conn := c; t_srv := s |}).
Proof.
  intros Hn Ha Hl. unfold servlet_round. cbn [t_conn t_header t_srv].
  change sizeof_HEADER with (Z.of_nat (List.length (header_bytes (packet_header n)))).
  rewrite read_conn_exact by done. rewrite decide_False by done.
  change (Z.of_nat (List.length (header_bytes (packet_header n))) <=? 0) with false. cbv iota.
  rewrite (overlay_full (packet_header n)) by (done || apply packet_header_wf).
  cbn [mbind res_bind]. cbv zeta. rewrite host_order_packet by lia.
  change (negb (magic_ok (host_header n))) with false. cbv iota.
  unfold servlet_body. cbn [hlen htype host_header]. rewrite read_conn_short by lia.
  change (PROT_CLIENT_EVENT =? PROT_BC_CLIENT) with false.
  change (PROT_CLIENT_EVENT =? PROT_CLIENT_EVENT) with true. cbv iota.
  by destruct (Z.eqb_spec (Z.of_nat (List.length a)) n); [lia|].
Qed.

Lemma round_short n b c s :
  - 2 ^ 31 <= n < 2 ^ 31 -> (0 < List.length b <= 8)%nat ->
  exists h, servlet_round expat junk host hport
    {| t_header := host_header n; t_conn := Some b :: c; t_srv := s |}
  = Ok (None, Some {| t_header := h; t_conn := c; t_srv := s |}).
Proof.
  intros Hn Hb. unfold servlet_round. cbn [t_conn t_header t_srv].
  rewrite read_conn_short by (unfold sizeof_HEADER; lia).
  destruct (Z.leb_spec (Z.of_nat (List.length b)) 0); [lia|].
  destruct (overlay_short b n Hn Hb) as (h' & -> & Hm). exists (host_order h').
  cbn [mbind res_bind]. cbv zeta. by rewrite Hm.
Qed.

(** Where a packet is split, near its end. *)
Lemma split_packet e sd a b :
  sound e = Some sd -> event_packet e = a ++ b -> (List.length b <= 8)%nat ->
  exists a', a = header_bytes (packet_header (16 + sound_len e)) ++ a' /\ a' <> [] /\
    (List.length a' + List.length b = 16 + List.length (bytes_of sd))%nat.
Proof.
  intros Hs Hab Hb. unfold event_packet in Hab. rewrite Hs in Hab.
  set (h := header_bytes (packet_header (16 + sound_len e))) in *.
  pose proof (f_equal List.length Hab) as Hl. rewrite !length_app in Hl.
  change (List.length h) with 16%nat in Hl.
  change (List.length (event_head e 0 0 0 (sound_len e))) with 16%nat in Hl.
  exists (drop 16 a). split; [|split].
  - assert (take 16 a = h) as <-; [|by rewrite take_drop].
    rewrite <- (take_app_le a b), <- Hab by lia. done.
  - intros He. apply (f_equal List.length) in He. rewrite length_drop in He. simpl in He. lia.
  - rewrite length_drop. lia.
Qed.
End Split.

(** An event whose last bytes, at most eight, arrive later than the rest
    is lost: a read that gets less than a packet gives the packet up. *)
Theorem serverServlet_split_lost (expat : string -> list xml_call) (junk : list Z) (host hport : Z)
    (uninit : HEADER) (e : EVENT) (a b : list Z) (s : server) :
  wire_event e -> event_packet e = a ++ b -> (0 < List.length b <= 8)%nat ->
  serverServlet expat junk host hport uninit [Some a; Some b] s = Ok ([], s).
Proof.
  intros (_ & Hlen & sd & Hs & Hn & _) Hab Hb.
  destruct (split_packet e sd a b Hs Hab) as (a' & -> & Ha' & Hl); [lia|].
  unfold serverServlet.
  assert (exists k, conn_size [Some (header_bytes (packet_header (16 + sound_len e)) ++ a'); Some b]
                    = S (S k)) as [k ->].
  { cbn [conn_size]. rewrite length_app.
    change (List.length (header_bytes (packet_header (16 + sound_len e)))) with 16%nat.
    eexists. simpl. reflexivity. }
  erewrite servlet_loop_step by (apply round_lost; [lia|done|lia]).
  destruct (round_short expat junk host hport (16 + sound_len e) b [] s) as [h Hr]; [lia|done|].
  by erewrite servlet_loop_step by exact Hr.
Qed.

(** ** Witnesses *)

Definition no_xml : string -> list xml_call := fun _ => [].
Definition uninit_header : HEADER :=
  {| version := 0; htype := 0; content := 0; reserved := [0; 0; 0; 0; 0]; magic := 0; hlen := 0 |}.

Lemma sample_wire_event : wire_event (sample_ev 5).
Proof. split; [simpl; lia|]. split; [simpl; lia|]. exists "click". by repeat constructor. Qed.

(** Two packets that arrive together and one alone. *)
Lemma serverServlet_delivers_witness :
  serverServlet no_xml [] 1 2 uninit_header
    [Some (group [sample_ev 5; sample_ev 5]); Some (group [sample_ev 5])] blank_server
  = Ok ([sample_ev 5; sample_ev 5; sample_ev 5], blank_server).
Proof.
  apply (serverServlet_delivers no_xml [] 1 2 uninit_header
           [[sample_ev 5; sample_ev 5]; [sample_ev 5]] blank_server).
  repeat constructor; try discriminate; apply sample_wire_event.
Defined.

Definition bc_header (n : Z) : HEADER :=
  {| version := PROT_VERSION; htype := PROT_BC_CLIENT; content := PROT_CONTENT_MSG;
     reserved := [0; 0; 0; 0; 0]; magic := htonl PROT_MAGIC_NUMBER; hlen := htonl n |}.

Lemma serverServlet_broadcast_overflow_witness :
  serverServlet no_xml [] 1 2 uninit_header
    [Some (header_bytes (bc_header 4) ++ bytes_of "web!" ++ [])] blank_server = Fault OutOfBounds.
Proof.
  apply serverServlet_broadcast_overflow; try reflexivity; try discriminate.
  unfold header_wf, is_byte. cbv. repeat split; discriminate || reflexivity.
Defined.

Lemma serverServlet_split_lost_witness :
  serverServlet no_xml [] 1 2 uninit_header
    [Some (take 30 (event_packet (sample_ev 5))); Some (drop 30 (event_packet (sample_ev 5)))]
    blank_server = Ok ([], blank_server).
Proof.
  apply (serverServlet_split_lost _ _ _ _ _ (sample_ev 5)); [apply sample_wire_event|reflexivity|].
  simpl. lia.
Defined.
