(* ===== verification/SslServer.v ===== *)
(** * The servlets of the SSL server ([ssl_server.c])

    The loop is that of the TCP server but for the body of an event, which is
    read to where [msg.body] points instead of into the buffer allocated for
    it. OpenSSL is a parameter: [SSL_read] on a connection of type [C]. *)

From stdpp Require Import base list strings.
From Stdlib Require Import ZArith Lia Ascii String.
From S2P Require Import Prelude Events CString Wire Notice Server TcpServer.
Local Open Scope Z_scope.
Local Open Scope list_scope.

(** [malloc (len)] for the body: null for a negative length. *)
Definition malloc_body (len : Z) : body_ptr := if len <? 0 then BNull else BHeap.

(** [free (msg.body)] for what [malloc_body] returned. *)
Definition free_malloced (b : body_ptr) : body_ptr :=
  match b with BHeap => BFreed | _ => b end.

Section Ssl.
Context {C : Type} (SSL_read : Z -> C -> Z * list Z * C).
Context (expat : string -> list xml_call) (junk : list Z) (host hport : Z).

Record ssl_servlet : Type := {
  s_header : HEADER;
  s_body : body_ptr;
  s_conn : C;
  s_srv : server
}.

Definition ssl_put (h : HEADER) (b : body_ptr) (c : C) (s : server) : ssl_servlet :=
  {| s_header := h; s_body := b; s_conn := c; s_srv := s |}.

(** [SSL_read (ssl, msg.body, len)] where [msg.body] was not allocated for
    this packet. *)
Definition ssl_read_stale (b : body_ptr) (len : Z) (c : C) : res (Z * C) :=
  match b with
  | BUninit => Fault UninitRead
  | BFreed => Fault UseAfterFree
  | BInterior => Fault OutOfBounds
  | BNull | BHeap =>
      let '(k, _, c) := SSL_read len c in
      if 0 <? k then Fault NullDeref else mret (k, c)
  end.

(** The body of an event: [buffer] keeps what [malloc] left in it. A block
    that is not null is of [len] bytes; [msg.body] is dangling after
    [free (buffer)] if it was made to point into it. *)
Definition ssl_event_body (buffer : list Z) (h : HEADER) (b : body_ptr) (c : C) (s : server)
  : res (option EVENT * ssl_servlet) :=
  '(size_recv, c) ← ssl_read_stale b (hlen h) c;
  if negb (size_recv =? hlen h) then mret (None, ssl_put h (free_malloced b) c s)
  else
    '(e, b) ← serverProcessClientEventPacket expat h (take (Z.to_nat (hlen h)) buffer) b;
    mret (e, ssl_put h (match b with BInterior => BFreed | _ => b end) c s).

Definition ssl_packet_body (buffer : list Z) (h : HEADER) (b : body_ptr) (c : C) (s : server)
  : res (option EVENT * ssl_servlet) :=
  if htype h =? PROT_CLIENT_EVENT then ssl_event_body buffer h b c s
  else
    let '(size_recv, bytes, c) := SSL_read (hlen h) c in
    let freed := free_malloced (malloc_body (hlen h)) in
    if htype h =? PROT_BC_CLIENT then
      if negb (size_recv =? hlen h) then mret (None, ssl_put h freed c s)
      else
        s ← serverProcessClientBC junk bytes (hlen h) host hport s;
        mret (None, ssl_put h freed c s)
    else mret (None, ssl_put h freed c s).

(** One round of the loop; the second component is [None] when the
    connection is closed. *)
Definition ssl_round (buffer : list Z) (t : ssl_servlet) : res (option EVENT * option ssl_servlet) :=
  let '(size_recv, bytes, c) := SSL_read sizeof_HEADER (s_conn t) in
  if size_recv <=? 0 then mret (None, None)
  else
    h ← overlay_header bytes (s_header t);
    let h := host_order h in
    if negb (magic_ok h) then mret (None, Some (ssl_put h (s_body t) c (s_srv t)))
    else
      '(e, t) ← ssl_packet_body buffer h (s_body t) c (s_srv t);
      mret (e, Some t).

(** [junkmem i]: what the block allocated in the round with [i] more to come
    holds. *)
Fixpoint ssl_loop (fuel : nat) (junkmem : nat -> list Z) (t : ssl_servlet) : res (list EVENT * server) :=
  match fuel with
  | O => NoFuel
  | S fuel =>
      '(e, t') ← ssl_round (junkmem fuel) t;
      match t' with
      | None => mret (option_list e, s_srv t)
      | Some t' =>
          '(es, s) ← ssl_loop fuel junkmem t';
          mret (option_list e ++ es, s)
      end
  end.

(** A servlet on a new connection, with fuel for [n] rounds. *)
Definition ssl_serverServlet (n : nat) (junkmem : nat -> list Z) (uninit : HEADER) (c : C) (s : server)
  : res (list EVENT * server) :=
  ssl_loop (S n) junkmem (ssl_put uninit BUninit c s).

(** ** What is relied on of OpenSSL and expat

    A read that succeeds yields as many bytes as it says and consumes input;
    an empty document has no elements. *)
Context (size : C -> nat).
Hypothesis SSL_read_length : forall n c k bytes c',
  SSL_read n c = (k, bytes, c') -> 0 <= k -> k = Z.of_nat (List.length bytes).
Hypothesis SSL_read_size : forall n c k bytes c',
  SSL_read n c = (k, bytes, c') ->
  (size c' <= size c)%nat /\ (0 < k -> (size c' < size c)%nat).
Hypothesis expat_empty : expat "" = [].

(** What [msg.body] can be between two packets. *)
Definition body_ok (b : body_ptr) : Prop := b = BUninit \/ b = BNull \/ b = BFreed.

Lemma free_malloced_ok len : body_ok (free_malloced (malloc_body len)).
Proof. unfold malloc_body, body_ok. destruct (len <? 0); auto. Qed.

(** An event whose body is empty is not enqueued. *)
Lemma empty_event h b e b' :
  hlen h <= 0 -> serverProcessClientEventPacket expat h [] b = Ok (e, b') -> e = None /\ b' = b.
Proof.
  intros Hl. unfold serverProcessClientEventPacket. destruct (content h =? PROT_CONTENT_XML) eqn:Ex.
  - unfold serverProcessClientEvent, process_xml. rewrite Ex.
    destruct (decide (hlen h = 0)) as [->|Hn].
    + change (slice [] 0 0) with (Ok (A := list Z) []). cbn [mbind res_bind].
      change (c_string ([] ++ [0])) with "".
      unfold processEventNoticeString, xmlParseClientEvent. by rewrite expat_empty.
    + rewrite slice_out by (simpl; lia). done.
  - destruct (content h =? PROT_CONTENT_EVENT); [done|by intros [= <- <-]].
Qed.

(** A packet leaves the server as it was, and enqueues nothing. *)
Lemma packet_body_quiet buffer h b c s e t :
  body_ok b -> ssl_packet_body buffer h b c s = Ok (e, t) ->
  e = None /\ body_ok (s_body t) /\ s_srv t = s /\ (size (s_conn t) <= size c)%nat.
Proof.
  intros Hb. unfold ssl_packet_body. destruct (htype h =? PROT_CLIENT_EVENT).
  - unfold ssl_event_body, ssl_read_stale. destruct Hb as [-> |[-> | ->]]; try done.
    destruct (SSL_read (hlen h) c) as [[k bytes] c'] eqn:Er. apply SSL_read_size in Er as [Hc _].
    destruct (Z.ltb_spec 0 k); [done|]. cbn [mret res_ret mbind res_bind].
    destruct (Z.eqb_spec k (hlen h)) as [Hk|]; cbn [negb].
    + intros H'. apply bind_ok in H' as ([e' b'] & H' & [= <- <-]).
      replace (Z.to_nat (hlen h)) with 0%nat in H' by lia. rewrite take_0 in H'.
      apply empty_event in H' as [-> ->]; [|lia]. split_and!; try done. by right; left.
    + intros [= <- <-]. split_and!; try done. by right; left.
  - destruct (SSL_read (hlen h) c) as [[k bytes] c'] eqn:Er. intros H.
    pose proof (SSL_read_size _ _ _ _ _ Er) as [Hc _].
    assert (Hq : forall r, Ok (None, ssl_put h (free_malloced (malloc_body (hlen h))) c' s) = Ok r ->
              r = (e, t) -> e = None /\ body_ok (s_body t) /\ s_srv t = s /\ (size (s_conn t) <= size c)%nat).
    { intros r [= <-] [= <- <-]. split_and!; try done. apply free_malloced_ok. }
    destruct (htype h =? PROT_BC_CLIENT); [|by eapply Hq; [|done]].
    destruct (Z.eqb_spec k (hlen h)) as [Hk|]; cbn [negb] in H; [|by eapply Hq; [|done]].
    exfalso. rewrite client_bc_overflow in H; [done|].
    destruct (decide (hlen h < 0)); [by left|right]. subst k. eapply SSL_read_length; [done|lia].
Qed.

Lemma ssl_round_quiet buffer t e t' :
  body_ok (s_body t) -> ssl_round buffer t = Ok (e, t') ->
  e = None /\ match t' with
              | None => True
              | Some t' => body_ok (s_body t') /\ s_srv t' = s_srv t /\
                           (size (s_conn t') < size (s_conn t))%nat
              end.
Proof.
  intros Hb. unfold ssl_round.
  destruct (SSL_read sizeof_HEADER (s_conn t)) as [[k bytes] c'] eqn:Er.
  destruct (Z.leb_spec k 0) as [|Hk]; [by intros [= <- <-]|].
  apply SSL_read_size in Er as [_ Hc]. specialize (Hc Hk). intros H.
  apply bind_ok in H as (h & _ & H). cbv zeta in H. destruct (negb _).
  { by injection H as <- <-. }
  apply bind_ok in H as ([e' v] & Hv & [= <- <-]).
  apply packet_body_quiet in Hv as (-> & Hv & Hs & Hl); [|done]. split_and!; try done. lia.
Qed.

Lemma ssl_round_returns buffer t : returns (ssl_round buffer t).
Proof.
  unfold ssl_round. destruct (SSL_read _ _) as [[k bytes] c']. destruct (k <=? 0); [discriminate|].
  apply bind_returns; [apply read_header_returns|]. intros h _. cbv zeta.
  destruct (negb _); [discriminate|]. apply bind_returns; [|by intros [e v] _].
  unfold ssl_packet_body. destruct (_ =? _).
  - unfold ssl_event_body. apply bind_returns.
    { unfold ssl_read_stale. destruct (s_body t); try discriminate;
        destruct (SSL_read _ _) as [[? ?] ?]; by destruct (_ <? _). }
    intros [k' c2] _. destruct (negb _); [discriminate|].
    apply bind_returns; [apply client_event_packet_returns|]. by intros [e b] _.
  - destruct (SSL_read _ _) as [[k' bytes'] c2]. destruct (_ =? PROT_BC_CLIENT); [|discriminate].
    destruct (negb _); [discriminate|]. apply bind_returns; [apply client_bc_returns|]. discriminate.
Qed.

Lemma ssl_loop_quiet fuel junkmem t :
  body_ok (s_body t) -> (size (s_conn t) < fuel)%nat ->
  match ssl_loop fuel junkmem t with
  | Ok (es, s') => es = [] /\ s' = s_srv t
  | Fault _ => True
  | NoFuel => False
  end.
Proof.
  revert t. induction fuel as [|fuel IH]; intros t Hb Hf; [lia|]. cbn [ssl_loop].
  pose proof (ssl_round_returns (junkmem fuel) t) as Hr.
  destruct (ssl_round (junkmem fuel) t) as [[e t']| |] eqn:E; [|done|by destruct Hr].
  apply ssl_round_quiet in E as [-> E]; [|done]. cbn [mbind res_bind].
  destruct t' as [t'|]; [|done]. destruct E as (Hb' & Hs & Hl).
  specialize (IH t' Hb' ltac:(lia)). destruct (ssl_loop fuel junkmem t') as [[es s']| |]; try done.
  destruct IH as [-> ->]. done.
Qed.

(** C36: no event that a client sends over SSL ever reaches the engine: a
    connection ends without an event enqueued and without an answer sent, or
    in undefined behaviour. *)
Theorem ssl_servlet_enqueues_nothing (junkmem : nat -> list Z) (uninit : HEADER) (c : C) (s : server) :
  match ssl_serverServlet (size c) junkmem uninit c s with
  | Ok (es, s') => es = [] /\ s' = s
  | Fault _ => True
  | NoFuel => False
  end.
Proof.
  apply (ssl_loop_quiet _ junkmem (ssl_put uninit BUninit c s)); [by left|simpl; lia].
Qed.
End Ssl.

(** ** Witnesses *)

Lemma read_conn_facts :
  (forall n c k bytes c', read_conn n c = (k, bytes, c') -> 0 <= k -> k = Z.of_nat (List.length bytes)) /\
  (forall n c k bytes c', read_conn n c = (k, bytes, c') ->
     (conn_size c' <= conn_size c)%nat /\ (0 < k -> (conn_size c' < conn_size c)%nat)).
Proof.
  split.
  - intros n c k bytes c'. unfold read_conn. destruct (Z.ltb_spec n 0); [intros [= <- <- <-]; lia|].
    destruct (Z.eqb_spec n 0); [by intros [= <- <- <-]|].
    destruct c as [|[l|] c]; [by intros [= <- <- <-]| |intros [= <- <- <-]; lia].
    destruct (Z.leb_spec (Z.of_nat (List.length l)) n); intros [= <- <- <-]; [done|].
    rewrite length_take. lia.
  - intros n c k bytes c' H. split; [by eapply read_conn_size|]. intros Hk. by eapply read_conn_less.
Qed.

(** A connection that opens with an event: the body goes to a wild pointer.
    One that opens with an unknown packet and closes is served. *)
Lemma ssl_servlet_enqueues_nothing_witness :
  let idle := {| version := 2; htype := 64; content := 0; reserved := [0; 0; 0; 0; 0];
                 magic := htonl PROT_MAGIC_NUMBER; hlen := htonl 0 |} in
  ssl_serverServlet read_conn no_xml [] 1 2 33 (fun _ => []) uninit_header
    [Some (event_packet (sample_ev 5))] blank_server = Fault UninitRead /\
  exists es s', ssl_serverServlet read_conn no_xml [] 1 2 17 (fun _ => []) uninit_header
    [Some (header_bytes idle)] blank_server = Ok (es, s') /\ es = [].
Proof.
  intros idle. split; [reflexivity|].
  pose proof (ssl_servlet_enqueues_nothing read_conn no_xml [] 1 2 conn_size
    (proj1 read_conn_facts) (proj2 read_conn_facts) eq_refl (fun _ => []) uninit_header
    [Some (header_bytes idle)] blank_server) as H.
  assert (Hr : ssl_serverServlet read_conn no_xml [] 1 2 17 (fun _ => []) uninit_header
    [Some (header_bytes idle)] blank_server = Ok ([], blank_server)) by reflexivity.
  exists [], blank_server. split; [exact Hr|]. change (conn_size [Some (header_bytes idle)]) with 17%nat in H.
  rewrite Hr in H. exact (proj1 H).
Defined.
