(* ===== verification/Typing.v ===== *)
(** * The events that the servers enqueue, and the bytes they come from

    Whatever bytes arrive, an event that a server enqueues has values of their
    C types in its fields, and a sound string. The layout of a packet is given
    as a relation between bytes and events, from which the events of the UDP
    server are read off. *)

From stdpp Require Import base list strings.
From Stdlib Require Import ZArith Lia Ascii String.
From S2P Require Import Prelude Events CString Wire Notice Server UdpServer TcpServer.
Local Open Scope Z_scope.
Local Open Scope list_scope.

Definition int32 (z : Z) : Prop := - 2 ^ 31 <= z < 2 ^ 31.

Definition event_typed (e : EVENT) : Prop :=
  event_wf e /\ int32 (flags e) /\ int32 (sound_len e) /\ is_Some (sound e).

Definition bytes : list Z -> Prop := Forall is_byte.

(** ** Integers and memory *)

Lemma i32_int32 z : int32 (i32 z).
Proof. apply (swrap_range 32). lia. Qed.

Lemma u8_byte z : is_byte (u8 z).
Proof. apply (uwrap_range 8). lia. Qed.

Lemma ntohl_int32 z : int32 (ntohl z).
Proof. unfold ntohl, bswap. cbn [le32]. apply i32_int32. Qed.

Lemma atoi_int32 s : int32 (atoi s).
Proof.
  unfold atoi. destruct (skip_space s) as [|c t]; [apply i32_int32|].
  repeat match goal with |- int32 (match ?x with _ => _ end) => destruct x end; apply i32_int32.
Qed.

Lemma slice_bytes buf off n l : bytes buf -> slice buf off n = Ok l -> bytes l.
Proof.
  unfold slice. case_decide; [|done]. intros Hb [= <-]. by apply Forall_take, Forall_drop.
Qed.

Create HintDb typing.
#[export] Hint Resolve i32_int32 u8_byte ntohl_int32 atoi_int32 : typing.

(** ** Events in binary *)

Lemma event_of_typed l data e : bytes l -> event_of l data = Ok e -> event_typed e.
Proof.
  unfold event_of, bytes. intros Hb H.
  do 16 (destruct l as [|? l]; [done|]). destruct l; [|done].
  apply bind_ok in H as (s & _ & [= <-]).
  rewrite !Forall_cons in Hb. destruct_and!. unfold is_byte in *.
  split; [|cbn; split_and!; eauto with typing]. cbn. unfold event_wf. cbn. tauto.
Qed.

Lemma read_event_typed data e : bytes data -> read_event data = Ok e -> event_typed e.
Proof.
  unfold read_event. intros Hb H. apply bind_ok in H as (l & Hl & H).
  eapply event_of_typed; [|exact H]. by eapply slice_bytes.
Qed.

(** ** Events in XML *)

Lemma set_notice_flags t s n : int32 (n_flags n) -> int32 (n_flags (set_notice t s n)).
Proof. intros H. unfold set_notice. cbv zeta. repeat case_if; cbn; eauto with typing. Qed.

Lemma client_calls_flags cs : forall i i',
  int32 (n_flags (notice i)) -> client_calls cs i = Ok i' -> int32 (n_flags (notice i')).
Proof.
  induction cs as [|[t a|t|m l] cs IH]; intros i i' Hi H; cbn [client_calls] in H.
  - by injection H as <-.
  - by eapply IH in H.
  - by eapply IH in H.
  - apply bind_ok in H as (j & Hj & H). eapply IH; [|exact H]. unfold xmlParseClientChar in Hj.
    apply bind_ok in Hj as ([s|] & _ & Hj); [|by injection Hj as <-].
    destruct (current_tag i); [|done]. injection Hj as <-. by apply set_notice_flags.
Qed.

Lemma convert_typed n e :
  int32 (n_flags n) -> serverConvertNoticeToEngineEvent n = Some e -> event_typed e.
Proof.
  intros Hf H. unfold serverConvertNoticeToEngineEvent in H. destruct (n_sound n); [|done].
  injection H as <-. split; [|cbn; split_and!; eauto with typing].
  unfold event_wf. cbn [type loc prior vol dither]. split_and!; apply u8_byte.
Qed.

Lemma process_xml_typed expat msg n e : process_xml expat msg n = Ok e -> event_typed e.
Proof.
  intros H. unfold process_xml, processEventNoticeString, xmlParseClientEvent in H.
  apply bind_ok in H as (l & _ & H). apply bind_ok in H as (nt & Hn & H).
  apply bind_ok in Hn as (i & Hi & [= <-]).
  destruct (serverConvertNoticeToEngineEvent (notice i)) as [e'|] eqn:He; [|done]. injection H as <-.
  eapply convert_typed; [|exact He]. eapply client_calls_flags; [|exact Hi]. split; done.
Qed.

(** ** Packets *)

Lemma event_packet_typed expat h data b e b' :
  bytes data -> serverProcessClientEventPacket expat h data b = Ok (Some e, b') -> event_typed e.
Proof.
  intros Hd H. unfold serverProcessClientEventPacket, serverProcessClientEvent in H. case_if.
  { apply bind_ok in H as (o & Ho & [= -> <-]). apply bind_ok in Ho as (e' & He & [= ->]).
    by apply process_xml_typed in He. }
  case_if; [|done]. apply bind_ok in H as (e' & He & H). apply bind_ok in H as (o & Ho & [= -> _]).
  injection Ho as ->. by apply read_event_typed in He.
Qed.

(** *** UDP *)

Lemma recv_bytes d u : bytes d -> bytes (data_buffer u) -> bytes (data_buffer (recv d u)).
Proof. intros Hd Hu. apply Forall_app. split; [by apply Forall_take|by apply Forall_drop]. Qed.

Definition input_bytes (i : udp_input) : Prop :=
  match i with Datagram _ _ d _ _ => bytes d | Alarm _ => True end.

Lemma add_client_buffer now junk host port u u' :
  serverAddClient now junk host port u = Ok u' -> data_buffer u' = data_buffer u.
Proof.
  unfold serverAddClient. intros H. apply bind_ok in H as (f & _ & H).
  apply bind_ok in H as ([l v] & Hv & H). apply bind_ok in H as ([l' n] & _ & H).
  apply bind_ok in H as (s & _ & [= <-]). simpl.
  destruct f as [a|]; [by injection Hv as _ <-|]. unfold serverAddLeaseEntry in Hv.
  destruct (hlhead u); [|by injection Hv as _ <-].
  apply bind_ok in Hv as (p & _ & Hv). apply bind_ok in Hv as ([q m] & _ & Hv).
  by injection Hv as _ <-.
Qed.

Lemma alarm_buffer now u u' : serverHandleAlarm now u = Ok u' -> data_buffer u' = data_buffer u.
Proof.
  intros H. unfold serverHandleAlarm, serverPurgeHostList, serverSendStillAlive in H.
  apply bind_ok in H as (v & Hv & H). apply bind_ok in H as (o & _ & [= <-]).
  apply bind_ok in Hv as (r & _ & Hv). by destruct r; injection Hv as <-.
Qed.

(** A datagram or an alarm: what is enqueued is typed, and the receive buffer
    holds bytes again. *)
Lemma packet_typed expat now junk host port u e u' :
  bytes (data_buffer u) -> serverRealStart_packet expat now junk host port u = Ok (e, u') ->
  data_buffer u' = data_buffer u /\ (forall x, e = Some x -> event_typed x).
Proof.
  intros Hb H. unfold serverRealStart_packet in H. apply bind_ok in H as (h & _ & H). cbv zeta in H.
  case_if. { apply bind_ok in H as (b & _ & [= <- <-]). done. }
  case_if.
  { apply bind_ok in H as ([o b] & Ho & [= <- <-]). split; [done|]. intros x ->.
    eapply event_packet_typed, Ho. by apply Forall_drop. }
  apply bind_ok in H as (l & Hl & H). apply bind_ok in H as (v & Hv & H).
  apply bind_ok in H as (b & _ & [= <- <-]). split; [|done].
  transitivity (data_buffer v); [done|].
  case_if; [|case_if].
  - apply slice_length in Hl. rewrite Hl, process_bc_spec in Hv.
    destruct (_ && _); [by apply add_client_buffer in Hv|by injection Hv as <-].
  - by apply bind_ok in Hv as (s & _ & [= <-]).
  - by injection Hv as <-.
Qed.

Lemma round_typed expat i u e u' :
  bytes (data_buffer u) -> input_bytes i -> serverRealStart_round expat i u = Ok (e, u') ->
  bytes (data_buffer u') /\ (forall x, e = Some x -> event_typed x).
Proof.
  intros Hb Hi H. destruct i as [now junk d host port|now]; cbn [serverRealStart_round] in H.
  - apply packet_typed in H as [-> H]; [split; [|done]|]; by apply recv_bytes.
  - apply bind_ok in H as (v & Hv & [= <- <-]). split; [|done]. by rewrite (alarm_buffer _ _ _ Hv).
Qed.

(** *** TCP *)

Definition conn_bytes (c : conn) : Prop := Forall (fun l => forall x, l = Some x -> bytes x) c.

Lemma read_conn_bytes n c k l c' :
  conn_bytes c -> read_conn n c = (k, l, c') -> bytes l /\ conn_bytes c'.
Proof.
  unfold read_conn. intros Hc. repeat case_if; [by intros [= <- <- <-]; split; [constructor|]..|].
  destruct c as [|[x|] c]; [by intros [= <- <- <-]; split; [constructor|]| |].
  - apply Forall_cons in Hc as [Hx Hc]. specialize (Hx _ eq_refl). case_if; intros [= <- <- <-].
    + done.
    + split; [by apply Forall_take|]. apply Forall_cons. split; [|done].
      intros y [= <-]. by apply Forall_drop.
  - apply Forall_cons in Hc as [_ Hc]. intros [= <- <- <-]. split; [constructor|done].
Qed.

Lemma servlet_round_typed expat junk host hport t e t' :
  conn_bytes (t_conn t) -> servlet_round expat junk host hport t = Ok (e, t') ->
  (forall x, e = Some x -> event_typed x) /\ (forall x, t' = Some x -> conn_bytes (t_conn x)).
Proof.
  intros Hc H. unfold servlet_round in H. destruct (read_conn _ _) as [[k l] c] eqn:Er.
  apply read_conn_bytes in Er as [Hl Hc']; [|done]. case_if; [by injection H as <- <-|].
  apply bind_ok in H as (h & _ & H). cbv zeta in H.
  case_if. { injection H as <- <-. split; [done|]. by intros x [= <-]. }
  apply bind_ok in H as ([o v] & Hv & [= -> <-]). unfold servlet_body in Hv.
  destruct (read_conn (hlen _) c) as [[k' l'] c'] eqn:Er'.
  apply read_conn_bytes in Er' as [Hl' Hc'']; [|done].
  assert (forall s, forall x, Some {| t_header := host_order h; t_conn := c'; t_srv := s |} = Some x ->
    conn_bytes (t_conn x)) as Hx by (by intros s x [= <-]).
  repeat case_if; try (by injection Hv as <- <-; split; [|apply Hx]).
  - apply bind_ok in Hv as (s & _ & [= <- <-]). split; [done|apply Hx].
  - apply bind_ok in Hv as ([o b] & Ho & [= <- <-]). split; [|apply Hx]. intros x ->.
    by eapply event_packet_typed, Ho.
Qed.

(** ** The wire format, as a relation

    The layout of a packet, as [server.h] declares it, from the packet's side:
    which bytes stand for which event. *)

(** The header of a packet of version [v]; [rs] are its reserved bytes, and [n]
    is the length that it gives. *)
Definition packet_head (v t c : Z) (rs : list Z) (n : Z) : list Z :=
  [v; t; c] ++ rs ++ be32 (i32 PROT_MAGIC_NUMBER) ++ be32 n.

(** The receive buffer [l] holds the event [e]: in the binary format, with the
    string behind the fixed part, up to its first null; or as a document in
    XML, in which the parser has found the notice [n]. What is behind the event
    does not matter. *)
Inductive carries (expat : string -> list xml_call) : list Z -> EVENT -> Prop :=
| carries_event v rs n e r0 r1 r2 str rest :
    List.length rs = 5%nat -> int32 (flags e) -> int32 (sound_len e) ->
    Z.of_nat (List.length str) = sound_len e -> sound e = Some (c_string (str ++ [0])) ->
    carries expat (packet_head v PROT_CLIENT_EVENT PROT_CONTENT_EVENT rs n ++
                   event_head e r0 r1 r2 (sound_len e) ++ str ++ rest) e
| carries_xml v rs doc rest n snd :
    List.length rs = 5%nat -> int32 (Z.of_nat (List.length doc)) ->
    processEventNoticeString expat (c_string (doc ++ [0])) noticeCreateNotice = Ok n ->
    n_sound n = Some snd ->
    carries expat (packet_head v PROT_CLIENT_EVENT PROT_CONTENT_XML rs (Z.of_nat (List.length doc)) ++ doc ++ rest)
      {| type := u8 (n_type n); loc := u8 (n_location n); prior := u8 (n_priority n); vol := u8 (n_volume n);
         dither := u8 (n_dither n); flags := n_flags n; sound_len := i32 (strlen snd); sound := Some snd |}.

(** The buffer is a packet with an event: by its type, its content and the four
    bytes of the magic number. *)
Definition event_inside (l : list Z) : bool :=
  bool_decide (l !! 1%nat = Some PROT_CLIENT_EVENT) &&
  bool_decide (l !! 2%nat = Some PROT_CONTENT_EVENT \/ l !! 2%nat = Some PROT_CONTENT_XML) &&
  bool_decide (take 4 (drop 8 l) = [222; 173; 190; 239]).

(** The receive buffer after each datagram: its first 512 bytes, and behind them
    what earlier ones have left. *)
Fixpoint buffers (ins : list udp_input) (old : list Z) : list (list Z) :=
  match ins with
  | [] => []
  | Alarm _ :: ins => buffers ins old
  | Datagram _ _ d _ _ :: ins =>
      let d := take (Z.to_nat MAX_UDP_PACKET_SIZE) d in
      let l := d ++ drop (List.length d) old in
      l :: buffers ins l
  end.

(** *** What is read is what was written *)

Lemma be32_ntohl b0 b1 b2 b3 :
  bytes [b0; b1; b2; b3] -> be32 (ntohl (of_le32 b0 b1 b2 b3)) = [b0; b1; b2; b3].
Proof.
  unfold bytes. rewrite !Forall_cons. intros (H0 & H1 & H2 & H3 & _).
  unfold be32, ntohl, bswap. rewrite of_le32_digits by done. by rewrite of_le32_digits.
Qed.

Lemma slice_behind a buf n l :
  slice (a ++ buf) (Z.of_nat (List.length a)) n = Ok l -> exists rest, buf = l ++ rest /\ Z.of_nat (List.length l) = n.
Proof.
  intros H. pose proof (slice_length _ _ _ _ H) as Hn. unfold slice in H. case_decide; [|done].
  rewrite Nat2Z.id, drop_app_length in H. injection H as <-.
  exists (drop (Z.to_nat n) buf). by rewrite take_drop.
Qed.

Lemma slice_split buf n l :
  slice buf 0 n = Ok l -> exists rest, buf = l ++ rest /\ Z.of_nat (List.length l) = n.
Proof. apply (slice_behind []). Qed.

(** A header that was read, byte by byte. *)
Lemma read_header_split buf h :
  bytes buf -> read_header buf = Ok h ->
  exists m rs rest, buf = [version h; htype h; content h] ++ rs ++ m ++ be32 (ntohl (hlen h)) ++ rest /\
    List.length rs = 5%nat /\ m = be32 (ntohl (magic h)) /\ List.length m = 4%nat /\ bytes rest.
Proof.
  intros Hb H. unfold read_header in H. apply bind_ok in H as (l & Hl & H).
  destruct (slice_split _ _ _ Hl) as (rest & -> & Hn). do 16 (destruct l as [|? l]; [done|]). destruct l; [|done].
  injection H as <-. cbn [version htype content hlen magic]. apply Forall_app in Hb as [Hb Hr].
  rewrite !Forall_cons in Hb. destruct_and!.
  rewrite !be32_ntohl by (unfold bytes; rewrite !Forall_cons; done).
  lazymatch goal with |- exists m rs r, [_; _; _; ?r0; ?r1; ?r2; ?r3; ?r4; ?m0; ?m1; ?m2; ?m3; _; _; _; _] ++ _ = _ /\ _ =>
    exists [m0; m1; m2; m3], [r0; r1; r2; r3; r4], rest end. done.
Qed.

Lemma event_of_split l data e :
  bytes l -> event_of l data = Ok e ->
  exists r0 r1 r2 str, l = event_head e r0 r1 r2 (sound_len e) /\ slice data 16 (sound_len e) = Ok str /\
    sound e = Some (c_string (str ++ [0])).
Proof.
  intros Hb H. unfold event_of in H. do 16 (destruct l as [|? l]; [done|]). destruct l; [|done].
  apply bind_ok in H as (str & Hs & [= <-]). cbn [type loc prior vol dither flags sound_len sound].
  unfold bytes in Hb. rewrite !Forall_cons in Hb. destruct_and!. unfold event_head. cbn [type loc prior vol dither flags].
  rewrite !be32_ntohl by (unfold bytes; rewrite !Forall_cons; done). by eexists _, _, _, str.
Qed.

Lemma read_event_split data e :
  bytes data -> read_event data = Ok e ->
  exists r0 r1 r2 str rest, data = event_head e r0 r1 r2 (sound_len e) ++ str ++ rest /\
    Z.of_nat (List.length str) = sound_len e /\ sound e = Some (c_string (str ++ [0])).
Proof.
  intros Hb H. unfold read_event in H. apply bind_ok in H as (l & Hl & H).
  destruct (slice_split _ _ _ Hl) as (rest & -> & Hn). apply Forall_app in Hb as [Hb _].
  destruct (event_of_split _ _ _ Hb H) as (r0 & r1 & r2 & str & -> & Hs & Hsnd).
  destruct (slice_behind _ rest _ _ Hs) as (rest' & -> & Hlen). by exists r0, r1, r2, str, rest'.
Qed.

Lemma process_xml_split expat data n e :
  process_xml expat data n = Ok e ->
  exists doc rest nt snd, data = doc ++ rest /\ Z.of_nat (List.length doc) = n /\
    processEventNoticeString expat (c_string (doc ++ [0])) noticeCreateNotice = Ok nt /\ n_sound nt = Some snd /\
    e = {| type := u8 (n_type nt); loc := u8 (n_location nt); prior := u8 (n_priority nt); vol := u8 (n_volume nt);
           dither := u8 (n_dither nt); flags := n_flags nt; sound_len := i32 (strlen snd); sound := Some snd |}.
Proof.
  intros H. unfold process_xml in H. apply bind_ok in H as (doc & Hd & H). apply bind_ok in H as (nt & Hn & H).
  destruct (slice_split _ _ _ Hd) as (rest & -> & Hl). unfold serverConvertNoticeToEngineEvent in H.
  destruct (n_sound nt) as [snd|] eqn:Hs; [|done]. injection H as <-. by exists doc, rest, nt, snd.
Qed.

(** ** A round of the UDP server *)

Lemma magic_bytes z : int32 z -> (u32 z =? PROT_MAGIC_NUMBER) = bool_decide (be32 z = [222; 173; 190; 239]).
Proof.
  intros Hz. unfold int32 in Hz. apply eq_true_iff_eq. rewrite Z.eqb_eq, bool_decide_eq_true. split.
  - intros H. assert (z = PROT_MAGIC_NUMBER - 2 ^ 32) as ->; [|reflexivity].
    unfold u32, uwrap, PROT_MAGIC_NUMBER in *. change (2 ^ 32) with 4294967296 in *. change (2 ^ 31) with 2147483648 in *.
    Z.div_mod_to_equations. lia.
  - intros H. rewrite <- (le32_of_le32 z) by exact Hz. unfold be32, le32 in H. cbn in H. injection H as -> -> -> ->.
    reflexivity.
Qed.

Lemma magic_value z : int32 z -> u32 z = PROT_MAGIC_NUMBER -> z = i32 PROT_MAGIC_NUMBER.
Proof.
  intros Hz H. change (i32 PROT_MAGIC_NUMBER) with (PROT_MAGIC_NUMBER - 2 ^ 32).
  unfold int32, u32, uwrap, PROT_MAGIC_NUMBER in *. change (2 ^ 32) with 4294967296 in *.
  change (2 ^ 31) with 2147483648 in *. Z.div_mod_to_equations. lia.
Qed.

(** [event_inside] in terms of the header. *)
Lemma event_inside_header v t c rs m l :
  List.length rs = 5%nat -> List.length m = 4%nat ->
  event_inside ([v; t; c] ++ rs ++ m ++ l) =
    bool_decide (m = [222; 173; 190; 239]) && (t =? PROT_CLIENT_EVENT) &&
    ((c =? PROT_CONTENT_XML) || (c =? PROT_CONTENT_EVENT)).
Proof.
  intros Hr Hm. do 5 (destruct rs as [|? rs]; [done|]). destruct rs; [|done].
  do 4 (destruct m as [|? m]; [done|]). destruct m; [|done].
  apply eq_true_iff_eq. unfold event_inside.
  rewrite !andb_true_iff, !bool_decide_eq_true, orb_true_iff, !Z.eqb_eq. cbn. naive_solver.
Qed.

Lemma packet_head_app v t c rs n l :
  [v; t; c] ++ rs ++ be32 (i32 PROT_MAGIC_NUMBER) ++ be32 n ++ l = packet_head v t c rs n ++ l.
Proof. unfold packet_head. by rewrite <- !app_assoc. Qed.

(** A round enqueues an event exactly when the buffer has one, and then that one. *)
Lemma packet_events expat now junk host port u e u' :
  bytes (data_buffer u) -> serverRealStart_packet expat now junk host port u = Ok (e, u') ->
  if event_inside (data_buffer u) then exists x, e = Some x /\ carries expat (data_buffer u) x else e = None.
Proof.
  intros Hb H. unfold serverRealStart_packet in H. apply bind_ok in H as (h & Hh & H). cbv zeta in H.
  destruct (read_header_split _ _ Hb Hh) as (m & rs & rest & Hbuf & Hrs & Hm & Hm4 & Hrest).
  assert (drop (Z.to_nat sizeof_HEADER) (data_buffer u) = rest) as Hd.
  { rewrite Hbuf. do 5 (destruct rs as [|? rs]; [done|]). destruct rs; [|done].
    do 4 (destruct m as [|? m]; [done|]). by destruct m. }
  assert (event_inside (data_buffer u) = magic_ok (host_order h) && (htype h =? PROT_CLIENT_EVENT) &&
    ((content h =? PROT_CONTENT_XML) || (content h =? PROT_CONTENT_EVENT))) as ->.
  { rewrite Hbuf, event_inside_header by done. unfold magic_ok. cbn [magic host_order].
    by rewrite magic_bytes, <- Hm by apply ntohl_int32. }
  destruct (magic_ok (host_order h)) eqn:Ho; cbn [negb andb] in *.
  2:{ by apply bind_ok in H as (b & _ & [= <- _]). }
  assert (m = be32 (i32 PROT_MAGIC_NUMBER)) as ->.
  { rewrite Hm. f_equal. apply magic_value; [apply ntohl_int32|]. by apply Z.eqb_eq. }
  change (htype (host_order h)) with (htype h) in H. destruct (Z.eqb_spec (htype h) PROT_CLIENT_EVENT) as [Et|]; cbn [andb].
  2:{ apply bind_ok in H as (l & _ & H). apply bind_ok in H as (v & _ & H). by apply bind_ok in H as (b & _ & [= <- _]). }
  apply bind_ok in H as ([o b] & Hp & [= <- _]). rewrite Hd in Hp. rewrite Hbuf, Et.
  unfold serverProcessClientEventPacket, serverProcessClientEvent in Hp.
  change (content (host_order h)) with (content h) in Hp.
  destruct (Z.eqb_spec (content h) PROT_CONTENT_XML) as [-> |]; cbn [orb].
  - apply bind_ok in Hp as (o' & Ho' & [= -> _]). apply bind_ok in Ho' as (x & Hx & [= <-]).
    destruct (process_xml_split _ _ _ _ Hx) as (doc & rest' & nt & snd & -> & Hl & Hn & Hs & ->).
    eexists. split; [done|]. change (hlen (host_order h)) with (ntohl (hlen h)) in Hl. rewrite <- Hl, packet_head_app.
    apply (carries_xml expat (version h) rs doc rest' nt snd); try done. rewrite Hl. apply ntohl_int32.
  - destruct (Z.eqb_spec (content h) PROT_CONTENT_EVENT) as [-> |]; [|by injection Hp as <- _].
    apply bind_ok in Hp as (x & Hx & Hp). apply bind_ok in Hp as (o' & [= <-] & [= <- _]).
    destruct (read_event_typed _ _ Hrest Hx) as (_ & Hf & Hsl & _).
    destruct (read_event_split _ _ Hrest Hx) as (r0 & r1 & r2 & str & rest' & Hr & Hl & Hs).
    eexists. split; [done|]. rewrite Hr, packet_head_app. by apply (carries_event expat (version h) rs (ntohl (hlen h)) x r0 r1 r2 str rest').
Qed.

(** ** Property *)

(** C7: the events that the UDP server puts into the engine queue are those that
    the datagrams hold. Over any sequence of datagrams of any bytes and of
    alarms that it gets through without undefined behaviour: there is one event,
    in the order of the datagrams, for each whose receive buffer has the magic
    number, the type of an event, and a content in the binary format or in XML;
    and the buffer holds that event, every field of it in its place on the wire.
    The buffer is the datagram, cut to 512 bytes, with what earlier ones have
    left behind it, so that a short datagram is completed by them. *)
Theorem udp_events_on_the_wire (expat : string -> list xml_call) (ins : list udp_input) (u u' : udp)
    (es : list EVENT) :
  Forall input_bytes ins -> bytes (data_buffer u) -> serverRealStart expat ins u = Ok (es, u') ->
  Forall2 (carries expat) (filter (fun l => event_inside l = true) (buffers ins (data_buffer u))) es.
Proof.
  intros Hi. revert u es. induction Hi as [|i ins Hi _ IH]; intros u es Hu H; cbn [serverRealStart] in H.
  { by injection H as <- _. }
  apply bind_ok in H as ([e v] & Hr & H). apply bind_ok in H as ([es' v'] & Hl & [= <- ->]).
  destruct (round_typed _ _ _ _ _ Hu Hi Hr) as [Hv _]. specialize (IH v es' Hv Hl).
  destruct i as [now junk d host port|now]; cbn [serverRealStart_round buffers] in *.
  - pose proof (recv_bytes d u Hi Hu) as Hb. destruct (packet_typed _ _ _ _ _ _ _ _ Hb Hr) as [Hd _].
    rewrite Hd in IH. apply packet_events in Hr; [|done]. change (data_buffer (recv d u)) with
      (take (Z.to_nat MAX_UDP_PACKET_SIZE) d ++
       drop (List.length (take (Z.to_nat MAX_UDP_PACKET_SIZE) d)) (data_buffer u)) in *.
    destruct (event_inside _) eqn:Ee.
    + destruct Hr as (x & -> & Hc). rewrite filter_cons_True by done. by constructor.
    + subst e. by rewrite filter_cons_False by congruence.
  - apply bind_ok in Hr as (x & Hx & [= <- <-]). by rewrite (alarm_buffer _ _ _ Hx) in IH.
Qed.

(** ** Witness *)

(** An event in a datagram, an alarm, and the start of another packet, which the
    bytes of the first one complete. *)
Definition ring : EVENT :=
  {| type := 0; loc := 128; prior := 7; vol := 255; dither := 0; flags := 1; sound_len := 4;
     sound := Some "ring" |}.

Definition is_bytes (l : list Z) : bool := forallb (fun b => (0 <=? b) && (b <? 256)) l.

Lemma is_bytes_bytes l : is_bytes l = true -> bytes l.
Proof.
  intros H. apply Forall_forall. intros b Hb. unfold is_bytes in H. rewrite forallb_forall in H.
  specialize (H b (proj1 (list_elem_of_In _ _) Hb)). unfold is_byte. lia.
Qed.

Definition demo_inputs : list udp_input :=
  [Datagram (at_sec 5) [] (event_packet ring) 1 2; Alarm (at_sec 6);
   Datagram (at_sec 7) [] (take 20 (event_packet ring)) 1 2].

Lemma udp_events_on_the_wire_witness :
  exists u', serverRealStart (fun _ => []) demo_inputs fresh_udp = Ok ([ring; ring], u') /\
    Forall2 (carries (fun _ => []))
      (filter (fun l => event_inside l = true) (buffers demo_inputs (data_buffer fresh_udp))) [ring; ring].
Proof.
  assert (exists u', serverRealStart (fun _ => []) demo_inputs fresh_udp = Ok ([ring; ring], u')) as [u' H].
  { eexists. vm_compute. reflexivity. }
  exists u'. split; [exact H|].
  apply (udp_events_on_the_wire (fun _ => []) demo_inputs fresh_udp u' [ring; ring]); [| |exact H].
  - apply Forall_cons. split; [apply is_bytes_bytes; vm_compute; reflexivity|].
    apply Forall_cons. split; [exact I|]. apply Forall_singleton. apply is_bytes_bytes. vm_compute. reflexivity.
  - apply is_bytes_bytes. vm_compute. reflexivity.
Defined.
