(* ===== verification/Peepd.v ===== *)
(** * The server as a whole: its three threads

    The server thread, the engine thread and the mixer thread with the state
    they share. A step is one round of a thread: a datagram or an alarm, an
    event taken out of the engine queue, a chunk of sound. The queue has no
    lock, so that rounds that overlap can destroy it ([engine_queue_race]);
    what is shown here is what holds when the scheduler interleaves rounds. *)

From stdpp Require Import base list sets strings relations.
From Stdlib Require Import ZArith Lia Ascii String.
From S2P Require Import Prelude Events CString Dbl EngineQueue SoundTable MixerQueue World Playback Mixer Engine MixerFacts Steps Release Wire Notice Server UdpServer TcpServer Typing.
Import SoundTable.
Local Open Scope Z_scope.
Local Open Scope list_scope.

Record system : Type := {
  s_queue : EngineQueue.state;
  s_world : world;
  s_udp : udp
}.

Inductive action : Type := Receive (i : udp_input) | EngineRound | MixerRound.

(** What the rounds never change, and what only grows. *)
Record later (s s' : system) : Prop := {
  lat_table : sound_table (s_world s') = sound_table (s_world s);
  lat_played : played (s_world s) `prefix_of` played (s_world s')
}.

#[export] Instance later_preorder : PreOrder later.
Proof.
  split; [by split|]. intros s t u [H1 H2] [H3 H4]. split; [congruence|by etransitivity].
Qed.

(** ** What the engine and the mixer thread share

    The engine queue holds [l], and [ws] waits for a channel. *)

Record shared_at {E : Env} (q : EngineQueue.state) (w : world) (l : list EVENT)
    (ws : list ENGINE_EVENT) : Prop := {
  sh_queue : EngineQueue.rep q l;
  sh_typed : Forall event_typed l;
  sh_threads : threads_ok w ws;
  sh_waiting : Forall (fun e => event_typed (event e)) ws
}.

(** The engine takes the event that was enqueued last. *)
Lemma dequeue_last q l e q' :
  EngineQueue.rep q l -> EngineQueue.engineDequeue q = Ok (e, q') ->
  exists l', l = l' ++ [e] /\ EngineQueue.rep q' l'.
Proof.
  intros Hr H. destruct l as [|x l _] using rev_ind.
  { by rewrite (EngineQueue.engineDequeue_empty q Hr) in H. }
  destruct (EngineQueue.engineDequeue_rep q l x Hr) as (q1 & H1 & Hr1).
  rewrite H in H1. injection H1 as <- <-. by exists l.
Qed.

Section Shared.
Context {E : Env} {L : EnvLaws E}.

Lemma engine_shared q w l ws e q' o w' :
  shared_at q w l ws -> EngineQueue.engineDequeue q = Ok (e, q') -> engineLoop_body e w = Ok (o, w') ->
  exists l' ws', l = l' ++ [e] /\ shared_at q' w' l' ws' /\ heard w w' /\
    (ws' ≡ₚ ws \/ exists t, ws' ≡ₚ ws ++ [{| event := e; mix_time := t |}]).
Proof.
  intros [Hq Hty Ht Hw] Hd He. destruct (dequeue_last _ _ _ _ Hq Hd) as (l' & -> & Hq1).
  apply Forall_app in Hty as [Hty He1]. apply Forall_inv in He1.
  destruct (engine_step_inv _ _ _ _ _ Ht He) as (ws' & Ht2 & B & P).
  exists l', ws'. split_and!; [done| |done|done]. split; try done.
  destruct P as [P|[t P]]; rewrite P; [done|]. apply Forall_app. split; [done|].
  apply Forall_singleton; exact He1.
Qed.

Lemma mixer_shared q w l ws w' :
  shared_at q w l ws -> mixer w = Ok (tt, w') ->
  exists ws' x, shared_at q w' l ws' /\ ws ≡ₚ x ++ ws' /\ sound_table w' = sound_table w /\
    played w `prefix_of` played w'.
Proof.
  intros [Hq Hty Ht Hw] Hm.
  destruct (mixer_ok _ _ _ Ht Hm) as ((ws' & x & Ht' & P) & Htb & _ & c & Hc & _).
  exists ws', x. split_and!; [|done|done|rewrite Hc; by eexists].
  split; try done. rewrite P in Hw. by apply Forall_app in Hw as [_ Hw].
Qed.
End Shared.

Section System.
Context {E : Env} (expat : string -> list xml_call).

(** What the server enqueues in a round, if anything. *)
Definition enqueue (e : option EVENT) (q : EngineQueue.state) : res EngineQueue.state :=
  match e with
  | None => mret q
  | Some e => '(_, q) ← EngineQueue.engineEnqueue e q; mret q
  end.

(** One round of a thread. *)
Definition round (a : action) (s : system) : res system :=
  match a with
  | Receive i =>
      '(e, u) ← serverRealStart_round expat i (s_udp s);
      q ← enqueue e (s_queue s);
      mret {| s_queue := q; s_world := s_world s; s_udp := u |}
  | EngineRound =>
      '(e, q) ← EngineQueue.engineDequeue (s_queue s);
      '(_, w) ← engineLoop_body e (s_world s);
      mret {| s_queue := q; s_world := w; s_udp := s_udp s |}
  | MixerRound =>
      '(_, w) ← mixer (s_world s);
      mret {| s_queue := s_queue s; s_world := w; s_udp := s_udp s |}
  end.

Fixpoint rounds (l : list action) (s : system) : res system :=
  match l with
  | [] => mret s
  | a :: l => s ← round a s; rounds l s
  end.

(** A datagram holds bytes. *)
Definition action_ok (a : action) : Prop :=
  match a with Receive i => input_bytes i | _ => True end.

Inductive step (s : system) : system -> Prop :=
| step_round a s' : action_ok a -> round a s = Ok s' -> step s s'.

(** ** The invariant *)

Record system_at (s : system) (l : list EVENT) (q : list ENGINE_EVENT) : Prop := {
  sys_queue : EngineQueue.rep (s_queue s) l;
  sys_typed : Forall event_typed l;
  sys_threads : threads_ok (s_world s) q;
  sys_waiting : Forall (fun e => event_typed (event e)) q;
  sys_udp : srv_ok (s_udp s);
  sys_buffer : bytes (data_buffer (s_udp s))
}.

Definition system_ok (s : system) : Prop := exists l q, system_at s l q.

Lemma enqueue_rep e q l :
  EngineQueue.rep q l -> exists q', enqueue e q = Ok q' /\ EngineQueue.rep q' (l ++ option_list e).
Proof.
  intros H. destruct e as [e|]; cbn [enqueue option_list].
  - destruct (EngineQueue.engineEnqueue_rep q l e H) as (q' & -> & H'). by exists q'.
  - exists q. by rewrite app_nil_r.
Qed.

Lemma receive_ok i s s' l q :
  system_at s l q -> input_bytes i -> round (Receive i) s = Ok s' ->
  exists e u, serverRealStart_round expat i (s_udp s) = Ok (e, u) /\
    system_at s' (l ++ option_list e) q /\ s_world s' = s_world s.
Proof.
  intros [Hq Hty Ht Hw Hu Hb] Hi H. cbn [round] in H.
  apply bind_ok in H as ([e u] & Hr & H). apply bind_ok in H as (q' & Hq' & [= <-]).
  pose proof (round_keeps expat i _ Hu) as Hk. rewrite Hr in Hk. cbn in Hk.
  destruct (round_typed expat i _ _ _ Hb Hi Hr) as [Hb' He].
  destruct (enqueue_rep e _ _ Hq) as (q1 & Hq1 & Hrep). rewrite Hq' in Hq1. injection Hq1 as <-.
  exists e, u. split; [done|]. split; [|done]. split; try done. apply Forall_app. split; [done|].
  destruct e; [apply Forall_singleton; by apply He|constructor].
Qed.

Context {L : EnvLaws E}.

Lemma system_shared s l q : system_at s l q -> shared_at (s_queue s) (s_world s) l q.
Proof. by intros []. Qed.

Lemma shared_system s u l q w eq :
  shared_at eq w l q -> srv_ok u -> bytes (data_buffer u) ->
  s = {| s_queue := eq; s_world := w; s_udp := u |} -> system_at s l q.
Proof. intros [] Hu Hb ->. by split. Qed.

Lemma engine_round_ok s s' l q :
  system_at s l q -> round EngineRound s = Ok s' ->
  exists e l' q', l = l' ++ [e] /\ system_at s' l' q' /\ later s s' /\
    (q' ≡ₚ q \/ exists t, q' ≡ₚ q ++ [{| event := e; mix_time := t |}]).
Proof.
  intros Hs H. cbn [round] in H.
  apply bind_ok in H as ([e q1] & Hd & H). apply bind_ok in H as ([o w] & He & [= <-]).
  destruct (engine_shared _ _ _ _ _ _ _ _ (system_shared _ _ _ Hs) Hd He) as (l' & q' & El & Hs' & B & P).
  exists e, l', q'. split; [done|]. split; [by eapply shared_system; [exact Hs'|apply Hs..|]|]. split; [|done].
  split; cbn; [apply B|]. by rewrite (he_played _ _ B).
Qed.

Lemma mixer_round_ok s s' l q :
  system_at s l q -> round MixerRound s = Ok s' ->
  exists q' x, system_at s' l q' /\ later s s' /\ q ≡ₚ x ++ q'.
Proof.
  intros Hs H. cbn [round] in H. apply bind_ok in H as ([[] w] & Hm & [= <-]).
  destruct (mixer_shared _ _ _ _ _ (system_shared _ _ _ Hs) Hm) as (q' & x & Hs' & P & Htb & Hp).
  exists q', x. split; [by eapply shared_system; [exact Hs'|apply Hs..|]|]. split; [by split|done].
Qed.

Lemma step_ok s s' : system_ok s -> step s s' -> system_ok s' /\ later s s'.
Proof.
  intros (l & q & H) [a s2 Ha Hr]. destruct a as [i| |].
  - destruct (receive_ok _ _ _ _ _ H Ha Hr) as (e & u & _ & H' & Hw). split; [by eexists _, _|].
    split; by rewrite Hw.
  - destruct (engine_round_ok _ _ _ _ H Hr) as (e & l' & q' & _ & H' & Hl & _).
    split; [by eexists _, _|done].
  - destruct (mixer_round_ok _ _ _ _ H Hr) as (q' & x & H' & Hl & _). split; [by eexists _, _|done].
Qed.

Lemma reachable_ok s s' : system_ok s -> rtc step s s' -> system_ok s' /\ later s s'.
Proof.
  intros Hok H. revert Hok. induction H as [s|s t u Hst _ IH]; intros Hok; [split; [done|reflexivity]|].
  destruct (step_ok s t Hok Hst) as [Ht Hl]. destruct (IH Ht) as [Hu Hl']. split; [done|].
  by etransitivity.
Qed.

(** What the end of the program relies on. *)
Lemma step_releasable s s' :
  system_ok s -> step s s' -> releasable (s_world s) -> releasable (s_world s').
Proof.
  intros (l & q & H) [a s2 Ha Hr] R. destruct a as [i| |].
  - destruct (receive_ok _ _ _ _ _ H Ha Hr) as (e & u & _ & _ & Hw). by rewrite Hw.
  - cbn [round] in Hr. apply bind_ok in Hr as ([e q1] & _ & Hr).
    apply bind_ok in Hr as ([o w] & He & [= <-]). exact (engine_releasable _ _ _ _ _ (sys_threads _ _ _ H) He R).
  - cbn [round] in Hr. apply bind_ok in Hr as ([[] w] & Hm & [= <-]).
    exact (mixer_releasable _ _ _ (sys_threads _ _ _ H) Hm R).
Qed.

Lemma reachable_releasable s s' :
  system_ok s -> rtc step s s' -> releasable (s_world s) -> releasable (s_world s').
Proof.
  intros Hok H. revert Hok. induction H as [|s t u Hst _ IH]; intros Hok R; [done|].
  apply IH; [by apply (step_ok s)|by apply (step_releasable s)].
Qed.

(** ** The events of clients *)

Lemma le32_bytes z : bytes (le32 z).
Proof.
  unfold bytes, le32, is_byte. repeat (apply Forall_cons; split; [apply Z.mod_pos_bound; lia|]). constructor.
Qed.

Lemma bytes_of_bytes s : bytes (bytes_of s).
Proof.
  induction s as [|c s IH]; cbn [bytes_of]; [constructor|]. apply Forall_cons. split; [|done].
  pose proof (nat_ascii_bounded c). unfold is_byte. lia.
Qed.

Lemma event_packet_bytes e : event_wf e -> bytes (event_packet e).
Proof.
  intros (H1 & H2 & H3 & H4 & H5). unfold event_packet. destruct (sound e) as [s|]; [|constructor].
  assert (H0 : is_byte 0) by (unfold is_byte; lia).
  unfold header_bytes, event_head, be32, bytes. cbn [version htype content reserved packet_header magic hlen].
  rewrite !Forall_app. pose proof bytes_of_bytes. pose proof le32_bytes.
  assert (forall l, bytes l -> Forall is_byte (rev l)) by (intros l; rewrite rev_alt; apply Forall_reverse).
  refine (conj (conj _ (conj _ (conj (H6 _) (H6 _)))) (conj (conj _ (conj (H7 _ (H6 _)) (H7 _ (H6 _)))) (H s))).
  - apply is_bytes_bytes. reflexivity.
  - apply is_bytes_bytes. reflexivity.
  - repeat (apply Forall_cons; split; [first [exact H0|assumption]|]). constructor.
Qed.

(** A datagram of an event, with the time, the bytes that are not initialised
    and the address of the sender. *)
Record arrival : Type := { a_now : timeval; a_junk : list Z; a_host : Z; a_port : Z; a_event : EVENT }.

Definition arrives (a : arrival) : action :=
  Receive (Datagram (a_now a) (a_junk a) (event_packet (a_event a)) (a_host a) (a_port a)).

(** An event that a client can send in one datagram. *)
Definition sendable (e : EVENT) : Prop :=
  event_wf e /\ wire_event e /\ Z.of_nat (List.length (event_packet e)) <= MAX_UDP_PACKET_SIZE.

Lemma recv_whole d u :
  Z.of_nat (List.length d) <= MAX_UDP_PACKET_SIZE -> exists tail, data_buffer (recv d u) = d ++ tail.
Proof.
  intros H. unfold recv. cbn [data_buffer with_data_buffer]. rewrite take_ge by lia. by eexists.
Qed.

Lemma event_round e now junk host port u :
  sendable e ->
  serverRealStart_round expat (Datagram now junk (event_packet e) host port) u
  = Ok (Some e, with_body (recv (event_packet e) u) BNull).
Proof.
  intros (Hwf & (Hf & Hl & snd & Hs & Hn & Hz) & Hlen). cbn [serverRealStart_round].
  destruct (recv_whole (event_packet e) u Hlen) as [tail Hd].
  unfold serverRealStart_packet. rewrite Hd. unfold event_packet. rewrite Hs, <- app_assoc.
  rewrite read_header_bytes by apply packet_header_wf. cbn [mbind res_bind].
  rewrite host_order_packet by lia.
  change (negb (magic_ok (host_header (16 + sound_len e)))) with false.
  change (htype (host_header (16 + sound_len e)) =? PROT_CLIENT_EVENT) with true. cbv iota zeta.
  change (Z.to_nat sizeof_HEADER) with (List.length (header_bytes (packet_header (16 + sound_len e)))).
  rewrite drop_app_length. unfold serverProcessClientEventPacket.
  change (content (host_header (16 + sound_len e)) =? PROT_CONTENT_XML) with false.
  change (content (host_header (16 + sound_len e)) =? PROT_CONTENT_EVENT) with true. cbv iota.
  rewrite <- app_assoc, read_event_head by lia.
  rewrite (slice_app (event_head e 0 0 0 (sound_len e))) by done.
  cbn [mbind res_bind mret res_ret]. rewrite c_string_bytes_of by done.
  unfold serverProcessClientEvent.
  change (content (host_header (16 + sound_len e)) =? PROT_CONTENT_XML) with false.
  change (content (host_header (16 + sound_len e)) =? PROT_CONTENT_EVENT) with true.
  destruct e. simpl in *. by subst.
Qed.

Lemma arrival_round a s l q :
  system_at s l q -> sendable (a_event a) ->
  exists s', round (arrives a) s = Ok s' /\ system_at s' (l ++ [a_event a]) q /\ s_world s' = s_world s.
Proof.
  intros Hs He. destruct (EngineQueue.engineEnqueue_rep _ _ (a_event a) (sys_queue _ _ _ Hs)) as (q' & Hq & _).
  assert (round (arrives a) s = Ok {| s_queue := q'; s_world := s_world s;
    s_udp := with_body (recv (event_packet (a_event a)) (s_udp s)) BNull |}) as H.
  { unfold arrives. cbn [round]. rewrite event_round by done. cbn [mbind res_bind enqueue]. by rewrite Hq. }
  eexists. split; [exact H|].
  destruct (receive_ok (Datagram (a_now a) (a_junk a) (event_packet (a_event a)) (a_host a) (a_port a))
    s _ l q Hs (event_packet_bytes _ (proj1 He)) H) as (o & u & Ho & Hok & Hw).
  rewrite event_round in Ho by done. injection Ho as <- _. done.
Qed.

Lemma rounds_app l1 l2 s : rounds (l1 ++ l2) s = (s ← rounds l1 s; rounds l2 s).
Proof.
  revert s. induction l1 as [|a l1 IH]; intros s; [done|]. cbn [app rounds].
  destruct (round a s); cbn [mbind res_bind]; [apply IH|done|done].
Qed.

(** Datagrams that arrive before the engine thread runs. *)
Lemma arrivals_rounds as_ : forall s l q,
  system_at s l q -> Forall (fun a => sendable (a_event a)) as_ ->
  exists s', rounds (arrives <$> as_) s = Ok s' /\ system_at s' (l ++ (a_event <$> as_)) q /\
    s_world s' = s_world s.
Proof.
  induction as_ as [|a as_ IH]; intros s l q Hs Ha.
  { exists s. rewrite app_nil_r. done. }
  apply Forall_cons in Ha as [Ha Has]. destruct (arrival_round a s l q Hs Ha) as (s1 & H1 & Hs1 & Hw1).
  destruct (IH s1 _ q Hs1 Has) as (s2 & H2 & Hs2 & Hw2). exists s2.
  cbn [fmap list_fmap rounds]. rewrite H1. cbn [mbind res_bind]. split; [done|].
  split; [by rewrite <- app_assoc in Hs2|congruence].
Qed.
End System.

(** ** The start *)

Lemma busy_zero n : busy (replicate n zero_ebuf) = 0.
Proof. induction n as [|n IH]; [done|]. cbn [replicate busy]. by rewrite IH. Qed.

Lemma concat_replicate_nil {A} n : List.concat (replicate n (@nil A)) = [].
Proof. by induction n. Qed.

Lemma empty_table_retrieve fuel nm en :
  engineSoundTableRetrieve fuel (engineInitSoundTable true).2 nm <> Ok (Some en).
Proof. intros H%retrieve_in. rewrite concat_replicate_nil in H. by apply elem_of_nil in H. Qed.

(** What [engineInit] leaves when the output buffer can be read. *)
Lemma engineInit_runs n m w x o :
  output w = PLive (x :: o) ->
  exists w', engineInit n m w = Ok (tt, w') /\
    w' = set_tlock false (set_mqueue (MixerQueue.mixerQueueInit EVENT_QUEUE_ENTRIES)
      (set_sound_table (engineInitSoundTable true).2
        (set_sched (PLive (replicate (Z.to_nat n) sched_zero))
          (set_lin_fade (PLive (replicate (Z.to_nat m) zero_fade))
            (set_mlock false (set_dyn_mul (PLive (replicate (Z.to_nat n) d_zero))
              (set_sbuffs (PLive (replicate (Z.to_nat m) zero_sbuf))
                (set_ebuffs (PLive (replicate (Z.to_nat n) zero_ebuf))
                  (set_counts n m (set_output (PLive (replicate (Z.to_nat (90112 * x / 2)) 0))
                    (set_chunk_size 90112 (set_eng_ebuffs n w)))))))))))).
Proof.
  intros Ho. assert (Hc : d_uint chunk_formula = Ok 90112) by (by vm_compute).
  eexists. split; [|reflexivity]. unfold engineInit. erewrite bind_Ok by reflexivity.
  erewrite bind_Ok.
  2:{ unfold mixerInit. erewrite bind_Ok by (unfold lift; rewrite Hc; reflexivity).
      erewrite bind_Ok by reflexivity.
      erewrite bind_Ok by (unfold rd_at; cbn; rewrite Ho; reflexivity). reflexivity. }
  reflexivity.
Qed.

(** The state after [engineInit]: its buffer for a chunk has 45056 samples for
    each unit of the number that it found in the output buffer. *)
Record started (n m x : Z) (w w' : world) : Prop := {
  st_ebuffs : ebuffs w' = PLive (replicate (Z.to_nat n) zero_ebuf);
  st_sched : sched w' = PLive (replicate (Z.to_nat n) sched_zero);
  st_dyn : dyn_mul w' = PLive (replicate (Z.to_nat n) d_zero);
  st_sbuffs : sbuffs w' = PLive (replicate (Z.to_nat m) zero_sbuf);
  st_fade : lin_fade w' = PLive (replicate (Z.to_nat m) zero_fade);
  st_n : no_ebuffs w' = n;
  st_ne : eng_ebuffs w' = n;
  st_m : no_sbuffs w' = m;
  st_mlock : mlock w' = false;
  st_tlock : tlock w' = false;
  st_cnt : dyn_buf_cnt w' = dyn_buf_cnt w;
  st_lastc : lastc w' = lastc w;
  st_queue : mqueue w' = MixerQueue.mixerQueueInit EVENT_QUEUE_ENTRIES;
  st_table : sound_table w' = (engineInitSoundTable true).2;
  st_pb : pb w' = pb w;
  st_chunk : chunk_size w' = 90112;
  st_output : output w' = PLive (replicate (Z.to_nat (45056 * x)) 0)
}.

Lemma engineInit_started n m w x o :
  output w = PLive (x :: o) -> exists w', engineInit n m w = Ok (tt, w') /\ started n m x w w'.
Proof.
  intros Ho. destruct (engineInit_runs n m w x o Ho) as (w' & H & ->). eexists. split; [exact H|].
  clear H. split; try reflexivity.
  replace (45056 * x) with (90112 * x / 2); [reflexivity|].
  replace (90112 * x) with (45056 * x * 2) by lia. by apply Z.div_mul.
Qed.

Lemma started_threads {E : Env} n m x w w' :
  started n m x w w' -> 0 < n < 2 ^ 31 -> 0 <= m < 2 ^ 32 -> 0 <= lastc w < n ->
  dyn_buf_cnt w = 0 -> tape_ok (pb w) -> threads_ok w' [].
Proof.
  intros S Hn Hm Hl Hd Hp. split; [|constructor].
  exists (replicate (Z.to_nat n) zero_ebuf), (replicate (Z.to_nat n) sched_zero),
    (replicate (Z.to_nat n) d_zero). split.
  - split; rewrite ?length_replicate; try apply S.
    + done.
    + done.
    + rewrite (st_n _ _ _ _ _ S). lia.
    + rewrite (st_ne _ _ _ _ _ S). lia.
    + lia.
    + by rewrite (st_cnt _ _ _ _ _ S), busy_zero.
    + intros i b sc d (-> & _)%lookup_replicate (-> & _)%lookup_replicate (-> & _)%lookup_replicate. done.
  - rewrite length_replicate, (st_lastc _ _ _ _ _ S). lia.
  - rewrite (st_queue _ _ _ _ _ S). by apply MixerQueue.mixerQueueInit_queued.
  - exists (replicate (Z.to_nat m) zero_sbuf), (replicate (Z.to_nat m) zero_fade).
    rewrite !length_replicate, (st_m _ _ _ _ _ S). split_and!; [apply S|apply S|lia..].
  - intros nm en Hr. exfalso. rewrite (st_table _ _ _ _ _ S) in Hr. by eapply empty_table_retrieve.
  - by rewrite (st_pb _ _ _ _ _ S).
Qed.

(** ** Properties *)

Section Properties.
Context {E : Env} {L : EnvLaws E} (expat : string -> list xml_call).

(** C3: in every state that the three threads reach, however their rounds
    are interleaved and whatever bytes arrive, the engine queue is a well-formed
    list of typed events, the channels, the scheduler and the mixer queue
    satisfy the invariant of the engine, every event that waits for a channel
    has sounds in the table, and the leases are well formed. The sound table
    never changes, and what was played stays. *)
Theorem peepd_invariant (s s' : system) :
  system_ok s -> rtc (step expat) s s' -> system_ok s' /\ later s s'.
Proof. intros H1 H2. by apply (reachable_ok expat). Qed.

(** C30: in such a state the engine thread waits exactly when the engine
    queue is empty; else it takes the event that was enqueued last, and if the
    look-up of its sound returns, the round ends without undefined behaviour
    in a state that satisfies the invariant. *)
Theorem engine_round_progress (s : system) :
  system_ok s ->
  if EngineQueue.engineQueueEmpty (s_queue s) then round expat EngineRound s = Fault Blocked
  else exists e q, EngineQueue.engineDequeue (s_queue s) = Ok (e, q) /\ event_typed e /\
    forall r, engineSoundTableRetrieve lookup_fuel (sound_table (s_world s)) (sound e) = Ok r ->
    exists s', round expat EngineRound s = Ok s' /\ system_ok s'.
Proof.
  intros (l & q & Hs). pose proof Hs as [Hq Hty Ht _ _ _].
  rewrite (EngineQueue.rep_empty_iff _ _ Hq). destruct l as [|e l _] using rev_ind.
  { cbn [round]. by rewrite (EngineQueue.engineDequeue_empty _ Hq). }
  rewrite bool_decide_false by (by destruct l).
  destruct (EngineQueue.engineDequeue_rep _ _ _ Hq) as (q1 & Hd & _).
  apply Forall_app in Hty as [_ He]. apply Forall_inv in He.
  exists e, q1. split; [done|]. split; [done|]. intros r Hr.
  destruct (engine_step _ _ e r Ht Hr) as (o & w' & q' & Hst & _).
  assert (round expat EngineRound s = Ok {| s_queue := q1; s_world := w'; s_udp := s_udp s |}) as H.
  { cbn [round]. rewrite Hd. cbn [mbind res_bind]. by rewrite Hst. }
  eexists. split; [exact H|].
  destruct (engine_round_ok expat _ _ _ _ Hs H) as (? & ? & ? & _ & H' & _ & _). by eexists _, _.
Qed.


(** Events that clients send in datagrams of their own, one after the
    other and before the engine thread runs: all of them are in the queue, in
    their order, behind those that were there; nothing else has happened; and
    the engine takes the one that arrived last. *)
Theorem arrivals_enqueued (s : system) (l : list EVENT) (q : list ENGINE_EVENT)
    (as_ : list arrival) (a : arrival) :
  system_at s l q -> Forall (fun a => sendable (a_event a)) (as_ ++ [a]) ->
  exists s' q', rounds expat (arrives <$> as_ ++ [a]) s = Ok s' /\
    system_at s' (l ++ (a_event <$> as_) ++ [a_event a]) q /\ s_world s' = s_world s /\
    EngineQueue.engineDequeue (s_queue s') = Ok (a_event a, q') /\
    EngineQueue.rep q' (l ++ (a_event <$> as_)).
Proof.
  intros Hs Ha. destruct (arrivals_rounds expat _ s l q Hs Ha) as (s' & H1 & H2 & H3).
  rewrite fmap_app in H2. pose proof (sys_queue _ _ _ H2) as Hq. cbn [fmap list_fmap] in Hq.
  rewrite app_assoc in Hq. destruct (EngineQueue.engineDequeue_rep _ _ _ Hq) as (q' & Hd & Hq').
  by exists s', q'.
Qed.

(** C5: from the network to the mixer: when a datagram with a sendable event
    arrives whose sound is loaded, while a channel is idle, then after a round
    of the server and one of the engine the sound plays on the first idle
    channel, at the event's place in the stereo field, whatever events were
    waiting in the queue before: they still wait. *)
Theorem arrival_plays (s : system) (l : list EVENT) (q : list ENGINE_EVENT) bs ss ds (a : arrival)
    (ev : EVENT_ENTRY) (c : Z) :
  system_at s l q -> engine_ok (s_world s) bs ss ds q -> sendable (a_event a) ->
  type (a_event a) = event_type_val EVENT_T -> playable (s_world s) (a_event a) ev ->
  first_idle ss (scan_order (lastc (s_world s)) (Z.of_nat (List.length bs))) = Some c ->
  exists s' b snd ln sc x, rounds expat [arrives a; EngineRound] s = Ok s' /\
    system_at s' l q /\
    bs !! Z.to_nat c = Some b /\ snd_buf b = None /\
    snds ev !! Z.to_nat (chosen ev (rand_calls (s_world s))) = Some (Some snd) /\
    lens ev !! Z.to_nat (chosen ev (rand_calls (s_world s))) = Some ln /\
    engine_ok (s_world s')
      (<[Z.to_nat c := loaded b (Some snd) ln (stereo_of (a_event a)) (flags (a_event a))]> bs)
      (<[Z.to_nat c := sc]> ss) (<[Z.to_nat c := x]> ds) q.
Proof.
  intros Hs Hok Ha Hty Hpl Hc.
  destruct (arrival_round expat a s l q Hs Ha) as (s1 & H1 & Hs1 & Hw1).
  destruct (EngineQueue.engineDequeue_rep _ _ _ (sys_queue _ _ _ Hs1)) as (q1 & Hd & Hq1).
  rewrite <- Hw1 in Hok, Hpl, Hc.
  destruct (engineIO_taped _ _ _ _ _ (a_event a) Hok) as (p & t & k & Hokt & Heio).
  destruct (io_event_idle _ _ _ _ _ _ _ _ Hokt Hpl Hc)
    as (w' & b & sc & snd & ln & x & Hio & _ & Hb & Hn & Hsnd & Hln & _ & _ & Hok').
  rewrite Hty in Heio. cbn [event_type_val Z.eqb Pos.eqb] in Heio. rewrite Hio in Heio.
  change (rand_calls (taped p t k (s_world s1))) with (rand_calls (s_world s1)) in Hsnd, Hln.
  assert (engineLoop_body (a_event a) (s_world s1) = Ok (Some true, w')) as Hl.
  { rewrite (engineLoop_playable _ _ _ _ _ _ _ Hok Hty Hpl). by rewrite (bind_Ok _ _ _ _ _ Heio). }
  pose proof (engineIO_heard _ _ _ _ _ _ _ _ Hok Heio) as B.
  rewrite Hw1 in Hsnd, Hln.
  exists {| s_queue := q1; s_world := w'; s_udp := s_udp s1 |}, b, snd, ln, sc, x. split_and!.
  - cbn [rounds]. rewrite H1. cbn [mbind res_bind round]. rewrite Hd. cbn [mbind res_bind]. by rewrite Hl.
  - destruct Hs1 as [_ Hty1 [_ Hk] Hw Hu Hbuf]. apply Forall_app in Hty1 as [Hty1 _].
    split; try done. split; [by eexists _, _, _|]. by eapply known_heard.
  - done.
  - done.
  - done.
  - done.
  - exact Hok'.
Qed.
End Properties.

(** ** A concrete system: two channels, of which one plays *)

Definition demo_ring : EVENT := demo_event "ab" 0.

(** An empty engine queue, and one in which an event waits. *)
Definition demo_queue (full : bool) : EngineQueue.state :=
  match EngineQueue.engineQueueInit true EngineQueue.initial with
  | Ok (_, q) =>
      if full then match EngineQueue.engineEnqueue demo_ring q with Ok (_, q) => q | _ => q end else q
  | _ => EngineQueue.initial
  end.

Definition demo_mix : world := set_chunk_size 4 (demo_out false).

Definition demo_system (full : bool) : system :=
  {| s_queue := demo_queue full; s_world := demo_mix; s_udp := fresh_udp |}.

Definition demo_waits (full : bool) : list EVENT := if full then [demo_ring] else [].

Lemma demo_typed : event_typed demo_ring.
Proof. split; [unfold event_wf; cbn; lia|]. split; [cbn; unfold int32; lia|]. split; [cbn; unfold int32; lia|]. by eexists. Qed.

Lemma demo_sendable : sendable demo_ring.
Proof.
  split; [unfold event_wf; cbn; lia|]. split; [|cbn; unfold MAX_UDP_PACKET_SIZE; lia].
  split; [cbn; lia|]. split; [cbn; lia|]. exists "ab". split; [done|]. split; [done|].
  by repeat constructor.
Qed.

Lemma demo_queue_rep full : EngineQueue.rep (demo_queue full) (demo_waits full).
Proof.
  destruct EngineQueue.engineQueueInit_rep as (q & Hq & Hr). unfold demo_queue. rewrite Hq.
  destruct full; [|done].
  destruct (EngineQueue.engineEnqueue_rep q [] demo_ring Hr) as (q' & -> & Hr'). exact Hr'.
Qed.

Lemma engine_ok_chunk `{E : Env} n w bs ss ds l : engine_ok w bs ss ds l -> engine_ok (set_chunk_size n w) bs ss ds l.
Proof.
  intros H. eapply engine_ok_ext; [exact H| |done| |done..]; [|apply H].
  eapply chan_ok_ext; [apply H|done..].
Qed.

Lemma demo_mix_ok : engine_ok (E := still_env) demo_mix [demo_buf true; demo_buf false]
  [demo_sched true; demo_sched false] [d_half; d_zero] [].
Proof. exact (engine_ok_chunk 4 _ _ _ _ _ (demo_out_ok false)). Qed.

Lemma demo_at full : system_at (E := still_env) (demo_system full) (demo_waits full) [].
Proof.
  split; cbn [s_queue s_world s_udp demo_system].
  - apply demo_queue_rep.
  - destruct full; [apply Forall_singleton, demo_typed|constructor].
  - split; [by eexists _, _, _; exact demo_mix_ok|constructor].
  - constructor.
  - split; [eexists; exact fresh_udp_ok|by eexists].
  - apply is_bytes_bytes. reflexivity.
Qed.

Definition demo_arrival : arrival :=
  {| a_now := at_sec 7; a_junk := []; a_host := 1; a_port := 2; a_event := demo_ring |}.

Definition no_expat (s : string) : list xml_call := [].

Lemma demo_mix_playable : playable (E := still_env) demo_mix demo_ring (one_sound 1).
Proof. split; [by vm_compute|]. split_and!; simpl; try lia. apply Forall_singleton. done. Qed.

(** A chunk can be mixed. *)
Lemma demo_mixes : exists w, mixer (E := still_env) demo_mix = Ok (tt, w) /\ List.length (played w) = 1%nat.
Proof.
  assert (match mixer (E := still_env) demo_mix with
          | Ok (_, w) => bool_decide (List.length (played w) = 1%nat) | _ => false end = true) as H
    by (vm_compute; reflexivity).
  destruct (mixer demo_mix) as [[[] w]| |]; [|done|done]. exists w. split; [done|].
  by apply bool_decide_eq_true in H.
Qed.

Lemma peepd_invariant_witness :
  exists s', rtc (step (E := still_env) no_expat) (demo_system true) s' /\
    system_ok (E := still_env) s' /\ later (demo_system true) s' /\
    List.length (played (s_world s')) = 1%nat.
Proof.
  destruct demo_mixes as (w & Hw & Hp).
  assert (rtc (step (E := still_env) no_expat) (demo_system true)
    {| s_queue := demo_queue true; s_world := w; s_udp := fresh_udp |}) as H.
  { apply rtc_once. apply (step_round no_expat _ MixerRound); [exact I|].
    cbn [round demo_system s_queue s_world s_udp]. rewrite Hw. reflexivity. }
  eexists. split; [exact H|].
  destruct (peepd_invariant (L := still_laws) no_expat (demo_system true) _
    (ex_intro _ _ (ex_intro _ _ (demo_at true))) H) as [H1 H2].
  split; [exact H1|]. split; [exact H2|exact Hp].
Defined.

Lemma engine_round_progress_witness :
  exists e q, EngineQueue.engineDequeue (demo_queue true) = Ok (e, q) /\ event_typed e /\
    forall r, engineSoundTableRetrieve (lookup_fuel (Env := still_env)) (sound_table demo_mix) (sound e) = Ok r ->
    exists s', round (E := still_env) no_expat EngineRound (demo_system true) = Ok s' /\
      system_ok (E := still_env) s'.
Proof.
  exact (engine_round_progress (L := still_laws) no_expat (demo_system true)
    (ex_intro _ _ (ex_intro _ _ (demo_at true)))).
Defined.

Lemma arrivals_enqueued_witness :
  exists s' q', rounds (E := still_env) no_expat [arrives demo_arrival; arrives demo_arrival] (demo_system true)
      = Ok s' /\
    system_at (E := still_env) s' [demo_ring; demo_ring; demo_ring] [] /\ s_world s' = demo_mix /\
    EngineQueue.engineDequeue (s_queue s') = Ok (demo_ring, q') /\
    EngineQueue.rep q' [demo_ring; demo_ring].
Proof.
  apply (arrivals_enqueued (E := still_env) no_expat (demo_system true) [demo_ring] [] [demo_arrival] demo_arrival).
  - exact (demo_at true).
  - apply Forall_cons. split; [exact demo_sendable|]. apply Forall_singleton. exact demo_sendable.
Defined.

Lemma arrival_plays_witness :
  exists s' b snd ln sc x, rounds (E := still_env) no_expat [arrives demo_arrival; EngineRound] (demo_system true)
      = Ok s' /\
    system_at (E := still_env) s' [demo_ring] [] /\
    [demo_buf true; demo_buf false] !! 1%nat = Some b /\ snd_buf b = None /\
    [Some [1; 1]] !! 0%nat = Some (Some snd) /\ [2] !! 0%nat = Some ln /\
    engine_ok (E := still_env) (s_world s')
      (<[1%nat := loaded b (Some snd) ln (stereo_of demo_ring) 0]> [demo_buf true; demo_buf false])
      (<[1%nat := sc]> [demo_sched true; demo_sched false]) (<[1%nat := x]> [d_half; d_zero]) [].
Proof.
  exact (arrival_plays (L := still_laws) no_expat (demo_system true) [demo_ring] [] _ _ _ demo_arrival
    (one_sound 1) 1 (demo_at true) demo_mix_ok demo_sendable eq_refl demo_mix_playable
    ltac:(vm_compute; reflexivity)).
Defined.
