(* ===== verification/Denial.v ===== *)
(** * One datagram that stops the engine

    The composition of the server, the engine queue, the engine and the sound
    table on an event that nobody has loaded. The hash of a name is the sum of
    its characters modulo 256, so that for every loaded sound there is another
    name of the same slot; and the look-up of a name does not get past the
    first entry of a slot ([engineSoundTableRetrieve_outcome]). *)

From stdpp Require Import base list sets strings relations.
From Stdlib Require Import ZArith Lia Ascii String.
From S2P Require Import Prelude Events CString Dbl EngineQueue SoundTable MixerQueue World Playback Mixer Engine MixerFacts Steps Wire Notice Server UdpServer TcpServer Typing Peepd.
Import SoundTable.
Local Open Scope Z_scope.
Local Open Scope list_scope.

(** Three letters whose sum is 256. *)
Definition pad : string := "UUV".

Definition rival (m : string) : string := m +:+ pad.

Lemma rival_length m : strlen (rival m) = strlen m + 3.
Proof.
  unfold strlen, rival. induction m as [|c m IH]; [done|].
  change (String c m +:+ pad) with (String c (m +:+ pad)). cbn [String.length]. lia.
Qed.

Lemma rival_sum m : char_sum (rival m) = char_sum m + 256.
Proof.
  unfold rival. induction m as [|c m IH]; [done|].
  change (String c m +:+ pad) with (String c (m +:+ pad)). cbn [char_sum]. lia.
Qed.

Lemma rival_ascii m : is_ascii (rival m) = is_ascii m.
Proof.
  unfold rival. induction m as [|c m IH]; [done|].
  change (String c m +:+ pad) with (String c (m +:+ pad)). cbn [is_ascii]. by rewrite IH.
Qed.

Lemma rival_bytes m : bytes_of (rival m) = bytes_of m ++ bytes_of pad.
Proof.
  unfold rival. induction m as [|c m IH]; [done|].
  change (String c m +:+ pad) with (String c (m +:+ pad)). cbn [bytes_of]. by rewrite IH.
Qed.

(** The other name is in the same slot ... *)
Lemma rival_hash m : plain m -> plain (rival m) -> engineSoundHash (rival m) = engineSoundHash m.
Proof.
  intros H1 H2. rewrite !hash_plain, rival_sum by done. unfold HASHES.
  change 256 with (1 * 256) at 1. by rewrite Z.mod_add.
Qed.

(** ... and is never found there. *)
Lemma rival_stuck t m fuel0 en fuel :
  table_wf t -> plain m -> plain (rival m) ->
  engineSoundTableRetrieve fuel0 t (Some m) = Ok (Some en) ->
  engineSoundTableRetrieve fuel t (Some (rival m)) = NoFuel.
Proof.
  intros Hwf Hm Hr H. rewrite retrieve_eq in H |- * by done.
  assert (chain_of t (rival m) = chain_of t m) as ->.
  { unfold chain_of. destruct t; [done| |done]. by rewrite rival_hash. }
  destruct (chain_of t m) as [|e p]; [by destruct fuel0|]. apply retrieve_loop_stuck.
  destruct fuel0 as [|fuel0]; [done|]. cbn [retrieve_loop] in H.
  destruct (ci_eq (name e) m) eqn:Em; [|by rewrite retrieve_loop_stuck in H].
  destruct (ci_eq (name e) (rival m)) eqn:Er; [|done]. exfalso.
  apply ci_eq_length in Em, Er. pose proof (rival_length m) as Hl. unfold strlen in Hl. lia.
Qed.

(** The event of a client that asks for the other name. *)
Definition rival_event (m : string) : EVENT :=
  {| type := 0; loc := 0; prior := 0; vol := 0; dither := 0; flags := 0;
     sound_len := strlen (rival m); sound := Some (rival m) |}.

Lemma rival_sendable m :
  Forall (fun b => b <> 0) (bytes_of m) -> strlen m <= 477 -> sendable (rival_event m).
Proof.
  intros Hz Hl. pose proof (rival_length m) as Hr. assert (0 <= strlen m) by (unfold strlen; lia).
  split; [unfold event_wf; cbn; lia|]. split.
  - split; [cbn; lia|]. split; [cbn [rival_event sound_len]; lia|]. exists (rival m).
    split; [done|]. split; [by rewrite length_bytes_of|]. rewrite rival_bytes.
    apply Forall_app. split; [done|]. by repeat constructor.
  - unfold event_packet. cbn [sound sound_len rival_event].
    rewrite !length_app, length_bytes_of. unfold strlen in *.
    change (List.length (header_bytes (packet_header (16 + Z.of_nat (String.length (rival m)))))) with 16%nat.
    match goal with |- context [List.length (event_head ?e ?a ?b ?c ?d)] =>
      change (List.length (event_head e a b c d)) with 16%nat end.
    unfold MAX_UDP_PACKET_SIZE. lia.
Qed.

(** ** Property *)

(** C14: in every state of the server in which some sound [m] can be played,
    there is a datagram of at most 512 bytes after which the engine thread
    never comes back: the server puts its event into the queue as any other,
    the engine takes it, and the look-up of its name does not return, however
    long it runs. Nothing else has changed: the events that were waiting for
    the engine still wait, and the sound table and the channels are as they
    were. *)
Theorem one_datagram_stops_engine {E : Env} (expat : string -> list xml_call) (s : system)
    (l : list EVENT) (q : list ENGINE_EVENT) (m : string) (fuel0 : nat) (en : sound_entry) :
  system_at s l q -> table_wf (sound_table (s_world s)) ->
  plain m -> Forall (fun b => b <> 0) (bytes_of m) -> strlen m <= 477 ->
  engineSoundTableRetrieve fuel0 (sound_table (s_world s)) (Some m) = Ok (Some en) ->
  exists (a : arrival) (s1 : system) (q1 : EngineQueue.state),
    sendable (a_event a) /\ sound (a_event a) = Some (rival m) /\
    round expat (arrives a) s = Ok s1 /\ s_world s1 = s_world s /\ system_at s1 (l ++ [a_event a]) q /\
    EngineQueue.engineDequeue (s_queue s1) = Ok (a_event a, q1) /\ EngineQueue.rep q1 l /\
    (forall fuel, engineSoundTableRetrieve fuel (sound_table (s_world s1)) (sound (a_event a)) = NoFuel) /\
    round expat EngineRound s1 = NoFuel.
Proof.
  intros Hs Hwf Hm Hz Hl Hr.
  set (a := {| a_now := {| tv_sec := 0; tv_usec := 0 |}; a_junk := []; a_host := 0; a_port := 0;
               a_event := rival_event m |}).
  assert (Ha : sendable (a_event a)) by (by apply rival_sendable).
  assert (Hp : plain (rival m)).
  { destruct Hm as [Hm _]. split; [by rewrite rival_ascii|rewrite rival_length; lia]. }
  assert (Hst : forall fuel, engineSoundTableRetrieve fuel (sound_table (s_world s)) (Some (rival m)) = NoFuel).
  { intros fuel. by eapply rival_stuck. }
  destruct (arrival_round expat a s l q Hs Ha) as (s1 & H1 & Hs1 & Hw).
  destruct (EngineQueue.engineDequeue_rep _ _ _ (sys_queue _ _ _ Hs1)) as (q1 & Hd & Hq1).
  exists a, s1, q1. rewrite Hw. split_and!; try done.
  cbn [round]. rewrite Hd. cbn [mbind res_bind]. rewrite Hw.
  unfold engineLoop_body. erewrite bind_Ok by reflexivity.
  unfold mbind, M_bind, lift. cbn [a a_event rival_event sound]. by rewrite Hst.
Qed.

Lemma demo_table_wf : table_wf (sound_table demo_mix).
Proof.
  exists demo_table. split; [reflexivity|]. split; [reflexivity|]. intros i c Hi. unfold demo_table in Hi.
  apply list_lookup_insert_Some in Hi as [(<- & <- & _)|(_ & Hi)].
  { apply Forall_singleton. split; [by vm_compute|done]. }
  apply list_lookup_insert_Some in Hi as [(<- & <- & _)|(_ & Hi)].
  { apply Forall_singleton. split; [by vm_compute|done]. }
  apply lookup_replicate in Hi as [-> _]. constructor.
Qed.

(** The server of the demonstration knows the sound "ab". *)
Lemma one_datagram_stops_engine_witness :
  exists (a : arrival) (s1 : system) (q1 : EngineQueue.state),
    sendable (a_event a) /\ sound (a_event a) = Some "abUUV" /\
    round (E := still_env) no_expat (arrives a) (demo_system true) = Ok s1 /\
    s_world s1 = demo_mix /\ system_at (E := still_env) s1 (demo_waits true ++ [a_event a]) [] /\
    EngineQueue.engineDequeue (s_queue s1) = Ok (a_event a, q1) /\ EngineQueue.rep q1 (demo_waits true) /\
    (forall fuel, engineSoundTableRetrieve fuel (sound_table (s_world s1)) (sound (a_event a)) = NoFuel) /\
    round (E := still_env) no_expat EngineRound s1 = NoFuel.
Proof.
  apply (one_datagram_stops_engine (E := still_env) no_expat (demo_system true) (demo_waits true) []
    "ab" 1 (event_entry "ab" (one_sound 1)) (demo_at true) demo_table_wf).
  - split; [reflexivity|]. vm_compute. reflexivity.
  - by repeat constructor.
  - vm_compute. discriminate.
  - vm_compute. reflexivity.
Defined.
