(* ===== verification/Session.v ===== *)
(** * A session that is recorded, and its playback

    [engineIO] records an event before it decides what to do with it. The
    rounds of the three threads of a server that records are followed here up
    to the file, and the file into another process that plays it. *)

From stdpp Require Import base list sets strings relations.
From Stdlib Require Import ZArith Lia Ascii String.
From S2P Require Import Prelude Events CString Dbl EngineQueue SoundTable MixerQueue World Playback Replay Mixer Engine MixerFacts Steps Wire Notice Server UdpServer TcpServer Typing Peepd.
Import SoundTable.
Local Open Scope Z_scope.
Local Open Scope list_scope.

(** Whether [engineLoop] hands the event to [engineIO]. *)
Definition accepts {E : Env} (w : world) (e : EVENT) : bool :=
  match engineSoundTableRetrieve lookup_fuel (sound_table w) (sound e) with
  | Ok (Some en) => type e =? event_type_val (stype en)
  | _ => false
  end.

(** The world is that of a server which records, and has recorded [l]. *)
Record recording (w : world) (l : list ENGINE_EVENT) : Prop := {
  rec_on : use_playback (pb w) <> 0;
  rec_mode : mode (pb w) = RECORD_MODE;
  rec_tape : recorded w l
}.

Lemma recording_pb w w' l : pb w' = pb w -> recording w l -> recording w' l.
Proof. intros E [H1 H2 H3]. unfold recorded in H3. rewrite <- E in *. by split. Qed.

Lemma recorded_on_tape w l : recorded w l -> on_tape (pb w).
Proof. intros (f & Hf & _ & Hp & _). by exists f, (ring_pos max_events_nat (List.length l)). Qed.

(** A record with a time of the clock. *)
Definition timed {E : Env} (y : ENGINE_EVENT) : Prop := exists t, mix_time y = time_at t.

Section Recording.
Context {E : Env} (Hw : forall k, fwrite_at k = true).

Lemma record_incoming_records e w l :
  recording w l -> Z.of_nat (List.length l) + 1 < 2 ^ 64 ->
  exists y w', record_incoming e w = Ok (tt, w') /\ recording w' (l ++ [y]) /\ event y = e /\ timed y.
Proof.
  intros [Hu Hm Ht] Hl. set (x := {| event := e; mix_time := zero_time |}).
  destruct (playbackRecordEvent_step Hw w l x Ht Hl) as (w' & E1 & R & _).
  destruct (playbackRecordEvent_returns x w (recorded_on_tape _ _ Ht)) as (n & p & t & c & E2 & _ & Hu' & Hm').
  rewrite E1 in E2. injection E2 as _ ->. exists (stamped (time_calls w) x), (taped p t c w).
  split; [|split; [split; cbn|split; [done|by eexists]]].
  - unfold record_incoming, playbackModeOn, playbackSetMode. erewrite bind_Ok by reflexivity.
    destruct (Z.eqb_spec (use_playback (pb w)) 0); [done|]. erewrite bind_Ok by reflexivity.
    rewrite Hm. fold x. by mstep E1.
  - by rewrite Hu'.
  - by rewrite Hm'.
  - exact R.
Qed.

(** A round of the engine records the event if it accepts it. *)
Lemma engineLoop_records e w o w' l :
  recording w l -> Z.of_nat (List.length l) + 1 < 2 ^ 64 -> engineLoop_body e w = Ok (o, w') ->
  exists ys, recording w' (l ++ ys) /\ Forall timed ys /\ event <$> ys = (if accepts w e then [e] else []).
Proof.
  intros R Hl H. unfold engineLoop_body in H. erewrite bind_Ok in H by reflexivity.
  apply bind_inv in H as (r & w0 & Hr & H). unfold accepts, lift in *.
  destruct (engineSoundTableRetrieve _ _ _) as [r0| |]; [|done..]. injection Hr as -> <-.
  destruct r as [en|]; [|injection H as _ <-; exists []; by rewrite app_nil_r].
  destruct (type e =? _); [|injection H as _ <-; exists []; by rewrite app_nil_r].
  apply bind_inv in H as (b & w1 & H & [= _ <-]).
  destruct (record_incoming_records e w l R Hl) as (y & w2 & E1 & R2 & Hy & Hc).
  unfold engineIO in H. erewrite bind_Ok in H by exact E1. apply base_io in H.
  exists [y]. split; [|split; [by constructor|by rewrite <- Hy]]. by apply (recording_pb w2); [apply H|].
Qed.
End Recording.

(** ** The start of a recording

    What [main] does before it starts a server that records: until the server
    runs nothing reaches the engine. *)

Section Start.
Context {E : Env}.

Definition start_recording (created : bool) : M world (option Z) :=
  playbackModeOn (Some 1) ;;
  playbackSetMode (Some RECORD_MODE) ;;
  playbackFileInit None created.

(** The world in which the server starts: [w], or that of a recording. *)
Definition server_starts (w w' : world) : Prop :=
  w' = w \/ exists created r, start_recording created w = Ok (Some r, w') /\ r <> 0.

(** The world in which [playbackFileInit] is called. *)
Definition set_to_record (w : world) : world :=
  set_pb {| stream := stream (pb w); header := header (pb w); event_cnt := event_cnt (pb w);
            mode := RECORD_MODE; use_playback := 1; loopback_flag := loopback_flag (pb w) |} w.

Lemma start_recording_inv created w r w' :
  start_recording created w = Ok (r, w') ->
  exists n, r = Some n /\ record_init (set_to_record w) = Ok (n, w').
Proof.
  intros H. unfold start_recording in H. do 2 erewrite bind_Ok in H by reflexivity.
  unfold playbackFileInit in H. erewrite bind_Ok in H by reflexivity. cbn [mode pb] in H.
  destruct created; [|done]. apply bind_inv in H as (n & w1 & H & [= <- <-]). by exists n.
Qed.

Lemma record_init_taped w n w' :
  record_init w = Ok (n, w') -> n <> 0 ->
  exists p t c, w' = taped p t c w /\ on_tape p /\ use_playback p = use_playback (pb w) /\ mode p = mode (pb w).
Proof.
  intros H Hn. unfold record_init in H. do 3 erewrite bind_Ok in H by reflexivity.
  apply bind_inv in H as (ok & w2 & [= Hok <-] & H). destruct (fwrite_at _); subst ok; [|by injection H as <-].
  injection H as <- <-. eexists _, _, _. split; [reflexivity|]. split_and!; [|done..]. by eexists _, 0%nat.
Qed.

Lemma start_recording_taped created w r w' :
  start_recording created w = Ok (Some r, w') -> r <> 0 ->
  exists p t c, w' = taped p t c w /\ tape_ok p.
Proof.
  intros (n & [= <-] & H)%start_recording_inv Hr.
  destruct (record_init_taped _ _ _ H Hr) as (p & t & c & -> & Hp & _).
  exists p, t, c. split; [done|by right; right].
Qed.

Lemma threads_taped w l p t c : threads_ok w l -> tape_ok p -> threads_ok (taped p t c w) l.
Proof.
  intros [(bs & ss & ds & H) Hk] Hp. split; [by eexists _, _, _; apply engine_ok_taped|].
  eapply known_heard; [apply heard_taped|exact Hk].
Qed.

Lemma server_starts_ok w l w' :
  server_starts w w' -> threads_ok w l -> threads_ok w' l /\ sound_table w' = sound_table w.
Proof.
  intros [->|(created & r & H & Hr)] Hok; [done|].
  destruct (start_recording_taped _ _ _ _ H Hr) as (p & t & c & -> & Hp). split; [by apply threads_taped|done].
Qed.

Lemma start_recording_recording w w' r :
  (forall k, fwrite_at k = true) -> event_cnt (pb w) = 0 -> loopback_flag (pb w) = 0 ->
  start_recording true w = Ok (r, w') -> recording w' [].
Proof.
  intros Hw Hc Hl (n & _ & H)%start_recording_inv.
  destruct (record_init_recorded (set_to_record w) Hw Hc Hl) as (w2 & E1 & R & _).
  rewrite H in E1. injection E1 as -> <-.
  destruct (record_init_taped _ _ _ H) as (p & t & c & -> & _ & Hu & Hm); [done|].
  split; [cbn; by rewrite Hu|cbn; by rewrite Hm|done].
Qed.
End Start.

(** ** The threads *)

Section Threads.
Context {E : Env} {L : EnvLaws E} (expat : string -> list xml_call).
Context (Hw : forall k, fwrite_at k = true).

(** The event that the engine accepts in a round. *)
Definition accepted (a : action) (s : system) : list EVENT :=
  match a with
  | EngineRound => match EngineQueue.engineDequeue (s_queue s) with
                   | Ok (e, _) => if accepts (s_world s) e then [e] else []
                   | _ => []
                   end
  | _ => []
  end.

Fixpoint all_accepted (acts : list action) (s : system) : list EVENT :=
  match acts with
  | [] => []
  | a :: acts => accepted a s ++ match round expat a s with Ok s => all_accepted acts s | _ => [] end
  end.

Lemma round_records a s s' l q xs :
  system_at s l q -> action_ok a -> round expat a s = Ok s' ->
  recording (s_world s) xs -> Z.of_nat (List.length xs) + 1 < 2 ^ 64 ->
  exists ys, recording (s_world s') (xs ++ ys) /\ Forall timed ys /\ event <$> ys = accepted a s /\ (List.length ys <= 1)%nat.
Proof.
  intros Hs Ha Hr R Hl. destruct a as [i| |]; cbn [accepted].
  - destruct (receive_ok expat i s s' l q Hs Ha Hr) as (e & u & _ & _ & ->).
    exists []. rewrite app_nil_r. by split_and!; [|constructor|done|simpl; lia].
  - cbn [round] in Hr. apply bind_ok in Hr as ([e q1] & Hd & Hr). apply bind_ok in Hr as ([o w] & He & [= <-]).
    rewrite Hd. destruct (engineLoop_records Hw _ _ _ _ _ R Hl He) as (ys & R' & Hc & Hy). exists ys.
    split_and!; [exact R'|done|done|]. rewrite <- (length_fmap event), Hy. destruct (accepts _ _); simpl; lia.
  - cbn [round] in Hr. apply bind_ok in Hr as ([[] w] & Hm & [= <-]).
    destruct (mixer_ok _ _ _ (sys_threads _ _ _ Hs) Hm) as (_ & _ & Hpb & _).
    exists []. rewrite app_nil_r. split_and!; [by eapply recording_pb|constructor|done|simpl; lia].
Qed.

Lemma rounds_record acts : forall s s' l q xs,
  system_at s l q -> Forall action_ok acts -> rounds expat acts s = Ok s' ->
  recording (s_world s) xs -> Z.of_nat (List.length xs + List.length acts) < 2 ^ 64 ->
  exists ys, recording (s_world s') (xs ++ ys) /\ Forall timed ys /\ event <$> ys = all_accepted acts s.
Proof.
  induction acts as [|a acts IH]; intros s s' l q xs Hs Ha Hr R Hl; cbn [rounds all_accepted] in *.
  { injection Hr as <-. exists []. by rewrite app_nil_r. }
  apply Forall_cons in Ha as [Ha Has]. apply bind_ok in Hr as (s1 & H1 & Hr). rewrite H1.
  cbn [List.length] in Hl.
  destruct (round_records a s s1 l q xs Hs Ha H1 R) as (ys & R1 & Hc & Hy & Hlen); [lia|].
  destruct (step_ok expat s s1) as [(l1 & q1 & Hs1) _]; [by exists l, q|by apply (step_round expat s a)|].
  destruct (IH s1 s' l1 q1 (xs ++ ys) Hs1 Has Hr R1) as (zs & R2 & Hd & Hz); [rewrite length_app; lia|].
  exists (ys ++ zs). rewrite app_assoc, fmap_app, Hy, Hz. split_and!; [done|by apply Forall_app|done].
Qed.
End Threads.

(** ** Property *)

(** C10: a session that is recorded, and its playback. From a state of a server
    that has begun to record, run rounds of the three threads in any order on any
    bytes, every write to the file succeeding; close the file, and open and play
    it in another process, without times. The events that the engine accepted are
    recorded, in their order, each with a time of the clock. The file has them
    all as long as there are at most 3200; of more, those behind the first 3200
    are at its start, over the older ones, and its header has the place behind
    them. If the times between its records can be slept and the end of the file
    does not set [errno] to [EINTR], then after any number [n] of iterations the
    playback still goes on, and has handed over the records from the place in the
    header to the end of the file, and then the last one again and again. With no
    event, or with 6400 or more, it reads a record that is not there. *)
Theorem session_replays {E E' : Env} {L : EnvLaws E} (expat : string -> list xml_call)
    (mk : string -> Z) (eintr : nat -> bool) (created : bool) (acts : list action) (s s' : system)
    (v : world) (l : list EVENT) (q : list ENGINE_EVENT) :
  (forall k, fwrite_at (Env := E) k = true) -> system_at (E := E) s l q -> recording (s_world s) [] ->
  Forall action_ok acts -> rounds (E := E) expat acts s = Ok s' ->
  Z.of_nat (List.length acts) < 2 ^ 64 -> mode (pb v) = PLAY_MODE -> (forall i, eintr i = false) ->
  exists ys w' f v', event <$> ys = all_accepted (E := E) expat acts s /\ Forall (timed (E := E)) ys /\
    playbackFileShutdown (E := E) (s_world s') = Ok (tt, w') /\ stream (pb w') = Some f /\
    let t := Playback.ring max_events_nat ys in
    let k := replay_from (List.length ys) in
    recs f = t /\ (exists h, file_header f = Some h /\ World.start_pos h = offset k) /\
    playbackFileInit (E := E') (Some f) created v = Ok (Some 1, v') /\
    (Replay.playable (E := E') t -> forall n,
      let played := playbackGo (E := E') mk eintr n None None {| r_world := v'; r_acts := [] |} in
      if decide (0 < List.length ys < 2 * max_events_nat)%nat
      then exists s2, played = Ok (false, s2) /\ handed (r_acts s2) = endless n k t
      else played = Fault UninitRead).
Proof.
  intros Hw Hs R Ha Hr Hl Hv Hi.
  destruct (rounds_record expat Hw acts s s' l q [] Hs Ha Hr R) as (ys & [_ Hm Ht] & Hc & Hy); [done|].
  destruct (replay_of_recorded (E' := E') mk eintr created ys (s_world s') v L Hw Hm Ht Hv Hi)
    as (w' & f & v' & H1 & H2 & H3 & H4 & H5 & H6).
  exists ys, w', f, v'. split; [done|]. split; [done|]. split; [done|]. split; [done|]. intros t k.
  split; [done|]. split; [done|]. split; [done|]. intros Hp n. specialize (H6 Hp n). cbv zeta in *.
  pose proof (replay_from_lt ys) as Hlt. fold t k in Hlt, H6.
  destruct (decide (k < _)%nat), (decide (0 < _ < _)%nat); [exact H6|tauto..|exact H6].
Qed.

(** *** Witness

    An event waits when the recording begins, another arrives; the engine
    takes both. *)

Definition demo_session : list action := [arrives demo_arrival; EngineRound; EngineRound; MixerRound].

Definition recording_system (w : world) : system :=
  {| s_queue := s_queue (demo_system true); s_world := w; s_udp := s_udp (demo_system true) |}.

Lemma demo_session_runs : exists w s',
  start_recording (E := still_env) true (s_world (demo_system true)) = Ok (Some 1, w) /\
  rounds (E := still_env) no_expat demo_session (recording_system w) = Ok s' /\
  all_accepted (E := still_env) no_expat demo_session (recording_system w) = [demo_ring; demo_ring].
Proof.
  assert (match start_recording (E := still_env) true (s_world (demo_system true)) with
          | Ok (Some 1, w) => match rounds (E := still_env) no_expat demo_session (recording_system w) with
              | Ok _ => bool_decide (all_accepted (E := still_env) no_expat demo_session (recording_system w)
                                     = [demo_ring; demo_ring])
              | _ => false end
          | _ => false end = true) as H by (vm_compute; reflexivity).
  destruct (start_recording true _) as [[[[|[]|]|] w]| |]; try done.
  destruct (rounds no_expat demo_session (recording_system w)) as [s'| |] eqn:Hr; [|done|done].
  exists w, s'. split_and!; [done|done|by apply bool_decide_eq_true in H].
Qed.

Lemma recording_system_at w l q :
  start_recording (E := still_env) true (s_world (demo_system true)) = Ok (Some 1, w) ->
  system_at (E := still_env) (demo_system true) l q ->
  system_at (E := still_env) (recording_system w) l q /\ recording w [].
Proof.
  intros H [Hq Ht Hw Hty Hu Hb]. split.
  - split; try assumption. refine (proj1 (server_starts_ok _ _ _ _ Hw)). right. exists true, 1. by split.
  - exact (start_recording_recording (E := still_env) (s_world (demo_system true)) w _ (fun _ => eq_refl)
      eq_refl eq_refl H).
Qed.

Lemma session_replays_witness :
  exists w s' w' f v', start_recording (E := still_env) true (s_world (demo_system true)) = Ok (Some 1, w) /\
    rounds (E := still_env) no_expat demo_session (recording_system w) = Ok s' /\
    playbackFileShutdown (E := still_env) (s_world s') = Ok (tt, w') /\ stream (pb w') = Some f /\
    playbackFileInit (E := still_env) (Some f) true blank_world = Ok (Some 1, v') /\
    exists s2, playbackGo (E := still_env) (fun _ => 0) (fun _ => false) 3 None None
                 {| r_world := v'; r_acts := [] |} = Ok (false, s2) /\
      event <$> handed (r_acts s2) = [demo_ring; demo_ring; demo_ring].
Proof.
  destruct demo_session_runs as (w & s' & Hw & Hr & Ha).
  destruct (recording_system_at w _ _ Hw (demo_at true)) as [Hs R].
  assert (Forall action_ok demo_session) as Hacts.
  { apply Forall_cons. split; [exact (event_packet_bytes _ (proj1 demo_sendable))|].
    apply Forall_cons. split; [exact I|]. apply Forall_cons. split; [exact I|]. apply Forall_singleton. exact I. }
  destruct (session_replays (E := still_env) (E' := still_env) (L := still_laws) no_expat (fun _ => 0)
    (fun _ => false) true demo_session (recording_system w) s' blank_world _ _ (fun _ => eq_refl) Hs R
    Hacts Hr ltac:(cbn; lia) eq_refl (fun _ => eq_refl)) as (ys & w' & f & v' & Hy & Hc & H1 & H2 & _ & _ & H3 & H4).
  exists w, s', w', f, v'. split; [exact Hw|]. split; [exact Hr|]. split; [exact H1|]. split; [exact H2|].
  split; [exact H3|]. rewrite Ha in Hy.
  destruct ys as [|y1 [|y2 [|]]]; try done. injection Hy as Hy1 Hy2.
  destruct y1 as [e1 t1], y2 as [e2 t2]. cbn in Hy1, Hy2. subst e1 e2.
  apply Forall_cons in Hc as [[n1 Hc1] Hc]. apply Forall_inv in Hc as [n2 Hc2]. cbn in Hc1, Hc2. subst t1 t2.
  cbv zeta in H4. edestruct (fun Hp => H4 Hp 3%nat) as (s2 & E2 & E3).
  { apply (playable_still (E := still_env) {| tv_sec := 1000000000; tv_usec := 5 |}); [done|reflexivity]. }
  exists s2. split; [exact E2|]. rewrite E3. reflexivity.
Defined.
