(* ===== verification/Connections.v ===== *)
(** * The TCP server as a whole: set-up, accept loop, concurrent servlets

    [serverRealInit], [serverInitSocket] and [serverRealStart] of
    [tcp_server.c], and of [ssl_server.c] where they differ. Every connection
    has a thread of its own; a step of the system is a round of the accept loop
    or a round of one servlet. *)

From stdpp Require Import base list strings.
From Stdlib Require Import ZArith Lia Ascii String.
From S2P Require Import Prelude Events CString EngineQueue Wire Notice Server TcpServer SslServer Peepd.
Local Open Scope Z_scope.
Local Open Scope list_scope.

(** ** Set-up *)

(** The results of the system calls, in their order. *)
Record setup : Type := {
  got_name : bool;       (* gethostname *)
  got_host : bool;       (* gethostbyname *)
  got_ctx : bool;        (* SSL_CTX_new *)
  sock : Z;              (* socket *)
  reuse : bool;          (* setsockopt *)
  nonblock : bool;       (* fcntl *)
  bound : bool;          (* bind *)
  listening : bool;      (* listen *)
  bcast_ok : bool;       (* the calls of initializeBroadcast *)
  bcast_fd : Z
}.

(** [server_fd] and [broadcast_fd]; [None] before they are assigned. *)
Record sockets : Type := { server_fd : option Z; broadcast_fd : option Z }.

Section Setup.
Context (o : setup).

Definition serverInitSocket (k : sockets) : Z * sockets :=
  let k := {| server_fd := Some (sock o); broadcast_fd := broadcast_fd k |} in
  (if sock o <? 0 then 0
   else if negb (reuse o) then 0
   else if negb (nonblock o) then 0
   else if negb (bound o) then 0
   else if negb (listening o) then 0
   else 1, k).

(** What follows the look-up of the host in both servers. *)
Definition init_sockets (k : sockets) (s : server) : res (Z * sockets * server) :=
  let '(r, k) := serverInitSocket k in
  if r =? 0 then mret (SERVER_FAILURE, k, s)
  else
    '(fd, s) ← initializeBroadcast (bcast_ok o) (bcast_fd o) s;
    let k := {| server_fd := server_fd k; broadcast_fd := Some fd |} in
    mret (if fd <? 0 then SERVER_FAILURE else SERVER_SUCCESS, k, s).

Definition tcp_serverRealInit (k : sockets) (s : server) : res (Z * sockets * server) :=
  if negb (got_name o) then mret (SERVER_FAILURE, k, s)
  else if negb (got_host o) then mret (SERVER_FAILURE, k, s)
  else init_sockets k s.

(** The context is null or not. *)
Definition serverInitCTX : bool := got_ctx o.

Definition sslServerInit : Z := if negb serverInitCTX then 0 else 1.

Definition ssl_serverRealInit (k : sockets) (s : server) : res (Z * sockets * server) :=
  if negb (got_name o) then mret (SERVER_FAILURE, k, s)
  else if negb (got_host o) then mret (SERVER_FAILURE, k, s)
  else if sslServerInit =? 0 then mret (SERVER_FAILURE, k, s)
  else init_sockets k s.
End Setup.

(** ** The accept loop *)

(** A thread: what it was given, and where it is; [None] when it has ended.
    [th_sent] records what it has enqueued so far. *)
Record thread : Type := {
  th_host : Z;
  th_port : Z;
  th_uninit : HEADER;
  th_input : conn;
  th_now : option (HEADER * conn);
  th_sent : list EVENT
}.

Record state : Type := {
  queue : EngineQueue.state;
  tcp_srv : server;
  threads : list thread
}.

(** A client that connects: its address, the indeterminate header of the
    servlet, and its connection, [None] when [accept] fails. *)
Record incoming : Type := { in_host : Z; in_port : Z; in_uninit : HEADER; in_conn : option conn }.

(** What [select] found: a datagram on the broadcast socket (with indeterminate
    bytes, in its buffer, with the address of the sender), a client. *)
Record poll : Type := {
  p_bcast : option (list Z * list Z * Z * Z);
  p_conn : option incoming
}.

Inductive action : Type := Poll (p : poll) | Servlet (i : nat).

(** The servlet reads from the descriptor even if it is -1. *)
Definition new_thread (c : incoming) : thread :=
  let input := default [None] (in_conn c) in
  {| th_host := in_host c; th_port := in_port c; th_uninit := in_uninit c; th_input := input;
     th_now := Some (in_uninit c, input); th_sent := [] |}.

(** The first half of a round of both accept loops. *)
Definition poll_broadcast (p : poll) (s : server) : res server :=
  match p_bcast p with
  | None => mret s
  | Some (junk, buffer, host, hport) => receiveUDPPacket junk buffer host hport s
  end.

Definition tcp_serverRealStart_round (p : poll) (s : state) : res state :=
  sv ← poll_broadcast p (tcp_srv s);
  mret {| queue := queue s; tcp_srv := sv;
          threads := threads s ++ option_list (new_thread <$> p_conn p) |}.

(** The SSL server starts no thread when [accept] or the handshake, [shake],
    fails. *)
Definition ssl_serverRealStart_round (shake : bool) (p : poll) (s : state) : res state :=
  sv ← poll_broadcast p (tcp_srv s);
  let t := match p_conn p with
           | Some c => match in_conn c with
                       | None => None
                       | Some _ => if shake then Some (new_thread c) else None
                       end
           | None => None
           end in
  mret {| queue := queue s; tcp_srv := sv; threads := threads s ++ option_list t |}.

Section System.
Context (expat : string -> list xml_call) (junk : list Z).

(** A thread after a round of its servlet. *)
Definition advance (t : thread) (e : option EVENT) (v : option servlet) : thread :=
  {| th_host := th_host t; th_port := th_port t; th_uninit := th_uninit t; th_input := th_input t;
     th_now := (fun v => (t_header v, t_conn v)) <$> v; th_sent := th_sent t ++ option_list e |}.

(** One round of the servlet of thread [i]; a thread that is not there or
    has ended waits for ever. The result has what was enqueued. *)
Definition servlet_step (i : nat) (s : state) : res (list EVENT * state) :=
  match threads s !! i with
  | None => Fault Blocked
  | Some t =>
      match th_now t with
      | None => Fault Blocked
      | Some (h, c) =>
          '(e, v) ← servlet_round expat junk (th_host t) (th_port t)
                      {| t_header := h; t_conn := c; t_srv := tcp_srv s |};
          q ← enqueue e (queue s);
          mret (option_list e,
                {| queue := q; tcp_srv := match v with Some v => t_srv v | None => tcp_srv s end;
                   threads := <[i := advance t e v]> (threads s) |})
      end
  end.

Definition tcp_round (a : action) (s : state) : res (list EVENT * state) :=
  match a with
  | Poll p => s ← tcp_serverRealStart_round p s; mret ([], s)
  | Servlet i => servlet_step i s
  end.

(** A run of the system with the events that are enqueued, in order. *)
Inductive run (s : state) : list EVENT -> state -> Prop :=
| run_nil : run s [] s
| run_step es a es' s' s'' : run s es s' -> tcp_round a s' = Ok (es', s'') -> run s (es ++ es') s''.

(** ** Interleavings *)

Inductive interleaved {A} : list (list A) -> list A -> Prop :=
| il_nil : interleaved [] []
| il_new ls l : interleaved ls l -> interleaved (ls ++ [[]]) l
| il_snoc ls l i m x : interleaved ls l -> ls !! i = Some m -> interleaved (<[i := m ++ [x]]> ls) (l ++ [x]).

Lemma interleaved_sublist {A} (ls : list (list A)) l :
  interleaved ls l -> Forall (fun m => sublist m l) ls.
Proof.
  induction 1 as [|ls l _ IH|ls l i m x _ IH Hi]; [constructor| |].
  - apply Forall_app. split; [done|]. apply Forall_singleton, sublist_nil_l.
  - apply Forall_insert.
    + apply (Forall_impl _ _ _ IH). intros k Hk. by apply sublist_inserts_r.
    + apply sublist_app; [|done]. by eapply (Forall_lookup_1 (fun m => sublist m l)).
Qed.

Lemma interleaved_perm {A} (ls : list (list A)) l : interleaved ls l -> l ≡ₚ List.concat ls.
Proof.
  induction 1 as [|ls l _ IH|ls l i m x _ IH Hi]; [done| |].
  - by rewrite List.concat_app, app_nil_r.
  - rewrite <- (take_drop_middle _ _ _ Hi) in IH |- *. pose proof (lookup_lt_Some _ _ _ Hi).
    rewrite insert_app_r_alt by (rewrite length_take; lia).
    replace (i - List.length (take i ls))%nat with 0%nat by (rewrite length_take; lia). cbn [list_insert].
    rewrite IH, !List.concat_app. cbn [List.concat]. solve_Permutation.
Qed.

(** ** One servlet, alone and in company *)

(** A servlet from some point on, with enough fuel. *)
Definition rest (t : thread) (h : HEADER) (c : conn) (sv : server) : res (list EVENT * server) :=
  servlet_loop expat junk (th_host t) (th_port t) (S (conn_size c)) {| t_header := h; t_conn := c; t_srv := sv |}.

Lemma loop_fuel host hport f1 : forall f2 t,
  (conn_size (t_conn t) < f1)%nat -> (conn_size (t_conn t) < f2)%nat ->
  servlet_loop expat junk host hport f1 t = servlet_loop expat junk host hport f2 t.
Proof.
  induction f1 as [|f1 IH]; intros [|f2] t H1 H2; try lia. cbn [servlet_loop].
  destruct (servlet_round expat junk host hport t) as [[e [t'|]]| |] eqn:Hr; [|done..].
  cbn [mbind res_bind]. apply servlet_round_less in Hr. by rewrite (IH f2) by lia.
Qed.

Definition with_server (sv : server) (t : servlet) : servlet :=
  {| t_header := t_header t; t_conn := t_conn t; t_srv := sv |}.

(** What a servlet does does not depend on the server, which it never changes. *)
Lemma round_any_server host hport h c sv sv' e v :
  servlet_round expat junk host hport {| t_header := h; t_conn := c; t_srv := sv |} = Ok (e, v) ->
  servlet_round expat junk host hport {| t_header := h; t_conn := c; t_srv := sv' |} =
  Ok (e, with_server sv' <$> v).
Proof.
  unfold servlet_round. cbn [t_conn t_header t_srv].
  destruct (read_conn sizeof_HEADER c) as [[k bytes] c']. destruct (k <=? 0); [by intros [= <- <-]|].
  destruct (overlay_header bytes h) as [h1| |]; [|done..]. cbn [mbind res_bind]. cbv zeta.
  destruct (negb (magic_ok _)); [by intros [= <- <-]|]. unfold servlet_body.
  destruct (read_conn (hlen (host_order h1)) c') as [[k2 bytes2] c2] eqn:Er.
  destruct (htype (host_order h1) =? PROT_BC_CLIENT).
  { destruct (Z.eqb_spec k2 (hlen (host_order h1))) as [Hk|]; [|by intros [= <- <-]]. cbn [negb].
    rewrite (client_bc_overflow _ _ _ _ _ sv); [done|]. by eapply read_conn_length. }
  destruct (htype (host_order h1) =? PROT_CLIENT_EVENT); [|by intros [= <- <-]].
  destruct (negb (k2 =? hlen _)); [by intros [= <- <-]|].
  destruct (serverProcessClientEventPacket expat (host_order h1) bytes2 BUninit) as [[e2 b2]| |]; [|done..].
  by intros [= <- <-].
Qed.

(** What a thread has enqueued is the beginning of what its servlet enqueues
    when it runs alone, and all of it when it has ended. *)
Definition faithful (t : thread) : Prop :=
  forall sv,
  match th_now t with
  | None => rest t (th_uninit t) (th_input t) sv = Ok (th_sent t, sv)
  | Some (h, c) => forall es, rest t h c sv = Ok (es, sv) ->
      rest t (th_uninit t) (th_input t) sv = Ok (th_sent t ++ es, sv)
  end.

Lemma new_faithful c : faithful (new_thread c).
Proof. intros sv es H. exact H. Qed.

Lemma advance_faithful t h c sv e v :
  faithful t -> th_now t = Some (h, c) ->
  servlet_round expat junk (th_host t) (th_port t) {| t_header := h; t_conn := c; t_srv := sv |} = Ok (e, v) ->
  faithful (advance t e v).
Proof.
  intros Hf Hn Hr sv'. specialize (Hf sv'). rewrite Hn in Hf. apply (round_any_server _ _ _ _ _ sv') in Hr.
  unfold advance. cbn [th_now]. destruct v as [v|]; cbn [fmap option_fmap option_map] in *.
  - intros es Hes. unfold rest in *. cbn [th_host th_port th_uninit th_input th_sent] in *.
    rewrite <- app_assoc. apply Hf. cbn [servlet_loop]. rewrite Hr. cbn [mbind res_bind].
    apply servlet_round_less in Hr. cbn [t_conn with_server] in Hr.
    change (with_server sv' v) with {| t_header := t_header v; t_conn := t_conn v; t_srv := sv' |}.
    rewrite (loop_fuel _ _ _ (S (conn_size (t_conn v)))) by (cbn [t_conn]; lia). by rewrite Hes.
  - unfold rest in *. cbn [th_host th_port th_uninit th_input th_sent] in *. apply Hf.
    cbn [servlet_loop]. by rewrite Hr.
Qed.

(** ** The invariant of the runs *)

Record served (l : list EVENT) (s : state) (es : list EVENT) : Prop := {
  sv_queue : EngineQueue.rep (queue s) (l ++ es);
  sv_merge : interleaved (th_sent <$> threads s) es;
  sv_faithful : Forall faithful (threads s)
}.

Lemma poll_served l s es p s' :
  served l s es -> tcp_serverRealStart_round p s = Ok s' -> served l s' es /\ queue s' = queue s.
Proof.
  intros [Hq Hm Hf] H. unfold tcp_serverRealStart_round in H. apply bind_ok in H as (sv & _ & [= <-]).
  split; [|done]. split; cbn [queue threads]; [done|..].
  - rewrite fmap_app. destruct (p_conn p) as [c|]; cbn; [by constructor|by rewrite app_nil_r].
  - apply Forall_app. split; [done|]. destruct (p_conn p) as [c|]; cbn; [|constructor].
    apply Forall_singleton, new_faithful.
Qed.

Lemma servlet_step_served l s es i es' s' :
  served l s es -> servlet_step i s = Ok (es', s') -> served l s' (es ++ es').
Proof.
  intros [Hq Hm Hf] H. unfold servlet_step in H. destruct (threads s !! i) as [t|] eqn:Ht; [|done].
  destruct (th_now t) as [[h c]|] eqn:Hn; [|done].
  apply bind_ok in H as ([e v] & Hr & H). apply bind_ok in H as (q & Hq' & [= <- <-]).
  pose proof (Forall_lookup_1 _ _ _ _ Hf Ht) as Ft. split; cbn [queue threads].
  - destruct (enqueue_rep e _ _ Hq) as (q1 & Hq1 & Hrep). rewrite Hq' in Hq1. injection Hq1 as <-.
    by rewrite app_assoc.
  - rewrite list_fmap_insert. cbn [th_sent advance]. destruct e as [e|]; cbn [option_list].
    + apply il_snoc; [done|]. by rewrite list_lookup_fmap, Ht.
    + rewrite !app_nil_r. rewrite list_insert_id; [done|]. by rewrite list_lookup_fmap, Ht.
  - apply Forall_insert; [done|]. by eapply advance_faithful.
Qed.

Lemma run_served l s es s' :
  EngineQueue.rep (queue s) l -> threads s = [] -> run s es s' -> served l s' es.
Proof.
  intros Hq Ht H. induction H as [|es a es' s' s'' _ IH Ha].
  - split; rewrite ?Ht, ?app_nil_r; [done|constructor|constructor].
  - destruct a as [p|i]; cbn [tcp_round] in Ha; [|by eapply servlet_step_served].
    apply bind_ok in Ha as (s1 & Hp & [= <- <-]). rewrite app_nil_r. by eapply poll_served.
Qed.

(** ** Connections with whole packets *)

Definition whole (groups : list (list EVENT)) : Prop := Forall (fun es => es <> [] /\ Forall wire_event es) groups.

(** The connection on which the groups arrive. *)
Definition arriving (groups : list (list EVENT)) : conn := (fun es => Some (group es)) <$> groups.

(** The thread has enqueued [l] but for what is still in its connection. *)
Definition promised (t : thread) (l : list EVENT) : Prop :=
  match th_now t with
  | None => th_sent t = l
  | Some (_, c) => exists groups, c = arriving groups /\ whole groups /\ th_sent t ++ List.concat groups = l
  end.

(** What is still to be done by a thread. *)
Definition todo (t : thread) : nat := match th_now t with None => 0 | Some (_, c) => S (conn_size c) end.

Lemma group_cons e es : group (e :: es) = event_packet e ++ group es.
Proof. done. Qed.

Lemma group_nil es : Forall wire_event es -> group es = [] -> es = [].
Proof.
  intros [|e es' (_ & _ & snd & Hs & _) _]; [done|]. rewrite group_cons. unfold event_packet. by rewrite Hs.
Qed.

Lemma promised_round t l h c sv :
  promised t l -> th_now t = Some (h, c) ->
  exists e v, servlet_round expat junk (th_host t) (th_port t) {| t_header := h; t_conn := c; t_srv := sv |}
    = Ok (e, v) /\ promised (advance t e v) l /\ (todo (advance t e v) < todo t)%nat.
Proof.
  intros Hp Hn. unfold promised in Hp. rewrite Hn in Hp. destruct Hp as (gs & -> & Hgs & Hl).
  destruct Hgs as [|es gs [Hne Hes] Hgs].
  { exists None, None. split; [done|]. unfold promised, todo. cbn. rewrite Hn. split; [|lia].
    cbn in Hl. by rewrite app_nil_r in *. }
  destruct es as [|e es]; [done|]. apply Forall_cons in Hes as [He Hes].
  change (arriving ((e :: es) :: gs)) with (Some (event_packet e ++ group es) :: arriving gs) in *.
  pose proof (round_event expat junk (th_host t) (th_port t) e h (group es) (arriving gs) sv He) as Hr.
  eexists _, _. split; [exact Hr|]. apply servlet_round_less in Hr. cbn [t_conn] in Hr.
  split; [|unfold todo; cbn [th_now advance fmap option_fmap option_map t_conn]; rewrite Hn; lia].
  unfold promised. cbn [th_now advance fmap option_fmap option_map t_header t_conn th_sent option_list].
  destruct (decide (group es = [])) as [Hg|Hg].
  - apply group_nil in Hg; [|done]. subst es. exists gs. split; [done|]. split; [done|].
    rewrite <- Hl, <- app_assoc. done.
  - exists (es :: gs). split; [done|]. split; [|rewrite <- Hl, <- app_assoc; done].
    constructor; [|done]. split; [by intros ->|done].
Qed.

(** A thread whose connection has whole packets keeps its promise. *)
Definition obedient (t : thread) : Prop :=
  forall groups, th_input t = arriving groups -> whole groups -> promised t (List.concat groups).

Lemma run_obedient s es s' : threads s = [] -> run s es s' -> Forall obedient (threads s').
Proof.
  intros Ht H. induction H as [|es a es' s' s'' _ IH Ha]; [by rewrite Ht|].
  destruct a as [p|i]; cbn [tcp_round] in Ha.
  - apply bind_ok in Ha as (s1 & Hp & [= <- <-]). unfold tcp_serverRealStart_round in Hp.
    apply bind_ok in Hp as (sv & _ & [= <-]). cbn [threads]. apply Forall_app. split; [done|].
    destruct (p_conn p) as [c|]; cbn; [|constructor]. apply Forall_singleton.
    intros gs Hi Hgs. exists gs. by split.
  - unfold servlet_step in Ha. destruct (threads s' !! i) as [t|] eqn:Hi; [|done].
    destruct (th_now t) as [[h c]|] eqn:Hn; [|done].
    apply bind_ok in Ha as ([e v] & Hr & Ha). apply bind_ok in Ha as (q & _ & [= <- <-]).
    cbn [threads]. apply Forall_insert; [done|]. intros gs Hin Hgs.
    destruct (promised_round t _ h c (tcp_srv s') (Forall_lookup_1 _ _ _ _ IH Hi gs Hin Hgs) Hn)
      as (e' & v' & Hr' & Hp & _). rewrite Hr in Hr'. by injection Hr' as <- <-.
Qed.

Lemma run_app s es s' es' s'' : run s es s' -> run s' es' s'' -> run s (es ++ es') s''.
Proof.
  intros H H'. induction H' as [|es' a es2 s2 s3 _ IH Ha]; [by rewrite app_nil_r|].
  rewrite app_assoc. by eapply run_step.
Qed.

(** A list of actions, one after the other. *)
Fixpoint rounds (l : list action) (s : state) : res (list EVENT * state) :=
  match l with
  | [] => mret ([], s)
  | a :: l => '(es, s) ← tcp_round a s; '(es', s) ← rounds l s; mret (es ++ es', s)
  end.

Lemma rounds_run l : forall s es s', rounds l s = Ok (es, s') -> run s es s'.
Proof.
  induction l as [|a l IH]; intros s es s' H; cbn [rounds] in H; [injection H as <- <-; constructor|].
  apply bind_ok in H as ([es1 s1] & H1 & H). apply bind_ok in H as ([es2 s2] & H2 & [= <- <-]).
  eapply run_app; [|by apply IH]. change es1 with ([] ++ es1). by eapply run_step; [constructor|].
Qed.

Definition total (ts : list thread) : nat := sum_list (todo <$> ts).

Lemma total_insert ts i t t' :
  ts !! i = Some t -> (todo t' < todo t)%nat -> (total (<[i := t']> ts) < total ts)%nat.
Proof.
  revert i. induction ts as [|u ts IH]; intros [|i] Hi Ht; simplify_eq/=; unfold total in *; cbn.
  - lia.
  - specialize (IH _ Hi Ht). lia.
Qed.

(** A step of a thread that has not ended. *)
Lemma servlet_goes s ls i t l lq :
  Forall2 promised (threads s) ls -> EngineQueue.rep (queue s) lq ->
  threads s !! i = Some t -> ls !! i = Some l -> is_Some (th_now t) ->
  exists es s', servlet_step i s = Ok (es, s') /\ Forall2 promised (threads s') ls /\
    EngineQueue.rep (queue s') (lq ++ es) /\ (total (threads s') < total (threads s))%nat.
Proof.
  intros Hp Hq Hi Hl [[h c] Hn].
  destruct (promised_round t l h c (tcp_srv s) (Forall2_lookup_lr _ _ _ _ _ _ Hp Hi Hl) Hn)
    as (e & v & Hr & Ht & Hd). destruct (enqueue_rep e _ _ Hq) as (q & Hq' & Hrep).
  eexists _, _. split; [unfold servlet_step; rewrite Hi, Hn, Hr; cbn [mbind res_bind]; rewrite Hq'; reflexivity|].
  cbn [threads queue]. split; [|split; [done|by eapply total_insert]].
  rewrite <- (list_insert_id ls i l Hl). by apply Forall2_insert.
Qed.

(** All threads can be run to their end. *)
Lemma threads_end n : forall s ls lq,
  (total (threads s) < n)%nat -> Forall2 promised (threads s) ls -> EngineQueue.rep (queue s) lq ->
  exists es s', run s es s' /\ Forall (fun t => th_now t = None) (threads s') /\
    th_sent <$> threads s' = ls /\ EngineQueue.rep (queue s') (lq ++ es).
Proof.
  induction n as [|n IH]; intros s ls lq Hn Hp Hq; [lia|].
  destruct (decide (Forall (fun t => th_now t = None) (threads s))) as [Hend|Hopen].
  - exists [], s. split; [constructor|]. split; [done|]. split; [|by rewrite app_nil_r].
    clear Hn Hq. induction Hp as [|t l ts ls Ht _ IHp]; [done|]. apply Forall_cons in Hend as [He Hend].
    cbn. unfold promised in Ht. rewrite He in Ht. by rewrite Ht, IHp.
  - apply not_Forall_Exists in Hopen; [|apply _]. apply Exists_exists in Hopen as (t & Ht & Hne).
    apply list_elem_of_lookup in Ht as [i Hi].
    destruct (Forall2_lookup_l _ _ _ _ _ Hp Hi) as (l & Hl & _).
    destruct (servlet_goes s ls i t l lq Hp Hq Hi Hl) as (es & s1 & H1 & Hp1 & Hq1 & Hd).
    { apply not_eq_None_Some. exact Hne. }
    destruct (IH s1 ls _ ltac:(lia) Hp1 Hq1) as (es2 & s2 & H2 & He2 & Hs2 & Hq2).
    exists (es ++ es2), s2. split; [|split; [done|split; [done|by rewrite app_assoc]]].
    eapply run_app; [|exact H2]. change es with ([] ++ es). eapply (run_step _ _ (Servlet i)); [constructor|exact H1].
Qed.
End System.

(** What a server that has been set up relies on. *)
Lemma tcp_serverRealInit_success o k s k' s' :
  tcp_serverRealInit o k s = Ok (SERVER_SUCCESS, k', s') ->
  got_name o = true /\ got_host o = true /\ bcast_ok o = true /\ is_Some (identifier s') /\
  exists a b, server_fd k' = Some a /\ broadcast_fd k' = Some b /\ 0 <= a /\ 0 <= b.
Proof.
  unfold tcp_serverRealInit, init_sockets, serverInitSocket.
  destruct (got_name o); [|done]. destruct (got_host o); [|done]. cbn [negb].
  destruct (Z.ltb_spec (sock o) 0); [done|].
  destruct (reuse o); [|done]. destruct (nonblock o); [|done]. destruct (bound o); [|done].
  destruct (listening o); [|done]. cbn [negb]. change (1 =? 0) with false. cbv iota.
  intros Hrun. apply bind_ok in Hrun as ([fd s1] & Hi & Hrun). unfold initializeBroadcast in Hi.
  destruct (bcast_ok o); cbn in Hi; [|injection Hi as <- <-; done].
  apply bind_ok in Hi as (s2 & Hb & [= <- <-]). cbv zeta in Hrun.
  destruct (Z.ltb_spec (bcast_fd o) 0); [done|]. injection Hrun as <- <-.
  split_and!; [done|done|done| |by eexists _, _].
  assert (forall ports u u', broadcast_loop ports u = Ok u' -> identifier u' = identifier u) as Hid.
  { clear. induction ports as [|p ports IH]; intros u u' H; cbn [broadcast_loop] in H; [by injection H as <-|].
    apply bind_ok in H as (v & Hv & H). apply IH in H. rewrite H. unfold send_announcement in Hv.
    destruct (identifier u) as [id|] eqn:Eu; [|done]. destruct (createPacketBuffer _ _); [|done].
    by injection Hv as <-. }
  rewrite (Hid _ _ _ Hb). destruct (identifier s) eqn:Es; [by rewrite Es; eexists|by eexists].
Qed.

(** ** Properties *)

Section Properties.
Context (expat : string -> list xml_call) (junk : list Z).

(** C23: the TCP server refines an interleaving of its servlets: whatever
    connections are accepted, whatever arrives on them and however the rounds
    of accept loop and servlets alternate, the engine queue gets an
    interleaving of what the threads enqueue, behind what was in it; and each
    thread enqueues what its servlet enqueues on the connection when it runs
    alone, up to the point where it is, and all of that when it has ended. *)
Theorem tcp_run_interleaves (s s' : state) (l es : list EVENT) :
  EngineQueue.rep (queue s) l -> threads s = [] -> run expat junk s es s' ->
  EngineQueue.rep (queue s') (l ++ es) /\
  interleaved (th_sent <$> threads s') es /\
  Forall (fun t => sublist (th_sent t) es) (threads s') /\ es ≡ₚ List.concat (th_sent <$> threads s') /\
  Forall (fun t => forall sv, th_now t = None ->
    serverServlet expat junk (th_host t) (th_port t) (th_uninit t) (th_input t) sv = Ok (th_sent t, sv))
    (threads s').
Proof.
  intros Hq Ht H. destruct (run_served expat junk l s es s' Hq Ht H) as [Hq' Hm Hf].
  split; [done|]. split; [done|]. split; [apply (Forall_fmap th_sent (fun m => sublist m es)); by apply interleaved_sublist|].
  split; [by apply interleaved_perm|]. apply (Forall_impl _ _ _ Hf). intros t Hft sv Hn.
  specialize (Hft sv). rewrite Hn in Hft. exact Hft.
Qed.

(** C22: when the clients send whole packets, no servlet is ever stuck or in
    undefined behaviour, and from every state that the server reaches the
    servlets can run to their end: then the queue has every event of every
    client once, an interleaving of the connections. *)
Theorem tcp_run_delivers (s s' : state) (l es : list EVENT) (clients : list (list (list EVENT))) :
  EngineQueue.rep (queue s) l -> threads s = [] -> run expat junk s es s' ->
  Forall2 (fun t groups => th_input t = arriving groups /\ whole groups) (threads s') clients ->
  (forall i t, threads s' !! i = Some t -> is_Some (th_now t) -> is_ok (servlet_step expat junk i s')) /\
  exists es' s'', run expat junk s' es' s'' /\ Forall (fun t => th_now t = None) (threads s'') /\
    EngineQueue.rep (queue s'') (l ++ es ++ es') /\ interleaved ((@List.concat EVENT) <$> clients) (es ++ es').
Proof.
  intros Hq Ht H Hc. pose proof (run_served expat junk l s es s' Hq Ht H) as [Hq' _ _].
  pose proof (run_obedient expat junk s es s' Ht H) as Ho.
  assert (Forall2 promised (threads s') ((@List.concat EVENT) <$> clients)) as Hp.
  { apply Forall2_fmap_r. clear -Hc Ho. induction Hc as [|t gs ts gss [Hi Hw] _ IH]; [constructor|].
    apply Forall_cons in Ho as [Ht Ho]. constructor; [by apply Ht|by apply IH]. }
  split.
  - intros i t Hi Hn. destruct (Forall2_lookup_l _ _ _ _ _ Hp Hi) as (x & Hx & _).
    destruct (servlet_goes expat junk s' _ i t x _ Hp Hq' Hi Hx Hn) as (e & s1 & H1 & _). by eexists.
  - destruct (threads_end expat junk _ s' _ _ (Nat.lt_succ_diag_r _) Hp Hq') as (es' & s2 & H2 & He & Hs & Hr).
    exists es', s2. split; [done|]. split; [done|]. split; [by rewrite app_assoc|].
    pose proof (run_served expat junk l s _ s2 Hq Ht (run_app _ _ _ _ _ _ _ H H2)) as [_ Hm _].
    by rewrite Hs in Hm.
Qed.
End Properties.

(** ** Witnesses *)

Definition blank_header : HEADER :=
  {| version := 0; htype := 0; content := 0; reserved := [0; 0; 0; 0; 0]; magic := 0; hlen := 0 |}.

(** A client that sends two events, together. *)
Definition demo_client : incoming :=
  {| in_host := 1; in_port := 2; in_uninit := blank_header; in_conn := Some (arriving [[demo_ring; demo_ring]]) |}.

Definition demo_poll : poll := {| p_bcast := None; p_conn := Some demo_client |}.

Definition demo_state : state :=
  {| queue := demo_queue false; tcp_srv := blank_server; threads := [] |}.

Definition no_events (s : string) : list xml_call := [].

(** Two clients connect, the second one is heard first. *)
Lemma demo_run : exists s, run no_events [] demo_state [demo_ring; demo_ring] s /\
  Forall2 (fun t groups => th_input t = arriving groups /\ whole groups) (threads s)
    [[[demo_ring; demo_ring]]; [[demo_ring; demo_ring]]].
Proof.
  assert (match rounds no_events [] [Poll demo_poll; Poll demo_poll; Servlet 1; Servlet 0] demo_state with
    | Ok (es, s) => Some (es, th_input <$> threads s) | _ => None end =
    Some ([demo_ring; demo_ring],
      [arriving [[demo_ring; demo_ring]]; arriving [[demo_ring; demo_ring]]])) as H by (vm_compute; reflexivity).
  destruct (rounds _ _ _ _) as [[es s]| |] eqn:Hr; try discriminate H. injection H as -> Ht.
  apply rounds_run in Hr. rename Hr into Hs.
  exists s. split; [exact Hs|].
  assert (whole [[demo_ring; demo_ring]]) as Hw.
  { apply Forall_singleton. split; [done|]. repeat (constructor; [exact (proj1 (proj2 demo_sendable))|]). constructor. }
  destruct (threads s) as [|t1 [|t2 [|]]]; try discriminate Ht. cbn [fmap list_fmap] in Ht. injection Ht as H1 H2.
  constructor; [by split|]. constructor; [by split|constructor].
Qed.

Lemma tcp_run_interleaves_witness :
  exists s, run no_events [] demo_state [demo_ring; demo_ring] s /\
    EngineQueue.rep (queue s) [demo_ring; demo_ring] /\
    interleaved (th_sent <$> threads s) [demo_ring; demo_ring].
Proof.
  destruct demo_run as (s & Hs & _). exists s. split; [exact Hs|].
  destruct (tcp_run_interleaves no_events [] demo_state s [] _ (demo_queue_rep false) eq_refl Hs)
    as (H1 & H2 & _). split; [exact H1|exact H2].
Defined.

Lemma tcp_run_delivers_witness :
  exists s es' s'', run no_events [] demo_state [demo_ring; demo_ring] s /\
    run no_events [] s es' s'' /\ Forall (fun t => th_now t = None) (threads s'') /\
    interleaved [[demo_ring; demo_ring]; [demo_ring; demo_ring]] ([demo_ring; demo_ring] ++ es').
Proof.
  destruct demo_run as (s & Hs & Hc).
  destruct (tcp_run_delivers no_events [] demo_state s [] _ _ (demo_queue_rep false) eq_refl Hs Hc)
    as (_ & es' & s'' & H1 & H2 & _ & H3).
  exists s, es', s''. split; [exact Hs|]. split; [exact H1|]. split; [exact H2|exact H3].
Defined.
