(* ===== verification/SslContext.v ===== *)
(** * The context of the SSL server ([ssl_server.c])

    The socket of the SSL server, and the [SSL_CTX] of its connections.
    [serverLoadCerts] gives the context a certificate and a key, but its call
    is compiled out of [sslServerInit]: the context that the accept loop works
    with is the one [SSL_CTX_new] made. The type of contexts and the functions
    of OpenSSL on it are parameters. *)

From stdpp Require Import base list strings.
From Stdlib Require Import ZArith Lia Ascii String.
From S2P Require Import Prelude Events CString EngineQueue Wire Notice Server TcpServer SslServer Peepd Connections.
Local Open Scope Z_scope.
Local Open Scope list_scope.

(** [serverInitSocket] of [ssl_server.c], a copy of that of [tcp_server.c]. *)
Definition ssl_serverInitSocket (o : setup) (k : sockets) : Z * sockets :=
  let k := {| server_fd := Some (sock o); broadcast_fd := broadcast_fd k |} in
  (if sock o <? 0 then 0
   else if negb (reuse o) then 0
   else if negb (nonblock o) then 0
   else if negb (bound o) then 0
   else if negb (listening o) then 0
   else 1, k).

Section Context.
Context {SSL_CTX : Type}.
(** [SSL_CTX_use_certificate_file] and [SSL_CTX_use_PrivateKey_file] for PEM
    files, and [SSL_CTX_check_private_key]. *)
Context (use_certificate_file use_PrivateKey_file : SSL_CTX -> string -> Z * SSL_CTX).
Context (check_private_key : SSL_CTX -> Z).

Definition serverLoadCerts (ctx : SSL_CTX) (certf keyf : string) : Z * SSL_CTX :=
  let (r, ctx) := use_certificate_file ctx certf in
  if r <=? 0 then (0, ctx) else
  let (r, ctx) := use_PrivateKey_file ctx keyf in
  if r <=? 0 then (0, ctx) else
  if check_private_key ctx =? 0 then (0, ctx) else (1, ctx).

(** [SSL_accept] on a connection with the context. *)
Context (SSL_accept : SSL_CTX -> incoming -> Z).

Definition handshake (ctx : SSL_CTX) (p : poll) : bool :=
  match p_conn p with Some c => negb (SSL_accept ctx c <=? 0) | None => false end.

Fixpoint ssl_serverRealStart (ctx : SSL_CTX) (ps : list poll) (s : state) : res state :=
  match ps with
  | [] => mret s
  | p :: ps => s ← ssl_serverRealStart_round (handshake ctx p) p s; ssl_serverRealStart ctx ps s
  end.

(** The certificates are loaded when both files are read and fit. *)
Lemma serverLoadCerts_success ctx certf keyf :
  (serverLoadCerts ctx certf keyf).1 = 1 <->
  let (r1, ctx1) := use_certificate_file ctx certf in
  let (r2, ctx2) := use_PrivateKey_file ctx1 keyf in
  0 < r1 /\ 0 < r2 /\ check_private_key ctx2 <> 0.
Proof.
  unfold serverLoadCerts. destruct (use_certificate_file ctx certf) as [r1 ctx1].
  destruct (use_PrivateKey_file ctx1 keyf) as [r2 ctx2].
  destruct (Z.leb_spec r1 0); [simpl; lia|]. destruct (Z.leb_spec r2 0); [simpl; lia|].
  destruct (Z.eqb_spec (check_private_key ctx2) 0); simpl; lia.
Qed.

(** With a context on which no handshake succeeds, as that of a server without
    a certificate, the accept loop starts no servlet and enqueues nothing,
    whoever connects. *)
Lemma ssl_serves_nobody ctx ps : forall s s',
  (forall c, SSL_accept ctx c <= 0) -> ssl_serverRealStart ctx ps s = Ok s' ->
  threads s' = threads s /\ queue s' = queue s.
Proof.
  induction ps as [|p ps IH]; intros s s' Hn H; cbn [ssl_serverRealStart] in H; [by injection H as <-|].
  apply bind_ok in H as (s1 & H1 & H). destruct (IH _ _ Hn H) as [-> ->].
  unfold ssl_serverRealStart_round in H1. apply bind_ok in H1 as (sv & _ & [= <-]). cbn.
  split; [|done]. unfold handshake. destruct (p_conn p) as [c|]; [|by rewrite app_nil_r].
  specialize (Hn c). destruct (Z.leb_spec (SSL_accept ctx c) 0); [|lia].
  destruct (in_conn c); by rewrite app_nil_r.
Qed.
End Context.
