(* ===== verification/Frontend.v ===== *)
(** * Any server in front of the engine

    [peepd] is built with one of three servers, which are linked under the same
    names. What the rest of the program relies on is stated as a class: a
    round of the server adds typed events to the end of the engine queue, and
    does nothing else with what is shared. The theorem about the three threads
    is proved against the class; the three servers are instances, the TCP and
    the SSL server with all their servlets. *)

From stdpp Require Import base list sets strings relations.
From Stdlib Require Import ZArith Lia Ascii String.
From S2P Require Import Prelude Events CString Dbl EngineQueue SoundTable MixerQueue World Playback Mixer Engine MixerFacts Steps Wire Notice Server UdpServer TcpServer SslServer Typing Peepd Connections.
Import SoundTable.
Local Open Scope Z_scope.
Local Open Scope list_scope.

(** ** The interface *)

(** A server with states [St] and inputs [In]: a round, which gives what it
    enqueued. *)
Class Frontend (St In : Type) : Type := {
  serve : In -> St -> EngineQueue.state -> res (list EVENT * St * EngineQueue.state);
  serving : St -> Prop;
  input : In -> Prop
}.

Class FrontendLaws (St In : Type) {F : Frontend St In} : Prop :=
  serve_enqueues : forall i s q l es s' q',
    serving s -> input i -> EngineQueue.rep q l -> serve i s q = Ok (es, s', q') ->
    serving s' /\ EngineQueue.rep q' (l ++ es) /\ Forall event_typed es.

(** ** The threads *)

Record peepd (St : Type) : Type := { y_queue : EngineQueue.state; y_world : world; y_front : St }.
Arguments y_queue {St} _.
Arguments y_world {St} _.
Arguments y_front {St} _.

Inductive turn (In : Type) : Type := Front (i : In) | EngineTurn | MixerTurn.
Arguments Front {In} _.
Arguments EngineTurn {In}.
Arguments MixerTurn {In}.

Section Threads.
Context {E : Env} {St In : Type} {F : Frontend St In}.

(** A round of a thread, with the events that the server enqueued. *)
Definition take_turn (a : turn In) (y : peepd St) : res (list EVENT * peepd St) :=
  match a with
  | Front i =>
      '(es, s, q) ← serve i (y_front y) (y_queue y);
      mret (es, {| y_queue := q; y_world := y_world y; y_front := s |})
  | EngineTurn =>
      '(e, q) ← EngineQueue.engineDequeue (y_queue y);
      '(_, w) ← engineLoop_body e (y_world y);
      mret ([], {| y_queue := q; y_world := w; y_front := y_front y |})
  | MixerTurn =>
      '(_, w) ← mixer (y_world y);
      mret ([], {| y_queue := y_queue y; y_world := w; y_front := y_front y |})
  end.

Fixpoint take_turns (acts : list (turn In)) (y : peepd St) : res (list EVENT * peepd St) :=
  match acts with
  | [] => mret ([], y)
  | a :: acts =>
      '(es, y) ← take_turn a y;
      '(fs, y) ← take_turns acts y;
      mret (es ++ fs, y)
  end.

Definition turn_ok (a : turn In) : Prop := match a with Front i => input i | _ => True end.

Definition peepd_at (y : peepd St) (l : list EVENT) (ws : list ENGINE_EVENT) : Prop :=
  shared_at (y_queue y) (y_world y) l ws /\ serving (y_front y).

Definition is_engine (a : turn In) : nat := match a with EngineTurn => 1 | _ => 0 end.

Context {L : EnvLaws E} {FL : FrontendLaws St In}.

(** A turn: what was in the queues and arrived is what is in them and what is
    gone. *)
Lemma turn_keeps a y es y' l ws :
  peepd_at y l ws -> turn_ok a -> take_turn a y = Ok (es, y') ->
  exists l' ws' gone, peepd_at y' l' ws' /\ Forall event_typed es /\
    l ++ (event <$> ws) ++ es ≡ₚ l' ++ (event <$> ws') ++ gone /\
    (List.length l' + is_engine a = List.length l + List.length es)%nat /\
    sound_table (y_world y') = sound_table (y_world y) /\ played (y_world y) `prefix_of` played (y_world y').
Proof.
  intros [Hs Hf] Ha H. destruct a as [i| |]; cbn [take_turn is_engine] in *.
  - apply bind_ok in H as ([[es1 s] q] & Hi & [= <- <-]).
    destruct (serve_enqueues _ _ _ _ _ _ _ Hf Ha (sh_queue _ _ _ _ Hs) Hi) as (Hf' & Hq & He).
    exists (l ++ es1), ws, []. split_and!; try done.
    + split; [|done]. destruct Hs as [_ Hty Ht Hw]. split; try done. by apply Forall_app.
    + rewrite app_nil_r, <- !app_assoc. f_equiv. apply Permutation_app_comm.
    + rewrite length_app. lia.
  - apply bind_ok in H as ([e q] & Hd & H). apply bind_ok in H as ([o w] & He & [= <- <-]).
    destruct (engine_shared _ _ _ _ _ _ _ _ Hs Hd He) as (l' & ws' & -> & Hs' & B & P).
    rewrite !app_nil_r, length_app. cbn [List.length y_world].
    assert (played (y_world y) `prefix_of` played w) by (by rewrite (he_played _ _ B)).
    destruct P as [P|[t P]].
    + exists l', ws', [e]. split_and!; try done; [|apply B].
      rewrite <- app_assoc, P. f_equiv. apply Permutation_app_comm.
    + exists l', ws', []. split_and!; try done; [|apply B].
      rewrite app_nil_r, <- app_assoc, P, fmap_app. f_equiv. apply Permutation_app_comm.
  - apply bind_ok in H as ([[] w] & Hm & [= <- <-]).
    destruct (mixer_shared _ _ _ _ _ Hs Hm) as (ws' & x & Hs' & P & Htb & Hp).
    exists l, ws', (event <$> x). rewrite !app_nil_r, Nat.add_0_r. split_and!; try done.
    rewrite P, fmap_app. f_equiv. apply Permutation_app_comm.
Qed.
End Threads.

(** ** Property *)

(** C6: the ledger of the program, for any server that keeps the promise of
    [FrontendLaws]. However the turns of server, engine and mixer are
    interleaved and whatever arrives: the state satisfies the invariant of
    queues, engine, mixer and server; every event that was in a queue or was
    enqueued is in a queue or gone, each of them in one of these places once;
    each turn of the engine takes one event out of the engine queue, and
    nothing else does; the sound table is the same, and what was played
    stays. *)
Theorem events_conserved {E : Env} {L : EnvLaws E} {St In : Type} {F : Frontend St In}
    {FL : FrontendLaws St In} (acts : list (turn In)) (y y' : peepd St) (es : list EVENT)
    (l : list EVENT) (ws : list ENGINE_EVENT) :
  peepd_at y l ws -> Forall turn_ok acts -> take_turns acts y = Ok (es, y') ->
  exists l' ws' gone, peepd_at y' l' ws' /\ Forall event_typed es /\
    l ++ (event <$> ws) ++ es ≡ₚ l' ++ (event <$> ws') ++ gone /\
    (List.length l' + sum_list (is_engine <$> acts) = List.length l + List.length es)%nat /\
    sound_table (y_world y') = sound_table (y_world y) /\ played (y_world y) `prefix_of` played (y_world y').
Proof.
  intros Hy Ha. revert y es l ws Hy. induction Ha as [|a acts Ha _ IH]; intros y es l ws Hy H;
    cbn [take_turns] in H.
  { injection H as <- <-. exists l, ws, []. rewrite !app_nil_r. by split_and!; [..|cbn; lia| |]. }
  apply bind_ok in H as ([es1 y1] & H1 & H). apply bind_ok in H as ([es2 y2] & H2 & [= <- <-]).
  destruct (turn_keeps a y es1 y1 l ws Hy Ha H1) as (l1 & ws1 & g1 & Hy1 & T1 & P1 & N1 & Tb1 & Pl1).
  destruct (IH y1 es2 l1 ws1 Hy1 H2) as (l2 & ws2 & g2 & Hy2 & T2 & P2 & N2 & Tb2 & Pl2).
  exists l2, ws2, (g2 ++ g1). split; [done|]. split; [by apply Forall_app|]. split; [|split; [|split]].
  - transitivity ((l ++ (event <$> ws) ++ es1) ++ es2); [by rewrite <- !app_assoc|]. rewrite P1.
    transitivity ((l1 ++ (event <$> ws1) ++ es2) ++ g1).
    { rewrite <- !app_assoc. do 2 f_equiv. apply Permutation_app_comm. }
    rewrite P2. by rewrite <- !app_assoc.
  - cbn [fmap list_fmap sum_list foldr]. rewrite length_app. cbn in N2 |- *. lia.
  - congruence.
  - by etransitivity.
Qed.

(** ** The UDP server *)

Section Udp.
Context (expat : string -> list xml_call).

Definition udp_serve (i : udp_input) (u : udp) (q : EngineQueue.state)
  : res (list EVENT * udp * EngineQueue.state) :=
  '(e, u) ← serverRealStart_round expat i u;
  q ← enqueue e q;
  mret (option_list e, u, q).

Definition udp_frontend : Frontend udp udp_input :=
  {| serve := udp_serve; serving u := srv_ok u /\ bytes (data_buffer u); input := input_bytes |}.

Lemma udp_laws : FrontendLaws udp udp_input (F := udp_frontend).
Proof.
  intros i u q l es u' q' [Hu Hb] Hi Hq H. cbn [serve udp_frontend serving] in *. unfold udp_serve in H.
  apply bind_ok in H as ([e v] & Hr & H). apply bind_ok in H as (q1 & Hq1 & [= <- <- <-]).
  pose proof (round_keeps expat i _ Hu) as Hk. rewrite Hr in Hk. cbn in Hk.
  destruct (round_typed expat i _ _ _ Hb Hi Hr) as [Hb' He].
  destruct (enqueue_rep e _ _ Hq) as (q2 & Hq2 & Hrep). rewrite Hq1 in Hq2. injection Hq2 as <-.
  split; [by split|]. split; [done|]. destruct e; [apply Forall_singleton; by apply He|constructor].
Qed.

(** The program of [Peepd] is this one with the UDP server. *)
Definition turn_of (a : Peepd.action) : turn udp_input :=
  match a with Receive i => Front i | EngineRound => EngineTurn | MixerRound => MixerTurn end.

Definition of_system (s : system) : peepd udp :=
  {| y_queue := s_queue s; y_world := s_world s; y_front := s_udp s |}.

Lemma round_is_turn {E : Env} a s :
  (r ← take_turn (F := udp_frontend) (turn_of a) (of_system s); mret r.2) =
  (s' ← Peepd.round expat a s; mret (of_system s')).
Proof.
  destruct a as [i| |]; cbn [turn_of take_turn Peepd.round serve udp_frontend of_system y_queue y_world y_front].
  - unfold udp_serve. destruct (serverRealStart_round expat i (s_udp s)) as [[e u]| |]; [|done..].
    cbn [mbind res_bind]. by destruct (enqueue e (s_queue s)).
  - destruct (EngineQueue.engineDequeue (s_queue s)) as [[e q]| |]; [|done..]. cbn [mbind res_bind].
    by destruct (engineLoop_body e (s_world s)) as [[o w]| |].
  - by destruct (mixer (s_world s)) as [[o w]| |].
Qed.
End Udp.

(** ** The TCP server *)

Section Tcp.
Context (expat : string -> list xml_call) (junk : list Z).

Definition tcp_serve (a : Connections.action) (f : server * list thread) (q : EngineQueue.state)
  : res (list EVENT * (server * list thread) * EngineQueue.state) :=
  '(es, s) ← tcp_round expat junk a {| queue := q; tcp_srv := f.1; threads := f.2 |};
  mret (es, (tcp_srv s, threads s), queue s).

(** The bytes that a servlet has yet to read are bytes. *)
Definition reading (t : thread) : Prop := forall h c, th_now t = Some (h, c) -> conn_bytes c.

Definition connecting (a : Connections.action) : Prop :=
  match a with
  | Poll p => forall i c, p_conn p = Some i -> in_conn i = Some c -> conn_bytes c
  | Servlet _ => True
  end.

Definition tcp_frontend : Frontend (server * list thread) Connections.action :=
  {| serve := tcp_serve; serving f := Forall reading f.2; input := connecting |}.

Lemma tcp_laws : FrontendLaws (server * list thread) Connections.action (F := tcp_frontend).
Proof.
  intros a [sv ths] q l es [sv' ths'] q' Hf Ha Hq H. cbn [serve tcp_frontend serving fst snd] in *.
  unfold tcp_serve in H. apply bind_ok in H as ([es1 s] & H & [= <- <- <- <-]). destruct a as [p|i].
  - cbn [tcp_round] in H. apply bind_ok in H as (s1 & Hp & [= <- <-]). unfold tcp_serverRealStart_round in Hp.
    apply bind_ok in Hp as (sv1 & _ & [= <-]). cbn [queue threads fst snd]. rewrite app_nil_r.
    split; [|split; [done|constructor]]. apply Forall_app. split; [done|].
    destruct (p_conn p) as [c|] eqn:Ec; cbn; [|constructor]. apply Forall_singleton.
    intros h k [= _ <-]. destruct (in_conn c) as [x|] eqn:Ex; [by eapply Ha|]. by apply Forall_singleton.
  - cbn [tcp_round] in H. unfold servlet_step in H. cbn [threads fst snd] in H.
    destruct (ths !! i) as [t|] eqn:Ht; [|done]. destruct (th_now t) as [[h c]|] eqn:Hn; [|done].
    apply bind_ok in H as ([e v] & Hr & H). apply bind_ok in H as (q1 & Hq1 & [= <- <-]).
    pose proof (Forall_lookup_1 _ _ _ _ Hf Ht) as Hc. specialize (Hc h c Hn).
    apply servlet_round_typed in Hr as [He Hv]; [|done]. cbn [queue threads] in *.
    destruct (enqueue_rep e _ _ Hq) as (q2 & Hq2 & Hrep). rewrite Hq1 in Hq2. injection Hq2 as <-.
    split; [|split; [done|destruct e; [apply Forall_singleton; by apply He|constructor]]].
    apply Forall_insert; [done|]. intros h' c'. unfold advance. cbn [th_now].
    destruct v as [v|]; cbn; [|done]. intros [= <- <-]. by apply Hv.
Qed.
End Tcp.

(** ** The SSL server

    The accept loop and the servlets of [ssl_server.c]; OpenSSL is a parameter
    as in [SslServer], with [ssl_new] for the object that is set on a
    connection. What [malloc] finds for the buffer of a round is part of the
    input. *)

Section Ssl.
Context {C : Type} (SSL_read : Z -> C -> Z * list Z * C) (ssl_new : conn -> C).
Context (expat : string -> list xml_call) (junk : list Z).
Context (size : C -> nat).
Hypothesis SSL_read_length : forall n c k bytes c',
  SSL_read n c = (k, bytes, c') -> 0 <= k -> k = Z.of_nat (List.length bytes).
Hypothesis SSL_read_size : forall n c k bytes c',
  SSL_read n c = (k, bytes, c') -> (size c' <= size c)%nat /\ (0 < k -> (size c' < size c)%nat).
Hypothesis expat_empty : expat "" = [].

(** A servlet, as [thread]; what it has in [msg] and its connection. *)
Record ssl_thread : Type := { sh_host : Z; sh_port : Z; sh_now : option (HEADER * body_ptr * C) }.

Definition ssl_thread_of (t : thread) : ssl_thread :=
  {| sh_host := th_host t; sh_port := th_port t;
     sh_now := Some (th_uninit t, BUninit, ssl_new (th_input t)) |}.

(** A round of the accept loop, with the result of the handshake, or of a
    servlet. *)
Inductive ssl_action : Type := SslPoll (shake : bool) (p : poll) | SslServlet (i : nat) (buffer : list Z).

Definition ssl_serve (a : ssl_action) (f : server * list ssl_thread) (q : EngineQueue.state)
  : res (list EVENT * (server * list ssl_thread) * EngineQueue.state) :=
  match a with
  | SslPoll shake p =>
      s ← ssl_serverRealStart_round shake p {| queue := q; tcp_srv := f.1; threads := [] |};
      mret ([], (tcp_srv s, f.2 ++ (ssl_thread_of <$> threads s)), queue s)
  | SslServlet i buffer =>
      match f.2 !! i with
      | None => Fault Blocked
      | Some t =>
          match sh_now t with
          | None => Fault Blocked
          | Some (h, b, c) =>
              '(e, v) ← ssl_round SSL_read expat junk (sh_host t) (sh_port t) buffer (ssl_put h b c f.1);
              q ← enqueue e q;
              let t := {| sh_host := sh_host t; sh_port := sh_port t;
                          sh_now := (fun v => (s_header v, s_body v, s_conn v)) <$> v |} in
              mret (option_list e, (match v with Some v => s_srv v | None => f.1 end, <[i := t]> f.2), q)
          end
      end
  end.

(** What [msg.body] can be between two packets. *)
Definition sound_body (t : ssl_thread) : Prop := forall h b c, sh_now t = Some (h, b, c) -> body_ok b.

Definition ssl_frontend : Frontend (server * list ssl_thread) ssl_action :=
  {| serve := ssl_serve; serving f := Forall sound_body f.2; input _ := True |}.

Lemma ssl_serve_nothing a f q es f' q' :
  Forall sound_body f.2 -> ssl_serve a f q = Ok (es, f', q') -> es = [] /\ q' = q /\ Forall sound_body f'.2.
Proof.
  intros Hf H. destruct f as [sv ths]. cbn [fst snd] in *. destruct a as [shake p|i buffer]; cbn [ssl_serve fst snd] in H.
  - apply bind_ok in H as (s & Hp & [= <- <- <-]). unfold ssl_serverRealStart_round in Hp.
    apply bind_ok in Hp as (sv1 & _ & [= <-]). cbn [queue threads snd]. split; [done|]. split; [done|].
    apply Forall_app. split; [done|]. apply Forall_fmap, Forall_true. intros t h b c [= _ <- _]. by left.
  - destruct (ths !! i) as [t|] eqn:Ht; [|done]. destruct (sh_now t) as [[[h b] c]|] eqn:Hn; [|done].
    apply bind_ok in H as ([e v] & Hr & H). apply bind_ok in H as (q1 & Hq1 & [= <- <- <-]).
    pose proof (Forall_lookup_1 _ _ _ _ Hf Ht _ _ _ Hn) as Hb.
    apply (ssl_round_quiet SSL_read expat junk (sh_host t) (sh_port t) size SSL_read_length SSL_read_size
      expat_empty) in Hr as [-> Hv]; [|exact Hb].
    injection Hq1 as <-. split; [done|]. split; [done|]. cbn [snd]. apply Forall_insert; [done|].
    intros h' b' c'. cbn [sh_now]. destruct v as [v|]; [|done]. intros [= <- <- <-]. apply Hv.
Qed.

Lemma ssl_laws : FrontendLaws (server * list ssl_thread) ssl_action (F := ssl_frontend).
Proof.
  intros a f q l es f' q' Hf _ Hq H.
  destruct (ssl_serve_nothing a f q es f' q' Hf H) as (-> & -> & Hf'). split; [done|].
  by rewrite app_nil_r.
Qed.

(** A program with the SSL server only plays what was in its queues. *)
Lemma ssl_turns_enqueue_nothing {E : Env} (acts : list (turn ssl_action)) : forall y es y',
  Forall sound_body (y_front y).2 -> take_turns (F := ssl_frontend) acts y = Ok (es, y') -> es = [].
Proof.
  induction acts as [|a acts IH]; intros y es y' Hf H; cbn [take_turns] in H; [by injection H as <- _|].
  apply bind_ok in H as ([es1 y1] & H1 & H). apply bind_ok in H as ([es2 y2] & H2 & [= <- <-]).
  assert (es1 = [] /\ Forall sound_body (y_front y1).2) as [-> Hf1].
  { destruct a as [i| |]; cbn [take_turn] in H1.
    - apply bind_ok in H1 as ([[es s] q] & Hs & [= <- <-]).
      by destruct (ssl_serve_nothing _ _ _ _ _ _ Hf Hs) as (-> & _ & ?).
    - apply bind_ok in H1 as ([e q] & _ & H1). by apply bind_ok in H1 as ([o w] & _ & [= <- <-]).
    - by apply bind_ok in H1 as ([o w] & _ & [= <- <-]). }
  by apply (IH y1 es2 y2).
Qed.
End Ssl.

(** ** Witness

    The TCP server: an event waits, a client connects and sends two more, its
    servlet reads the first one, the engine takes one and a chunk is mixed. *)

Definition demo_peepd : peepd (server * list thread) :=
  {| y_queue := demo_queue true; y_world := demo_mix; y_front := (blank_server, []) |}.

Definition demo_turns : list (turn Connections.action) :=
  [Front (Poll demo_poll); Front (Servlet 0); EngineTurn; MixerTurn].

#[local] Notation tcp := (tcp_frontend no_events []).

Lemma demo_turns_run : exists y,
  take_turns (E := still_env) (F := tcp) demo_turns demo_peepd = Ok ([demo_ring], y).
Proof.
  assert (match take_turns (E := still_env) (F := tcp) demo_turns demo_peepd with
          | Ok (es, _) => bool_decide (es = [demo_ring]) | _ => false end = true) as H by (vm_compute; reflexivity).
  destruct (take_turns demo_turns demo_peepd) as [[es y]| |]; [|done|done].
  apply bool_decide_eq_true in H as ->. by exists y.
Qed.

Lemma demo_turns_ok : Forall (turn_ok (F := tcp)) demo_turns.
Proof.
  apply Forall_cons. split; [|apply Forall_cons; split; [exact I|by repeat constructor]].
  intros i c [= <-] [= <-]. apply Forall_singleton. intros x [= <-]. apply is_bytes_bytes. vm_compute. reflexivity.
Qed.

Lemma events_conserved_witness : exists y l ws gone,
  take_turns (E := still_env) (F := tcp) demo_turns demo_peepd = Ok ([demo_ring], y) /\
  peepd_at (E := still_env) (F := tcp) y l ws /\ List.length l = 1%nat /\
  [demo_ring; demo_ring] ≡ₚ l ++ (event <$> ws) ++ gone.
Proof.
  destruct demo_turns_run as [y Hy].
  destruct (events_conserved (E := still_env) (L := still_laws) (F := tcp) (FL := tcp_laws no_events [])
    demo_turns demo_peepd y [demo_ring] [demo_ring] []) as (l & ws & gone & H1 & _ & H2 & H3 & _).
  - split; [exact (system_shared _ _ _ (demo_at true))|constructor].
  - exact demo_turns_ok.
  - exact Hy.
  - exists y, l, ws, gone. split; [exact Hy|]. split; [exact H1|]. split; [cbn in H3; lia|exact H2].
Defined.
