(* ===== verification/Parser.v ===== *)
(** * The configuration parser ([parser.c])

    A file is the text that is left to read. A token is the string a pointer
    into the line buffer points to, a remainder the string behind the token;
    the null pointer is [None]. Hosts, directories and files are parameters. *)

From stdpp Require Import base list strings sorting.
From Stdlib Require Import ZArith Lia Ascii String.
From S2P Require Import Prelude Events CString SoundTable Wire Server.
Import SoundTable.
Local Open Scope Z_scope.
Local Open Scope list_scope.

Definition PARSER_SUCCESS : Z := 1.
Definition PARSER_FAILURE : Z := -1.
Definition PARSER_ALREADY_ALLOC : Z := -8.
Definition PARSER_BUFFER_LEN : nat := 1024.
Definition PARSER_COMMENT : ascii := "#".
Definition PARSER_PATH_SEP : ascii := "/".

(** The static variables. *)
Record parser : Type := {
  sound_path : option string;
  event_cnt : Z;
  state_cnt : Z;
  import_stack : option (list string)
}.

Definition with_sound_path (p : parser) s :=
  {| sound_path := s; event_cnt := event_cnt p; state_cnt := state_cnt p;
     import_stack := import_stack p |}.
Definition with_event_cnt (p : parser) n :=
  {| sound_path := sound_path p; event_cnt := n; state_cnt := state_cnt p;
     import_stack := import_stack p |}.
Definition with_import_stack (p : parser) l :=
  {| sound_path := sound_path p; event_cnt := event_cnt p; state_cnt := state_cnt p;
     import_stack := l |}.

(** ** Tokens *)

Record tok : Type := { token : string; remainder : option string }.

(** The loop of [parserTokenize] from the start of a token. *)
Fixpoint split_token (p : string) : tok :=
  match p with
  | EmptyString => {| token := ""; remainder := None |}
  | String c q =>
      if isspace c then {| token := ""; remainder := Some (skip_space q) |}
      else let t := split_token q in
           {| token := String c (token t); remainder := remainder t |}
  end.

Definition parserTokenize (rem : option string) : res tok :=
  match rem with
  | None => Fault NullDeref
  | Some s => mret (split_token (skip_space s))
  end.

(** [fgets (buffer, n + 1, f)]: a line, or the first [n] characters of it. *)
Fixpoint fgets_chars (n : nat) (f : string) : string * string :=
  match n, f with
  | O, _ => ("", f)
  | _, EmptyString => ("", "")
  | S n, String c f =>
      if bool_decide (c = "010"%char) then (String c "", f)
      else let (l, f) := fgets_chars n f in (String c l, f)
  end.

Definition fgets (f : string) : option (string * string) :=
  match f with
  | EmptyString => None
  | _ => Some (fgets_chars (PARSER_BUFFER_LEN - 1) f)
  end.

(** [s[0] == PARSER_COMMENT] *)
Definition is_comment (s : string) : bool :=
  match s with String c _ => bool_decide (c = PARSER_COMMENT) | EmptyString => false end.

(** ** Paths *)

(** The text before the last separator. *)
Fixpoint parserDirname (path : string) : option string :=
  match path with
  | EmptyString => None
  | String c path =>
      match parserDirname path with
      | Some d => Some (String c d)
      | None => if bool_decide (c = PARSER_PATH_SEP) then Some "" else None
      end
  end.

Definition parserImportStackAdd (dir : string) (p : parser) : Z * parser :=
  let l := default [] (import_stack p) in
  if existsb (ci_eq dir) l then (PARSER_ALREADY_ALLOC, with_import_stack p (Some l))
  else (PARSER_SUCCESS, with_import_stack p (Some (l ++ [dir]))).

Definition parserInit (p : parser) : parser :=
  match import_stack p with
  | None => (parserImportStackAdd "./" p).2
  | Some _ => p
  end.

(** ** What is outside *)

(** [h_addr_list] has the addresses of the entries, as the code compares those. *)
Record hostent : Type := {
  h_name : string;
  h_aliases : list string;
  h_addr_list : list Z
}.

(** [strcmp (d2, d1)] is the comparison: the order is descending. *)
Definition name_ge (a b : string) : Prop := String.leb b a = true.
#[export] Instance name_ge_dec a b : Decision (name_ge a b).
Proof. unfold name_ge. apply _. Defined.

Section Outside.
Context (gethostname : option string) (gethostbyname : string -> option hostent)
        (inet_aton : string -> option Z).
(** The names [readdir] lists, and the bytes of a file. *)
Context (readdir : string -> option (list string)) (contents : string -> option (list Z)).
(** [PACKAGE_VERSION] of [config.h]. *)
Context (PACKAGE_VERSION : string).

(** The first directory of the import stack in which [fopen] finds the file;
    the stack is a null-terminated array, which must have been allocated. *)
Fixpoint import_loop (dirs : list string) (file : string) : option (list Z) :=
  match dirs with
  | [] => None
  | d :: dirs =>
      match contents (d +:+ String PARSER_PATH_SEP file) with
      | Some f => Some f
      | None => import_loop dirs file
      end
  end.

Definition parserImportConfig (file : string) (p : parser) : res (option (list Z)) :=
  match import_stack p with
  | None => Fault NullDeref
  | Some dirs => mret (import_loop dirs file)
  end.

(** The address in [host] is compared with the pointers of the list. *)
Definition parserIsMyClass (host : string) : bool :=
  match gethostname with
  | None => false
  | Some localhost =>
      match gethostbyname localhost with
      | None => false
      | Some entry =>
          ci_eq (h_name entry) host
          || existsb (fun a => ci_eq a host) (h_aliases entry)
          || existsb (fun p => match inet_aton host with Some ip => ip =? p | None => false end)
               (h_addr_list entry)
      end
  end.

(** ** The [general] section *)

(** [strtok (s, ".")]: the token, and what [s] is afterwards. *)
Fixpoint skip_dots (s : string) : string * string :=
  match s with
  | String c s' => if bool_decide (c = "."%char)
                   then let (d, r) := skip_dots s' in (String c d, r) else ("", s)
  | EmptyString => ("", "")
  end.
Fixpoint to_dot (s : string) : string :=
  match s with
  | String c s => if bool_decide (c = "."%char) then "" else String c (to_dot s)
  | EmptyString => ""
  end.
Definition strtok_dot (s : string) : option string * string :=
  let (d, r) := skip_dots s in
  match r with
  | EmptyString => (None, s)
  | _ => (Some (to_dot r), d +:+ to_dot r)
  end.

Definition atoi_ptr (s : option string) : res Z :=
  match s with None => Fault NullDeref | Some s => mret (atoi s) end.

(** The numbers read from [s] by two calls of [strtok], each of which starts
    at [s] again, and from [s] itself. *)
Definition version_numbers (s : string) : res (Z * Z * Z) :=
  let (a, s) := strtok_dot s in
  major ← atoi_ptr a;
  let (b, s) := strtok_dot s in
  minor ← atoi_ptr b;
  mret (major, minor, atoi s).

(** [strncpy] of five bytes into [char version[5]], which is then ended by a
    null at index 5. *)
Definition own_version : res string :=
  v ← wr (take 5 (bytes_of PACKAGE_VERSION ++ replicate 5 0)) 5 0;
  mret (c_string v).

Definition check_version (s : string) : res bool :=
  '(config_major, config_minor, config_release) ← version_numbers s;
  v ← own_version;
  '(major, minor, release) ← version_numbers v;
  mret (negb ((major <? config_major) || (minor <? config_minor) || (release <? config_release))).

(** What [if (!strcasecmp (tok.token, w))] guards: [None] when the function
    goes on. *)
Definition general_line (t : tok) (p : parser) : res (option Z * parser) :=
  '(ok, t) ← (if ci_eq (token t) "version" then
                t ← parserTokenize (remainder t);
                ok ← check_version (token t); mret (ok, t)
              else mret (true, t));
  if negb (ok : bool) then mret (Some PARSER_FAILURE, p) else
  '(t, p) ← (if ci_eq (token t) "sound-path" then
               t ← parserTokenize (remainder t);
               (* the character that is compared with '/' is the null *)
               mret (t, with_sound_path p (Some (token t +:+ "/")))
             else mret (t, p));
  if ci_eq (token t) "end" then
    t ← parserTokenize (remainder t);
    mret (if ci_eq (token t) "general" then Some PARSER_SUCCESS else None, p)
  else mret (None, p).

Fixpoint general_loop (fuel : nat) (f : string) (p : parser) : res (Z * string * parser) :=
  match fuel with
  | O => NoFuel
  | S fuel =>
      match fgets f with
      | None => mret (PARSER_FAILURE, f, p)
      | Some (buffer, f) =>
          t ← parserTokenize (Some buffer);
          '(r, p) ← general_line t p;
          match r with
          | Some r => mret (r, f, p)
          | None => general_loop fuel f p
          end
      end
  end.

Definition parserParseGeneral (f : string) (p : parser) : res (Z * string * parser) :=
  general_loop (S (String.length f)) f p.

(** ** A [class] section *)

Fixpoint port_loop (fuel : nat) (t : tok) (s : server) : res (tok * server) :=
  match fuel with
  | O => NoFuel
  | S fuel =>
      t ← parserTokenize (remainder t);
      if is_comment (token t) then port_loop fuel t s
      else match remainder t with
           | None => mret (t, s)
           | Some _ => port_loop fuel t (serverAddBroadcastPort true (atoi (token t)) s).2
           end
  end.

(** A token up to its first colon, which is replaced by a null. *)
Fixpoint to_colon (s : string) : string :=
  match s with
  | String c s => if bool_decide (c = ":"%char) then "" else String c (to_colon s)
  | EmptyString => ""
  end.

(** The scan of a token for colons; [p] is the host once one was found. *)
Fixpoint colon_loop (class p q : string) (s : server) : server :=
  match q with
  | EmptyString => s
  | String c q =>
      if bool_decide (c = ":"%char) && parserIsMyClass p
      then serverSetPort (atoi q) (serverAddIDClass true class s).2
      else colon_loop class p q s
  end.

Fixpoint server_loop (fuel : nat) (class : string) (t : tok) (s : server) : res (tok * server) :=
  match fuel with
  | O => NoFuel
  | S fuel =>
      t ← parserTokenize (remainder t);
      let s := colon_loop class (to_colon (token t)) (token t) s in
      match remainder t with
      | None => mret ({| token := to_colon (token t); remainder := None |}, s)
      | Some _ => server_loop fuel class t s
      end
  end.

(** Enough for the tokens of what is left of a line. *)
Definition line_fuel (t : tok) : nat :=
  S (S (match remainder t with Some s => String.length s | None => O end)).

Definition class_line (class : string) (t : tok) (s : server) : res (option Z * server) :=
  if is_comment (token t) then mret (None, s) else
  '(t, s) ← (if ci_eq (token t) "port" then port_loop (line_fuel t) t s else mret (t, s));
  '(t, s) ← (if ci_eq (token t) "server" then server_loop (line_fuel t) class t s
             else mret (t, s));
  if ci_eq (token t) "end" then
    t ← parserTokenize (remainder t);
    mret (if ci_eq (token t) "class" then Some PARSER_SUCCESS else None, s)
  else mret (None, s).

Fixpoint class_loop (fuel : nat) (class f : string) (s : server) : res (Z * string * server) :=
  match fuel with
  | O => NoFuel
  | S fuel =>
      match fgets f with
      | None => mret (PARSER_FAILURE, f, s)
      | Some (buffer, f) =>
          t ← parserTokenize (Some buffer);
          '(r, s) ← class_line class t s;
          match r with
          | Some r => mret (r, f, s)
          | None => class_loop fuel class f s
          end
      end
  end.

Definition parserParseClass (class f : string) (s : server) : res (Z * string * server) :=
  class_loop (S (String.length f)) class f s.

(** ** Sounds *)

(** Pairs of bytes as 16-bit samples. *)
Fixpoint shorts (l : list Z) : list Z :=
  match l with
  | a :: b :: l => i16 (a + 256 * b) :: shorts l
  | _ => []
  end.

Definition parserGetFileSize (path : string) : Z :=
  match contents path with Some l => i32 (Z.of_nat (List.length l)) | None => -1 end.

(** The samples and their number. *)
Definition parserLoadSoundFile (path : string) : option (list Z * Z) :=
  match contents path with
  | None => None
  | Some l => Some (shorts l, parserGetFileSize path `quot` 2)
  end.

Definition parserScanDir (dir : string) : option (list string) :=
  merge_sort name_ge <$> readdir dir.

(** The loop over the files, from the last to the first. *)
Fixpoint load_loop (names : list string) (snd_path : string) (index : Z) (entry : option EVENT_ENTRY)
  : res (bool * option EVENT_ENTRY) :=
  match names with
  | [] => mret (true, entry)
  | n :: names =>
      if ci_eq n ".." || ci_eq n "." then load_loop names snd_path index entry
      else match parserLoadSoundFile (snd_path +:+ "/" +:+ n) with
           | None => mret (false, entry)
           | Some (sound, length) =>
               '(_, entry) ← engineEventEntryAssignSnd index (Some sound) length entry;
               load_loop names snd_path (index + 1) entry
           end
  end.

(** Two entries of a directory are itself and its parent. [None] is not
    reached, as the allocation of the entry succeeds. *)
Definition parserLoadEventSndDir (name : string) (snd_path : string) (p : parser) (t : table)
  : res (Z * parser * table) :=
  match parserScanDir snd_path with
  | None => mret (0, p, t)
  | Some namelist =>
      let snd_cnt := Z.of_nat (List.length namelist) in
      let entry := engineAllocEventEntry true (snd_cnt - 2) in
      '(ok, entry) ← load_loop (rev namelist) snd_path 0 entry;
      if negb (ok : bool) then mret (0, p, t) else
      match entry with
      | None => Fault NullDeref
      | Some e =>
          '(_, t) ← engineSoundTableInsertEvent (Some name) e t;
          mret (PARSER_SUCCESS, with_event_cnt p (i32 (event_cnt p + 1)), t)
      end
  end.

(** ** An [event] section *)

Record event_vars : Type := { v_name : option string; v_snd_path : option string }.

(** The path of the sounds; it needs a [sound-path] before. *)
Definition full_path (p : parser) (s : string) : res string :=
  match sound_path p with None => Fault NullDeref | Some d => mret (d +:+ s) end.

Definition event_line (t : tok) (v : event_vars) (p : parser) (tb : table)
  : res (option Z * event_vars * parser * table) :=
  if is_comment (token t) then mret (None, v, p, tb) else
  '(t, v) ← (if ci_eq (token t) "name" then
               t ← parserTokenize (remainder t);
               mret (t, {| v_name := Some (token t); v_snd_path := v_snd_path v |})
             else mret (t, v));
  '(t, v) ← (if ci_eq (token t) "path" then
               t ← parserTokenize (remainder t);
               d ← full_path p (token t);
               mret (t, {| v_name := v_name v; v_snd_path := Some d |})
             else mret (t, v));
  if ci_eq (token t) "end" then
    t ← parserTokenize (remainder t);
    if ci_eq (token t) "event" then
      match v_name v, v_snd_path v with
      | Some name, Some snd_path =>
          '(r, p, tb) ← parserLoadEventSndDir name snd_path p tb;
          mret (Some (if r =? 0 then PARSER_FAILURE else PARSER_SUCCESS), v, p, tb)
      | _, _ => mret (Some PARSER_FAILURE, v, p, tb)
      end
    else mret (None, v, p, tb)
  else mret (None, v, p, tb).

Fixpoint event_loop (fuel : nat) (f : string) (v : event_vars) (p : parser) (tb : table)
  : res (Z * string * parser * table) :=
  match fuel with
  | O => NoFuel
  | S fuel =>
      match fgets f with
      | None => mret (PARSER_FAILURE, f, p, tb)
      | Some (buffer, f) =>
          t ← parserTokenize (Some buffer);
          '(r, v, p, tb) ← event_line t v p tb;
          match r with
          | Some r => mret (r, f, p, tb)
          | None => event_loop fuel f v p tb
          end
      end
  end.

Definition parserParseEvent (f : string) (p : parser) (tb : table)
  : res (Z * string * parser * table) :=
  event_loop (S (String.length f)) f {| v_name := None; v_snd_path := None |} p tb.

End Outside.

(** ** Facts about tokens *)

(** The words of a text: what is between its blanks. *)
Fixpoint words (s : string) : list string :=
  match s with
  | EmptyString => []
  | String c s' =>
      if isspace c then words s'
      else match s' with
           | EmptyString => [String c ""]
           | String d _ =>
               if isspace d then String c "" :: words s'
               else match words s' with
                    | w :: ws => String c w :: ws
                    | [] => [String c ""]
                    end
           end
  end.

(** The text is empty or ends in a blank. *)
Fixpoint blank_end (s : string) : bool :=
  match s with
  | EmptyString => true
  | String c EmptyString => isspace c
  | String _ s => blank_end s
  end.

Lemma words_skip s : words (skip_space s) = words s.
Proof. induction s as [|c s IH]; [done|]. simpl. by destruct (isspace c) eqn:E; [|simpl; rewrite E]. Qed.

Lemma blank_end_skip s : blank_end (skip_space s) = blank_end s.
Proof.
  induction s as [|c s IH]; [done|]. cbn [skip_space]. destruct (isspace c) eqn:E; [|done].
  rewrite IH. destruct s; [simpl; by rewrite E|done].
Qed.

Lemma skip_space_length s : (String.length (skip_space s) <= String.length s)%nat.
Proof. induction s as [|c s IH]; simpl; [lia|]. destruct (isspace c); simpl; lia. Qed.

Lemma skip_space_idem s : skip_space (skip_space s) = skip_space s.
Proof. induction s as [|c s IH]; [done|]. simpl. by destruct (isspace c) eqn:E; [|simpl; rewrite E]. Qed.

(** A token that starts at a character that is not blank. *)
Lemma split_token_spec c s :
  isspace c = false ->
  let t := split_token (String c s) in
  match remainder t with
  | None => words (String c s) = [token t] /\ blank_end (String c s) = false
  | Some r => words (String c s) = token t :: words r /\ blank_end (String c s) = blank_end r /\
              (String.length r < String.length (String c s))%nat
  end.
Proof.
  revert c. induction s as [|d s IH]; intros c Hc; cbv zeta.
  { simpl. rewrite Hc. done. }
  destruct (isspace d) eqn:Hd.
  - cbn [split_token]. rewrite Hc, Hd. cbn [token remainder].
    cbn [words]. rewrite Hc, Hd. rewrite words_skip, blank_end_skip. split; [done|]. split.
    + cbn [blank_end]. destruct s; [by rewrite Hd|done].
    + pose proof (skip_space_length s). simpl. lia.
  - specialize (IH d Hd). cbv zeta in IH.
    assert (Ht : split_token (String c (String d s)) =
      {| token := String c (token (split_token (String d s)));
         remainder := remainder (split_token (String d s)) |}).
    { change (split_token (String c (String d s))) with
        (if isspace c then {| token := ""; remainder := Some (skip_space (String d s)) |}
         else {| token := String c (token (split_token (String d s)));
                 remainder := remainder (split_token (String d s)) |}). by rewrite Hc. }
    rewrite Ht. cbn [token remainder].
    assert (Hw : words (String c (String d s)) =
      match words (String d s) with w :: ws => String c w :: ws | [] => [String c ""] end).
    { change (words (String c (String d s))) with
        (if isspace c then words (String d s) else if isspace d then String c "" :: words (String d s)
         else match words (String d s) with w :: ws => String c w :: ws | [] => [String c ""] end).
      by rewrite Hc, Hd. }
    rewrite Hw. change (blank_end (String c (String d s))) with (blank_end (String d s)).
    destruct (remainder (split_token (String d s))) as [r|].
    + destruct IH as (-> & -> & Hl). split_and!; try done. simpl in *. lia.
    + by destruct IH as (-> & ->).
Qed.

(** The next token of a text that ends in a blank. *)
Lemma tokenize_blank s :
  blank_end s = true ->
  match words s with
  | [] => parserTokenize (Some s) = Ok {| token := ""; remainder := None |}
  | w :: ws => exists r, parserTokenize (Some s) = Ok {| token := w; remainder := Some r |} /\
                 words r = ws /\ blank_end r = true /\ (String.length r < String.length s)%nat
  end.
Proof.
  intros Hb. unfold parserTokenize. rewrite <- (words_skip s), <- (blank_end_skip s) in *.
  pose proof (skip_space_length s) as Hl. pose proof (skip_space_idem s) as Hi.
  destruct (skip_space s) as [|c p]; [done|].
  assert (Hc : isspace c = false).
  { destruct (isspace c) eqn:E; [|done]. simpl in Hi. rewrite E in Hi.
    apply (f_equal String.length) in Hi. pose proof (skip_space_length p). simpl in Hi. lia. }
  pose proof (split_token_spec c p Hc) as H. cbv zeta in H.
  destruct (split_token (String c p)) as [w [r|]]; cbn [token remainder] in H.
  - destruct H as (-> & Hbr & Hlr). exists r. split_and!; [done|done|congruence|lia].
  - destruct H as [_ H]. congruence.
Qed.

(** All the tokens of a text, until the remainder is null. *)
Fixpoint tokenize_all (fuel : nat) (rem : option string) : res (list string) :=
  match fuel with
  | O => NoFuel
  | S fuel =>
      match rem with
      | None => mret []
      | Some _ =>
          t ← parserTokenize rem;
          l ← tokenize_all fuel (remainder t);
          mret (token t :: l)
      end
  end.

(** The tokens are the words, and an empty one if the text is empty or ends in
    a blank. *)
Lemma tokenize_all_words fuel s :
  (S (String.length s) < fuel)%nat ->
  tokenize_all fuel (Some s) = Ok (words s ++ (if blank_end s then [""] else [])).
Proof.
  revert s. induction fuel as [|fuel IH]; intros s Hf; [lia|]. cbn [tokenize_all].
  unfold parserTokenize. rewrite <- (words_skip s), <- (blank_end_skip s).
  pose proof (skip_space_length s) as Hl. pose proof (skip_space_idem s) as Hi.
  cbn [mbind res_bind mret res_ret]. destruct fuel as [|fuel]; [lia|].
  destruct (skip_space s) as [|c p]; [done|].
  assert (Hc : isspace c = false).
  { destruct (isspace c) eqn:E; [|done]. simpl in Hi. rewrite E in Hi.
    apply (f_equal String.length) in Hi. pose proof (skip_space_length p). simpl in Hi. lia. }
  pose proof (split_token_spec c p Hc) as H. cbv zeta in H.
  destruct (split_token (String c p)) as [w [r|]]; cbn [token remainder] in *.
  - destruct H as (-> & -> & Hlr). rewrite IH by lia. done.
  - destruct H as [-> ->]. done.
Qed.

(** ** Lines of a file *)

Fixpoint no_newline (s : string) : bool :=
  match s with
  | EmptyString => true
  | String c s => negb (bool_decide (c = "010"%char)) && no_newline s
  end.

(** A line that [fgets] reads whole. *)
Definition good_line (l : string) : Prop :=
  exists s, l = s +:+ String "010" "" /\ no_newline s = true /\
            (S (String.length s) < PARSER_BUFFER_LEN)%nat.

Lemma fgets_chars_line n s rest :
  no_newline s = true -> (String.length s < n)%nat ->
  fgets_chars n (s +:+ String "010" rest) = (s +:+ String "010" "", rest).
Proof.
  revert n. induction s as [|c s IH]; intros [|n] Hs Hn; simpl in Hn; try lia; [done|].
  rewrite string_app_cons. cbn [fgets_chars no_newline] in *.
  apply andb_true_iff in Hs as [Hc Hs]. destruct (bool_decide (c = "010"%char)); [done|].
  rewrite IH by (done || lia). by rewrite string_app_cons.
Qed.

Lemma fgets_line l rest : good_line l -> fgets (l +:+ rest) = Some (l, rest).
Proof.
  intros (s & -> & Hs & Hl). rewrite string_app_assoc. change (String "010" "" +:+ rest) with (String "010" rest).
  unfold fgets. pose proof (fgets_chars_line (PARSER_BUFFER_LEN - 1) s rest Hs) as H.
  destruct (s +:+ String "010" rest) eqn:E; [by destruct s|]. rewrite H; [done|].
  unfold PARSER_BUFFER_LEN in *. lia.
Qed.

Lemma blank_end_app s c : isspace c = true -> blank_end (s +:+ String c "") = true.
Proof.
  intros Hc. induction s as [|d s IH]; [done|]. rewrite string_app_cons. cbn [blank_end].
  destruct (s +:+ String c "") eqn:E; [by destruct s|done].
Qed.

Lemma good_line_blank l : good_line l -> blank_end l = true.
Proof. intros (s & -> & _). by apply blank_end_app. Qed.

Lemma good_line_length l : good_line l -> (0 < String.length l)%nat.
Proof. intros (s & -> & _). destruct s; simpl; lia. Qed.

Fixpoint concat_lines (ls : list string) : string :=
  match ls with [] => "" | l :: ls => l +:+ concat_lines ls end.

(** A line that ends a section with the keyword [w]. *)
Definition is_end (w l : string) : bool :=
  match words l with
  | a :: b :: _ => ci_eq a "end" && ci_eq b w
  | _ => false
  end.

(** ** The class section *)

Section ClassFacts.
Context (gethostname : option string) (gethostbyname : string -> option hostent)
        (inet_aton : string -> option Z).

Definition add_port (s : server) (w : string) : server :=
  if is_comment w then s else (serverAddBroadcastPort true (atoi w) s).2.

Definition add_server (class : string) (s : server) (w : string) : server :=
  colon_loop gethostname gethostbyname inet_aton class (to_colon w) w s.

(** What a line of a class section does to the server, in terms of its words. *)
Definition class_effect (class : string) (s : server) (l : string) : server :=
  match words l with
  | k :: args =>
      if ci_eq k "port" then fold_left add_port args s
      else if ci_eq k "server" then fold_left (add_server class) args s
      else s
  | [] => s
  end.

Lemma port_loop_spec fuel w r s :
  blank_end r = true -> (String.length r < fuel)%nat ->
  port_loop fuel {| token := w; remainder := Some r |} s =
  Ok ({| token := ""; remainder := None |}, fold_left add_port (words r) s).
Proof.
  revert w r s. induction fuel as [|fuel IH]; intros w r s Hb Hf; [lia|]. cbn [port_loop remainder].
  pose proof (tokenize_blank r Hb) as H. destruct (words r) as [|x ws].
  - rewrite H. done.
  - destruct H as (r' & -> & <- & Hb' & Hl). cbn [mbind res_bind token remainder fold_left].
    unfold add_port at 2. destruct (is_comment x); rewrite IH by (done || lia); done.
Qed.

Lemma server_loop_spec fuel class w r s :
  blank_end r = true -> (String.length r < fuel)%nat ->
  server_loop gethostname gethostbyname inet_aton fuel class {| token := w; remainder := Some r |} s =
  Ok ({| token := ""; remainder := None |}, fold_left (add_server class) (words r) s).
Proof.
  revert w r s. induction fuel as [|fuel IH]; intros w r s Hb Hf; [lia|]. cbn [server_loop remainder].
  pose proof (tokenize_blank r Hb) as H. destruct (words r) as [|x ws].
  - rewrite H. done.
  - destruct H as (r' & -> & <- & Hb' & Hl). cbn [mbind res_bind token remainder fold_left].
    rewrite IH by (done || lia). done.
Qed.

(** The character a comment starts with is no keyword's. *)
Lemma comment_keyword w k c k' :
  is_comment w = true -> k = String c k' -> bool_decide (tolower PARSER_COMMENT = tolower c) = false ->
  ci_eq w k = false.
Proof.
  intros Hw -> Hc. destruct w as [|d w]; [done|]. simpl in Hw. apply bool_decide_eq_true in Hw as ->.
  simpl. by rewrite Hc.
Qed.

Lemma class_line_spec class l s :
  good_line l ->
  exists t, parserTokenize (Some l) = Ok t /\
    class_line gethostname gethostbyname inet_aton class t s =
      Ok (if is_end "class" l then Some PARSER_SUCCESS else None, class_effect class s l).
Proof.
  intros Hl. apply good_line_blank in Hl. pose proof (tokenize_blank l Hl) as H.
  unfold is_end, class_effect. destruct (words l) as [|k args]; [by eexists|].
  destruct H as (r & -> & <- & Hb & _). eexists. split; [done|]. unfold class_line, line_fuel.
  cbn [token remainder].
  destruct (is_comment k) eqn:Ec.
  { rewrite !(comment_keyword k _ _ _ Ec eq_refl) by reflexivity. by destruct (words r). }
  destruct (ci_eq k "port") eqn:Ep.
  { rewrite port_loop_spec by (done || lia). cbn [mbind res_bind token].
    assert (ci_eq k "end" = false) as ->; [|by destruct (words r)].
    destruct (ci_eq k "end") eqn:E; [|done]. rewrite ci_eq_sym in E.
    by pose proof (ci_eq_trans _ _ _ E Ep). }
  cbn [mbind res_bind mret res_ret token remainder].
  destruct (ci_eq k "server") eqn:Es.
  { rewrite server_loop_spec by (done || lia). cbn [mbind res_bind token].
    assert (ci_eq k "end" = false) as ->; [|by destruct (words r)].
    destruct (ci_eq k "end") eqn:E; [|done]. rewrite ci_eq_sym in E.
    by pose proof (ci_eq_trans _ _ _ E Es). }
  cbn [mbind res_bind mret res_ret token remainder].
  destruct (ci_eq k "end"); [|by destruct (words r)].
  pose proof (tokenize_blank r Hb) as H. destruct (words r) as [|b ws].
  - rewrite H. done.
  - destruct H as (r' & -> & _). cbn [mbind res_bind token]. by destruct (ci_eq b "class").
Qed.

Lemma class_loop_spec class ls e rest s fuel :
  Forall good_line ls -> Forall (fun l => is_end "class" l = false) ls ->
  good_line e -> is_end "class" e = true ->
  (String.length (concat_lines ls +:+ e +:+ rest) < fuel)%nat ->
  class_loop gethostname gethostbyname inet_aton fuel class (concat_lines ls +:+ e +:+ rest) s =
  Ok (PARSER_SUCCESS, rest, class_effect class (fold_left (class_effect class) ls s) e).
Proof.
  intros Hls Hne He Hend. revert s fuel. induction Hls as [|l ls Hl Hls IH]; intros s fuel Hf.
  - destruct fuel as [|fuel]; [lia|]. cbn [class_loop].
    change (concat_lines [] +:+ e +:+ rest) with (e +:+ rest). rewrite fgets_line by done.
    destruct (class_line_spec class e s He) as (t & -> & Ht). cbn [mbind res_bind]. rewrite Ht, Hend.
    done.
  - apply Forall_cons in Hne as [Hn Hne]. destruct fuel as [|fuel]; [lia|]. cbn [class_loop concat_lines].
    rewrite string_app_assoc, fgets_line by done.
    destruct (class_line_spec class l s Hl) as (t & -> & Ht). cbn [mbind res_bind]. rewrite Ht, Hn.
    cbn [mbind res_bind fold_left]. apply IH; [done|]. cbn [concat_lines] in Hf.
    rewrite string_app_assoc, string_length_app in Hf. apply good_line_length in Hl. lia.
Qed.
End ClassFacts.

Lemma end_no_effect gh gn ia class s e :
  is_end "class" e = true -> class_effect gh gn ia class s e = s.
Proof.
  unfold is_end, class_effect. destruct (words e) as [|a [|b ws]]; [done|done|].
  intros [Ha _]%andb_true_iff. rewrite ci_eq_sym in Ha.
  destruct (ci_eq a "port") eqn:Ep; [by pose proof (ci_eq_trans _ _ _ Ha Ep)|].
  by destruct (ci_eq a "server") eqn:Es; [pose proof (ci_eq_trans _ _ _ Ha Es)|].
Qed.

(** ** Sounds *)

Section SoundFacts.
Context (readdir : string -> option (list string)) (contents : string -> option (list Z)).

(** The entries of a directory that are files. *)
Definition is_dots (n : string) : bool := ci_eq n ".." || ci_eq n ".".

Definition file_of (snd_path n : string) : string := snd_path +:+ "/" +:+ n.

(** The sounds of the files [names], which all can be read. *)
Fixpoint sounds (snd_path : string) (names : list string) : option (list (list Z * Z)) :=
  match names with
  | [] => Some []
  | n :: names =>
      match parserLoadSoundFile contents (file_of snd_path n), sounds snd_path names with
      | Some x, Some xs => Some (x :: xs)
      | _, _ => None
      end
  end.

Lemma take_insert_snoc {A} (l : list A) i x :
  (i < List.length l)%nat -> take (S i) (<[i := x]> l) = take i l ++ [x].
Proof.
  intros Hi. rewrite (take_S_r _ _ x) by (by apply list_lookup_insert_eq).
  by rewrite take_insert_ge by lia.
Qed.

Lemma load_loop_spec names snd_path done_snds done_lens xs k e :
  sounds snd_path (filter (fun n => is_dots n = false) names) = Some xs ->
  List.length (snds e) = (k + List.length xs)%nat -> List.length (lens e) = (k + List.length xs)%nat ->
  take k (snds e) = done_snds -> take k (lens e) = done_lens ->
  load_loop contents names snd_path (Z.of_nat k) (Some e) =
  Ok (true, Some {| snds := done_snds ++ ((fun x => Some x.1) <$> xs);
                    lens := done_lens ++ ((fun x => x.2) <$> xs); snd_cnt := snd_cnt e |}).
Proof.
  revert k e done_snds done_lens xs.
  induction names as [|n names IH]; intros k e ds dl xs Hx H1 H2 <- <-.
  - simpl in Hx. injection Hx as <-. simpl in *. rewrite !app_nil_r, !take_ge by lia.
    by destruct e.
  - cbn [load_loop]. change (ci_eq n ".." || ci_eq n ".") with (is_dots n).
    destruct (is_dots n) eqn:Ed.
    { rewrite filter_cons_False in Hx by congruence. by apply IH. }
    rewrite filter_cons_True in Hx by done. cbn [sounds] in Hx.
    change (snd_path +:+ "/" +:+ n) with (file_of snd_path n).
    destruct (parserLoadSoundFile contents (file_of snd_path n)) as [[snd len]|]; [|done].
    destruct (sounds snd_path _) as [xs'|] eqn:Es; [|done]. injection Hx as <-.
    simpl in H1, H2. unfold engineEventEntryAssignSnd.
    rewrite !wr_in_bounds by lia. cbn [mbind res_bind mret res_ret]. rewrite Nat2Z.id.
    replace (Z.of_nat k + 1) with (Z.of_nat (S k)) by lia.
    rewrite (IH (S k) _ (take k (snds e) ++ [Some snd]) (take k (lens e) ++ [len]) xs');
      cbn [snds lens snd_cnt]; rewrite ?length_insert; try done; try lia.
    + by rewrite <- !app_assoc.
    + by apply take_insert_snoc; lia.
    + by apply take_insert_snoc; lia.
Qed.

(** *** The order of the names *)

Lemma compare_trans s t u :
  String.compare s t <> Gt -> String.compare t u <> Gt -> String.compare s u <> Gt.
Proof.
  revert t u. induction s as [|a s IH]; intros [|b t] [|c u]; simpl; try done.
  unfold Ascii.compare.
  destruct (N.compare_spec (N_of_ascii a) (N_of_ascii b)) as [->|H1|H1]; try done; intros Hs.
  - destruct (N.compare (N_of_ascii b) (N_of_ascii c)); try done. by apply IH.
  - destruct (N.compare_spec (N_of_ascii b) (N_of_ascii c)) as [<-|H2|H2]; try done; intros Ht.
    + by destruct (N.compare_spec (N_of_ascii a) (N_of_ascii b)); try lia.
    + by destruct (N.compare_spec (N_of_ascii a) (N_of_ascii c)); try lia.
Qed.

Definition name_le (a b : string) : Prop := String.leb a b = true.

Lemma name_le_compare a b : name_le a b <-> String.compare a b <> Gt.
Proof. unfold name_le, String.leb. by destruct (String.compare a b). Qed.

#[local] Instance name_ge_total : Total name_ge.
Proof.
  intros a b. unfold name_ge, String.leb. rewrite (String.compare_antisym b a).
  destruct (String.compare a b); simpl; auto.
Qed.

#[local] Instance name_le_trans : Transitive name_le.
Proof. intros a b c. rewrite !name_le_compare. apply compare_trans. Qed.

Lemma sorted_filter (P : string -> Prop) `{!forall x, Decision (P x)} l :
  StronglySorted name_le l -> StronglySorted name_le (filter P l).
Proof.
  induction 1 as [|x l Hl IH Hx]; [constructor|]. destruct (decide (P x)).
  - rewrite filter_cons_True by done. constructor; [done|].
    rewrite Forall_forall in Hx |- *. intros y [_ Hy]%list_elem_of_filter. by apply Hx.
  - by rewrite filter_cons_False.
Qed.

(** The loop sees the names in ascending order. *)
Lemma scan_sorted ls : StronglySorted name_le (rev (merge_sort name_ge ls)).
Proof.
  apply Sorted_StronglySorted; [apply _|]. rewrite rev_alt. change (rev_append ?l []) with (reverse l).
  apply (Sorted_reverse name_ge). apply Sorted_merge_sort. apply _.
Qed.

Lemma sounds_total snd_path names :
  Forall (fun n => is_Some (contents (file_of snd_path n))) names ->
  exists xs, sounds snd_path names = Some xs /\ List.length xs = List.length names.
Proof.
  induction 1 as [|n names [l Hl] _ (xs & IH & Hxs)]; [by exists []|]. cbn [sounds].
  unfold parserLoadSoundFile. rewrite Hl, IH. eexists. split; [done|]. simpl. by rewrite Hxs.
Qed.

Lemma filter_files files :
  Forall (fun n => is_dots n = false) files -> filter (fun n => is_dots n = false) files = files.
Proof.
  induction 1 as [|n files Hn _ IH]; [done|]. rewrite filter_cons_True by done. by rewrite IH.
Qed.

(** The entry of an event with the sounds [xs]. *)
Definition entry_of (xs : list (list Z * Z)) : EVENT_ENTRY :=
  {| snds := (fun x => Some x.1) <$> xs; lens := (fun x => x.2) <$> xs;
     snd_cnt := u32 (Z.of_nat (List.length xs)) |}.

Lemma load_dir_spec name dir ls files p t :
  readdir dir = Some ls -> ls ≡ₚ ["."; ".."] ++ files ->
  Forall (fun n => is_dots n = false) files ->
  Forall (fun n => is_Some (contents (file_of dir n))) files ->
  exists names xs,
    names ≡ₚ files /\ StronglySorted name_le names /\ sounds dir names = Some xs /\
    List.length xs = List.length files /\
    parserLoadEventSndDir readdir contents name dir p t =
      ('(_, t) ← engineSoundTableInsertEvent (Some name) (entry_of xs) t;
       mret (PARSER_SUCCESS, with_event_cnt p (i32 (event_cnt p + 1)), t)).
Proof.
  intros Hd Hls Hf Hc. set (all := rev (merge_sort name_ge ls)).
  set (names := filter (fun n => is_dots n = false) all).
  assert (Hall : all ≡ₚ ["."; ".."] ++ files).
  { unfold all. rewrite <- Hls, <- (Permutation_rev (merge_sort _ _)). by apply merge_sort_Permutation. }
  assert (Hn : names ≡ₚ files).
  { unfold names. rewrite Hall, filter_app, (filter_files files Hf). reflexivity. }
  destruct (sounds_total dir names) as (xs & Hxs & Hl); [by rewrite Hn|].
  exists names, xs. split; [done|]. split; [apply sorted_filter, scan_sorted|]. split; [done|].
  split; [by rewrite Hl, Hn|].
  unfold parserLoadEventSndDir, parserScanDir. rewrite Hd. cbn [fmap option_fmap option_map].
  assert (Hlen : List.length (merge_sort name_ge ls) = (2 + List.length xs)%nat).
  { rewrite <- length_rev. change (List.length all = (2 + List.length xs)%nat).
    rewrite Hall, Hl, Hn. done. }
  rewrite Hlen. cbn zeta. replace (Z.of_nat (2 + List.length xs) - 2) with (Z.of_nat (List.length xs)) by lia.
  unfold engineAllocEventEntry. rewrite Nat2Z.id. fold all.
  rewrite (load_loop_spec all dir [] [] xs 0); cbn [snds lens]; rewrite ?length_replicate; try done.
Qed.
End SoundFacts.

Lemma dirname_none path : parserDirname path = None -> forall d base, path <> d +:+ String PARSER_PATH_SEP base.
Proof.
  induction path as [|c path IH]; cbn [parserDirname]; [by intros _ [|] ?|].
  destruct (parserDirname path); [done|]. destruct (bool_decide _) eqn:E; [done|].
  intros _ [|c' d] base H; rewrite ?string_app_cons in H.
  - change ("" +:+ ?x) with x in H. injection H as -> _. by rewrite bool_decide_true in E.
  - injection H as _ H. by apply IH in H.
Qed.

(** The directory of a path is what is before its last separator. *)
Lemma dirname_some path d :
  parserDirname path = Some d ->
  exists base, path = d +:+ String PARSER_PATH_SEP base /\ parserDirname base = None.
Proof.
  revert d. induction path as [|c path IH]; intros d; cbn [parserDirname]; [done|].
  destruct (parserDirname path) as [d'|] eqn:E.
  - intros [= <-]. destruct (IH d' eq_refl) as (base & -> & Hb). by exists base.
  - destruct (bool_decide (c = PARSER_PATH_SEP)) eqn:Ec; [|done]. intros [= <-].
    apply bool_decide_eq_true in Ec as ->. by exists path.
Qed.

(** The import stack has no directory twice, whatever the case. *)
Definition stack_ok (p : parser) : Prop :=
  forall i j a b, default [] (import_stack p) !! i = Some a -> default [] (import_stack p) !! j = Some b ->
    ci_eq a b = true -> i = j.

Lemma import_stack_ok dir p : stack_ok p -> stack_ok (parserImportStackAdd dir p).2.
Proof.
  unfold stack_ok, parserImportStackAdd. intros Hp. destruct (existsb _ _) eqn:E; [done|].
  cbn [snd import_stack with_import_stack]. set (l := default [] (import_stack p)) in *.
  change (default [] (Some (l ++ [dir]))) with (l ++ [dir]).
  assert (Hd : forall i a, l !! i = Some a -> ci_eq dir a = false).
  { intros i a Hi. destruct (ci_eq dir a) eqn:Ea; [|done].
    assert (existsb (ci_eq dir) l = true) as H; [|congruence].
    apply existsb_exists. exists a. split; [|done]. apply list_elem_of_In.
    by eapply list_elem_of_lookup_2. }
  intros i j a b. rewrite !lookup_snoc_Some. intros [[_ Hi]|[-> <-]] [[_ Hj]|[-> <-]] Hab.
  - by eapply Hp.
  - apply Hd in Hi. by rewrite ci_eq_sym, Hi in Hab.
  - apply Hd in Hj. by rewrite Hj in Hab.
  - done.
Qed.

Lemma skip_dots_rest v d c x : skip_dots v = (d, String c x) -> c <> "."%char.
Proof.
  revert d. induction v as [|a v IH]; intros d; [done|]. cbn [skip_dots].
  case_bool_decide as Ha; [|by intros [= _ <- _]].
  destruct (skip_dots v) as [d' r]. intros [= _ ->]. by eapply IH.
Qed.

(** [strtok] on what it has left of a text finds the same token. *)
Lemma skip_dots_again v d c x y :
  skip_dots v = (d, String c x) -> skip_dots (d +:+ String c y) = (d, String c y).
Proof.
  intros H. pose proof (skip_dots_rest v d c x H) as Hc. revert d H.
  induction v as [|a v IH]; intros d; [done|]. cbn [skip_dots].
  case_bool_decide as Ha.
  - destruct (skip_dots v) as [d' r] eqn:E. intros [= <- ->]. rewrite string_app_cons.
    cbn [skip_dots]. rewrite bool_decide_true by done. by rewrite (IH d').
  - intros [= <- _ _]. change ("" +:+ String c y) with (String c y). cbn [skip_dots].
    by rewrite bool_decide_false.
Qed.

(** ** Properties *)

(** The tokens of a text, until the parser says that there is no more,
    are its words in order, and an empty token behind them when the text is
    empty or ends in a blank, which every line that ends in a newline does. *)
Theorem parserTokenize_words (s : string) :
  tokenize_all (S (S (String.length s))) (Some s)
  = Ok (words s ++ (if blank_end s then [""] else [])).
Proof. apply tokenize_all_words. lia. Qed.

(** C34: a class section: each line has its effect on the server, in order:
    the words behind [port] that are no comments are broadcast ports, and each
    [host:port] behind [server] that names this host adds the class and sets
    the port; the section ends at the first line [end class], and what is
    behind it is left. *)
Theorem parserParseClass_spec (gethostname : option string)
    (gethostbyname : string -> option hostent) (inet_aton : string -> option Z)
    (class : string) (ls : list string) (e rest : string) (s : server) :
  Forall good_line ls -> Forall (fun l => is_end "class" l = false) ls ->
  good_line e -> is_end "class" e = true ->
  parserParseClass gethostname gethostbyname inet_aton class (concat_lines ls +:+ e +:+ rest) s =
  Ok (PARSER_SUCCESS, rest,
      fold_left (class_effect gethostname gethostbyname inet_aton class) ls s).
Proof.
  intros Hls Hne He Hend. unfold parserParseClass. rewrite class_loop_spec by (done || lia).
  by rewrite end_no_effect.
Qed.

(** A general section that states a version: the null that ends the copy
    of the server's own version is written behind it, unless the version
    stated consists of dots, when a null pointer is read before. *)
Theorem parserParseGeneral_version (PACKAGE_VERSION l k v rest : string) (ws : list string) (p : parser) :
  good_line l -> words l = k :: v :: ws -> ci_eq k "version" = true ->
  parserParseGeneral PACKAGE_VERSION (l +:+ rest) p =
    match (skip_dots v).2 with EmptyString => Fault NullDeref | _ => Fault OutOfBounds end.
Proof.
  intros Hl Hw Hk. unfold parserParseGeneral. cbn [general_loop]. rewrite fgets_line by done.
  apply good_line_blank in Hl. pose proof (tokenize_blank l Hl) as H. rewrite Hw in H.
  destruct H as (r & -> & Hr & Hb & _). cbn [mbind res_bind]. unfold general_line.
  cbn [token remainder]. rewrite Hk. pose proof (tokenize_blank r Hb) as H. rewrite Hr in H.
  destruct H as (r' & -> & _). cbn [mbind res_bind token remainder].
  unfold check_version, version_numbers, strtok_dot.
  destruct (skip_dots v) as [d x] eqn:Ed. cbn [snd]. destruct x as [|c x]; [done|].
  cbn [atoi_ptr mbind res_bind mret res_ret].
  assert (to_dot (String c x) = String c (to_dot x)) as ->.
  { cbn [to_dot]. apply skip_dots_rest in Ed. by rewrite bool_decide_false. }
  rewrite (skip_dots_again v d c x _ Ed).
  cbn [atoi_ptr mbind res_bind mret res_ret]. unfold own_version.
  assert (wr (take 5 (bytes_of PACKAGE_VERSION ++ replicate 5 0)) 5 0 = Fault OutOfBounds) as ->; [|done].
  unfold wr. rewrite decide_False; [done|]. rewrite length_take. lia.
Qed.

Lemma ci_eq_other w a b : ci_eq w a = true -> ci_eq a b = false -> ci_eq w b = false.
Proof.
  intros Ha Hab. destruct (ci_eq w b) eqn:E; [|done]. rewrite ci_eq_sym in Ha.
  by rewrite (ci_eq_trans _ _ _ Ha E) in Hab.
Qed.

Lemma keyword_no_comment w c k :
  ci_eq w (String c k) = true -> bool_decide (tolower PARSER_COMMENT = tolower c) = false ->
  is_comment w = false.
Proof.
  intros Hw Hc. destruct (is_comment w) eqn:E; [|done].
  by rewrite (comment_keyword w _ c k E eq_refl Hc) in Hw.
Qed.

Section EventFacts.
Context (readdir : string -> option (list string)) (contents : string -> option (list Z)).

Lemma event_name_line l k name v p t :
  good_line l -> words l = [k; name] -> ci_eq k "name" = true ->
  ci_eq name "path" = false -> ci_eq name "end" = false ->
  exists tk, parserTokenize (Some l) = Ok tk /\
    event_line readdir contents tk v p t =
      Ok (None, {| v_name := Some name; v_snd_path := v_snd_path v |}, p, t).
Proof.
  intros Hl Hw Hk Hn1 Hn2. apply good_line_blank in Hl. pose proof (tokenize_blank l Hl) as H.
  rewrite Hw in H. destruct H as (r & -> & Hr & Hb & _). eexists. split; [done|].
  unfold event_line. cbn [token remainder]. rewrite (keyword_no_comment k _ _ Hk) by reflexivity.
  rewrite Hk. pose proof (tokenize_blank r Hb) as H. rewrite Hr in H. destruct H as (r' & -> & _).
  cbn [mbind res_bind mret res_ret token remainder]. rewrite Hn1. cbn [mbind res_bind mret res_ret token].
  by rewrite Hn2.
Qed.

Lemma event_path_line l k path d v p t :
  good_line l -> words l = [k; path] -> ci_eq k "path" = true -> ci_eq path "end" = false ->
  sound_path p = Some d ->
  exists tk, parserTokenize (Some l) = Ok tk /\
    event_line readdir contents tk v p t =
      Ok (None, {| v_name := v_name v; v_snd_path := Some (d +:+ path) |}, p, t).
Proof.
  intros Hl Hw Hk Hn Hd. apply good_line_blank in Hl. pose proof (tokenize_blank l Hl) as H.
  rewrite Hw in H. destruct H as (r & -> & Hr & Hb & _). eexists. split; [done|].
  unfold event_line. cbn [token remainder]. rewrite (keyword_no_comment k _ _ Hk) by reflexivity.
  rewrite (ci_eq_other k "path" "name") by done. cbn [mbind res_bind mret res_ret token remainder].
  rewrite Hk. pose proof (tokenize_blank r Hb) as H. rewrite Hr in H. destruct H as (r' & -> & _).
  cbn [mbind res_bind mret res_ret token remainder]. unfold full_path. rewrite Hd.
  cbn [mbind res_bind mret res_ret token]. by rewrite Hn.
Qed.

Lemma event_end_line l v p t :
  good_line l -> is_end "event" l = true ->
  exists tk, parserTokenize (Some l) = Ok tk /\
    event_line readdir contents tk v p t =
      match v_name v, v_snd_path v with
      | Some name, Some snd_path =>
          '(r, p, tb) ← parserLoadEventSndDir readdir contents name snd_path p t;
          mret (Some (if r =? 0 then PARSER_FAILURE else PARSER_SUCCESS), v, p, tb)
      | _, _ => mret (Some PARSER_FAILURE, v, p, t)
      end.
Proof.
  intros Hl He. apply good_line_blank in Hl. pose proof (tokenize_blank l Hl) as H.
  unfold is_end in He. destruct (words l) as [|k [|w ws]] eqn:Hw; [done|done|].
  apply andb_true_iff in He as [Hk He].
  destruct H as (r & -> & Hr & Hb & _). eexists. split; [done|].
  unfold event_line. cbn [token remainder]. rewrite (keyword_no_comment k _ _ Hk) by reflexivity.
  rewrite (ci_eq_other k "end" "name") by done. cbn [mbind res_bind mret res_ret token remainder].
  rewrite (ci_eq_other k "end" "path") by done. cbn [mbind res_bind mret res_ret token remainder].
  rewrite Hk. pose proof (tokenize_blank r Hb) as H. rewrite Hr in H. destruct H as (r' & -> & _).
  cbn [mbind res_bind token remainder]. by rewrite He.
Qed.
End EventFacts.

(** C35: an event section with a name and a path: every file of the directory
    is loaded, in ascending order of the names, and the sounds are entered into
    the sound table under the name; the entry has one sound for each file. *)
Theorem parserParseEvent_loads (readdir : string -> option (list string))
    (contents : string -> option (list Z)) (l1 l2 e rest k1 k2 name path d : string)
    (ls files : list string) (p : parser) (t : table) :
  good_line l1 -> words l1 = [k1; name] -> ci_eq k1 "name" = true ->
  ci_eq name "path" = false -> ci_eq name "end" = false ->
  good_line l2 -> words l2 = [k2; path] -> ci_eq k2 "path" = true -> ci_eq path "end" = false ->
  good_line e -> is_end "event" e = true ->
  sound_path p = Some d -> readdir (d +:+ path) = Some ls -> ls ≡ₚ ["."; ".."] ++ files ->
  Forall (fun n => is_dots n = false) files ->
  Forall (fun n => is_Some (contents (file_of (d +:+ path) n))) files ->
  exists names xs,
    names ≡ₚ files /\ StronglySorted name_le names /\
    sounds contents (d +:+ path) names = Some xs /\ List.length xs = List.length files /\
    parserParseEvent readdir contents (l1 +:+ l2 +:+ e +:+ rest) p t =
      ('(_, t) ← engineSoundTableInsertEvent (Some name) (entry_of xs) t;
       mret (PARSER_SUCCESS, rest, with_event_cnt p (i32 (event_cnt p + 1)), t)).
Proof.
  intros Hl1 Hw1 Hk1 Hn1 Hn2 Hl2 Hw2 Hk2 Hp2 Hle He Hd Hrd Hls Hfiles Hread.
  destruct (load_dir_spec readdir contents name (d +:+ path) ls files p t Hrd Hls Hfiles Hread)
    as (names & xs & Hnames & Hsort & Hxs & Hlen & Hload).
  exists names, xs. do 4 (split; [done|]). unfold parserParseEvent.
  assert (exists k, String.length (l1 +:+ l2 +:+ e +:+ rest) = S (S k)) as [k ->].
  { rewrite !string_length_app. pose proof (good_line_length _ Hl1). pose proof (good_line_length _ Hl2).
    pose proof (good_line_length _ Hle).
    exists (String.length l1 + (String.length l2 + (String.length e + String.length rest)) - 2)%nat. lia. }
  cbn [event_loop]. rewrite fgets_line by done.
  destruct (event_name_line readdir contents l1 k1 name {| v_name := None; v_snd_path := None |} p t)
    as (tk & -> & H); [done..|]. cbn [mbind res_bind]. rewrite H. cbn [mbind res_bind].
  rewrite fgets_line by done.
  destruct (event_path_line readdir contents l2 k2 path d
              {| v_name := Some name; v_snd_path := None |} p t) as (tk2 & -> & H2); [done..|].
  cbn [mbind res_bind v_snd_path]. rewrite H2. cbn [mbind res_bind v_name]. rewrite fgets_line by done.
  destruct (event_end_line readdir contents e
              {| v_name := Some name; v_snd_path := Some (d +:+ path) |} p t) as (tk3 & -> & H3); [done..|].
  cbn [mbind res_bind]. rewrite H3. cbn [v_name v_snd_path]. rewrite Hload.
  by destruct (engineSoundTableInsertEvent (Some name) (entry_of xs) t) as [[z tb]| |].
Qed.

(** ** Witnesses *)

Definition nl (s : string) : string := s +:+ String "010" "".

Lemma nl_good s : no_newline s = true -> (S (String.length s) < PARSER_BUFFER_LEN)%nat -> good_line (nl s).
Proof. intros H1 H2. by exists s. Qed.

Ltac good := apply nl_good; [reflexivity|unfold PARSER_BUFFER_LEN; simpl; lia].

Definition my_host : hostent := {| h_name := "peephost"; h_aliases := ["peep"]; h_addr_list := [] |}.

(** A comment behind a port is read as more ports. *)
Lemma parserParseClass_spec_witness :
  parserParseClass (Some "peephost") (fun _ => Some my_host) (fun _ => None) "home"
    (concat_lines [nl "  port 2001 # 2000"; nl "server other:1 PEEP:2001"] +:+ nl "end class" +:+ "tail")
    blank_server
  = Ok (PARSER_SUCCESS, "tail",
        {| identifier := Some "home!"; port := 2001; broadcast_list := [2001; 2000]; sent := [] |}).
Proof.
  rewrite (parserParseClass_spec (Some "peephost") (fun _ => Some my_host) (fun _ => None) "home"
    [nl "  port 2001 # 2000"; nl "server other:1 PEEP:2001"] (nl "end class") "tail" blank_server).
  - reflexivity.
  - repeat constructor; good.
  - repeat constructor.
  - good.
  - reflexivity.
Defined.

Definition blank_parser : parser :=
  {| sound_path := None; event_cnt := 0; state_cnt := 0; import_stack := None |}.

Lemma parserParseGeneral_version_witness :
  parserParseGeneral "0.5.0" (nl "version 0.4.3" +:+ nl "end general") blank_parser = Fault OutOfBounds.
Proof.
  apply (parserParseGeneral_version "0.5.0" (nl "version 0.4.3") "version" "0.4.3" (nl "end general") []);
    [good|reflexivity|reflexivity].
Defined.

Definition demo_files (f : string) : option (list Z) :=
  if bool_decide (f = "/snd/ev/b") then Some [1; 0; 255; 255]
  else if bool_decide (f = "/snd/ev/a") then Some [2; 1] else None.

Lemma parserParseEvent_loads_witness :
  exists names xs,
    StronglySorted name_le names /\ List.length xs = 2%nat /\
    sounds demo_files "/snd/ev" names = Some xs /\
    parserParseEvent (fun _ => Some ["."; "b"; ".."; "a"]) demo_files
      (nl "name hit" +:+ nl "path ev" +:+ nl "end event" +:+ "") 
      (with_sound_path blank_parser (Some "/snd/")) (engineInitSoundTable true).2 =
      ('(_, t) ← engineSoundTableInsertEvent (Some "hit") (entry_of xs) (engineInitSoundTable true).2;
       mret (PARSER_SUCCESS, "",
             with_event_cnt (with_sound_path blank_parser (Some "/snd/")) 1, t)).
Proof.
  destruct (parserParseEvent_loads (fun _ => Some ["."; "b"; ".."; "a"]) demo_files
    (nl "name hit") (nl "path ev") (nl "end event") "" "name" "path" "hit" "ev" "/snd/"
    ["."; "b"; ".."; "a"] ["b"; "a"] (with_sound_path blank_parser (Some "/snd/"))
    (engineInitSoundTable true).2) as (names & xs & _ & Hs & Hx & Hl & He);
    try reflexivity; try good.
  - cbn [app]. apply Permutation_skip. apply perm_swap.
  - repeat constructor.
  - repeat constructor; vm_compute; eexists; reflexivity.
  - exists names, xs. split; [exact Hs|]. split; [exact Hl|]. split; [exact Hx|exact He].
Defined.
