(* ===== verification/Strtod.v ===== *)
(** * Floating constants in text: [strtod]

    The functions of the C library that the configuration and the theme parser
    call, in the C locale: an optional sign, then a decimal or a hexadecimal
    number, an infinity or a NaN; without any the result is zero. The decimal
    value is rounded once, to the nearest [double]. *)

From Stdlib Require Import ZArith Lia Ascii String SpecFloat.
From stdpp Require Import base list strings.
From S2P Require Import Prelude CString Dbl.
Local Open Scope Z_scope.

(** The value of a digit. *)
Definition digit_val (base : Z) (c : ascii) : option Z :=
  let n := Z.of_nat (nat_of_ascii (tolower c)) in
  let d := if isdigit c then n - 48 else if in_range 97 122 (nat_of_ascii (tolower c)) then n - 87 else base in
  if d <? base then Some d else None.

(** Digits: the value, how many there are, and what follows. *)
Fixpoint digits_of (base acc n : Z) (s : string) : Z * Z * string :=
  match s with
  | EmptyString => (acc, n, s)
  | String c s' =>
      match digit_val base c with
      | Some d => digits_of base (acc * base + d) (n + 1) s'
      | None => (acc, n, s)
      end
  end.

(** Digits with a point among them: the value of all, how many are behind the
    point, and what follows. *)
Definition mantissa (base : Z) (s : string) : option (Z * Z * string) :=
  let '(m, n, s) := digits_of base 0 0 s in
  let '(m, f, s) := match s with
                    | String "." s' =>
                        let '(m', f, s'') := digits_of base m 0 s' in
                        if n + f =? 0 then (m, 0, s) else (m', f, s'')
                    | _ => (m, 0, s)
                    end in
  if n + f =? 0 then None else Some (m, f, s).

Definition sign (s : string) : bool * string :=
  match s with
  | String "-" s => (true, s)
  | String "+" s => (false, s)
  | _ => (false, s)
  end.

(** The exponent behind [mark]; zero if it is not complete. *)
Definition exponent (mark : ascii) (s : string) : Z :=
  match s with
  | EmptyString => 0
  | String c s =>
      if bool_decide (tolower c = mark) then
        let '(neg, s) := sign s in
        let '(x, n, _) := digits_of 10 0 0 s in
        if n =? 0 then 0 else if (neg : bool) then - x else x
      else 0
  end.

(** [m * 10 ^ e] and [m * 2 ^ e] in the format with precision [prec]. *)
Definition of_dec (prec emax : Z) (neg : bool) (m e : Z) : spec_float :=
  match m with
  | Zpos p =>
      if 0 <=? e
      then binary_normalize prec emax (if neg then - (m * 10 ^ e) else m * 10 ^ e) 0 neg
      else SFdiv prec emax (S754_finite neg p 0) (S754_finite false (Z.to_pos (10 ^ - e)) 0)
  | _ => S754_zero neg
  end.

Definition of_hex (prec emax : Z) (neg : bool) (m e : Z) : spec_float :=
  match m with
  | Zpos _ => binary_normalize prec emax (if neg then - m else m) e neg
  | _ => S754_zero neg
  end.

(** The text starts with [w], whatever the case. *)
Fixpoint ci_prefix (w s : string) : bool :=
  match w, s with
  | EmptyString, _ => true
  | String a w, String b s => bool_decide (tolower a = tolower b) && ci_prefix w s
  | _, _ => false
  end.

(** The number at the start of [s], in either format. *)
Definition parse_float (prec emax : Z) (s : string) : option spec_float :=
  let '(neg, s) := sign (skip_space s) in
  if ci_prefix "inf" s then Some (S754_infinity neg)
  else if ci_prefix "nan" s then Some S754_nan
  else match (if ci_prefix "0x" s then mantissa 16 (String.substring 2 (String.length s) s) else None) with
  | Some (m, f, s) => Some (of_hex prec emax neg m (exponent "p" s - 4 * f))
  | None =>
      match mantissa 10 s with
      | Some (m, f, s) => Some (of_dec prec emax neg m (exponent "e" s - f))
      | None => None
      end
  end.

Definition strtod (s : string) : dbl := default d_zero (parse_float 53 1024 s).

(** The decimal text of a number without sign is its value. *)
Lemma digits_of_digits s acc n :
  (digits_of 10 acc n s).1.1 = digits acc s.
Proof.
  revert acc n. induction s as [|c s IH]; intros acc n; [done|]. cbn [digits_of digits].
  unfold digit_val. destruct (isdigit c) eqn:Ed.
  - assert (tolower c = c) as ->.
    { unfold isdigit, in_range in Ed. unfold tolower, in_range.
      apply andb_true_iff in Ed as [H1%Nat.leb_le H2%Nat.leb_le].
      by destruct (Nat.leb_spec 65 (nat_of_ascii c)); [lia|]. }
    unfold isdigit, in_range in Ed. apply andb_true_iff in Ed as [H1%Nat.leb_le H2%Nat.leb_le].
    destruct (Z.ltb_spec (Z.of_nat (nat_of_ascii c) - 48) 10); [apply IH|lia].
  - destruct (in_range 97 122 _) eqn:Er.
    + unfold in_range in Er. apply andb_true_iff in Er as [H1%Nat.leb_le _].
      by destruct (Z.ltb_spec (Z.of_nat (nat_of_ascii (tolower c)) - 87) 10); [lia|].
    + done.
Qed.

Example strtod_examples :
  strtod "0.5" = d_lit 1 2 /\ strtod "1e2 " = d_of_Z 100 /\ strtod ".1" = d_lit 1 10 /\
  strtod "0x10.8p1" = d_of_Z 33 /\ strtod "0xg" = d_zero /\ strtod "." = d_zero /\
  strtod "100.25e-1" = d_lit 401 40 /\ strtod " -2.5" = d_lit (-5) 2.
Proof. vm_compute. repeat split. Qed.
