(* ===== verification/ParserState.v ===== *)
(** * State sections of the configuration ([parser.c])

    [parserParseState] and what it calls. The sounds go to the buffers of the
    mixer, the name into the sound table, so the functions transform the
    variables of the parser and the [world]. *)

From stdpp Require Import base list strings sorting.
From Stdlib Require Import ZArith Lia Ascii String.
From S2P Require Import Prelude Events CString Dbl Strtod SoundTable World Mixer Engine Wire Server Parser.
Import SoundTable.
Local Open Scope Z_scope.
Local Open Scope list_scope.

Definition with_state_cnt (p : parser) n :=
  {| sound_path := sound_path p; Parser.event_cnt := Parser.event_cnt p; state_cnt := n;
     import_stack := import_stack p |}.

(** What a line makes a section do: go on, return, or end the program by a
    call of [shutDown], which does not return. *)
Inductive flow : Type := Next | Return (r : Z) | ShutDown.

Definition mixerSBuffs (w : world) : Z := no_sbuffs w.

Section Outside.
Context (readdir : string -> option (list string)) (contents : string -> option (list Z)).

(** ** Sounds of a threshold *)

(** The loop over the files, from the last to the first. *)
Fixpoint state_load_loop (names : list string) (snd_path : string) (state thresh index : Z)
  : M world bool :=
  match names with
  | [] => mret true
  | n :: names =>
      if ci_eq n ".." || ci_eq n "." then state_load_loop names snd_path state thresh index
      else match parserLoadSoundFile contents (snd_path +:+ "/" +:+ n) with
           | None => mret false
           | Some (sound, length) =>
               mixerAddState state thresh index (Some sound) length ;;
               state_load_loop names snd_path state thresh (index + 1)
           end
  end.

(** The count that is compared with [mixerSBuffs ()] becomes unsigned. *)
Definition parserLoadStateSndDir (cnt : Z) (l h : dbl) (snd_path : string) (fade : dbl)
    (p : parser) (w : world) : res (Z * parser * world) :=
  if mixerSBuffs w <=? u32 (state_cnt p) then mret (0, with_state_cnt p (i32 (state_cnt p + 1)), w)
  else match parserScanDir readdir snd_path with
  | None => mret (0, p, w)
  | Some namelist =>
      let snd_cnt := Z.of_nat (List.length namelist) in
      '(_, w) ← mixerAddStateThreshold true true (state_cnt p) cnt l h (u32 (snd_cnt - 2)) w;
      '(ok, w) ← state_load_loop (rev namelist) snd_path (state_cnt p) cnt 0 w;
      if negb (ok : bool) then mret (0, p, w) else
      '(_, w) ← mixerSetFadeTime (state_cnt p) fade w;
      mret (PARSER_SUCCESS, p, w)
  end.

(** ** A [threshold] section *)

Record thresh_vars : Type := {
  v_l_bound : dbl;
  v_h_bound : dbl;
  v_fade : dbl;
  v_path : option string
}.

Definition lower_bound (cnt : Z) (p : parser) (w : world) : res dbl :=
  if 0 <? cnt then
    '(e, _) ← mixerGetThresholdEntry (state_cnt p) (cnt - 1) w;
    e ← some_ptr e;
    mret (h_bound e)
  else mret d_zero.

Definition threshold_line (cnt : Z) (t : tok) (v : thresh_vars) (p : parser) (w : world)
  : res (flow * thresh_vars * parser * world) :=
  if is_comment (token t) then mret (Next, v, p, w) else
  '(t, v) ← (if ci_eq (token t) "level" then
               t ← parserTokenize (remainder t);
               l ← lower_bound cnt p w;
               mret (t, {| v_l_bound := l; v_h_bound := strtod (token t); v_fade := v_fade v;
                           v_path := v_path v |})
             else mret (t, v));
  '(t, v) ← (if ci_eq (token t) "path" then
               t ← parserTokenize (remainder t);
               d ← full_path p (token t);
               mret (t, {| v_l_bound := v_l_bound v; v_h_bound := v_h_bound v; v_fade := v_fade v;
                           v_path := Some d |})
             else mret (t, v));
  '(t, v) ← (if ci_eq (token t) "fade" then
               t ← parserTokenize (remainder t);
               mret (t, {| v_l_bound := v_l_bound v; v_h_bound := v_h_bound v;
                           v_fade := strtod (token t); v_path := v_path v |})
             else mret (t, v));
  if ci_eq (token t) "end" then
    t ← parserTokenize (remainder t);
    if ci_eq (token t) "threshold" then
      match v_path v with
      | Some path =>
          if negb (d_eqb (v_h_bound v) d_zero) then
            '(r, p, w) ← parserLoadStateSndDir cnt (v_l_bound v) (v_h_bound v) path (v_fade v) p w;
            mret (Return (if r =? 0 then 0 else PARSER_SUCCESS), v, p, w)
          else mret (ShutDown, v, p, w)
      | None => mret (ShutDown, v, p, w)
      end
    else mret (Next, v, p, w)
  else mret (Next, v, p, w).

(** The result is [None] when [shutDown] is called. *)
Fixpoint threshold_loop (fuel : nat) (cnt : Z) (f : string) (v : thresh_vars) (p : parser) (w : world)
  : res (option Z * string * parser * world) :=
  match fuel with
  | O => NoFuel
  | S fuel =>
      match fgets f with
      | None => mret (Some PARSER_FAILURE, f, p, w)
      | Some (buffer, f) =>
          t ← parserTokenize (Some buffer);
          '(r, v, p, w) ← threshold_line cnt t v p w;
          match r with
          | Next => threshold_loop fuel cnt f v p w
          | Return r => mret (Some r, f, p, w)
          | ShutDown => mret (None, f, p, w)
          end
      end
  end.

Definition no_thresh_vars : thresh_vars :=
  {| v_l_bound := d_zero; v_h_bound := d_zero; v_fade := d_zero; v_path := None |}.

Definition parserParseThreshold (cnt : Z) (f : string) (p : parser) (w : world)
  : res (option Z * string * parser * world) :=
  threshold_loop (S (String.length f)) cnt f no_thresh_vars p w.

(** ** A [state] section *)

(** The look ahead: the number of lines that start a threshold, and the file
    at the position it is then read from, [pos] unless the file has ended. *)
Fixpoint count_loop (fuel : nat) (f pos : string) (thresh_cnt : Z) : res (Z * string) :=
  match fuel with
  | O => NoFuel
  | S fuel =>
      match fgets f with
      | None => mret (thresh_cnt, f)
      | Some (buffer, f) =>
          t ← parserTokenize (Some buffer);
          let thresh_cnt := if ci_eq (token t) "threshold" then i32 (thresh_cnt + 1) else thresh_cnt in
          if ci_eq (token t) "end" then
            t ← parserTokenize (remainder t);
            if ci_eq (token t) "state" then mret (thresh_cnt, pos)
            else count_loop fuel f pos thresh_cnt
          else count_loop fuel f pos thresh_cnt
      end
  end.

Record state_vars : Type := { v_state_name : option string; t_count : Z }.

(** [engineSoundTableInsertState] on the table of the world. *)
Definition insert_state (name : string) (e : STATE_ENTRY) (w : world) : res world :=
  '(_, t) ← engineSoundTableInsertState (Some name) e (sound_table w);
  mret (set_sound_table t w).

Definition state_line (t : tok) (v : state_vars) (f : string) (p : parser) (w : world)
  : res (flow * state_vars * string * parser * world) :=
  if is_comment (token t) then mret (Next, v, f, p, w) else
  '(t, v) ← (if ci_eq (token t) "name" then
               t ← parserTokenize (remainder t);
               mret (t, {| v_state_name := Some (token t); t_count := t_count v |})
             else mret (t, v));
  '(r, v, f, p, w) ←
    (if ci_eq (token t) "threshold" then
       '(r, f, p, w) ← parserParseThreshold (t_count v) f p w;
       mret (match r with
             | Some r => if r =? 0 then Return PARSER_FAILURE else Next
             | None => ShutDown
             end, {| v_state_name := v_state_name v; t_count := t_count v + 1 |}, f, p, w)
     else mret (Next, v, f, p, w));
  match r with
  | Next =>
      if ci_eq (token t) "end" then
        t ← parserTokenize (remainder t);
        if ci_eq (token t) "state" then
          match v_state_name v with
          | None => mret (Return PARSER_FAILURE, v, f, p, w)
          | Some name =>
              match engineAllocStateEntry true (state_cnt p) with
              | None => mret (Return PARSER_FAILURE, v, f, p, w)
              | Some entry =>
                  w ← insert_state name entry w;
                  mret (Return PARSER_SUCCESS, v, f, with_state_cnt p (i32 (state_cnt p + 1)), w)
              end
          end
        else mret (Next, v, f, p, w)
      else mret (Next, v, f, p, w)
  | r => mret (r, v, f, p, w)
  end.

Fixpoint state_loop (fuel : nat) (v : state_vars) (f : string) (p : parser) (w : world)
  : res (option Z * string * parser * world) :=
  match fuel with
  | O => NoFuel
  | S fuel =>
      match fgets f with
      | None => mret (Some PARSER_FAILURE, f, p, w)
      | Some (buffer, f) =>
          t ← parserTokenize (Some buffer);
          '(r, v, f, p, w) ← state_line t v f p w;
          match r with
          | Next => state_loop fuel v f p w
          | Return r => mret (Some r, f, p, w)
          | ShutDown => mret (None, f, p, w)
          end
      end
  end.

Definition parserParseState (f : string) (p : parser) (w : world)
  : res (option Z * string * parser * world) :=
  '(thresh_cnt, f) ← count_loop (S (String.length f)) f f 0;
  '(_, w) ← mixerAllocNewState true (state_cnt p) thresh_cnt w;
  state_loop (S (String.length f)) {| v_state_name := None; t_count := 0 |} f p w.

End Outside.

(** ** The thresholds of one state of the mixer *)

(** State [j] has the thresholds [ts], and the mixer's mutex is free. *)
Definition state_ready (w : world) (j : Z) (ts : list THRESHOLD) : Prop :=
  exists sb b, sbuffs w = PLive sb /\ 0 <= j /\ sb !! Z.to_nat j = Some b /\ thresh b = Some ts /\
    thresh_cnt b = Z.of_nat (List.length ts) /\ Z.of_nat (List.length ts) < 2 ^ 31 /\ mlock w = false.

(** The world in which they are [ts]. *)
Definition put_thresholds (j : Z) (ts : list THRESHOLD) (w : world) : world :=
  match sbuffs w with
  | PLive sb =>
      match sb !! Z.to_nat j with
      | Some b => set_sbuffs (PLive (<[Z.to_nat j := with_thresh b ts]> sb)) w
      | None => w
      end
  | _ => w
  end.

(** [put_thresholds] and taking and leaving the mutex, in one world. *)
Lemma locked_update w sb j b ts v :
  sbuffs w = PLive sb -> sb !! Z.to_nat j = Some b -> mlock w = false -> v = with_thresh b ts ->
  set_mlock false (set_sbuffs (PLive (<[Z.to_nat j := v]> sb)) (set_mlock true w)) =
  put_thresholds j ts w.
Proof. intros Hs Hb Hl ->. unfold put_thresholds. rewrite Hs, Hb. destruct w; simpl in *. by subst. Qed.

Lemma put_put w j ts ts' : put_thresholds j ts (put_thresholds j ts' w) = put_thresholds j ts w.
Proof.
  unfold put_thresholds. destruct (sbuffs w) as [|sb|] eqn:Es; [by rewrite Es| |by rewrite Es].
  destruct (sb !! Z.to_nat j) as [b|] eqn:Eb; [|by rewrite Es, Eb]. cbn [sbuffs set_sbuffs].
  rewrite list_lookup_insert_eq by (by eapply lookup_lt_Some). by rewrite list_insert_insert_eq.
Qed.

Lemma put_same w j ts : state_ready w j ts -> put_thresholds j ts w = w.
Proof.
  intros (sb & b & Hs & _ & Hb & Ht & _). unfold put_thresholds. rewrite Hs, Hb.
  assert (with_thresh b ts = b) as -> by (destruct b; simpl in *; by subst).
  rewrite list_insert_id by done. destruct w; simpl in *. by subst.
Qed.

Lemma ready_put w j ts ts' :
  state_ready w j ts -> List.length ts' = List.length ts -> state_ready (put_thresholds j ts' w) j ts'.
Proof.
  intros (sb & b & Hs & Hj & Hb & Ht & Hc & Hn & Hl) Hlen. unfold put_thresholds. rewrite Hs, Hb.
  eexists _, _. cbn [sbuffs set_sbuffs mlock]. split; [done|]. split; [done|].
  rewrite list_lookup_insert_eq by (by eapply lookup_lt_Some). split; [done|]. cbn.
  by rewrite Hlen.
Qed.

(** What [put_thresholds] leaves as it is. *)
Lemma put_frame w j ts :
  no_sbuffs (put_thresholds j ts w) = no_sbuffs w /\ lin_fade (put_thresholds j ts w) = lin_fade w /\
  sound_table (put_thresholds j ts w) = sound_table w.
Proof. unfold put_thresholds. destruct (sbuffs w) as [|sb|]; [done| |done]. by destruct (sb !! _). Qed.

Lemma ready_sbuff w j ts :
  state_ready w j ts -> exists b, sbuff j w = Ok (b, w) /\ thresh b = Some ts /\
    u32 (thresh_cnt b) = Z.of_nat (List.length ts).
Proof.
  intros (sb & b & Hs & Hj & Hb & Ht & Hc & Hn & _). exists b.
  split; [by eapply rd_at_Ok|]. split; [done|]. rewrite Hc. apply u32_small. lia.
Qed.

Lemma addThreshold_Ok w j ts k l h n :
  state_ready w j ts -> (k < List.length ts)%nat ->
  mixerAddStateThreshold true true j (Z.of_nat k) l h n w =
  Ok (MIXER_SUCCESS, put_thresholds j (<[k := {| l_bound := l; h_bound := h; state_snd :=
    {| s_snd_buf := Some (replicate (Z.to_nat n) None); s_len := Some (replicate (Z.to_nat n) 0);
       s_snd_cnt := n; s_snd_no := 0; s_pos := 0 |} |}]> ts) w).
Proof.
  intros Hr Hk. destruct (ready_sbuff _ _ _ Hr) as (b & Hb & Ht & Hc).
  destruct Hr as (sb & b' & Hs & Hj & Hb' & _ & _ & _ & Hl). unfold mixerAddStateThreshold.
  mstep Hb. rewrite Hc, Ht. destruct (Z.ltb_spec (Z.of_nat (List.length ts)) (Z.of_nat k)); [lia|].
  assert (b' = b) as ->.
  { unfold sbuff, rd_at in Hb. rewrite Hs in Hb. cbn [deref mbind res_bind] in Hb.
    rewrite (proj2 (rd_Ok sb j b')) in Hb by done. by injection Hb. }
  erewrite bind_Ok by (unfold lock_mixer; rewrite Hl; reflexivity).
  unfold lift. rewrite wr_in_bounds by lia. rewrite Nat2Z.id.
  erewrite bind_Ok by reflexivity.
  erewrite bind_Ok by (apply wr_at_Ok; [exact Hs|apply lookup_lt_Some in Hb'; lia]).
  erewrite bind_Ok by reflexivity. unfold mret, M_ret. do 2 f_equal. by eapply locked_update.
Qed.

Lemma get_state_snd_Ok w j ts k t :
  state_ready w j ts -> ts !! k = Some t ->
  get_state_snd j (Z.of_nat k) w = Ok (state_snd t, w).
Proof.
  intros Hr Hk. destruct (ready_sbuff _ _ _ Hr) as (b & Hb & Ht & _). unfold get_state_snd.
  mstep Hb. rewrite Ht. erewrite bind_Ok by reflexivity. unfold lift. rewrite (rd_nat ts k t Hk).
  by erewrite bind_Ok by reflexivity.
Qed.

(** A sound for an entry that has none yet. *)
Lemma addState_Ok w j ts k t i bufs lens snd ln :
  state_ready w j ts -> ts !! k = Some t ->
  s_snd_buf (state_snd t) = Some bufs -> s_len (state_snd t) = Some lens ->
  bufs !! i = Some None -> (i < List.length lens)%nat -> Z.of_nat i <= s_snd_cnt (state_snd t) ->
  mixerAddState j (Z.of_nat k) (Z.of_nat i) snd ln w =
  Ok (MIXER_SUCCESS, put_thresholds j (<[k := with_state_snd t
    {| s_snd_buf := Some (<[i := snd]> bufs); s_len := Some (<[i := ln]> lens);
       s_snd_cnt := s_snd_cnt (state_snd t); s_snd_no := s_snd_no (state_snd t);
       s_pos := s_pos (state_snd t) |}]> ts) w).
Proof.
  intros Hr Hk Hbuf Hlen Hi Hil Hcnt. pose proof Hr as Hr'.
  destruct (ready_sbuff _ _ _ Hr) as (b & Hb & Ht & Hc).
  destruct Hr' as (sb & b' & Hs & Hj & Hb' & _ & _ & _ & Hl).
  assert (b' = b) as ->.
  { unfold sbuff, rd_at in Hb. rewrite Hs in Hb. cbn [deref mbind res_bind] in Hb.
    rewrite (proj2 (rd_Ok sb j b')) in Hb by done. by injection Hb. }
  unfold mixerAddState. mstep Hb. rewrite Hc. pose proof (lookup_lt_Some _ _ _ Hk).
  pose proof (lookup_lt_Some _ _ _ Hi).
  destruct (Z.ltb_spec (Z.of_nat (List.length ts)) (Z.of_nat k)); [lia|].
  mstep (get_state_snd_Ok w j ts k t Hr Hk).
  destruct (Z.ltb_spec (s_snd_cnt (state_snd t)) (Z.of_nat i)); [lia|].
  rewrite Hbuf, Hlen. erewrite bind_Ok by reflexivity.
  erewrite bind_Ok by (unfold lift; rewrite (rd_nat bufs i None Hi); reflexivity).
  cbv iota.
  erewrite bind_Ok by (unfold lock_mixer; rewrite Hl; reflexivity).
  erewrite bind_Ok by (unfold lift; rewrite wr_in_bounds by (split; [lia|by apply Nat2Z.inj_lt]); reflexivity).
  erewrite bind_Ok by reflexivity.
  erewrite bind_Ok by (unfold lift; rewrite wr_in_bounds by lia; reflexivity).
  rewrite !Nat2Z.id. unfold put_state_snd.
  erewrite bind_Ok.
  2:{ erewrite bind_Ok by (by apply (rd_at_Ok sbuffs _ sb _ b)).
      rewrite Ht. erewrite bind_Ok by reflexivity. unfold lift. rewrite (rd_nat ts k t Hk).
      erewrite bind_Ok by reflexivity. rewrite wr_in_bounds by lia. rewrite Nat2Z.id.
      erewrite bind_Ok by reflexivity. apply wr_at_Ok; [exact Hs|apply lookup_lt_Some in Hb'; lia]. }
  erewrite bind_Ok by reflexivity. unfold mret, M_ret. do 2 f_equal. by eapply locked_update.
Qed.

Section LoadFacts.
Context (readdir : string -> option (list string)) (contents : string -> option (list Z)).

(** The sounds [xs] as the mixer keeps them, with room for [n] more. *)
Definition loading (cnt : Z) (xs : list (list Z * Z)) (n : nat) : STATE_SND :=
  {| s_snd_buf := Some (((fun x => Some x.1) <$> xs) ++ replicate n None);
     s_len := Some ((snd <$> xs) ++ replicate n 0);
     s_snd_cnt := cnt; s_snd_no := 0; s_pos := 0 |}.

Lemma insert_loading {A} (f : list Z * Z -> A) xs n x d :
  <[List.length xs := f x]> ((f <$> xs) ++ replicate (S n) d) = (f <$> xs ++ [x]) ++ replicate n d.
Proof.
  rewrite fmap_app, <- app_assoc. rewrite insert_app_r_alt by (rewrite length_fmap; lia).
  rewrite length_fmap, Nat.sub_diag. done.
Qed.

Lemma state_load_loop_spec names snd_path w j ts k t xs ys cnt :
  state_ready w j ts -> ts !! k = Some t ->
  sounds contents snd_path (filter (fun n => is_dots n = false) names) = Some ys ->
  state_snd t = loading cnt xs (List.length ys) ->
  Z.of_nat (List.length xs + List.length ys) <= cnt ->
  state_load_loop contents names snd_path j (Z.of_nat k) (Z.of_nat (List.length xs)) w =
  Ok (true, put_thresholds j (<[k := with_state_snd t (loading cnt (xs ++ ys) 0)]> ts) w).
Proof.
  revert w ts t xs ys. induction names as [|n names IH]; intros w ts t xs ys Hr Hk Hy Ht Hc.
  - injection Hy as <-. cbn [state_load_loop]. unfold mret, M_ret. rewrite app_nil_r.
    assert (with_state_snd t (loading cnt xs 0) = t) as ->.
    { destruct t as [? ? s]. unfold with_state_snd. cbn in *. by subst s. }
    rewrite list_insert_id by done. by rewrite put_same.
  - cbn [state_load_loop]. change (ci_eq n ".." || ci_eq n ".") with (is_dots n).
    destruct (is_dots n) eqn:Ed.
    { rewrite filter_cons_False in Hy by congruence. by apply IH. }
    rewrite filter_cons_True in Hy by done. cbn [sounds] in Hy.
    change (snd_path +:+ "/" +:+ n) with (file_of snd_path n).
    destruct (parserLoadSoundFile contents (file_of snd_path n)) as [[s l]|]; [|done].
    destruct (sounds contents snd_path _) as [ys'|] eqn:Ey; [|done]. injection Hy as <-.
    cbn [List.length] in *.
    pose proof (lookup_lt_Some _ _ _ Hk) as Hkl.
    erewrite bind_Ok.
    2:{ apply (addState_Ok w j ts k t (List.length xs)
          (((fun x => Some x.1) <$> xs) ++ replicate (S (List.length ys')) None)
          ((snd <$> xs) ++ replicate (S (List.length ys')) 0) (Some s) l Hr Hk);
          [by rewrite Ht|by rewrite Ht| | |].
        - rewrite lookup_app_r by (rewrite length_fmap; lia).
          by rewrite length_fmap, Nat.sub_diag.
        - rewrite length_app, length_fmap, length_replicate. lia.
        - rewrite Ht. cbn. lia. }
    rewrite Ht. cbn [s_snd_cnt s_snd_no s_pos loading].
    rewrite (insert_loading (fun x => Some x.1) xs _ (s, l)), (insert_loading snd xs _ (s, l)).
    replace (Z.of_nat (List.length xs) + 1) with (Z.of_nat (List.length (xs ++ [(s, l)])))
      by (rewrite length_app; simpl; lia).
    set (t' := with_state_snd t (loading cnt (xs ++ [(s, l)]) (List.length ys'))).
    match goal with |- context [with_state_snd t ?x] => change (with_state_snd t x) with t' end.
    rewrite (IH (put_thresholds j (<[k := t']> ts) w) (<[k := t']> ts) t' (xs ++ [(s, l)]) ys');
      [|apply (ready_put _ _ ts); [done|by rewrite length_insert]|by apply list_lookup_insert_eq
      |done|done|rewrite length_app; simpl; lia].
    rewrite put_put, list_insert_insert_eq, <- app_assoc. done.
Qed.

(** What [mixerSetFadeTime] does to the fade record of a state. *)
Definition put_fade (j : Z) (v : dbl) (w : world) : world :=
  match lin_fade w with
  | PLive fr =>
      match fr !! Z.to_nat j with
      | Some f => set_lin_fade (PLive (<[Z.to_nat j := {| fade_time := v; f_snd := f_snd f;
                    f_pos := f_pos f; old_thresh := old_thresh f |}]> fr)) w
      | None => w
      end
  | _ => w
  end.

(** The sounds of a directory, in the order in which they are loaded; the
    directory has its own and its parent's entry, and an [int] counts them. *)
Definition dir_sounds (dir : string) : option (list (list Z * Z)) :=
  match parserScanDir readdir dir with
  | None => None
  | Some ls =>
      match sounds contents dir (filter (fun n => is_dots n = false) (rev ls)) with
      | Some xs => if bool_decide ((List.length ls = 2 + List.length xs)%nat /\ Z.of_nat (List.length ls) < 2 ^ 31)
          then Some xs else None
      | None => None
      end
  end.

Definition loaded_threshold (l h : dbl) (xs : list (list Z * Z)) : THRESHOLD :=
  {| l_bound := l; h_bound := h; state_snd := loading (Z.of_nat (List.length xs)) xs 0 |}.

(** The fade records cover the states. *)
Definition fades_ok (w : world) : Prop :=
  exists fr, lin_fade w = PLive fr /\ Z.of_nat (List.length fr) = no_sbuffs w.

Lemma load_state_dir_Ok w j ts k l h dir fade xs p :
  state_ready w j ts -> (k < List.length ts)%nat -> fades_ok w ->
  state_cnt p = j -> j < no_sbuffs w -> j < 2 ^ 32 ->
  dir_sounds dir = Some xs ->
  parserLoadStateSndDir readdir contents (Z.of_nat k) l h dir fade p w =
  Ok (PARSER_SUCCESS, p, put_fade j fade (put_thresholds j (<[k := loaded_threshold l h xs]> ts) w)).
Proof.
  intros Hr Hk (fr & Hfr & Hfl) Hj Hjn Hj32 Hd. unfold parserLoadStateSndDir, mixerSBuffs.
  rewrite Hj. assert (0 <= j) by (by destruct Hr as (? & ? & ? & ? & _)).
  rewrite u32_small by lia. destruct (Z.leb_spec (no_sbuffs w) j); [lia|].
  unfold dir_sounds in Hd. destruct (parserScanDir readdir dir) as [ls|]; [|done].
  destruct (sounds contents dir _) as [ys|] eqn:Es; [|done].
  case_bool_decide as Hl; [|done]. destruct Hl as [Hl Hx]. injection Hd as ->. rewrite Hl in *. cbv zeta.
  replace (u32 (Z.of_nat (2 + List.length xs) - 2)) with (Z.of_nat (List.length xs))
    by (symmetry; rewrite u32_small by lia; lia).
  rewrite (addThreshold_Ok w j ts k l h _ Hr Hk). cbn [mbind res_bind].
  rewrite Nat2Z.id. set (t0 := {| l_bound := l; h_bound := h;
    state_snd := loading (Z.of_nat (List.length xs)) [] (List.length xs) |}).
  match goal with |- context [<[k := ?x]> ts] => change x with t0 end.
  assert (Hr' : state_ready (put_thresholds j (<[k := t0]> ts) w) j (<[k := t0]> ts))
    by (apply (ready_put _ _ ts); [done|apply length_insert]).
  assert (Ht0 : <[k := t0]> ts !! k = Some t0) by by apply list_lookup_insert_eq.
  pose proof (state_load_loop_spec (rev ls) dir _ j _ k t0 [] xs (Z.of_nat (List.length xs))
    Hr' Ht0 Es eq_refl) as Hload. cbn [List.length] in Hload. change (Z.of_nat 0) with 0 in Hload.
  rewrite Hload by (simpl; lia).
  cbn [mbind res_bind negb]. rewrite put_put, list_insert_insert_eq.
  change (with_state_snd t0 _) with (loaded_threshold l h xs).
  set (w' := put_thresholds j _ w). destruct (put_frame w j (<[k := loaded_threshold l h xs]> ts))
    as (Hn' & Hf' & _). fold w' in Hn', Hf'. rewrite Hfr in Hf'.
  destruct (lookup_lt_is_Some_2 fr (Z.to_nat j)) as [f Hf]; [lia|].
  rewrite (mixerSetFadeTime_Ok w' fr j f fade Hf') by (done || lia).
  cbn [mbind res_bind]. unfold put_fade. by rewrite Hf', Hf.
Qed.
End LoadFacts.

(** ** The lines of a section *)

(** A line with at least two words. *)
Lemma two_tokens l k v ws :
  good_line l -> words l = k :: v :: ws ->
  exists t t', parserTokenize (Some l) = Ok t /\ token t = k /\
    parserTokenize (remainder t) = Ok t' /\ token t' = v.
Proof.
  intros Hl%good_line_blank Hw. pose proof (tokenize_blank l Hl) as H. rewrite Hw in H.
  destruct H as (r & Ht & Hr & Hb & _). pose proof (tokenize_blank r Hb) as H. rewrite Hr in H.
  destruct H as (r' & Ht' & _). by eexists _, _.
Qed.

(** A word that is none of the keywords a threshold section looks for. *)
Definition quiet (v : string) : Prop :=
  ci_eq v "path" = false /\ ci_eq v "fade" = false /\ ci_eq v "end" = false.

(** A line of a threshold section with a keyword and a value. *)
Definition setting (key l v : string) : Prop :=
  good_line l /\ quiet v /\ exists k, words l = [k; v] /\ ci_eq k key = true.

(** A keyword is no other one, and no comment. *)
Ltac keyword Hk :=
  match type of Hk with
  | ci_eq ?k _ = true =>
      rewrite ?(keyword_no_comment k _ _ Hk) by reflexivity;
      rewrite ?(ci_eq_other k _ "level" Hk), ?(ci_eq_other k _ "path" Hk),
        ?(ci_eq_other k _ "fade" Hk), ?(ci_eq_other k _ "end" Hk), ?(ci_eq_other k _ "name" Hk),
        ?(ci_eq_other k _ "threshold" Hk) by reflexivity;
      rewrite ?Hk
  end.

Section Lines.
Context (readdir : string -> option (list string)) (contents : string -> option (list Z)).

Lemma level_line cnt l lv v p w b :
  setting "level" l lv -> lower_bound cnt p w = Ok b ->
  exists t, parserTokenize (Some l) = Ok t /\
    threshold_line readdir contents cnt t v p w =
    Ok (Next, {| v_l_bound := b; v_h_bound := strtod lv; v_fade := v_fade v; v_path := v_path v |}, p, w).
Proof.
  intros (Hl & (H1 & H2 & H3) & k & Hw & Hk) Hb. destruct (two_tokens l k lv [] Hl Hw) as
    (t & t' & Ht & Ek & Ht' & Ev). exists t. split; [done|]. unfold threshold_line.
  rewrite Ek. keyword Hk. rewrite Ht'. cbn [mbind res_bind mret res_ret]. rewrite Hb.
  cbn [mbind res_bind mret res_ret]. rewrite Ev, H1. cbn [mbind res_bind mret res_ret]. rewrite Ev, H2.
  cbn [mbind res_bind mret res_ret]. by rewrite Ev, H3.
Qed.

Lemma path_line cnt l pth v p w d :
  setting "path" l pth -> sound_path p = Some d ->
  exists t, parserTokenize (Some l) = Ok t /\
    threshold_line readdir contents cnt t v p w =
    Ok (Next, {| v_l_bound := v_l_bound v; v_h_bound := v_h_bound v; v_fade := v_fade v;
                 v_path := Some (d +:+ pth) |}, p, w).
Proof.
  intros (Hl & (H1 & H2 & H3) & k & Hw & Hk) Hb. destruct (two_tokens l k pth [] Hl Hw) as
    (t & t' & Ht & Ek & Ht' & Ev). exists t. split; [done|]. unfold threshold_line.
  rewrite Ek. keyword Hk. cbn [mbind res_bind mret res_ret]. rewrite Ek. keyword Hk.
  rewrite Ht'. unfold full_path. rewrite Hb. cbn [mbind res_bind mret res_ret].
  rewrite Ev, H2. cbn [mbind res_bind mret res_ret]. by rewrite Ev, H3.
Qed.

Lemma fade_line cnt l fd v p w :
  setting "fade" l fd ->
  exists t, parserTokenize (Some l) = Ok t /\
    threshold_line readdir contents cnt t v p w =
    Ok (Next, {| v_l_bound := v_l_bound v; v_h_bound := v_h_bound v; v_fade := strtod fd;
                 v_path := v_path v |}, p, w).
Proof.
  intros (Hl & (H1 & H2 & H3) & k & Hw & Hk). destruct (two_tokens l k fd [] Hl Hw) as
    (t & t' & Ht & Ek & Ht' & Ev). exists t. split; [done|]. unfold threshold_line.
  rewrite Ek. keyword Hk. cbn [mbind res_bind mret res_ret]. rewrite Ek. keyword Hk.
  cbn [mbind res_bind mret res_ret]. rewrite Ek. keyword Hk.
  rewrite Ht'. cbn [mbind res_bind mret res_ret]. by rewrite Ev, H3.
Qed.

Lemma end_tokens w l :
  good_line l -> is_end w l = true ->
  exists t t', parserTokenize (Some l) = Ok t /\ ci_eq (token t) "end" = true /\
    parserTokenize (remainder t) = Ok t' /\ ci_eq (token t') w = true.
Proof.
  intros Hl He. unfold is_end in He. destruct (words l) as [|k [|v ws]] eqn:Hw; [done|done|].
  apply andb_true_iff in He as [Hk Hv]. destruct (two_tokens l k v ws Hl Hw) as
    (t & t' & Ht & <- & Ht' & <-). by eexists _, _.
Qed.

Lemma end_threshold_line cnt l v p w path :
  good_line l -> is_end "threshold" l = true -> v_path v = Some path ->
  d_eqb (v_h_bound v) d_zero = false ->
  exists t, parserTokenize (Some l) = Ok t /\
    threshold_line readdir contents cnt t v p w =
    ('(r, p, w) ← parserLoadStateSndDir readdir contents cnt (v_l_bound v) (v_h_bound v) path (v_fade v) p w;
     mret (Return (if r =? 0 then 0 else PARSER_SUCCESS), v, p, w)).
Proof.
  intros Hl He Hp Hh. destruct (end_tokens _ l Hl He) as (t & t' & Ht & Hk & Ht' & Hv).
  exists t. split; [done|]. unfold threshold_line. keyword Hk. cbn [mbind res_bind mret res_ret].
  keyword Hk. cbn [mbind res_bind mret res_ret]. keyword Hk. cbn [mbind res_bind mret res_ret].
  keyword Hk. rewrite Ht'. cbn [mbind res_bind]. by rewrite Hv, Hp, Hh.
Qed.

(** ** A whole threshold section *)

Record threshold_text : Type := {
  x_level : string;
  x_path : string;
  x_fade : string;
  x_head : string;
  x_lines : list string
}.

Definition text_ok (x : threshold_text) : Prop :=
  good_line (x_head x) /\ (exists k ws, words (x_head x) = k :: ws /\ ci_eq k "threshold" = true) /\
  d_eqb (strtod (x_level x)) d_zero = false /\
  exists l1 l2 l3 e, x_lines x = [l1; l2; l3; e] /\ setting "level" l1 (x_level x) /\
    setting "path" l2 (x_path x) /\ setting "fade" l3 (x_fade x) /\
    good_line e /\ is_end "threshold" e = true.

Lemma parse_threshold_Ok cnt x rest p w d b :
  text_ok x -> sound_path p = Some d -> lower_bound cnt p w = Ok b ->
  parserParseThreshold readdir contents cnt (concat_lines (x_lines x) +:+ rest) p w =
  ('(r, p, w) ← parserLoadStateSndDir readdir contents cnt b (strtod (x_level x)) (d +:+ x_path x)
                  (strtod (x_fade x)) p w;
   mret (Some (if r =? 0 then 0 else PARSER_SUCCESS), rest, p, w)).
Proof.
  intros (_ & _ & Hh & l1 & l2 & l3 & e & -> & H1 & H2 & H3 & Hge & He) Hd Hb.
  unfold parserParseThreshold. cbn [concat_lines]. rewrite !string_app_assoc.
  change ("" +:+ rest) with rest.
  assert (exists n, String.length (l1 +:+ l2 +:+ l3 +:+ e +:+ rest) = (3 + n)%nat) as [n ->].
  { rewrite !string_length_app. destruct H1 as [G1%good_line_length _], H2 as [G2%good_line_length _],
      H3 as [G3%good_line_length _].
    exists (String.length l1 + (String.length l2 + (String.length l3 + (String.length e +
      String.length rest))) - 3)%nat. lia. }
  cbn [threshold_loop Nat.add]. rewrite fgets_line by apply H1.
  destruct (level_line cnt l1 _ no_thresh_vars p w b H1 Hb) as (t1 & -> & E1).
  cbn [mbind res_bind]. rewrite E1. cbn [mbind res_bind]. rewrite fgets_line by apply H2.
  destruct (path_line cnt l2 _ {| v_l_bound := b; v_h_bound := strtod (x_level x);
    v_fade := v_fade no_thresh_vars; v_path := v_path no_thresh_vars |} p w d H2 Hd) as (t2 & -> & E2).
  cbn [mbind res_bind]. rewrite E2. cbn [mbind res_bind v_l_bound v_h_bound v_fade v_path].
  rewrite fgets_line by apply H3.
  destruct (fade_line cnt l3 _ {| v_l_bound := b; v_h_bound := strtod (x_level x);
    v_fade := v_fade no_thresh_vars; v_path := Some (d +:+ x_path x) |} p w H3) as (t3 & -> & E3).
  cbn [mbind res_bind]. rewrite E3. cbn [mbind res_bind v_l_bound v_h_bound v_fade v_path].
  rewrite fgets_line by done.
  destruct (end_threshold_line cnt e {| v_l_bound := b; v_h_bound := strtod (x_level x);
    v_fade := strtod (x_fade x); v_path := Some (d +:+ x_path x) |} p w _ Hge He eq_refl Hh)
    as (t4 & -> & E4).
  cbn [mbind res_bind]. rewrite E4. cbn [v_l_bound v_h_bound v_fade].
  by destruct (parserLoadStateSndDir _ _ _ _ _ _ _ _ _) as [[[r p'] w']| |].
Qed.
End Lines.

(** ** A whole state section *)

Section StateFacts.
Context (readdir : string -> option (list string)) (contents : string -> option (list Z)).

(** The thresholds of a section: each reaches from where the one before ends
    to its level; [d] is the sound path. *)
Fixpoint chain (d : string) (l : dbl) (xs : list threshold_text) : option (list THRESHOLD) :=
  match xs with
  | [] => Some []
  | x :: xs =>
      match dir_sounds readdir contents (d +:+ x_path x), chain d (strtod (x_level x)) xs with
      | Some s, Some ts => Some (loaded_threshold l (strtod (x_level x)) s :: ts)
      | _, _ => None
      end
  end.

Definition put_fades (j : Z) (xs : list threshold_text) (w : world) : world :=
  fold_left (fun w x => put_fade j (strtod (x_fade x)) w) xs w.

Definition section_lines (xs : list threshold_text) : list string :=
  mjoin ((fun x => x_head x :: x_lines x) <$> xs).

(** The upper bound of the last threshold. *)
Definition top (ts : list THRESHOLD) : dbl :=
  match last ts with Some t => h_bound t | None => d_zero end.

Lemma put_fade_frame w j v :
  sbuffs (put_fade j v w) = sbuffs w /\ mlock (put_fade j v w) = mlock w /\
  no_sbuffs (put_fade j v w) = no_sbuffs w /\ sound_table (put_fade j v w) = sound_table w.
Proof. unfold put_fade. destruct (lin_fade w) as [|fr|]; [done| |done]. by destruct (fr !! _). Qed.

Lemma ready_fade w j ts j' v : state_ready w j ts -> state_ready (put_fade j' v w) j ts.
Proof.
  unfold state_ready. destruct (put_fade_frame w j' v) as (-> & -> & _). done.
Qed.

Lemma put_thresholds_fade w j ts j' v :
  put_thresholds j ts (put_fade j' v w) = put_fade j' v (put_thresholds j ts w).
Proof.
  destruct w as [? [|sb|] ? ? ? ? ? ? ? ? [|fr|] ? ? ? ? ? ? ? ? ? ? ?]; try done;
    unfold put_thresholds, put_fade; cbn; try by destruct (sb !! _).
  - by destruct (fr !! _).
  - by destruct (sb !! _) eqn:E1, (fr !! _) eqn:E2; cbn; rewrite ?E1, ?E2.
  - by destruct (fr !! _).
Qed.

Lemma put_fades_cons j x xs w :
  put_fades j (x :: xs) w = put_fades j xs (put_fade j (strtod (x_fade x)) w).
Proof. done. Qed.

Lemma put_thresholds_fades w j ts j' xs :
  put_thresholds j ts (put_fades j' xs w) = put_fades j' xs (put_thresholds j ts w).
Proof.
  revert w. induction xs as [|x xs IH]; intros w; [done|]. rewrite !put_fades_cons.
  by rewrite IH, put_thresholds_fade.
Qed.

Lemma fades_ok_fade w j v : fades_ok w -> fades_ok (put_fade j v w).
Proof.
  intros (fr & Hf & Hl). unfold fades_ok, put_fade. rewrite Hf. destruct (fr !! Z.to_nat j); [|by exists fr].
  eexists. split; [done|]. by rewrite length_insert.
Qed.

Lemma fades_ok_put w j ts : fades_ok w -> fades_ok (put_thresholds j ts w).
Proof. unfold fades_ok. by destruct (put_frame w j ts) as (-> & -> & _). Qed.

(** The lower bound of the threshold behind [ts]. *)
Lemma lower_bound_Ok w j p (ts rest : list THRESHOLD) :
  state_ready w j (ts ++ rest) -> state_cnt p = j -> (0 < List.length rest)%nat ->
  lower_bound (Z.of_nat (List.length ts)) p w = Ok (top ts).
Proof.
  intros Hr Hj Hrest. unfold lower_bound, top. destruct ts as [|t ts _] using rev_ind; [done|].
  rewrite last_snoc, length_app. cbn [List.length].
  destruct (Z.ltb_spec 0 (Z.of_nat (List.length ts + 1))); [|lia].
  destruct (ready_sbuff _ _ _ Hr) as (b & Hb & Ht & _).
  destruct Hr as (sb & b' & Hs & Hj0 & Hb' & _ & Hc & _).
  assert (b' = b) as ->.
  { unfold sbuff, rd_at in Hb. rewrite Hs in Hb. cbn [deref mbind res_bind] in Hb.
    rewrite (proj2 (rd_Ok sb _ b')) in Hb by done. by injection Hb. }
  unfold mixerGetThresholdEntry. rewrite Hs, Hj. mstep Hb. rewrite Ht, Hc, !length_app. cbn [List.length].
  destruct (Z.leb_spec (Z.of_nat (List.length ts + 1 + List.length rest))
    (Z.of_nat (List.length ts + 1) - 1)); [lia|].
  replace (Z.of_nat (List.length ts + 1) - 1) with (Z.of_nat (List.length ts)) by lia.
  erewrite bind_Ok; [reflexivity|]. unfold lift. erewrite rd_nat; [reflexivity|].
  rewrite lookup_app_l by (rewrite length_app; simpl; lia).
  by rewrite lookup_app_r, Nat.sub_diag.
Qed.

Lemma head_line x v f p w :
  text_ok x ->
  exists t, parserTokenize (Some (x_head x)) = Ok t /\
    state_line readdir contents t v f p w =
    ('(r, f, p, w) ← parserParseThreshold readdir contents (t_count v) f p w;
     match r with
     | Some r => mret (if r =? 0 then Return PARSER_FAILURE else Next,
                       {| v_state_name := v_state_name v; t_count := t_count v + 1 |}, f, p, w)
     | None => mret (ShutDown, {| v_state_name := v_state_name v; t_count := t_count v + 1 |}, f, p, w)
     end).
Proof.
  intros (Hg & (k & ws & Hw & Hk) & _). apply good_line_blank in Hg.
  pose proof (tokenize_blank _ Hg) as H. rewrite Hw in H. destruct H as (r & -> & _).
  eexists. split; [done|]. unfold state_line. cbn [token remainder]. keyword Hk.
  cbn [mbind res_bind mret res_ret token remainder]. keyword Hk.
  destruct (parserParseThreshold _ _ _ _ _ _) as [[[[[r0|] f'] p'] w']| |];
    cbn [mbind res_bind mret res_ret]; try done.
  destruct (r0 =? 0); [done|]. cbn [token]. by keyword Hk.
Qed.

Lemma end_state_line l v f p w nm :
  good_line l -> is_end "state" l = true -> v_state_name v = Some nm ->
  exists t, parserTokenize (Some l) = Ok t /\
    state_line readdir contents t v f p w =
    (w ← insert_state nm {| mixer_index := state_cnt p |} w;
     mret (Return PARSER_SUCCESS, v, f, with_state_cnt p (i32 (state_cnt p + 1)), w)).
Proof.
  intros Hl He Hn. destruct (end_tokens _ l Hl He) as (t & t' & Ht & Hk & Ht' & Hv).
  exists t. split; [done|]. unfold state_line. keyword Hk. cbn [mbind res_bind mret res_ret].
  keyword Hk. cbn [mbind res_bind mret res_ret]. keyword Hk. rewrite Ht'. cbn [mbind res_bind].
  by rewrite Hv, Hn.
Qed.

Lemma concat_lines_app l k : concat_lines (l ++ k) = concat_lines l +:+ concat_lines k.
Proof. induction l as [|a l IH]; [done|]. cbn [app concat_lines]. by rewrite IH, string_app_assoc. Qed.

Lemma section_text x xs tl :
  concat_lines (section_lines (x :: xs)) +:+ tl =
  x_head x +:+ concat_lines (x_lines x) +:+ concat_lines (section_lines xs) +:+ tl.
Proof.
  unfold section_lines. cbn [fmap list_fmap mjoin list_join app concat_lines].
  by rewrite concat_lines_app, !string_app_assoc.
Qed.

Lemma state_loop_spec fuel xs dn ts w j p d nm e rest :
  Forall text_ok xs -> good_line e -> is_end "state" e = true ->
  state_ready w j (dn ++ replicate (List.length xs) zero_threshold) -> fades_ok w ->
  state_cnt p = j -> j < no_sbuffs w -> j < 2 ^ 32 -> sound_path p = Some d ->
  chain d (top dn) xs = Some ts ->
  (String.length (concat_lines (section_lines xs) +:+ e +:+ rest) < fuel)%nat ->
  state_loop readdir contents fuel {| v_state_name := Some nm; t_count := Z.of_nat (List.length dn) |}
    (concat_lines (section_lines xs) +:+ e +:+ rest) p w =
  (w ← insert_state nm {| mixer_index := j |} (put_fades j xs (put_thresholds j (dn ++ ts) w));
   mret (Some PARSER_SUCCESS, rest, with_state_cnt p (i32 (j + 1)), w)).
Proof.
  intros Hxs Hge He Hr Hf Hj Hjn Hj32 Hd. revert fuel dn ts w Hr Hf Hjn.
  induction Hxs as [|x xs Hx Hxs IH]; intros fuel dn ts w Hr Hf Hjn Hc Hfuel;
    (destruct fuel as [|fuel]; [lia|]); cbn [state_loop].
  - injection Hc as <-. change (concat_lines (section_lines []) +:+ e +:+ rest) with (e +:+ rest).
    rewrite fgets_line by done.
    destruct (end_state_line e {| v_state_name := Some nm; t_count := Z.of_nat (List.length dn) |}
      rest p w nm Hge He eq_refl) as (t & -> & E). cbn [mbind res_bind]. rewrite E, Hj.
    cbn [put_fades fold_left]. rewrite app_nil_r in Hr |- *. rewrite put_same by done.
    by destruct (insert_state nm {| mixer_index := j |} w).
  - cbn [chain] in Hc. destruct (dir_sounds readdir contents (d +:+ x_path x)) as [s|] eqn:Es; [|done].
    destruct (chain d (strtod (x_level x)) xs) as [ts'|] eqn:Ec; [|done]. injection Hc as <-.
    rewrite section_text in Hfuel |- *. rewrite fgets_line by apply Hx.
    destruct (head_line x {| v_state_name := Some nm; t_count := Z.of_nat (List.length dn) |}
      (concat_lines (x_lines x) +:+ concat_lines (section_lines xs) +:+ e +:+ rest) p w Hx) as (t & -> & E).
    cbn [mbind res_bind]. rewrite E. cbn [t_count v_state_name].
    rewrite (parse_threshold_Ok _ _ _ x _ p w d (top dn) Hx Hd)
      by (eapply lower_bound_Ok; [exact Hr|done|simpl; lia]).
    rewrite (load_state_dir_Ok _ _ w j _ (List.length dn) _ _ _ _ s p Hr)
      by (done || (rewrite length_app; simpl; lia)).
    cbn [mbind res_bind mret res_ret]. change (PARSER_SUCCESS =? 0) with false. cbn iota.
    rewrite insert_app_r_alt by lia. rewrite Nat.sub_diag.
    change (<[0%nat := ?y]> (replicate (List.length (x :: xs)) zero_threshold))
      with (y :: replicate (List.length xs) zero_threshold).
    set (th := loaded_threshold (top dn) (strtod (x_level x)) s).
    replace (Z.of_nat (List.length dn) + 1) with (Z.of_nat (List.length (dn ++ [th])))
      by (rewrite length_app; simpl; lia).
    change (th :: replicate (List.length xs) zero_threshold)
      with ([th] ++ replicate (List.length xs) zero_threshold). rewrite app_assoc.
    set (w1 := put_fade j (strtod (x_fade x)) (put_thresholds j _ w)).
    assert (Hr1 : state_ready w1 j ((dn ++ [th]) ++ replicate (List.length xs) zero_threshold)).
    { apply ready_fade, (ready_put _ _ _ _ Hr). rewrite !length_app, !length_replicate. simpl. lia. }
    rewrite (IH fuel (dn ++ [th]) ts' w1 Hr1).
    + unfold w1. rewrite put_thresholds_fade, put_put, <- app_assoc, put_fades_cons.
      by destruct (insert_state _ _ _).
    + by apply fades_ok_fade, fades_ok_put.
    + unfold w1. destruct (put_fade_frame (put_thresholds j ((dn ++ [th]) ++
        replicate (List.length xs) zero_threshold) w) j (strtod (x_fade x))) as (_ & _ & -> & _).
      by destruct (put_frame w j ((dn ++ [th]) ++ replicate (List.length xs) zero_threshold)) as (-> & _).
    + unfold top. rewrite last_snoc. done.
    + rewrite !string_length_app in *. destruct Hx as [Hx%good_line_length _]. lia.
Qed.
End StateFacts.

(** ** The look ahead *)

(** The count after a line. *)
Definition counted (l : string) (n : Z) : Z :=
  match words l with k :: _ => if ci_eq k "threshold" then i32 (n + 1) else n | [] => n end.

Lemma count_step fuel l rest pos n :
  good_line l ->
  count_loop (S fuel) (l +:+ rest) pos n =
  if is_end "state" l then Ok (n, pos) else count_loop fuel rest pos (counted l n).
Proof.
  intros Hl. cbn [count_loop]. rewrite fgets_line by done. apply good_line_blank in Hl.
  pose proof (tokenize_blank l Hl) as H. unfold is_end, counted. destruct (words l) as [|k ws].
  { rewrite H. done. }
  destruct H as (r & -> & <- & Hb & _). cbn [mbind res_bind token remainder].
  destruct (ci_eq k "end") eqn:Ek; [|by destruct (words r)].
  rewrite (ci_eq_other k "end" "threshold") by done.
  pose proof (tokenize_blank r Hb) as H. destruct (words r) as [|v ws].
  - rewrite H. done.
  - destruct H as (r' & -> & _). cbn [mbind res_bind token]. by destruct (ci_eq v "state").
Qed.

Lemma count_loop_spec ls e rest pos n fuel :
  Forall good_line ls -> Forall (fun l => is_end "state" l = false) ls ->
  good_line e -> is_end "state" e = true ->
  (List.length ls < fuel)%nat ->
  count_loop fuel (concat_lines ls +:+ e +:+ rest) pos n = Ok (fold_left (fun n l => counted l n) ls n, pos).
Proof.
  intros Hls Hn He Hend. revert fuel n. induction Hls as [|l ls Hl _ IH]; intros fuel n Hf;
    (destruct fuel as [|fuel]; [simpl in Hf; lia|]).
  - change (concat_lines [] +:+ e +:+ rest) with (e +:+ rest). by rewrite count_step, Hend.
  - apply Forall_cons in Hn as [Hnl Hn]. cbn [concat_lines]. rewrite string_app_assoc, count_step by done.
    rewrite Hnl. apply IH; [done|]. simpl in Hf. lia.
Qed.

(** On whole lines the look ahead always comes to an end. *)
Lemma count_loop_total ls pos n fuel :
  Forall good_line ls -> (List.length ls < fuel)%nat ->
  exists r, count_loop fuel (concat_lines ls) pos n = Ok r.
Proof.
  intros Hls. revert fuel n. induction Hls as [|l ls Hl _ IH]; intros fuel n Hf;
    (destruct fuel as [|fuel]; [simpl in Hf; lia|]); [by eexists|].
  cbn [concat_lines]. rewrite count_step by done. destruct (is_end "state" l); [by eexists|].
  apply IH. simpl in Hf. lia.
Qed.

Lemma lines_length ls : Forall good_line ls -> (List.length ls <= String.length (concat_lines ls))%nat.
Proof.
  induction 1 as [|l ls Hl _ IH]; [simpl; lia|]. cbn [concat_lines List.length].
  rewrite string_length_app. apply good_line_length in Hl. lia.
Qed.

(** The lines of a threshold section: one of them starts it, none ends the state. *)
Lemma text_lines x :
  text_ok x ->
  Forall good_line (x_head x :: x_lines x) /\
  Forall (fun l => is_end "state" l = false) (x_head x :: x_lines x) /\
  forall n, fold_left (fun n l => counted l n) (x_head x :: x_lines x) n = i32 (n + 1).
Proof.
  intros (Hh & (k & ws & Hw & Hk) & _ & l1 & l2 & l3 & e & -> & S1 & S2 & S3 & Hge & He).
  assert (Hs : forall key l v, setting key l v -> ci_eq key "end" = false -> ci_eq key "threshold" = false ->
    good_line l /\ is_end "state" l = false /\ forall n, counted l n = n).
  { intros key l v (Hl & _ & k' & Hw' & Hk') He1 Ht1. split; [done|]. unfold is_end, counted. rewrite Hw'.
    rewrite (ci_eq_other k' key "end"), (ci_eq_other k' key "threshold") by done. done. }
  destruct (Hs _ _ _ S1 eq_refl eq_refl) as (? & ? & C1), (Hs _ _ _ S2 eq_refl eq_refl) as (? & ? & C2),
    (Hs _ _ _ S3 eq_refl eq_refl) as (? & ? & C3).
  assert (is_end "state" e = false /\ forall n, counted e n = n) as [? C4].
  { unfold is_end, counted in *. destruct (words e) as [|a [|b us]]; [done|done|].
    apply andb_true_iff in He as [Ha Hb]. rewrite Ha, (ci_eq_other a "end" "threshold") by done.
    by rewrite (ci_eq_other b "threshold" "state"). }
  split; [by repeat constructor|]. split.
  - constructor; [|by repeat constructor]. unfold is_end. rewrite Hw. destruct ws; [done|].
    by rewrite (ci_eq_other k "threshold" "end").
  - intros n. cbn [fold_left]. rewrite C4, C3, C2, C1. unfold counted. by rewrite Hw, Hk.
Qed.

Lemma section_counts xs n :
  Forall text_ok xs -> 0 <= n -> n + Z.of_nat (List.length xs) < 2 ^ 31 ->
  Forall good_line (section_lines xs) /\ Forall (fun l => is_end "state" l = false) (section_lines xs) /\
  fold_left (fun n l => counted l n) (section_lines xs) n = n + Z.of_nat (List.length xs).
Proof.
  intros Hxs. revert n. induction Hxs as [|x xs Hx _ IH]; intros n Hn Hb.
  { repeat split; try constructor. simpl. lia. }
  destruct (text_lines x Hx) as (H1 & H2 & H3). simpl in Hb.
  destruct (IH (n + 1)) as (H4 & H5 & H6); [lia..|].
  change (section_lines (x :: xs)) with ((x_head x :: x_lines x) ++ section_lines xs).
  rewrite !Forall_app. split; [done|]. split; [done|].
  rewrite fold_left_app, H3, i32_small, H6 by lia. simpl. lia.
Qed.

Lemma alloc_state_Ok w sb j b n :
  sbuffs w = PLive sb -> 0 <= j -> sb !! Z.to_nat j = Some b -> thresh b = None -> mlock w = false ->
  mixerAllocNewState true j n w =
  Ok (MIXER_SUCCESS, set_loaded (i32 (mixer_loaded_states w + 1)) (set_sbuffs (PLive (<[Z.to_nat j :=
    {| thresh := Some (replicate (Z.to_nat n) zero_threshold); thresh_cnt := n; st_stereo_pos := d_half;
       st_vol := st_vol b; st_filter_flag := st_filter_flag b |}]> sb)) w)).
Proof.
  intros Hs Hj Hb Ht Hl. unfold mixerAllocNewState.
  mstep (rd_at_Ok sbuffs w sb j b Hs Hj Hb). rewrite Ht.
  erewrite bind_Ok by (unfold lock_mixer; rewrite Hl; reflexivity).
  erewrite bind_Ok by (apply wr_at_Ok; [exact Hs|apply lookup_lt_Some in Hb; lia]).
  erewrite bind_Ok by reflexivity. erewrite bind_Ok by reflexivity.
  unfold mret, M_ret. destruct w; simpl in *. by subst.
Qed.

(** The fade time that counts is the last one. *)
Lemma put_fades_last j xs w fr f :
  lin_fade w = PLive fr -> fr !! Z.to_nat j = Some f ->
  exists fr' f', lin_fade (put_fades j xs w) = PLive fr' /\ fr' !! Z.to_nat j = Some f' /\
    fade_time f' = default (fade_time f) ((fun x => strtod (x_fade x)) <$> last xs) /\
    sbuffs (put_fades j xs w) = sbuffs w /\ sound_table (put_fades j xs w) = sound_table w.
Proof.
  revert w fr f. induction xs as [|x xs IH]; intros w fr f Hf Hj; [by exists fr, f|].
  rewrite put_fades_cons. set (f1 := {| fade_time := strtod (x_fade x); f_snd := f_snd f;
    f_pos := f_pos f; old_thresh := old_thresh f |}).
  assert (lin_fade (put_fade j (strtod (x_fade x)) w) = PLive (<[Z.to_nat j := f1]> fr)) as H1.
  { unfold put_fade. by rewrite Hf, Hj. }
  destruct (IH _ _ f1 H1) as (fr' & f' & -> & Hf' & Ht & Hs & Hst).
  { by apply list_lookup_insert_eq; eapply lookup_lt_Some. }
  destruct (put_fade_frame w j (strtod (x_fade x))) as (E1 & _ & _ & E2).
  exists fr', f'. rewrite Hs, Hst, E1, E2. split_and!; try done. rewrite Ht, last_cons.
  by destruct (last xs).
Qed.

(** The look ahead over a whole section, from its first line on. *)
Lemma section_looked_ahead l1 k1 nm xs e rest :
  good_line l1 -> words l1 = [k1; nm] -> ci_eq k1 "name" = true ->
  Forall text_ok xs -> good_line e -> is_end "state" e = true -> Z.of_nat (List.length xs) < 2 ^ 31 ->
  let f := l1 +:+ concat_lines (section_lines xs) +:+ e +:+ rest in
  count_loop (S (String.length f)) f f 0 = Ok (Z.of_nat (List.length xs), f).
Proof.
  intros Hl1 Hw1 Hk1 Hxs Hge He Hlen f.
  destruct (section_counts xs 0 Hxs ltac:(lia) ltac:(lia)) as (G1 & G2 & G3).
  assert (G1' : Forall good_line (l1 :: section_lines xs)) by by constructor.
  assert (Ef : f = concat_lines (l1 :: section_lines xs) +:+ e +:+ rest)
    by (cbn [concat_lines]; by rewrite string_app_assoc).
  rewrite Ef at 2. rewrite count_loop_spec; try done.
  - cbn [fold_left]. assert (counted l1 0 = 0) as ->.
    { unfold counted. rewrite Hw1. by rewrite (ci_eq_other k1 "name" "threshold"). }
    rewrite G3. done.
  - constructor; [|done]. unfold is_end. rewrite Hw1. by rewrite (ci_eq_other k1 "name" "end").
  - rewrite Ef, !string_length_app. pose proof (lines_length _ G1'). lia.
Qed.

Lemma chain_thresholds readdir contents d xs : forall z ts,
  chain readdir contents d z xs = Some ts -> List.length ts = List.length xs.
Proof.
  induction xs as [|x xs IH]; intros z ts Hc; [by injection Hc as <-|].
  cbn [chain] in Hc. destruct (dir_sounds _ _ _); [|done].
  destruct (chain _ _ _ (strtod (x_level x)) xs) eqn:E; [|done]. injection Hc as <-. simpl.
  by rewrite (IH _ _ E).
Qed.

(** C37: a state section with a name and thresholds: the state of the next
    index gets one threshold for each section, which reaches from the level
    of the one before to its own and has the sounds of its directory, in
    ascending order of the file names; the fade time is that of the last
    threshold; the name is entered into the sound table with the index. *)
Theorem parserParseState_loads (readdir : string -> option (list string))
    (contents : string -> option (list Z)) (l1 k1 nm e rest d : string) (xs : list threshold_text)
    (ts : list THRESHOLD) (p : parser) (w : world) (sb : list STATE_BUF) (b : STATE_BUF) (fr : list FADE_REC) :
  good_line l1 -> words l1 = [k1; nm] -> ci_eq k1 "name" = true ->
  ci_eq nm "threshold" = false -> ci_eq nm "end" = false ->
  Forall text_ok xs -> good_line e -> is_end "state" e = true ->
  sbuffs w = PLive sb -> lin_fade w = PLive fr -> mlock w = false ->
  Z.of_nat (List.length sb) = no_sbuffs w -> List.length fr = List.length sb -> no_sbuffs w < 2 ^ 31 ->
  0 <= state_cnt p -> sb !! Z.to_nat (state_cnt p) = Some b -> thresh b = None ->
  sound_path p = Some d -> chain readdir contents d d_zero xs = Some ts ->
  Z.of_nat (List.length xs) < 2 ^ 31 ->
  exists w1,
    parserParseState readdir contents (l1 +:+ concat_lines (section_lines xs) +:+ e +:+ rest) p w =
      (w2 ← insert_state nm {| mixer_index := state_cnt p |} w1;
       mret (Some PARSER_SUCCESS, rest, with_state_cnt p (i32 (state_cnt p + 1)), w2)) /\
    sbuffs w1 = PLive (<[Z.to_nat (state_cnt p) :=
      {| thresh := Some ts; thresh_cnt := Z.of_nat (List.length xs); st_stereo_pos := d_half;
         st_vol := st_vol b; st_filter_flag := st_filter_flag b |}]> sb) /\
    (exists fr' f, lin_fade w1 = PLive fr' /\ fr' !! Z.to_nat (state_cnt p) = Some f /\
       forall x, last xs = Some x -> fade_time f = strtod (x_fade x)) /\
    sound_table w1 = sound_table w.
Proof.
  intros Hl1 Hw1 Hk1 Hn1 Hn2 Hxs Hge He Hs Hf Hlock Hsb Hfr Hno Hj Hb Ht Hd Hc Hlen.
  set (j := state_cnt p) in *. pose proof (lookup_lt_Some _ _ _ Hb) as Hjlt.
  set (w0 := set_loaded (i32 (mixer_loaded_states w + 1)) (set_sbuffs (PLive (<[Z.to_nat j :=
    {| thresh := Some (replicate (List.length xs) zero_threshold);
       thresh_cnt := Z.of_nat (List.length xs); st_stereo_pos := d_half;
       st_vol := st_vol b; st_filter_flag := st_filter_flag b |}]> sb)) w)).
  assert (Hr : state_ready w0 j ([] ++ replicate (List.length xs) zero_threshold)).
  { eexists _, _. split; [reflexivity|]. split; [done|].
    rewrite list_lookup_insert_eq by done. split; [done|]. cbn. rewrite length_replicate. done. }
  destruct (lookup_lt_is_Some_2 fr (Z.to_nat j)) as [f0 Hf0]; [lia|].
  pose proof (chain_thresholds _ _ _ _ _ _ Hc) as Hts.
  set (w1 := put_thresholds j ([] ++ ts) w0).
  assert (Hw1s : sbuffs w1 = PLive (<[Z.to_nat j :=
      {| thresh := Some ts; thresh_cnt := Z.of_nat (List.length xs); st_stereo_pos := d_half;
         st_vol := st_vol b; st_filter_flag := st_filter_flag b |}]> sb)).
  { unfold w1, put_thresholds, w0. cbn [sbuffs set_sbuffs set_loaded].
    rewrite list_lookup_insert_eq by done. cbn [sbuffs set_sbuffs]. by rewrite list_insert_insert_eq. }
  destruct (put_frame w0 j ([] ++ ts)) as (_ & Hw1f & Hw1t). fold w1 in Hw1f, Hw1t.
  destruct (put_fades_last j xs w1 fr f0) as (fr' & f' & Hf1 & Hf2 & Hf3 & Hf4 & Hf5);
    [by rewrite Hw1f|done|].
  exists (put_fades j xs w1). split; [|split; [by rewrite Hf4|split; [|by rewrite Hf5]]].
  2:{ exists fr', f'. split; [done|]. split; [done|]. intros x Hx. by rewrite Hf3, Hx. }
  unfold parserParseState. rewrite (section_looked_ahead l1 k1 nm) by done. cbn [mbind res_bind].
  rewrite (alloc_state_Ok w sb j b _ Hs Hj Hb Ht Hlock). cbn [mbind res_bind].
  rewrite Nat2Z.id. fold w0. cbn [state_loop].
  rewrite fgets_line by done.
  destruct (two_tokens l1 k1 nm [] Hl1 Hw1) as (t & t' & -> & Ek & Ht' & Ev). cbn [mbind res_bind].
  unfold state_line at 1. rewrite Ek. keyword Hk1. rewrite Ht'. cbn [mbind res_bind mret res_ret].
  rewrite Ev, Hn1. cbn [mbind res_bind mret res_ret]. rewrite Hn2. cbn [mbind res_bind mret res_ret t_count].
  change 0 with (Z.of_nat (List.length (@nil THRESHOLD))).
  rewrite (state_loop_spec readdir contents _ xs [] ts w0 j p d nm e rest); try done; cbn [no_sbuffs w0].
  - exists fr. split; [exact Hf|cbn; lia].
  - cbn. lia.
  - lia.
  - rewrite !string_length_app. apply good_line_length in Hl1. lia.
Qed.

(** C38: one state section too many: whatever whole lines follow, the mixer is
    asked for a buffer behind the last one, before the number of buffers is
    looked at. *)
Theorem parserParseState_too_many (readdir : string -> option (list string))
    (contents : string -> option (list Z)) (ls : list string) (p : parser) (w : world)
    (sb : list STATE_BUF) :
  Forall good_line ls -> sbuffs w = PLive sb -> Z.of_nat (List.length sb) <= state_cnt p ->
  parserParseState readdir contents (concat_lines ls) p w = Fault OutOfBounds.
Proof.
  intros Hls Hs Hj. unfold parserParseState. pose proof (lines_length ls Hls).
  destruct (count_loop_total ls (concat_lines ls) 0 (S (String.length (concat_lines ls))) Hls)
    as [[n f] ->]; [lia|]. cbn [mbind res_bind]. unfold mixerAllocNewState.
  assert (sbuff (state_cnt p) w = Fault OutOfBounds) as Hb.
  { unfold sbuff, rd_at. rewrite Hs. cbn [deref mbind res_bind]. by rewrite rd_out by lia. }
  by rewrite (bind_Fault _ _ _ _ Hb).
Qed.

(** ** The loops end *)

Lemma fgets_chars_length n f l r :
  fgets_chars n f = (l, r) -> String.length f = (String.length l + String.length r)%nat.
Proof.
  revert f l r. induction n as [|n IH]; intros f l r; cbn [fgets_chars].
  { intros [= <- <-]. done. }
  destruct f as [|c f]; [by intros [= <- <-]|].
  case_bool_decide; [by intros [= <- <-]|]. destruct (fgets_chars n f) as [l' r'] eqn:E.
  intros [= <- <-]. simpl. by rewrite (IH _ _ _ E).
Qed.

Lemma fgets_shorter f l r : fgets f = Some (l, r) -> (String.length r < String.length f)%nat.
Proof.
  unfold fgets. destruct f as [|c f]; [done|].
  assert (H : exists n, (PARSER_BUFFER_LEN - 1)%nat = S n) by by exists 1022%nat.
  destruct H as [n ->]. intros H. assert (H' : fgets_chars (S n) (String c f) = (l, r)) by congruence.
  pose proof (fgets_chars_length _ _ _ _ H') as E. cbn [fgets_chars] in H'.
  assert (0 < String.length l)%nat; [|lia]. case_bool_decide; [|destruct (fgets_chars n f)];
    injection H' as <- _; simpl; lia.
Qed.

Lemma some_ptr_returns {A} (q : option A) : returns (some_ptr q).
Proof. by destruct q. Qed.

(** [m_returns]: go through a program without loops. *)
Ltac m_returns :=
  repeat first
  [ (intros ?; discriminate)
  | apply M_bind_returns; [|intros ? ?]
  | apply bind_returns; [|intros ? ?]
  | apply lift_returns | apply rd_returns | apply wr_returns | apply deref_returns
  | apply some_ptr_returns
  | match goal with
    | |- returns ((match ?x with _ => _ end) _) => destruct x
    | |- returns (match ?x with _ => _ end) => destruct x
    end
  | progress unfold gets, modify, lock_mixer, unlock_mixer, rd_at, wr_at, sbuff, set_sbuff,
      threadLock, threadUnlock, get_state_snd, put_state_snd ].

Lemma addThreshold_returns j k l h n w : returns (mixerAddStateThreshold true true j k l h n w).
Proof. unfold mixerAddStateThreshold. m_returns. Qed.
Lemma addState_returns j k i s l w : returns (mixerAddState j k i s l w).
Proof. unfold mixerAddState. m_returns. Qed.
Lemma allocState_returns j n w : returns (mixerAllocNewState true j n w).
Proof. unfold mixerAllocNewState. m_returns. Qed.
Lemma setFade_returns j v w : returns (mixerSetFadeTime j v w).
Proof. unfold mixerSetFadeTime. m_returns. Qed.
Lemma thresholdEntry_returns j i w : returns (mixerGetThresholdEntry j i w).
Proof. unfold mixerGetThresholdEntry. m_returns. Qed.
Lemma tokenize_returns r : returns (parserTokenize r).
Proof. by destruct r. Qed.

Section Returns.
Context (readdir : string -> option (list string)) (contents : string -> option (list Z)).

Lemma state_load_returns names dir j k i w : returns (state_load_loop contents names dir j k i w).
Proof.
  revert i w. induction names as [|n names IH]; intros i w; cbn [state_load_loop]; [by m_returns|].
  destruct (_ || _); [apply IH|]. destruct (parserLoadSoundFile _ _) as [[s l]|]; [|by m_returns].
  apply M_bind_returns; [apply addState_returns|]. intros _ w'. apply IH.
Qed.

Lemma load_state_dir_returns cnt l h dir fade p w :
  returns (parserLoadStateSndDir readdir contents cnt l h dir fade p w).
Proof.
  unfold parserLoadStateSndDir. case_match; [done|]. case_match; [|done].
  apply bind_returns; [apply addThreshold_returns|intros [_ w1] _].
  apply bind_returns; [apply state_load_returns|intros [ok w2] _]. destruct ok; [|done].
  apply bind_returns; [apply setFade_returns|by intros [_ w3] _].
Qed.

Lemma threshold_line_returns cnt t v p w : returns (threshold_line readdir contents cnt t v p w).
Proof.
  assert (Hlb : returns (lower_bound cnt p w)).
  { unfold lower_bound. case_match; [|done]. apply bind_returns; [apply thresholdEntry_returns|].
    intros [e w'] _. apply bind_returns; [apply some_ptr_returns|done]. }
  unfold threshold_line. case_match; [done|].
  apply bind_returns; [|intros [t1 v1] _].
  { case_match; [|done]. apply bind_returns; [apply tokenize_returns|intros t1 _].
    by apply bind_returns. }
  apply bind_returns; [|intros [t2 v2] _].
  { case_match; [|done]. apply bind_returns; [apply tokenize_returns|intros t2 _].
    apply bind_returns; [unfold full_path; by case_match|done]. }
  apply bind_returns; [|intros [t3 v3] _].
  { case_match; [|done]. apply bind_returns; [apply tokenize_returns|done]. }
  case_match; [|done]. apply bind_returns; [apply tokenize_returns|intros t4 _].
  repeat case_match; try done. apply bind_returns; [apply load_state_dir_returns|by intros [[r q] w'] _].
Qed.

Lemma threshold_loop_returns fuel cnt f v p w :
  (String.length f < fuel)%nat ->
  returns (threshold_loop readdir contents fuel cnt f v p w) /\
  forall r f' p' w', threshold_loop readdir contents fuel cnt f v p w = Ok (r, f', p', w') ->
    (String.length f' <= String.length f)%nat.
Proof.
  revert f v p w. induction fuel as [|fuel IH]; intros f v p w Hf; [lia|]. cbn [threshold_loop].
  destruct (fgets f) as [[l f1]|] eqn:E; [|split; [done|by intros ? ? ? ? [= _ <- _ _]]].
  apply fgets_shorter in E. pose proof (tokenize_returns (Some l)).
  destruct (parserTokenize (Some l)) as [t| |]; cbn [mbind res_bind]; [|done|done].
  pose proof (threshold_line_returns cnt t v p w).
  destruct (threshold_line readdir contents cnt t v p w) as [[[[[|r|] v'] p'] w']| |];
    cbn [mbind res_bind mret res_ret]; [|split; [done|by intros ? ? ? ? [= _ <- _ _]; lia]..|done|done].
  destruct (IH f1 v' p' w') as [H1 H2]; [lia|]. split; [done|]. intros r f' p1 w1 H3%H2. lia.
Qed.

Lemma state_line_returns t v f p w :
  returns (state_line readdir contents t v f p w) /\
  forall r v' f' p' w', state_line readdir contents t v f p w = Ok (r, v', f', p', w') ->
    (String.length f' <= String.length f)%nat.
Proof.
  unfold state_line. case_match; [split; [done|by intros ? ? ? ? ? [= _ _ <- _ _]]|].
  set (m1 := if ci_eq (token t) "name" then _ else _). assert (H1 : returns m1).
  { unfold m1. case_match; [|done]. by apply bind_returns; [apply tokenize_returns|]. }
  clearbody m1. destruct m1 as [[t1 v1]| |]; cbn [mbind res_bind]; [|done|done].
  set (m2 := if ci_eq (token t1) "threshold" then _ else _).
  assert (H2 : returns m2 /\ forall r v' f' p' w', m2 = Ok (r, v', f', p', w') ->
    (String.length f' <= String.length f)%nat).
  { unfold m2. case_match; [|split; [done|by intros ? ? ? ? ? [= _ _ <- _ _]]].
    destruct (threshold_loop_returns (S (String.length f)) (t_count v1) f no_thresh_vars p w) as [H3 H4]; [lia|].
    fold (parserParseThreshold readdir contents (t_count v1) f p w) in H3, H4.
    destruct (parserParseThreshold readdir contents (t_count v1) f p w) as [[[[r f'] p'] w']| |];
      cbn [mbind res_bind mret res_ret]; [|done|done]. split; [done|].
    intros ? ? ? ? ? [= _ _ <- _ _]. by eapply H4. }
  clearbody m2. destruct H2 as [H2 H3]. destruct m2 as [[[[[[|r|] v2] f2] p2] w2]| |];
    cbn [mbind res_bind mret res_ret]; try done; specialize (H3 _ _ _ _ _ eq_refl);
    try by (split; [done|intros ? ? ? ? ? [= _ _ <- _ _]; lia]).
  case_match; [|by split; [done|intros ? ? ? ? ? [= _ _ <- _ _]]].
  pose proof (tokenize_returns (remainder t1)).
  destruct (parserTokenize (remainder t1)) as [t2| |]; cbn [mbind res_bind]; [|done|done].
  case_match; [|by split; [done|intros ? ? ? ? ? [= _ _ <- _ _]]].
  destruct (v_state_name v2) as [nm|]; [|by split; [done|intros ? ? ? ? ? [= _ _ <- _ _]]].
  cbn [engineAllocStateEntry]. assert (Hins : returns (insert_state nm {| mixer_index := state_cnt p2 |} w2)).
  { unfold insert_state, engineSoundTableInsertState, engineSoundTableInsert.
    apply bind_returns; [m_returns|by intros []]. }
  destruct (insert_state nm {| mixer_index := state_cnt p2 |} w2); cbn [mbind res_bind mret res_ret];
    [|done|done]. by split; [done|intros ? ? ? ? ? [= _ _ <- _ _]].
Qed.

Lemma count_loop_returns fuel f pos n :
  (String.length f < fuel)%nat -> (String.length f <= String.length pos)%nat ->
  returns (count_loop fuel f pos n) /\
  forall r f', count_loop fuel f pos n = Ok (r, f') -> (String.length f' <= String.length pos)%nat.
Proof.
  revert f n. induction fuel as [|fuel IH]; intros f n Hf Hp; [lia|]. cbn [count_loop].
  destruct (fgets f) as [[l f1]|] eqn:E; [|split; [done|by intros ? ? [= _ <-]]].
  apply fgets_shorter in E. pose proof (tokenize_returns (Some l)).
  destruct (parserTokenize (Some l)) as [t| |]; cbn [mbind res_bind]; [|done|done].
  case_match; [|apply IH; lia]. pose proof (tokenize_returns (remainder t)).
  destruct (parserTokenize (remainder t)) as [t1| |]; cbn [mbind res_bind]; [|done|done].
  case_match; [|apply IH; lia]. split; [done|]. by intros ? ? [= _ <-].
Qed.

Lemma state_loop_returns fuel v f p w :
  (String.length f < fuel)%nat -> returns (state_loop readdir contents fuel v f p w).
Proof.
  revert v f p w. induction fuel as [|fuel IH]; intros v f p w Hf; [lia|]. cbn [state_loop].
  destruct (fgets f) as [[l f1]|] eqn:E; [|done].
  apply fgets_shorter in E. pose proof (tokenize_returns (Some l)).
  destruct (parserTokenize (Some l)) as [t| |]; cbn [mbind res_bind]; [|done|done].
  destruct (state_line_returns t v f1 p w) as [H1 H2].
  destruct (state_line readdir contents t v f1 p w) as [[[[[[|r|] v'] f'] p'] w']| |];
    cbn [mbind res_bind mret res_ret]; try done.
  apply IH. specialize (H2 _ _ _ _ _ eq_refl). lia.
Qed.
End Returns.

(** A state section is parsed in finitely many steps, whatever the text:
    the look ahead, the section and its thresholds come to an end, with a
    result or at undefined behaviour. *)
Theorem parserParseState_returns (readdir : string -> option (list string))
    (contents : string -> option (list Z)) (f : string) (p : parser) (w : world) :
  returns (parserParseState readdir contents f p w).
Proof.
  unfold parserParseState.
  destruct (count_loop_returns (S (String.length f)) f f 0) as [H1 H2]; [lia..|].
  apply bind_returns; [done|]. intros [n f'] Hc. apply H2 in Hc.
  apply bind_returns; [apply allocState_returns|intros [_ w'] _].
  apply state_loop_returns. lia.
Qed.

(** ** Witnesses *)

Definition demo_sbuf : STATE_BUF :=
  {| thresh := None; thresh_cnt := 0; st_stereo_pos := d_zero; st_vol := d_zero; st_filter_flag := 0 |}.
Definition demo_fade : FADE_REC := {| fade_time := d_zero; f_snd := 0; f_pos := 0; old_thresh := 0 |}.
Definition demo_state_world : world :=
  set_lin_fade (PLive [demo_fade]) (set_counts 0 1 (set_sbuffs (PLive [demo_sbuf]) blank_world)).

Definition demo_threshold (level path fade : string) : threshold_text :=
  {| x_level := level; x_path := path; x_fade := fade; x_head := nl "threshold";
     x_lines := [nl ("level " +:+ level); nl ("path " +:+ path); nl ("fade " +:+ fade); nl "end threshold"] |}.

Definition demo_dir (d : string) : option (list string) :=
  if bool_decide (d = "/snd/lo") then Some ["."; ".."; "b"; "a"]
  else if bool_decide (d = "/snd/hi") then Some ["."; ".."; "c"] else None.
Definition demo_snds (f : string) : option (list Z) :=
  if bool_decide (f = "/snd/lo/a") then Some [1; 0] else if bool_decide (f = "/snd/lo/b") then Some [2; 0; 3; 0]
  else if bool_decide (f = "/snd/hi/c") then Some [255; 255] else None.

Ltac setting_ok := split; [good|split; [by repeat split|eexists; split; reflexivity]].
Ltac text_good := split; [good|split; [by eexists _, _|split; [by vm_compute|
  do 4 eexists; split; [reflexivity|split; [setting_ok|split; [setting_ok|split; [setting_ok|split; [good|reflexivity]]]]]]]].

Definition demo_chain : list THRESHOLD :=
  [loaded_threshold d_zero (strtod "1.5") [([1], 1); ([2; 3], 2)];
   loaded_threshold (strtod "1.5") (strtod "10") [([-1], 1)]].

Lemma parserParseState_loads_witness :
  exists w1,
    parserParseState demo_dir demo_snds
      (nl "name load" +:+ concat_lines (section_lines [demo_threshold "1.5" "lo" "2"; demo_threshold "10" "hi" "0.5"])
       +:+ nl "end state" +:+ "rest") (with_sound_path blank_parser (Some "/snd/")) demo_state_world =
      (w2 ← insert_state "load" {| mixer_index := 0 |} w1;
       mret (Some PARSER_SUCCESS, "rest", with_state_cnt (with_sound_path blank_parser (Some "/snd/")) 1, w2)) /\
    exists b, sbuffs w1 = PLive [b] /\ thresh b = Some demo_chain.
Proof.
  destruct (parserParseState_loads demo_dir demo_snds (nl "name load") "name" "load" (nl "end state") "rest" "/snd/"
    [demo_threshold "1.5" "lo" "2"; demo_threshold "10" "hi" "0.5"] demo_chain
    (with_sound_path blank_parser (Some "/snd/")) demo_state_world [demo_sbuf] demo_sbuf [demo_fade])
    as (w1 & H1 & H2 & _);
    [good|reflexivity..| |good|reflexivity|reflexivity|reflexivity|reflexivity|reflexivity|reflexivity
    |done|done|reflexivity|reflexivity|reflexivity|vm_compute; reflexivity|done|].
  - apply Forall_cons. split; [text_good|]. apply Forall_cons. split; [text_good|done].
  - exists w1. split; [exact H1|]. eexists. split; [exact H2|reflexivity].
Defined.

Lemma parserParseState_too_many_witness :
  parserParseState demo_dir demo_snds (concat_lines [nl "name load"; nl "end state"])
    (with_state_cnt blank_parser 1) demo_state_world = Fault OutOfBounds.
Proof.
  apply (parserParseState_too_many demo_dir demo_snds _ (with_state_cnt blank_parser 1) demo_state_world [demo_sbuf]);
    [repeat constructor; good|reflexivity|simpl; lia].
Defined.
