(* ===== verification/Theme.v ===== *)
(** * Sound themes ([xml_theme.c])

    A theme is an XML document that is parsed twice. The first pass builds the
    translation table, from the names of sounds to paths, and counts the
    thresholds of each state; the second loads events and states. Its entries
    are put at the head of the list [trans_table], which is a static variable.
    The pointer [cur_ent] is the number of entries behind the one it points to.
    Expat is a parameter: the calls it makes for a text, and its result. *)

From stdpp Require Import base list strings.
From Stdlib Require Import ZArith Lia Ascii String SpecFloat.
From S2P Require Import Prelude Events CString Dbl Strtod SoundTable World Mixer Engine Notice Wire Server Parser ParserState.
Import SoundTable.
Local Open Scope Z_scope.
Local Open Scope list_scope.

Definition XML_PARSER_SUCCESS : Z := 1.
Definition XML_PARSER_FAILURE : Z := 0.

(** ** The translation table *)

(** The members that are set; the other ones stay null. *)
Record trans_table : Type := { t_name : option string; t_path : option string }.

Definition xmlThemeCreateTransEntry (tr : list trans_table) : nat * list trans_table :=
  (List.length tr, {| t_name := None; t_path := None |} :: tr).

(** Writing to the entry [ent] points to. *)
Fixpoint set_ent (ent : nat) (f : trans_table -> trans_table) (tr : list trans_table) : list trans_table :=
  match tr with
  | [] => []
  | e :: tr => if (List.length tr =? ent)%nat then f e :: tr else e :: set_ent ent f tr
  end.

(** The loop, [prev] being null or not: when it finds the first entry of the
    list it sets the list to null. *)
Fixpoint lookup_loop (prev : bool) (name : string) (tr : list trans_table)
  : res (option string * list trans_table) :=
  match tr with
  | [] => mret (None, [])
  | ent :: next =>
      if match t_name ent with Some n => ci_eq n name | None => false end then
        path ← some_ptr (t_path ent);
        mret (Some path, if prev then next else [])
      else
        '(path, next) ← lookup_loop true name next;
        mret (path, ent :: next)
  end.

Definition xmlThemeLookupTransPath (name : string) (tr : list trans_table)
  : res (option string * list trans_table) := lookup_loop false name tr.

(** The loop that frees the table: [next = ent->next] is evaluated once more
    after [ent] has become null. *)
Fixpoint free_loop (ent : trans_table) (next : list trans_table) : res unit :=
  match next with
  | [] => Fault NullDeref
  | e :: next => free_loop e next
  end.

(** ** The first pass *)

Inductive xml_context : Type :=
| NO_CONTEXT | THEME_CONTEXT | SOUNDS_CONTEXT | SOUND_CONTEXT | EVENT_CONTEXT | STATE_CONTEXT
| THRESHOLD_CONTEXT.

#[export] Instance xml_context_eq_dec : EqDecision xml_context.
Proof. solve_decision. Defined.

Definition is_ctx (c d : xml_context) : bool := bool_decide (c = d).

(** Elements of [thresholds] that [realloc] added are indeterminate. *)
Record FIRST_PASS_INFO : Type := {
  fi_sound_path : option string;
  fi_context : xml_context;
  fi_current_tag : option string;
  fi_thresholds : option (list (option Z));
  fi_states : Z;
  fi_cur_ent : option nat
}.

Definition fi_with (i : FIRST_PASS_INFO) c tag th n ent : FIRST_PASS_INFO :=
  {| fi_sound_path := fi_sound_path i; fi_context := c; fi_current_tag := tag; fi_thresholds := th;
     fi_states := n; fi_cur_ent := ent |}.
Definition fi_set_context (c : xml_context) (i : FIRST_PASS_INFO) : FIRST_PASS_INFO :=
  fi_with i c (fi_current_tag i) (fi_thresholds i) (fi_states i) (fi_cur_ent i).
Definition fi_set_thresholds th (i : FIRST_PASS_INFO) : FIRST_PASS_INFO :=
  fi_with i (fi_context i) (fi_current_tag i) th (fi_states i) (fi_cur_ent i).

(** [realloc] to [n] elements. *)
Definition resize (n : nat) (l : option (list (option Z))) : list (option Z) :=
  let l := default [] l in take n l ++ replicate (n - List.length l) None.

Definition xmlParseFirstPassStart (tag : string) (i : FIRST_PASS_INFO) (tr : list trans_table)
  : res (FIRST_PASS_INFO * list trans_table) :=
  let i := fi_with i (fi_context i) (Some tag) (fi_thresholds i) (fi_states i) (fi_cur_ent i) in
  if ci_eq tag "sounds" then mret (fi_set_context SOUNDS_CONTEXT i, tr)
  else if is_ctx (fi_context i) SOUNDS_CONTEXT && ci_eq tag "sound" then
    let (ent, tr) := xmlThemeCreateTransEntry tr in
    mret (fi_with i SOUND_CONTEXT (fi_current_tag i) (fi_thresholds i) (fi_states i) (Some ent), tr)
  else if ci_eq tag "states" then mret (fi_set_context STATE_CONTEXT i, tr)
  else if is_ctx (fi_context i) STATE_CONTEXT && ci_eq tag "state" then
    th ← wr (resize (Z.to_nat (fi_states i + 1)) (fi_thresholds i)) (fi_states i) (Some 0);
    mret (fi_set_thresholds (Some th) i, tr)
  else if is_ctx (fi_context i) STATE_CONTEXT && ci_eq tag "threshold" then
    th ← some_ptr (fi_thresholds i);
    x ← rd th (fi_states i);
    match x with
    | None => Fault UninitRead
    | Some x => th ← wr th (fi_states i) (Some (i32 (x + 1))); mret (fi_set_thresholds (Some th) i, tr)
    end
  else mret (i, tr).

Definition xmlParseFirstPassEnd (tag : string) (i : FIRST_PASS_INFO) : FIRST_PASS_INFO :=
  if ci_eq tag "sounds" then fi_set_context NO_CONTEXT i
  else if is_ctx (fi_context i) SOUND_CONTEXT && ci_eq tag "sound" then fi_set_context SOUNDS_CONTEXT i
  else if ci_eq tag "states" then fi_set_context NO_CONTEXT i
  else if ci_eq tag "state" then
    fi_with i (fi_context i) (fi_current_tag i) (fi_thresholds i) (i32 (fi_states i + 1)) (fi_cur_ent i)
  else i.

(** The entry of the sound that is being defined. *)
Definition set_cur_ent (i : FIRST_PASS_INFO) (f : trans_table -> trans_table) (tr : list trans_table)
  : res (list trans_table) :=
  match fi_cur_ent i with None => Fault NullDeref | Some ent => mret (set_ent ent f tr) end.

Definition xmlParseFirstPassChar (mem : list Z) (len : Z) (i : FIRST_PASS_INFO) (tr : list trans_table)
  : res (list trans_table) :=
  str ← createXmlNormalizedString mem len;
  match str with
  | None => mret tr
  | Some s =>
      if is_ctx (fi_context i) SOUND_CONTEXT then
        tag ← some_ptr (fi_current_tag i);
        tr ← (if ci_eq tag "name"
              then set_cur_ent i (fun e => {| t_name := Some s; t_path := t_path e |}) tr
              else mret tr);
        if ci_eq tag "path" then
          d ← some_ptr (fi_sound_path i);
          set_cur_ent i (fun e => {| t_name := t_name e; t_path := Some (d +:+ s) |}) tr
        else mret tr
      else mret tr
  end.

Fixpoint first_pass (cs : list xml_call) (i : FIRST_PASS_INFO) (tr : list trans_table)
  : res (FIRST_PASS_INFO * list trans_table) :=
  match cs with
  | [] => mret (i, tr)
  | XStart t _ :: cs => '(i, tr) ← xmlParseFirstPassStart t i tr; first_pass cs i tr
  | XEnd t :: cs => first_pass cs (xmlParseFirstPassEnd t i) tr
  | XChar m l :: cs => tr ← xmlParseFirstPassChar m l i tr; first_pass cs i tr
  end.

(** ** The second pass *)

(** The members [l_bound], [h_bound] and [fade] have type [float]. *)
Definition flt : Type := spec_float.

Definition f_convert (prec emax : Z) (x : spec_float) : spec_float :=
  match x with
  | S754_finite s m e => binary_normalize prec emax (if s then Zneg m else Zpos m) e s
  | _ => x
  end.
Definition f_of_d (x : dbl) : flt := f_convert 24 128 x.
Definition d_of_f (x : flt) : dbl := f_convert 53 1024 x.

Record SECOND_PASS_INFO : Type := {
  si_current_tag : option string;
  si_context : xml_context;
  si_name : option string;
  si_path : option string;
  si_thresholds : option (list (option Z));
  si_thresh_cnt : Z;
  si_thresh_index : Z;
  si_l_bound : flt;
  si_h_bound : flt;
  si_fade : flt
}.

Definition si_names (n p : option string) (i : SECOND_PASS_INFO) : SECOND_PASS_INFO :=
  {| si_current_tag := si_current_tag i; si_context := si_context i; si_name := n; si_path := p;
     si_thresholds := si_thresholds i; si_thresh_cnt := si_thresh_cnt i;
     si_thresh_index := si_thresh_index i; si_l_bound := si_l_bound i; si_h_bound := si_h_bound i;
     si_fade := si_fade i |}.
Definition si_at (tag : option string) (c : xml_context) (cnt index : Z) (i : SECOND_PASS_INFO) : SECOND_PASS_INFO :=
  {| si_current_tag := tag; si_context := c; si_name := si_name i; si_path := si_path i;
     si_thresholds := si_thresholds i; si_thresh_cnt := cnt; si_thresh_index := index;
     si_l_bound := si_l_bound i; si_h_bound := si_h_bound i; si_fade := si_fade i |}.
Definition si_set_context (c : xml_context) (i : SECOND_PASS_INFO) : SECOND_PASS_INFO :=
  si_at (si_current_tag i) c (si_thresh_cnt i) (si_thresh_index i) i.
Definition si_levels (l h f : flt) (i : SECOND_PASS_INFO) : SECOND_PASS_INFO :=
  {| si_current_tag := si_current_tag i; si_context := si_context i; si_name := si_name i;
     si_path := si_path i; si_thresholds := si_thresholds i; si_thresh_cnt := si_thresh_cnt i;
     si_thresh_index := si_thresh_index i; si_l_bound := l; si_h_bound := h; si_fade := f |}.

Section Outside.
Context (readdir : string -> option (list string)) (contents : string -> option (list Z)).
(** The calls [XML_Parse] makes for a text, and whether it succeeds. *)
Context (expat : string -> list xml_call * bool).

(** [*info->event_cnt] and [*info->state_cnt] are the counters of the parser. *)
Definition xmlParseSecondPassStart (tag : string) (i : SECOND_PASS_INFO) (p : parser) (w : world)
  : res (SECOND_PASS_INFO * world) :=
  let i := si_at (Some tag) (si_context i) (si_thresh_cnt i) (si_thresh_index i) i in
  if ci_eq tag "theme" then mret (i, w)
  else if ci_eq tag "events" then mret (si_set_context EVENT_CONTEXT i, w)
  else if is_ctx (si_context i) EVENT_CONTEXT then mret (i, w)
  else if ci_eq tag "states" then mret (si_set_context STATE_CONTEXT i, w)
  else if is_ctx (si_context i) STATE_CONTEXT then
    if ci_eq tag "state" then
      th ← some_ptr (si_thresholds i);
      n ← rd th (si_thresh_index i);
      match n with
      | None => Fault UninitRead
      | Some n =>
          '(_, w) ← mixerAllocNewState true (state_cnt p) n w;
          mret (si_at (si_current_tag i) (si_context i) 0 (si_thresh_index i) i, w)
      end
    else if ci_eq tag "threshold" then mret (si_set_context THRESHOLD_CONTEXT i, w)
    else mret (i, w)
  else mret (i, w).

(** [parserLoadEventSndDir] on the table of the world. *)
Definition load_event (name path : string) (p : parser) (w : world) : res (Z * parser * world) :=
  '(r, p, t) ← parserLoadEventSndDir readdir contents name path p (sound_table w);
  mret (r, p, set_sound_table t w).

(** [parserLoadStateSndDir] with a path that may be null: the directory is
    opened unless there are too many states. *)
Definition load_state (cnt : Z) (l h : dbl) (path : option string) (fade : dbl) (p : parser) (w : world)
  : res (Z * parser * world) :=
  match path with
  | Some path => parserLoadStateSndDir readdir contents cnt l h path fade p w
  | None => if mixerSBuffs w <=? u32 (state_cnt p)
            then mret (0, with_state_cnt p (i32 (state_cnt p + 1)), w) else Fault NullDeref
  end.

Definition xmlParseSecondPassEnd (tag : string) (i : SECOND_PASS_INFO) (p : parser) (w : world)
  : res (SECOND_PASS_INFO * parser * world) :=
  if is_ctx (si_context i) EVENT_CONTEXT && ci_eq tag "events" then mret (si_set_context NO_CONTEXT i, p, w)
  else if is_ctx (si_context i) EVENT_CONTEXT && ci_eq tag "event" then
    match si_path i, si_name i with
    | Some path, Some name =>
        '(r, p, w) ← load_event name path p w;
        if r =? 0 then mret (i, p, w) else mret (si_names None None i, p, w)
    | _, _ => mret (si_names None None i, p, w)
    end
  else if is_ctx (si_context i) STATE_CONTEXT && ci_eq tag "states" then
    match si_name i with
    | None => mret (i, p, w)
    | Some name =>
        entry ← some_ptr (engineAllocStateEntry true (state_cnt p));
        w ← insert_state name entry w;
        mret (si_set_context NO_CONTEXT (si_names None (si_path i) i),
              with_state_cnt p (i32 (state_cnt p + 1)), w)
    end
  else if is_ctx (si_context i) STATE_CONTEXT && ci_eq tag "state" then
    mret (si_at (si_current_tag i) (si_context i) (si_thresh_cnt i) (i32 (si_thresh_index i + 1)) i, p, w)
  else if is_ctx (si_context i) THRESHOLD_CONTEXT && ci_eq tag "threshold" then
    '(_, p, w) ← load_state (si_thresh_cnt i) (d_of_f (si_l_bound i)) (d_of_f (si_h_bound i))
                   (si_path i) (d_of_f (si_fade i)) p w;
    let i := si_names (si_name i) None i in
    mret (si_at (si_current_tag i) STATE_CONTEXT (i32 (si_thresh_cnt i + 1)) (si_thresh_index i) i, p, w)
  else mret (i, p, w).

Definition event_char (s : string) (i : SECOND_PASS_INFO) (tr : list trans_table)
  : res (SECOND_PASS_INFO * list trans_table) :=
  tag ← some_ptr (si_current_tag i);
  if ci_eq tag "name" then mret (si_names (Some s) (si_path i) i, tr)
  else if ci_eq tag "sound" then
    '(path, tr) ← xmlThemeLookupTransPath s tr;
    mret (si_names (si_name i) path i, tr)
  else mret (i, tr).

Definition state_char (s : string) (i : SECOND_PASS_INFO) (tr : list trans_table)
  : res (SECOND_PASS_INFO * list trans_table) :=
  tag ← some_ptr (si_current_tag i);
  if ci_eq tag "name" then mret (si_names (Some s) (si_path i) i, tr) else mret (i, tr).

Definition threshold_char (s : string) (i : SECOND_PASS_INFO) (tr : list trans_table) (p : parser)
    (w : world) : res (SECOND_PASS_INFO * list trans_table) :=
  tag ← some_ptr (si_current_tag i);
  if ci_eq tag "level" then
    l ← lower_bound (si_thresh_cnt i) p w;
    mret (si_levels (f_of_d l) (f_of_d (strtod s)) (si_fade i) i, tr)
  else if ci_eq tag "fade" then
    mret (si_levels (si_l_bound i) (si_h_bound i) (f_of_d (strtod s)) i, tr)
  else if ci_eq tag "sound" then
    '(path, tr) ← xmlThemeLookupTransPath s tr;
    mret (si_names (si_name i) path i, tr)
  else mret (i, tr).

Definition xmlParseSecondPassChar (mem : list Z) (len : Z) (i : SECOND_PASS_INFO)
    (tr : list trans_table) (p : parser) (w : world) : res (SECOND_PASS_INFO * list trans_table) :=
  str ← createXmlNormalizedString mem len;
  match str with
  | None => mret (i, tr)
  | Some s =>
      match si_context i with
      | EVENT_CONTEXT => event_char s i tr
      | STATE_CONTEXT => state_char s i tr
      | THRESHOLD_CONTEXT => threshold_char s i tr p w
      | _ => mret (i, tr)
      end
  end.

Fixpoint second_pass (cs : list xml_call) (i : SECOND_PASS_INFO) (tr : list trans_table)
    (p : parser) (w : world) : res (SECOND_PASS_INFO * list trans_table * parser * world) :=
  match cs with
  | [] => mret (i, tr, p, w)
  | XStart t _ :: cs => '(i, w) ← xmlParseSecondPassStart t i p w; second_pass cs i tr p w
  | XEnd t :: cs => '(i, p, w) ← xmlParseSecondPassEnd t i p w; second_pass cs i tr p w
  | XChar m l :: cs => '(i, tr) ← xmlParseSecondPassChar m l i tr p w; second_pass cs i tr p w
  end.

(** ** Both *)

Definition first_info (d : option string) : FIRST_PASS_INFO :=
  {| fi_sound_path := d; fi_context := NO_CONTEXT; fi_current_tag := None; fi_thresholds := None;
     fi_states := 0; fi_cur_ent := None |}.

Definition second_info (th : option (list (option Z))) : SECOND_PASS_INFO :=
  {| si_current_tag := None; si_context := NO_CONTEXT; si_name := None; si_path := None;
     si_thresholds := th; si_thresh_cnt := 0; si_thresh_index := 0; si_l_bound := S754_zero false;
     si_h_bound := S754_zero false; si_fade := S754_zero false |}.

(** [sound_path] is the static variable of the parser. *)
Definition xmlParseTheme (xml_string : string) (tr : list trans_table) (p : parser) (w : world)
  : res (Z * list trans_table * parser * world) :=
  let (cs, ok) := expat xml_string in
  '(first, tr) ← first_pass cs (first_info (sound_path p)) tr;
  if negb ok then mret (XML_PARSER_FAILURE, tr, p, w) else
  '(_, tr, p, w) ← second_pass cs (second_info (fi_thresholds first)) tr p w;
  match tr with
  | [] => mret (XML_PARSER_SUCCESS, [], p, w)
  | ent :: next => free_loop ent next ;; mret (XML_PARSER_SUCCESS, [], p, w)
  end.

End Outside.

(** ** The translation table *)

Definition named (name : string) (e : trans_table) : bool :=
  match t_name e with Some n => ci_eq n name | None => false end.

Lemma lookup_found prev name l1 e l2 path :
  Forall (fun e => named name e = false) l1 -> named name e = true -> t_path e = Some path ->
  lookup_loop prev name (l1 ++ e :: l2) =
  Ok (Some path, match l1 with [] => if prev then l2 else [] | _ => l1 ++ l2 end).
Proof.
  intros H1 He Hp. revert prev. induction H1 as [|x l1 Hx _ IH]; intros prev; cbn [app lookup_loop].
  - change (match t_name e with Some n => ci_eq n name | None => false end) with (named name e).
    by rewrite He, Hp.
  - change (match t_name x with Some n => ci_eq n name | None => false end) with (named name x).
    rewrite Hx, IH. cbn [mbind res_bind mret res_ret]. by destruct l1.
Qed.

Lemma lookup_missing prev name l :
  Forall (fun e => named name e = false) l -> lookup_loop prev name l = Ok (None, l).
Proof.
  intros H. revert prev. induction H as [|x l Hx _ IH]; intros prev; cbn [lookup_loop]; [done|].
  change (match t_name x with Some n => ci_eq n name | None => false end) with (named name x).
  by rewrite Hx, IH.
Qed.

(** ** Documents with sounds and events *)

Definition text (x : list Z) : string := c_string (x ++ [0]).

Definition sound_calls (s : list Z * list Z) : list xml_call :=
  XStart "sound" [] :: element "name" s.1 ++ element "path" s.2 ++ [XEnd "sound"].
Definition event_calls (e : list Z * list Z) : list xml_call :=
  XStart "event" [] :: element "name" e.1 ++ element "sound" e.2 ++ [XEnd "event"].

(** A theme that defines the sounds [ss], each with a name and a path, and has
    the events [evs], each with a name and the name of a sound. *)
Definition theme_calls (ss evs : list (list Z * list Z)) : list xml_call :=
  XStart "theme" [] :: XStart "sounds" [] :: mjoin (sound_calls <$> ss) ++
  XEnd "sounds" :: XStart "events" [] :: mjoin (event_calls <$> evs) ++ [XEnd "events"; XEnd "theme"].

Definition plain_pairs (l : list (list Z * list Z)) : Prop :=
  Forall (fun x => plain_text x.1 /\ plain_text x.2) l.

Definition sound_ent (d : string) (s : list Z * list Z) : trans_table :=
  {| t_name := Some (text s.1); t_path := Some (d +:+ text s.2) |}.

Lemma normalized_text x :
  plain_text x -> createXmlNormalizedString x (Z.of_nat (List.length x)) = Ok (Some (text x)).
Proof.
  intros [Hp Hne]. pose proof (createXmlNormalizedString_plain x [] Hp Hne) as H.
  by rewrite app_nil_r in H.
Qed.

(** What the first pass keeps while it reads sounds. *)
Definition first_at (c : xml_context) (d : string) (i : FIRST_PASS_INFO) : Prop :=
  fi_context i = c /\ fi_sound_path i = Some d /\ fi_thresholds i = None.

Lemma set_ent_head f e tr : set_ent (List.length tr) f (e :: tr) = f e :: tr.
Proof. cbn [set_ent]. by rewrite Nat.eqb_refl. Qed.

(** One call at a time. *)
Lemma fp_start t a cs i tr i' tr' :
  xmlParseFirstPassStart t i tr = Ok (i', tr') ->
  first_pass (XStart t a :: cs) i tr = first_pass cs i' tr'.
Proof. intros H. cbn [first_pass]. by rewrite H. Qed.

Lemma fp_end t cs i tr i' :
  xmlParseFirstPassEnd t i = i' -> first_pass (XEnd t :: cs) i tr = first_pass cs i' tr.
Proof. by intros <-. Qed.

Lemma fp_char x cs i tr tr' :
  xmlParseFirstPassChar x (Z.of_nat (List.length x)) i tr = Ok tr' ->
  first_pass (XChar x (Z.of_nat (List.length x)) :: cs) i tr = first_pass cs i tr'.
Proof. intros H. cbn [first_pass]. by rewrite H. Qed.

Definition fi (c : xml_context) (d tag : option string) (th : option (list (option Z))) (n : Z)
    (ent : option nat) : FIRST_PASS_INFO :=
  {| fi_sound_path := d; fi_context := c; fi_current_tag := tag; fi_thresholds := th; fi_states := n;
     fi_cur_ent := ent |}.

Lemma first_name d th n x e tr :
  plain_text x ->
  xmlParseFirstPassChar x (Z.of_nat (List.length x))
    (fi SOUND_CONTEXT d (Some "name") th n (Some (List.length tr))) (e :: tr) =
  Ok ({| t_name := Some (text x); t_path := t_path e |} :: tr).
Proof.
  intros Hx. unfold xmlParseFirstPassChar. rewrite normalized_text by done.
  transitivity (Ok (set_ent (List.length tr) (fun e => {| t_name := Some (text x);
    t_path := t_path e |}) (e :: tr))); [reflexivity|by rewrite set_ent_head].
Qed.

Lemma first_path d th n x e tr :
  plain_text x ->
  xmlParseFirstPassChar x (Z.of_nat (List.length x))
    (fi SOUND_CONTEXT (Some d) (Some "path") th n (Some (List.length tr))) (e :: tr) =
  Ok ({| t_name := t_name e; t_path := Some (d +:+ text x) |} :: tr).
Proof.
  intros Hx. unfold xmlParseFirstPassChar. rewrite normalized_text by done.
  transitivity (Ok (set_ent (List.length tr) (fun e => {| t_name := t_name e;
    t_path := Some (d +:+ text x) |}) (e :: tr))); [reflexivity|by rewrite set_ent_head].
Qed.

(** Text outside of a sound. *)
Lemma first_text c d tag th n ent x tr :
  plain_text x -> is_ctx c SOUND_CONTEXT = false ->
  xmlParseFirstPassChar x (Z.of_nat (List.length x)) (fi c d tag th n ent) tr = Ok tr.
Proof.
  intros Hx Hc. unfold xmlParseFirstPassChar. rewrite normalized_text by done.
  cbn [mbind res_bind fi_context fi]. by rewrite Hc.
Qed.

Lemma first_sound d s cs tag n ent tr :
  plain_text s.1 /\ plain_text s.2 ->
  first_pass (sound_calls s ++ cs) (fi SOUNDS_CONTEXT (Some d) tag None n ent) tr =
  first_pass cs (fi SOUNDS_CONTEXT (Some d) (Some "path") None n (Some (List.length tr)))
    (sound_ent d s :: tr).
Proof.
  intros [Hn Hq]. unfold sound_calls, element. cbn [app].
  erewrite fp_start by reflexivity. erewrite fp_start by reflexivity.
  erewrite fp_char by (apply (first_name (Some d) None n s.1); done).
  erewrite fp_end by reflexivity. erewrite fp_start by reflexivity.
  erewrite fp_char by (apply (first_path d None n s.2); done).
  erewrite fp_end by reflexivity. by erewrite fp_end by reflexivity.
Qed.

Lemma first_sounds d ss cs tag n ent tr :
  plain_pairs ss ->
  exists tag' ent',
    first_pass (mjoin (sound_calls <$> ss) ++ cs) (fi SOUNDS_CONTEXT (Some d) tag None n ent) tr =
    first_pass cs (fi SOUNDS_CONTEXT (Some d) tag' None n ent') (rev (sound_ent d <$> ss) ++ tr).
Proof.
  intros Hss. revert tag ent tr. induction Hss as [|s ss Hs _ IH]; intros tag ent tr; [by exists tag, ent|].
  cbn [fmap list_fmap mjoin list_join]. rewrite <- app_assoc, first_sound by done.
  destruct (IH (Some "path") (Some (List.length tr)) (sound_ent d s :: tr)) as (tag' & ent' & E).
  exists tag', ent'. etransitivity; [exact E|]. cbn [rev]. by rewrite <- app_assoc.
Qed.

Lemma first_events d evs cs tag n ent tr :
  plain_pairs evs ->
  exists tag',
    first_pass (mjoin (event_calls <$> evs) ++ cs) (fi NO_CONTEXT (Some d) tag None n ent) tr =
    first_pass cs (fi NO_CONTEXT (Some d) tag' None n ent) tr.
Proof.
  intros Hev. revert tag. induction Hev as [|e evs [Hn Hs] _ IH]; intros tag; [by exists tag|].
  destruct (IH (Some "sound")) as (tag' & E). exists tag'. rewrite <- E.
  cbn [fmap list_fmap mjoin list_join]. rewrite <- app_assoc. unfold event_calls, element. cbn [app].
  erewrite fp_start by reflexivity. erewrite fp_start by reflexivity.
  erewrite fp_char by (by apply first_text). erewrite fp_end by reflexivity.
  erewrite fp_start by reflexivity. erewrite fp_char by (by apply first_text).
  erewrite fp_end by reflexivity. by erewrite fp_end by reflexivity.
Qed.

(** The first pass over a whole theme. *)
Lemma first_theme d ss evs tr :
  plain_pairs ss -> plain_pairs evs ->
  exists i, first_pass (theme_calls ss evs) (first_info (Some d)) tr =
    Ok (i, rev (sound_ent d <$> ss) ++ tr) /\ fi_thresholds i = None.
Proof.
  intros Hss Hev. unfold theme_calls. erewrite fp_start by reflexivity. erewrite fp_start by reflexivity.
  destruct (first_sounds d ss (XEnd "sounds" :: XStart "events" [] :: mjoin (event_calls <$> evs) ++
    [XEnd "events"; XEnd "theme"]) (Some "sounds") 0 None tr Hss) as (tag & ent & E).
  destruct (first_events d evs [XEnd "events"; XEnd "theme"] (Some "events") 0 ent
    (rev (sound_ent d <$> ss) ++ tr) Hev) as (tag' & E').
  eexists. split.
  - etransitivity; [exact E|]. erewrite fp_end by reflexivity. erewrite fp_start by reflexivity.
    etransitivity; [exact E'|]. reflexivity.
  - done.
Qed.

Section SecondPass.
Context (readdir : string -> option (list string)) (contents : string -> option (list Z)).

Lemma sp_start t a cs i tr p w i' w' :
  xmlParseSecondPassStart t i p w = Ok (i', w') ->
  second_pass readdir contents (XStart t a :: cs) i tr p w = second_pass readdir contents cs i' tr p w'.
Proof. intros H. cbn [second_pass]. by rewrite H. Qed.

Lemma sp_end t cs i tr p w i' p' w' :
  xmlParseSecondPassEnd readdir contents t i p w = Ok (i', p', w') ->
  second_pass readdir contents (XEnd t :: cs) i tr p w = second_pass readdir contents cs i' tr p' w'.
Proof. intros H. cbn [second_pass]. by rewrite H. Qed.

Lemma sp_char x cs i tr p w i' tr' :
  xmlParseSecondPassChar x (Z.of_nat (List.length x)) i tr p w = Ok (i', tr') ->
  second_pass readdir contents (XChar x (Z.of_nat (List.length x)) :: cs) i tr p w =
  second_pass readdir contents cs i' tr' p w.
Proof. intros H. cbn [second_pass]. by rewrite H. Qed.

(** Outside of a section nothing happens. *)
Lemma second_text x i tr p w :
  plain_text x -> si_context i = NO_CONTEXT ->
  xmlParseSecondPassChar x (Z.of_nat (List.length x)) i tr p w = Ok (i, tr).
Proof. intros Hx Hi. unfold xmlParseSecondPassChar. rewrite normalized_text by done. by rewrite Hi. Qed.

Lemma second_sounds ss cs i tr p w :
  plain_pairs ss -> si_context i = NO_CONTEXT ->
  exists i', si_context i' = NO_CONTEXT /\
    second_pass readdir contents (mjoin (sound_calls <$> ss) ++ cs) i tr p w =
    second_pass readdir contents cs i' tr p w.
Proof.
  intros Hss. revert i. induction Hss as [|s ss [Hn Hq] _ IH]; intros i Hi; [by exists i|].
  destruct i as [tag c n q th cnt ix l h f]. cbn in Hi. subst c.
  destruct (IH {| si_current_tag := Some "path"; si_context := NO_CONTEXT; si_name := n; si_path := q;
    si_thresholds := th; si_thresh_cnt := cnt; si_thresh_index := ix; si_l_bound := l; si_h_bound := h;
    si_fade := f |} eq_refl) as (i' & Hi' & E).
  exists i'. split; [done|]. rewrite <- E. cbn [fmap list_fmap mjoin list_join]. rewrite <- app_assoc.
  unfold sound_calls, element. cbn [app].
  erewrite sp_start by reflexivity. erewrite sp_start by reflexivity.
  erewrite sp_char by (by apply second_text). erewrite sp_end by reflexivity.
  erewrite sp_start by reflexivity. erewrite sp_char by (by apply second_text).
  erewrite sp_end by reflexivity. by erewrite sp_end by reflexivity.
Qed.

(** The state of the parse behind an event. *)
Definition after_event (n q : option string) (i : SECOND_PASS_INFO) : SECOND_PASS_INFO :=
  si_names n q (si_at (Some "sound") EVENT_CONTEXT (si_thresh_cnt i) (si_thresh_index i) i).

Lemma end_event n d i p w :
  si_context i = EVENT_CONTEXT ->
  xmlParseSecondPassEnd readdir contents "event" (si_names (Some n) (Some d) i) p w =
  ('(r, p, w) ← load_event readdir contents n d p w;
   if r =? 0 then mret (si_names (Some n) (Some d) i, p, w) else mret (si_names None None i, p, w)).
Proof. destruct i as [? c ? ? ? ? ? ? ? ?]. cbn [si_context]. by intros ->. Qed.

Lemma end_event_missing n i p w :
  si_context i = EVENT_CONTEXT ->
  xmlParseSecondPassEnd readdir contents "event" (si_names n None i) p w = Ok (si_names None None i, p, w).
Proof. destruct i as [? c ? ? ? ? ? ? ? ?]. cbn [si_context]. by intros ->. Qed.

Lemma second_sound_text x i tr p w :
  plain_text x -> si_context i = EVENT_CONTEXT -> si_current_tag i = Some "sound" ->
  xmlParseSecondPassChar x (Z.of_nat (List.length x)) i tr p w =
  ('(path, tr) ← xmlThemeLookupTransPath (text x) tr; mret (si_names (si_name i) path i, tr)).
Proof.
  intros Hx Hc Ht. unfold xmlParseSecondPassChar. rewrite normalized_text by done.
  cbn [mbind res_bind]. rewrite Hc. unfold event_char. by rewrite Ht.
Qed.

Lemma second_event e cs i tr p w :
  plain_text e.1 /\ plain_text e.2 -> si_context i = EVENT_CONTEXT ->
  second_pass readdir contents (event_calls e ++ cs) i tr p w =
  ('(path, tr) ← xmlThemeLookupTransPath (text e.2) tr;
   match path with
   | None => second_pass readdir contents cs (after_event None None i) tr p w
   | Some d =>
       '(r, p, w) ← load_event readdir contents (text e.1) d p w;
       second_pass readdir contents cs
         (if r =? 0 then after_event (Some (text e.1)) (Some d) i else after_event None None i) tr p w
   end).
Proof.
  intros [Hn Hs] Hi. destruct i as [tag c n q th cnt ix l h f]. cbn in Hi. subst c.
  unfold event_calls, element. cbn [app].
  erewrite sp_start by reflexivity. erewrite sp_start by reflexivity.
  erewrite sp_char by (unfold xmlParseSecondPassChar; rewrite normalized_text by done; reflexivity).
  erewrite sp_end by reflexivity. erewrite sp_start by reflexivity. cbn [second_pass].
  rewrite second_sound_text by done.
  destruct (xmlThemeLookupTransPath (text e.2) tr) as [[[d|] tr']| |]; [| |done|done];
    cbn [mbind res_bind mret res_ret].
  - match goal with |- context [xmlParseSecondPassEnd _ _ "sound" ?j p w] =>
      change (xmlParseSecondPassEnd readdir contents "sound" j p w) with (Ok (j, p, w)) end.
    cbn [mbind res_bind si_name si_names si_at]. rewrite end_event by done.
    destruct (load_event readdir contents (text e.1) d p w) as [[[r p'] w']| |]; [|done|done].
    cbn [mbind res_bind mret res_ret]. by destruct (r =? 0).
  - match goal with |- context [xmlParseSecondPassEnd _ _ "sound" ?j p w] =>
      change (xmlParseSecondPassEnd readdir contents "sound" j p w) with (Ok (j, p, w)) end.
    cbn [mbind res_bind]. by rewrite end_event_missing.
Qed.

(** The events of a theme, one after the other: an event whose sound is in the
    table is loaded. *)
Fixpoint run_events (evs : list (list Z * list Z)) (tr : list trans_table) (p : parser) (w : world)
  : res (list trans_table * parser * world) :=
  match evs with
  | [] => mret (tr, p, w)
  | e :: evs =>
      '(path, tr) ← xmlThemeLookupTransPath (text e.2) tr;
      match path with
      | None => run_events evs tr p w
      | Some d => '(_, p, w) ← load_event readdir contents (text e.1) d p w; run_events evs tr p w
      end
  end.

(** What is left of the second pass when it is over. *)
Definition drop_info (r : res (SECOND_PASS_INFO * list trans_table * parser * world))
  : res (list trans_table * parser * world) := '(_, tr, p, w) ← r; mret (tr, p, w).

Lemma second_events evs i tr p w :
  plain_pairs evs -> si_context i = EVENT_CONTEXT ->
  drop_info (second_pass readdir contents (mjoin (event_calls <$> evs) ++ [XEnd "events"; XEnd "theme"]) i tr p w) =
  run_events evs tr p w.
Proof.
  intros Hev. revert i tr p w. induction Hev as [|e evs He _ IH]; intros i tr p w Hi.
  - destruct i as [tag c n q th cnt ix l h f]. cbn in Hi. subst c.
    change (mjoin (event_calls <$> []) ++ ?x) with x.
    erewrite sp_end by reflexivity. by erewrite sp_end by reflexivity.
  - cbn [fmap list_fmap mjoin list_join run_events]. rewrite <- app_assoc, second_event by done.
    destruct (xmlThemeLookupTransPath (text e.2) tr) as [[[d|] tr']| |]; [| |done|done];
      cbn [mbind res_bind]; [|by apply IH].
    destruct (load_event readdir contents (text e.1) d p w) as [[[r p'] w']| |]; [|done|done].
    cbn [mbind res_bind]. by apply IH; destruct (r =? 0).
Qed.
End SecondPass.

(** The outcome of the loop that frees the table. *)
Definition cleanup (r : res (list trans_table * parser * world)) : res (Z * list trans_table * parser * world) :=
  '(tr, p, w) ← r;
  match tr with [] => mret (XML_PARSER_SUCCESS, [], p, w) | _ => Fault NullDeref end.

Lemma free_loop_fault e l : free_loop e l = Fault NullDeref.
Proof. revert e. induction l as [|e' l IH]; intros e; [done|apply IH]. Qed.

Section Themes.
Context (readdir : string -> option (list string)) (contents : string -> option (list Z)).
Context (expat : string -> list xml_call * bool).

Lemma theme_runs doc ss evs d tr p w :
  expat doc = (theme_calls ss evs, true) -> plain_pairs ss -> plain_pairs evs -> sound_path p = Some d ->
  xmlParseTheme readdir contents expat doc tr p w =
  cleanup (run_events readdir contents evs (rev (sound_ent d <$> ss) ++ tr) p w).
Proof.
  intros Hd Hss Hev Hp. unfold xmlParseTheme. rewrite Hd, Hp.
  destruct (first_theme d ss evs tr Hss Hev) as (i & -> & Hth). cbn [mbind res_bind negb]. rewrite Hth.
  set (tr1 := rev _ ++ tr).
  assert (H : drop_info (second_pass readdir contents (theme_calls ss evs) (second_info None) tr1 p w) =
    run_events readdir contents evs tr1 p w).
  { unfold theme_calls. erewrite sp_start by reflexivity. erewrite sp_start by reflexivity.
    match goal with |- context [second_pass _ _ _ ?j _ _ _] =>
      destruct (second_sounds readdir contents ss (XEnd "sounds" :: XStart "events" [] ::
        mjoin (event_calls <$> evs) ++ [XEnd "events"; XEnd "theme"]) j tr1 p w Hss eq_refl) as (i' & Hi' & E) end.
    etransitivity; [apply (f_equal drop_info), E|]. destruct i' as [tag c n q th cnt ix l h f].
    cbn in Hi'. subst c. erewrite sp_end by reflexivity. erewrite sp_start by reflexivity.
    by apply second_events. }
  rewrite <- H. unfold drop_info, cleanup.
  destruct (second_pass _ _ _ _ _ _ _) as [[[[i' [|e l]] p'] w']| |]; [done| |done|done].
  cbn [mbind res_bind mret res_ret]. by rewrite free_loop_fault.
Qed.
End Themes.

Section LoadReturns.
Context (readdir : string -> option (list string)) (contents : string -> option (list Z)).

Lemma load_loop_returns names dir i e : returns (load_loop contents names dir i e).
Proof.
  revert i e. induction names as [|n names IH]; intros i e; cbn [load_loop]; [done|].
  case_match; [apply IH|]. destruct (parserLoadSoundFile contents _) as [[s l]|]; [|done].
  apply bind_returns; [|intros [r e'] _; apply IH].
  unfold engineEventEntryAssignSnd. destruct e; [|done].
  apply bind_returns; [apply wr_returns|intros ? _]. apply bind_returns; [apply wr_returns|done].
Qed.

Lemma load_event_returns n d p w : returns (load_event readdir contents n d p w).
Proof.
  unfold load_event. apply bind_returns; [|by intros [[r q] t] _]. unfold parserLoadEventSndDir.
  case_match; [|done]. apply bind_returns; [apply load_loop_returns|intros [ok e] _].
  repeat case_match; try done. apply bind_returns; [|by intros [] _].
  unfold engineSoundTableInsertEvent, engineSoundTableInsert. m_returns.
Qed.

Lemma lookup_returns prev n tr : returns (lookup_loop prev n tr).
Proof.
  revert prev. induction tr as [|e tr IH]; intros prev; cbn [lookup_loop]; [done|].
  destruct (match t_name e with Some _ => _ | None => _ end).
  - apply bind_returns; [apply some_ptr_returns|done].
  - apply bind_returns; [apply IH|by intros [] _].
Qed.

Lemma run_events_returns evs tr p w : returns (run_events readdir contents evs tr p w).
Proof.
  revert tr p w. induction evs as [|e evs IH]; intros tr p w; cbn [run_events]; [done|].
  apply bind_returns; [apply lookup_returns|intros [[d|] tr'] _]; [|apply IH].
  apply bind_returns; [apply load_event_returns|intros [[r p'] w'] _; apply IH].
Qed.

(** A sound no event names stays at the head of the table. *)
Lemma run_events_head evs e tr p w r p' w' tr' :
  Forall (fun x => named (text x.2) e = false) evs ->
  run_events readdir contents evs (e :: tr) p w = Ok (tr', p', w') -> r = tr' -> exists l, r = e :: l.
Proof.
  intros He. revert tr p w. induction He as [|x evs Hx _ IH]; intros tr p w; cbn [run_events].
  - intros [= <- _ _] ->. by eexists.
  - unfold xmlThemeLookupTransPath. cbn [lookup_loop].
    change (match t_name e with Some n => ci_eq n (text x.2) | None => false end) with (named (text x.2) e).
    rewrite Hx. destruct (lookup_loop true (text x.2) tr) as [[[d|] l]| |]; cbn [mbind res_bind mret res_ret];
      [|apply IH|done|done].
    destruct (load_event readdir contents (text x.1) d p w) as [[[q p1] w1]| |]; [|done|done].
    apply IH.
Qed.

Lemma run_events_app evs1 evs2 tr p w :
  run_events readdir contents (evs1 ++ evs2) tr p w =
  ('(tr, p, w) ← run_events readdir contents evs1 tr p w; run_events readdir contents evs2 tr p w).
Proof.
  revert tr p w. induction evs1 as [|e evs1 IH]; intros tr p w; [done|]. cbn [app run_events].
  destruct (xmlThemeLookupTransPath (text e.2) tr) as [[[d|] tr']| |]; cbn [mbind res_bind];
    [|apply IH|done|done].
  destruct (load_event readdir contents (text e.1) d p w) as [[[r p'] w']| |]; cbn [mbind res_bind];
    [apply IH|done|done].
Qed.

(** With an empty table no event is loaded. *)
Lemma run_events_empty evs p w : run_events readdir contents evs [] p w = Ok ([], p, w).
Proof. induction evs as [|e evs IH]; [done|apply IH]. Qed.
End LoadReturns.

(** ** Properties *)

(** Looking a sound up gives the path of the first entry with its name,
    whatever the case, and takes the entry out of the table; but when that is
    the first entry of the table, all the others go with it. *)
Theorem xmlThemeLookupTransPath_spec (name path : string) (l1 l2 : list trans_table) (e : trans_table) :
  Forall (fun e => named name e = false) l1 -> named name e = true -> t_path e = Some path ->
  xmlThemeLookupTransPath name (l1 ++ e :: l2) =
    Ok (Some path, match l1 with [] => [] | _ => l1 ++ l2 end).
Proof. apply (lookup_found false). Qed.

(** A theme whose last sound no event names: the parse ends in a null
    pointer that is dereferenced, at the latest when the table is freed. *)
Theorem xmlParseTheme_unused_fault (readdir : string -> option (list string))
    (contents : string -> option (list Z)) (expat : string -> list xml_call * bool) (doc d : string)
    (ss evs : list (list Z * list Z)) (s : list Z * list Z) (tr : list trans_table) (p : parser) (w : world) :
  expat doc = (theme_calls (ss ++ [s]) evs, true) -> plain_pairs (ss ++ [s]) -> plain_pairs evs ->
  sound_path p = Some d -> Forall (fun e => ci_eq (text s.1) (text e.2) = false) evs ->
  exists f, xmlParseTheme readdir contents expat doc tr p w = Fault f.
Proof.
  intros Hd Hss Hev Hp Hun. rewrite (theme_runs readdir contents expat doc (ss ++ [s]) evs d) by done.
  rewrite fmap_app, rev_app_distr. cbn [fmap list_fmap rev app].
  pose proof (run_events_returns readdir contents evs (sound_ent d s :: rev (sound_ent d <$> ss) ++ tr) p w) as Hr.
  destruct (run_events _ _ _ _ _ _) as [[[tr' p'] w']|f|] eqn:E; [|by exists f|done].
  destruct (run_events_head readdir contents evs (sound_ent d s) _ p w tr' p' w' tr' Hun E eq_refl) as [l ->].
  by exists NullDeref.
Qed.

(** When an event uses the sound the theme defines last, the events
    behind it are not loaded: the result is that of the theme without them. *)
Theorem xmlParseTheme_loses_events (readdir : string -> option (list string))
    (contents : string -> option (list Z)) (expat : string -> list xml_call * bool) (doc doc' d : string)
    (ss evs evs' : list (list Z * list Z)) (s e : list Z * list Z) (tr : list trans_table)
    (p : parser) (w : world) :
  expat doc = (theme_calls (ss ++ [s]) (evs ++ e :: evs'), true) ->
  expat doc' = (theme_calls (ss ++ [s]) (evs ++ [e]), true) ->
  plain_pairs (ss ++ [s]) -> plain_pairs (evs ++ e :: evs') -> sound_path p = Some d ->
  Forall (fun e => ci_eq (text s.1) (text e.2) = false) evs -> ci_eq (text s.1) (text e.2) = true ->
  xmlParseTheme readdir contents expat doc tr p w = xmlParseTheme readdir contents expat doc' tr p w.
Proof.
  intros Hd Hd' Hss Hev Hp Hun He.
  assert (plain_pairs (evs ++ [e])) as Hev'.
  { apply Forall_app in Hev as [H1 [H2 _]%Forall_cons]. apply Forall_app. split; [done|].
    by apply Forall_singleton. }
  rewrite (theme_runs readdir contents expat doc (ss ++ [s]) (evs ++ e :: evs') d),
    (theme_runs readdir contents expat doc' (ss ++ [s]) (evs ++ [e]) d) by done.
  rewrite fmap_app, rev_app_distr. cbn [fmap list_fmap rev app]. rewrite !run_events_app.
  destruct (run_events readdir contents evs _ p w) as [[[tr' p'] w']|f|] eqn:E; [|done|done].
  destruct (run_events_head readdir contents evs (sound_ent d s) _ p w tr' p' w' tr' Hun E eq_refl) as [l ->].
  cbn [mbind res_bind run_events]. unfold xmlThemeLookupTransPath.
  pose proof (lookup_found false (text e.2) [] (sound_ent d s) l (d +:+ text s.2)
    (Forall_nil_2 _) He eq_refl) as Hl. cbn [app] in Hl. rewrite Hl. cbn [mbind res_bind].
  destruct (load_event readdir contents (text e.1) (d +:+ text s.2) p' w') as [[[r p1] w1]| |]; [|done|done].
  cbn [mbind res_bind]. by rewrite run_events_empty.
Qed.

(** ** Witnesses *)

Definition demo_pair (a b : string) : list Z * list Z := (bytes_of a, bytes_of b).

Definition is_plain (x : list Z) : bool :=
  negb (bool_decide (x = [])) &&
  forallb (fun b => (0 <? b) && (b <? 256) && negb (b =? 10) && negb (b =? 9) && negb (b =? 32)) x.

Lemma is_plain_text x : is_plain x = true -> plain_text x.
Proof.
  intros [Hx H]%andb_true_iff. apply negb_true_iff, bool_decide_eq_false in Hx. split; [|done].
  rewrite forallb_forall in H. apply Forall_forall. intros b Hb%list_elem_of_In.
  specialize (H b Hb). rewrite !andb_true_iff, !negb_true_iff in H. unfold plain_byte. lia.
Qed.

Ltac plain := unfold plain_pairs; cbn [app];
  repeat (apply Forall_cons; split; [split; apply is_plain_text; reflexivity|]); apply Forall_nil_2.

Definition demo_expat (s : string) : list xml_call * bool :=
  if bool_decide (s = "both") then
    (theme_calls [demo_pair "a" "ev"; demo_pair "b" "ev"] [demo_pair "hit" "B"; demo_pair "miss" "a"], true)
  else if bool_decide (s = "one") then
    (theme_calls [demo_pair "a" "ev"; demo_pair "b" "ev"] [demo_pair "hit" "B"], true)
  else (theme_calls [demo_pair "a" "ev"; demo_pair "b" "ev"] [demo_pair "hit" "a"], true).

Lemma xmlThemeLookupTransPath_spec_witness :
  xmlThemeLookupTransPath "B" [sound_ent "/" (demo_pair "b" "x"); sound_ent "/" (demo_pair "a" "y")]
  = Ok (Some "/x", []).
Proof.
  apply (xmlThemeLookupTransPath_spec "B" "/x" [] [sound_ent "/" (demo_pair "a" "y")]
    (sound_ent "/" (demo_pair "b" "x"))); [constructor|reflexivity|reflexivity].
Defined.

Definition theme_parser : parser := with_sound_path blank_parser (Some "/snd/").
Definition theme_world : world := set_sound_table (engineInitSoundTable true).2 demo_state_world.

Lemma xmlParseTheme_unused_fault_witness :
  exists f, xmlParseTheme (fun _ => Some ["."; "b"; ".."; "a"]) demo_files demo_expat "unused" [] theme_parser
    theme_world = Fault f.
Proof.
  apply (xmlParseTheme_unused_fault _ demo_files demo_expat "unused" "/snd/" [demo_pair "a" "ev"]
    [demo_pair "hit" "a"] (demo_pair "b" "ev")); [reflexivity|plain|plain|reflexivity|].
  repeat constructor.
Defined.

Lemma xmlParseTheme_loses_events_witness :
  xmlParseTheme (fun _ => Some ["."; "b"; ".."; "a"]) demo_files demo_expat "both" [] theme_parser theme_world =
  xmlParseTheme (fun _ => Some ["."; "b"; ".."; "a"]) demo_files demo_expat "one" [] theme_parser theme_world /\
  is_ok (xmlParseTheme (fun _ => Some ["."; "b"; ".."; "a"]) demo_files demo_expat "one" [] theme_parser theme_world).
Proof.
  split; [|eexists; vm_compute; reflexivity].
  apply (xmlParseTheme_loses_events _ demo_files demo_expat "both" "one" "/snd/" [demo_pair "a" "ev"] []
    [demo_pair "miss" "a"] (demo_pair "b" "ev") (demo_pair "hit" "B"));
    [reflexivity|reflexivity|plain|plain|reflexivity|constructor|reflexivity].
Defined.
