(* ===== verification/ConfigFile.v ===== *)
(** * Configuration files ([parserParseConfigFile] of [parser.c])

    The loop over the sections of a file, with imports, themes and the
    sections for clients, which are skipped. The state is that of everything
    the sections fill: the parser, the server, the world, the table of themes.
    A text file has no null characters. *)

From stdpp Require Import base list strings.
From Stdlib Require Import ZArith Lia Ascii String.
From S2P Require Import Prelude Events CString SoundTable World Wire Notice Server Parser ParserState Theme.
Local Open Scope Z_scope.
Local Open Scope list_scope.

Definition PARSER_GENERAL_ERROR : Z := -2.
Definition PARSER_CLASS_ERROR : Z := -3.
Definition PARSER_EVENT_ERROR : Z := -4.
Definition PARSER_STATE_ERROR : Z := -5.
Definition PARSER_IMPORT_ERROR : Z := -6.
Definition PARSER_THEME_ERROR : Z := -7.

Record config : Type := {
  c_parser : parser;
  c_server : server;
  c_world : world;
  c_trans : list trans_table
}.

Definition with_parser (p : parser) (c : config) : config :=
  {| c_parser := p; c_server := c_server c; c_world := c_world c; c_trans := c_trans c |}.
Definition with_server (s : server) (c : config) : config :=
  {| c_parser := c_parser c; c_server := s; c_world := c_world c; c_trans := c_trans c |}.
Definition with_loaded (p : parser) (w : world) (c : config) : config :=
  {| c_parser := p; c_server := c_server c; c_world := w; c_trans := c_trans c |}.

(** The text of a file. *)
Fixpoint file_text (l : list Z) : string :=
  match l with [] => "" | b :: l => String (char_of b) (file_text l) end.

Section Outside.
Context (gethostname : option string) (gethostbyname : string -> option hostent)
        (inet_aton : string -> option Z).
Context (readdir : string -> option (list string)) (contents : string -> option (list Z)).
Context (PACKAGE_VERSION : string).
Context (expat : string -> list xml_call * bool).

(** The file and the import stack with the directory of the file. *)
Definition open_config (file : string) (p : parser) : res (option string * parser) :=
  match parserDirname file with
  | Some import_dir =>
      let p := (parserImportStackAdd import_dir p).2 in
      mret (option_map file_text (contents file), p)
  | None =>
      f ← parserImportConfig contents file p;
      mret (option_map file_text f, p)
  end.

(** The loop that skips the section of a client; the token it ends with. *)
Fixpoint client_loop (fuel : nat) (t : tok) (f : string) : res (tok * string) :=
  match fuel with
  | O => NoFuel
  | S fuel =>
      match fgets f with
      | None => mret (t, f)
      | Some (buffer, f) =>
          t ← parserTokenize (Some buffer);
          if ci_eq (token t) "end" then
            t ← parserTokenize (remainder t);
            if ci_eq (token t) "client" then mret (t, f) else client_loop fuel t f
          else client_loop fuel t f
      end
  end.

(** The text of a theme, read line by line into a block of the size of the
    file; the first line is copied from a buffer that must have been filled. *)
Fixpoint read_loop (fuel : nat) (f : string) : res string :=
  match fuel with
  | O => NoFuel
  | S fuel =>
      match fgets f with
      | None => mret ""
      | Some (buf, f) => s ← read_loop fuel f; mret (buf +:+ s)
      end
  end.

Definition read_theme (f : string) : res string :=
  match fgets f with
  | None => Fault UninitRead
  | Some (buf, f') =>
      s ← read_loop (S (String.length f')) f';
      if Z.of_nat (String.length (buf +:+ s)) <=? i32 (Z.of_nat (String.length f))
      then mret (buf +:+ s) else Fault OutOfBounds
  end.

Definition load_theme (file : string) (c : config) : res (option Z * config) :=
  match contents file with
  | None => mret (Some PARSER_THEME_ERROR, c)
  | Some l =>
      xml_string ← read_theme (file_text l);
      '(r, tr, p, w) ← xmlParseTheme readdir contents expat xml_string (c_trans c) (c_parser c) (c_world c);
      let c := {| c_parser := p; c_server := c_server c; c_world := w; c_trans := tr |} in
      mret (if r =? 0 then Some PARSER_THEME_ERROR else None, c)
  end.


Section Line.
(** The parser for an imported file; [None] when [shutDown] is called. *)
Context (import : string -> config -> res (option Z * config)).

Definition config_general (t : tok) (f : string) (c : config) : res (flow * string * config) :=
  if ci_eq (token t) "general" then
    '(r, f, p) ← parserParseGeneral PACKAGE_VERSION f (c_parser c);
    mret (if r <? 0 then Return PARSER_GENERAL_ERROR else Next, f, with_parser p c)
  else mret (Next, f, c).

Definition config_class (t : tok) (f : string) (c : config) : res (flow * tok * string * config) :=
  if ci_eq (token t) "class" then
    t ← parserTokenize (remainder t);
    '(r, f, s) ← parserParseClass gethostname gethostbyname inet_aton (token t) f (c_server c);
    mret (if r <? 0 then Return PARSER_CLASS_ERROR else Next, t, f, with_server s c)
  else mret (Next, t, f, c).

Definition config_client (t : tok) (f : string) : res (tok * string) :=
  if ci_eq (token t) "client" then
    t ← parserTokenize (remainder t);
    client_loop (S (String.length f)) t f
  else mret (t, f).

Definition config_event (t : tok) (f : string) (c : config) : res (flow * string * config) :=
  if ci_eq (token t) "event" then
    '(r, f, p, tb) ← parserParseEvent readdir contents f (c_parser c) (sound_table (c_world c));
    mret (if r <? 0 then Return PARSER_EVENT_ERROR else Next, f, with_loaded p (set_sound_table tb (c_world c)) c)
  else mret (Next, f, c).

Definition config_state (t : tok) (f : string) (c : config) : res (flow * string * config) :=
  if ci_eq (token t) "state" then
    '(r, f, p, w) ← parserParseState readdir contents f (c_parser c) (c_world c);
    mret (match r with
          | Some r => if r <? 0 then Return PARSER_STATE_ERROR else Next
          | None => ShutDown
          end, f, with_loaded p w c)
  else mret (Next, f, c).

Definition config_import (t : tok) (c : config) : res (flow * tok * config) :=
  if ci_eq (token t) "import" then
    t ← parserTokenize (remainder t);
    '(r, c) ← import (token t) c;
    mret (match r with
          | Some r => if r <? 0 then Return PARSER_IMPORT_ERROR else Next
          | None => ShutDown
          end, t, c)
  else mret (Next, t, c).

Definition config_theme (t : tok) (c : config) : res (flow * config) :=
  if ci_eq (token t) "theme" then
    t ← parserTokenize (remainder t);
    '(r, c) ← load_theme (token t) c;
    mret (match r with Some r => Return r | None => Next end, c)
  else mret (Next, c).

(** A line that is neither blank nor a comment. *)
Definition config_line (t : tok) (f : string) (c : config) : res (flow * string * config) :=
  '(r, f, c) ← config_general t f c;
  match r with Next =>
  '(r, t, f, c) ← config_class t f c;
  match r with Next =>
  '(t, f) ← config_client t f;
  '(r, f, c) ← config_event t f c;
  match r with Next =>
  '(r, f, c) ← config_state t f c;
  match r with Next =>
  '(r, t, c) ← config_import t c;
  match r with Next =>
  '(r, c) ← config_theme t c;
  mret (r, f, c)
  | r => mret (r, f, c) end
  | r => mret (r, f, c) end
  | r => mret (r, f, c) end
  | r => mret (r, f, c) end
  | r => mret (r, f, c) end.

(** [buffer[0] == PARSER_COMMENT || buffer[0] == '\n'] *)
Definition skipped (buffer : string) : bool :=
  match buffer with
  | String a _ => bool_decide (a = PARSER_COMMENT) || bool_decide (a = "010"%char)
  | EmptyString => false
  end.

Fixpoint config_loop (fuel : nat) (f : string) (c : config) : res (option Z * config) :=
  match fuel with
  | O => NoFuel
  | S fuel =>
      match fgets f with
      | None => mret (Some PARSER_SUCCESS, c)
      | Some (buffer, f) =>
          t ← parserTokenize (Some buffer);
          if skipped buffer then config_loop fuel f c else
          '(r, f, c) ← config_line t f c;
          match r with
          | Next => config_loop fuel f c
          | Return r => mret (Some r, c)
          | ShutDown => mret (None, c)
          end
      end
  end.
End Line.

(** [depth] bounds the files that are imported by each other. *)
Fixpoint parserParseConfigFile (depth : nat) (file : string) (c : config) : res (option Z * config) :=
  match depth with
  | O => NoFuel
  | S depth =>
      '(f, p) ← open_config file (c_parser c);
      match f with
      | None => mret (Some PARSER_FAILURE, with_parser p c)
      | Some f => config_loop (parserParseConfigFile depth) (S (String.length f)) f (with_parser p c)
      end
  end.

End Outside.

(** The static variables are freed, not reset. *)
Definition parserDestroy (p : parser) : ptr (list string) * ptr string :=
  (match import_stack p with Some _ => PFreed | None => PNull end,
   match sound_path p with Some _ => PFreed | None => PNull end).

(** ** The files that are accepted

    A file is a sequence of sections. What a section does is a relation on
    configurations; imports make the relations mutual. *)

Section Grammar.
Context (gethostname : option string) (gethostbyname : string -> option hostent)
        (inet_aton : string -> option Z).
Context (readdir : string -> option (list string)) (contents : string -> option (list Z)).
Context (PACKAGE_VERSION : string).
Context (expat : string -> list xml_call * bool).

(** A line that starts with the keyword [key]. *)
Definition headed (key l : string) (ws : list string) : Prop :=
  good_line l /\ skipped l = false /\ exists k, words l = k :: ws /\ ci_eq k key = true.

(** A word that is no keyword of a file. *)
Definition no_section (w : string) : Prop :=
  ci_eq w "client" = false /\ ci_eq w "event" = false /\ ci_eq w "state" = false /\
  ci_eq w "import" = false /\ ci_eq w "theme" = false.

(** The body of a section, with the lines [ls] and its end [e]. *)
Definition body_of (w : string) (ls : list string) (e : string) : Prop :=
  Forall good_line ls /\ Forall (fun l => is_end w l = false) ls /\ good_line e /\ is_end w e = true.

Inductive section : string -> config -> config -> Prop :=
| sec_skip l c : good_line l -> skipped l = true \/ words l = [] -> section l c c
| sec_general l b c p :
    headed "general" l [] ->
    (forall rest, parserParseGeneral PACKAGE_VERSION (b +:+ rest) (c_parser c) = Ok (PARSER_SUCCESS, rest, p)) ->
    section (l +:+ b) c (with_parser p c)
| sec_class l class ls e c :
    headed "class" l [class] -> no_section class -> body_of "class" ls e ->
    section (l +:+ concat_lines ls +:+ e) c
      (with_server (fold_left (class_effect gethostname gethostbyname inet_aton class) ls (c_server c)) c)
| sec_client l ws ls e c :
    headed "client" l ws -> body_of "client" ls e -> section (l +:+ concat_lines ls +:+ e) c c
| sec_event l b c p tb :
    headed "event" l [] ->
    (forall rest, parserParseEvent readdir contents (b +:+ rest) (c_parser c) (sound_table (c_world c)) =
      Ok (PARSER_SUCCESS, rest, p, tb)) ->
    section (l +:+ b) c (with_loaded p (set_sound_table tb (c_world c)) c)
| sec_state l b c p w :
    headed "state" l [] ->
    (forall rest, parserParseState readdir contents (b +:+ rest) (c_parser c) (c_world c) =
      Ok (Some PARSER_SUCCESS, rest, p, w)) ->
    section (l +:+ b) c (with_loaded p w c)
| sec_import l file c c' :
    headed "import" l [file] -> ci_eq file "theme" = false -> parses file c c' -> section l c c'
| sec_theme l file c c' :
    headed "theme" l [file] -> load_theme readdir contents expat file c = Ok (None, c') -> section l c c'
with sections : string -> config -> config -> Prop :=
| secs_nil c : sections "" c c
| secs_cons s rest c c1 c2 : section s c c1 -> sections rest c1 c2 -> sections (s +:+ rest) c c2
with parses : string -> config -> config -> Prop :=
| parses_file file f p c c' :
    open_config contents file (c_parser c) = Ok (Some f, p) ->
    sections f (with_parser p c) c' -> parses file c c'.

Scheme section_mut := Minimality for section Sort Prop
with sections_mut := Minimality for sections Sort Prop
with parses_mut := Minimality for parses Sort Prop.
Combined Scheme section_ind3 from section_mut, sections_mut, parses_mut.

(** *** One section, one round of the loop *)

Notation config_line := (config_line gethostname gethostbyname inet_aton readdir contents PACKAGE_VERSION expat).
Notation config_loop := (config_loop gethostname gethostbyname inet_aton readdir contents PACKAGE_VERSION expat).
Notation parse := (parserParseConfigFile gethostname gethostbyname inet_aton readdir contents
  PACKAGE_VERSION expat).

(** The first token of a line and the text behind it. *)
Lemma head_token key l ws :
  headed key l ws -> exists k r, parserTokenize (Some l) = Ok {| token := k; remainder := Some r |} /\
    ci_eq k key = true /\ blank_end r = true /\ words r = ws.
Proof.
  intros (Hl & _ & k & Hw & Hk). apply good_line_blank in Hl. pose proof (tokenize_blank l Hl) as H.
  rewrite Hw in H. destruct H as (r & Ht & Hr & Hb & _). by exists k, r.
Qed.

Lemma config_step imp fuel key l ws rest c :
  headed key l ws ->
  config_loop imp (S fuel) (l +:+ rest) c =
  (t ← parserTokenize (Some l);
   '(r, f, c) ← config_line imp t rest c;
   match r with
   | Next => config_loop imp fuel f c
   | Return r => mret (Some r, c)
   | ShutDown => mret (None, c)
   end).
Proof.
  intros (Hl & Hs & _). cbn [ConfigFile.config_loop]. rewrite fgets_line by done.
  destruct (parserTokenize (Some l)); [|done|done]. cbn [mbind res_bind]. by rewrite Hs.
Qed.

(** [others Hk]: the token is the keyword of [Hk] and no other. *)
Ltac others Hk :=
  match type of Hk with ci_eq ?k _ = true =>
    rewrite ?(ci_eq_other k _ "general" Hk), ?(ci_eq_other k _ "class" Hk), ?(ci_eq_other k _ "client" Hk),
      ?(ci_eq_other k _ "event" Hk), ?(ci_eq_other k _ "state" Hk), ?(ci_eq_other k _ "import" Hk),
      ?(ci_eq_other k _ "theme" Hk) by reflexivity; rewrite ?Hk
  end; cbn [mbind res_bind mret res_ret token remainder].

Ltac line_of H key :=
  let k := fresh "k" in let r := fresh "r" in let Ht := fresh "Ht" in
  destruct (head_token _ _ _ H) as (k & r & Ht & Hk & Hb & Hw); rewrite Ht; cbn [mbind res_bind];
  unfold ConfigFile.config_line, config_general, config_class, config_client, config_event, config_state,
    config_import, config_theme; cbn [token remainder]; others Hk.

Lemma skip_step imp fuel l rest c :
  good_line l -> skipped l = true \/ words l = [] ->
  config_loop imp (S fuel) (l +:+ rest) c = config_loop imp fuel rest c.
Proof.
  intros Hl Hs. cbn [ConfigFile.config_loop]. rewrite fgets_line by done.
  apply good_line_blank in Hl. pose proof (tokenize_blank l Hl) as H. destruct Hs as [Hs|Hw].
  - destruct (words l); [rewrite H|destruct H as (r & -> & _)]; cbn [mbind res_bind]; by rewrite Hs.
  - rewrite Hw in H. rewrite H. cbn [mbind res_bind]. by destruct (skipped l).
Qed.

Lemma general_step imp fuel l b rest c p :
  headed "general" l [] ->
  (forall rest, parserParseGeneral PACKAGE_VERSION (b +:+ rest) (c_parser c) = Ok (PARSER_SUCCESS, rest, p)) ->
  config_loop imp (S fuel) ((l +:+ b) +:+ rest) c = config_loop imp fuel rest (with_parser p c).
Proof.
  intros Hl Hg. rewrite string_app_assoc, (config_step imp fuel _ _ _ _ _ Hl). line_of Hl "general".
  rewrite Hg. cbn [mbind res_bind mret res_ret]. change (PARSER_SUCCESS <? 0) with false. cbn iota.
  others Hk. repeat (others Hk). done.
Qed.

Lemma class_step imp fuel l class ls e rest c :
  headed "class" l [class] -> no_section class -> body_of "class" ls e ->
  config_loop imp (S fuel) ((l +:+ concat_lines ls +:+ e) +:+ rest) c =
  config_loop imp fuel rest
    (with_server (fold_left (class_effect gethostname gethostbyname inet_aton class) ls (c_server c)) c).
Proof.
  intros Hl (N1 & N2 & N3 & N4 & N5) (B1 & B2 & B3 & B4).
  rewrite !string_app_assoc, (config_step imp fuel _ _ _ _ _ Hl). line_of Hl "class".
  pose proof (tokenize_blank r Hb) as H. rewrite Hw in H. destruct H as (r' & -> & _).
  cbn [mbind res_bind token remainder]. unfold parserParseClass.
  rewrite (class_loop_spec gethostname gethostbyname inet_aton class ls e rest) by (done || lia).
  rewrite end_no_effect by done. cbn [mbind res_bind mret res_ret]. change (PARSER_SUCCESS <? 0) with false.
  cbn iota. cbn [token]. rewrite N1. cbn [mbind res_bind mret res_ret token]. rewrite N2.
  cbn [mbind res_bind mret res_ret]. rewrite N3. cbn [mbind res_bind mret res_ret]. rewrite N4.
  cbn [mbind res_bind mret res_ret token]. by rewrite N5.
Qed.

Lemma client_loop_spec ls e rest t fuel :
  body_of "client" ls e -> (String.length (concat_lines ls +:+ e +:+ rest) < fuel)%nat ->
  exists t', client_loop fuel t (concat_lines ls +:+ e +:+ rest) = Ok (t', rest) /\
    ci_eq (token t') "client" = true.
Proof.
  intros (Hls & Hn & He & Hend). revert t fuel. induction Hls as [|l ls Hl _ IH]; intros t fuel Hf;
    (destruct fuel as [|fuel]; [lia|]); cbn [client_loop].
  - change (concat_lines [] +:+ e +:+ rest) with (e +:+ rest). rewrite fgets_line by done.
    destruct (end_tokens _ e He Hend) as (t1 & t2 & -> & H1 & H2 & H3). cbn [mbind res_bind].
    rewrite H1, H2. cbn [mbind res_bind]. rewrite H3. by exists t2.
  - apply Forall_cons in Hn as [Hnl Hn]. cbn [concat_lines] in *. rewrite string_app_assoc in *.
    rewrite fgets_line by done. pose proof (good_line_length _ Hl) as Hll.
    rewrite string_length_app in Hf. specialize (IH Hn).
    apply good_line_blank in Hl. pose proof (tokenize_blank l Hl) as H. unfold is_end in Hnl.
    destruct (words l) as [|k ws].
    + rewrite H. cbn [mbind res_bind token]. change (ci_eq "" "end") with false. cbn iota. apply IH. lia.
    + destruct H as (r & -> & Hr & Hb & _). cbn [mbind res_bind token remainder].
      destruct (ci_eq k "end"); [|apply IH; lia].
      pose proof (tokenize_blank r Hb) as H. rewrite Hr in H. destruct ws as [|v ws].
      * rewrite H. cbn [mbind res_bind token]. change (ci_eq "" "client") with false. cbn iota. apply IH. lia.
      * destruct H as (r' & -> & _). cbn [mbind res_bind token]. cbn [andb] in Hnl. rewrite Hnl.
        apply IH. lia.
Qed.

Lemma client_step imp fuel l ws ls e rest c :
  headed "client" l ws -> body_of "client" ls e ->
  config_loop imp (S fuel) ((l +:+ concat_lines ls +:+ e) +:+ rest) c = config_loop imp fuel rest c.
Proof.
  intros Hl Hbody. rewrite !string_app_assoc, (config_step imp fuel _ _ _ _ _ Hl). line_of Hl "client".
  pose proof (tokenize_blank r Hb) as H. rewrite Hw in H.
  assert (exists t, parserTokenize (Some r) = Ok t) as [t ->].
  { destruct ws; [by rewrite H; eexists|]. destruct H as (r' & -> & _). by eexists. }
  cbn [mbind res_bind].
  destruct (client_loop_spec ls e rest t (S (String.length (concat_lines ls +:+ e +:+ rest))) Hbody ltac:(lia))
    as (t' & -> & Ht').
  rewrite Hk. cbn [mbind res_bind mret res_ret]. do 6 (others Ht'). done.
Qed.

Lemma event_step imp fuel l b rest c p tb :
  headed "event" l [] ->
  (forall rest, parserParseEvent readdir contents (b +:+ rest) (c_parser c) (sound_table (c_world c)) =
    Ok (PARSER_SUCCESS, rest, p, tb)) ->
  config_loop imp (S fuel) ((l +:+ b) +:+ rest) c =
  config_loop imp fuel rest (with_loaded p (set_sound_table tb (c_world c)) c).
Proof.
  intros Hl Hg. rewrite string_app_assoc, (config_step imp fuel _ _ _ _ _ Hl). line_of Hl "event".
  repeat (others Hk). rewrite Hg. cbn [mbind res_bind mret res_ret].
  change (PARSER_SUCCESS <? 0) with false. cbn iota. repeat (others Hk). done.
Qed.

Lemma state_step imp fuel l b rest c p w :
  headed "state" l [] ->
  (forall rest, parserParseState readdir contents (b +:+ rest) (c_parser c) (c_world c) =
    Ok (Some PARSER_SUCCESS, rest, p, w)) ->
  config_loop imp (S fuel) ((l +:+ b) +:+ rest) c = config_loop imp fuel rest (with_loaded p w c).
Proof.
  intros Hl Hg. rewrite string_app_assoc, (config_step imp fuel _ _ _ _ _ Hl). line_of Hl "state".
  repeat (others Hk). rewrite Hg. cbn [mbind res_bind mret res_ret].
  change (PARSER_SUCCESS <? 0) with false. cbn iota. repeat (others Hk). done.
Qed.

Lemma import_step imp fuel l file rest c c' :
  headed "import" l [file] -> ci_eq file "theme" = false -> imp file c = Ok (Some PARSER_SUCCESS, c') ->
  config_loop imp (S fuel) (l +:+ rest) c = config_loop imp fuel rest c'.
Proof.
  intros Hl Hf Hi. rewrite (config_step imp fuel _ _ _ _ _ Hl). line_of Hl "import".
  repeat (others Hk). pose proof (tokenize_blank r Hb) as H. rewrite Hw in H. destruct H as (r' & -> & _).
  cbn [mbind res_bind token]. rewrite Hi. cbn [mbind res_bind mret res_ret].
  change (PARSER_SUCCESS <? 0) with false. cbn iota. cbn [token]. rewrite Hf. done.
Qed.

Lemma theme_step imp fuel l file rest c c' :
  headed "theme" l [file] -> load_theme readdir contents expat file c = Ok (None, c') ->
  config_loop imp (S fuel) (l +:+ rest) c = config_loop imp fuel rest c'.
Proof.
  intros Hl Hi. rewrite (config_step imp fuel _ _ _ _ _ Hl). line_of Hl "theme".
  repeat (others Hk). pose proof (tokenize_blank r Hb) as H. rewrite Hw in H. destruct H as (r' & -> & _).
  cbn [mbind res_bind token]. by rewrite Hi.
Qed.

Lemma headed_length key l ws : headed key l ws -> (0 < String.length l)%nat.
Proof. intros [Hl _]. by apply good_line_length. Qed.

(** A derivation is followed by the parser, given enough depth for the imports
    in it. *)
Lemma grammar_parsed :
  (forall s c c', section s c c' -> (0 < String.length s)%nat /\ exists d, forall d', (d <= d')%nat ->
     forall fuel rest, config_loop (parse d') (S fuel) (s +:+ rest) c = config_loop (parse d') fuel rest c') /\
  (forall f c c', sections f c c' -> exists d, forall d', (d <= d')%nat ->
     forall fuel, (String.length f < fuel)%nat -> config_loop (parse d') fuel f c = Ok (Some PARSER_SUCCESS, c')) /\
  (forall file c c', parses file c c' -> exists d, forall d', (d <= d')%nat ->
     parse d' file c = Ok (Some PARSER_SUCCESS, c')).
Proof.
  apply section_ind3.
  - intros l c Hl Hs. split; [by apply good_line_length|]. exists 0%nat. intros d' _ fuel rest.
    by apply skip_step.
  - intros l b c p Hl Hg. split; [rewrite string_length_app; apply headed_length in Hl; lia|].
    exists 0%nat. intros d' _ fuel rest. by apply general_step.
  - intros l class ls e c Hl Hn Hb. split; [rewrite string_length_app; apply headed_length in Hl; lia|].
    exists 0%nat. intros d' _ fuel rest. by apply class_step.
  - intros l ws ls e c Hl Hb. split; [rewrite string_length_app; apply headed_length in Hl; lia|].
    exists 0%nat. intros d' _ fuel rest. by eapply client_step.
  - intros l b c p tb Hl Hg. split; [rewrite string_length_app; apply headed_length in Hl; lia|].
    exists 0%nat. intros d' _ fuel rest. by apply event_step.
  - intros l b c p w Hl Hg. split; [rewrite string_length_app; apply headed_length in Hl; lia|].
    exists 0%nat. intros d' _ fuel rest. by apply state_step.
  - intros l file c c' Hl Hf _ [d Hd]. split; [by eapply headed_length|]. exists d. intros d' Hd' fuel rest.
    eapply import_step; [done|done|by apply Hd].
  - intros l file c c' Hl Hf. split; [by eapply headed_length|]. exists 0%nat. intros d' _ fuel rest.
    by eapply theme_step.
  - intros c. exists 0%nat. intros d' _ [|fuel] Hf; [simpl in Hf; lia|done].
  - intros s rest c c1 c2 _ [Hs [d1 H1]] _ [d2 H2]. exists (max d1 d2). intros d' Hd' [|fuel] Hf; [lia|].
    rewrite H1 by lia. apply H2; [lia|]. rewrite string_length_app in Hf. lia.
  - intros file f p c c' Ho _ [d Hd]. exists (S d). intros [|d'] Hd'; [lia|].
    cbn [parserParseConfigFile]. rewrite Ho. cbn [mbind res_bind]. apply Hd; lia.
Qed.
End Grammar.

(** C31: a file whose text is a sequence of comments and sections, and of
    imports of such files, is accepted: the result is success, and the parser,
    the server, the mixer and the sound table are as the sections make them,
    one after the other. *)
Theorem parserParseConfigFile_sections (gethostname : option string)
    (gethostbyname : string -> option hostent) (inet_aton : string -> option Z)
    (readdir : string -> option (list string)) (contents : string -> option (list Z))
    (PACKAGE_VERSION : string) (expat : string -> list xml_call * bool) (file : string) (c c' : config) :
  parses gethostname gethostbyname inet_aton readdir contents PACKAGE_VERSION expat file c c' ->
  exists depth, forall d, (depth <= d)%nat ->
    parserParseConfigFile gethostname gethostbyname inet_aton readdir contents PACKAGE_VERSION expat d file c =
    Ok (Some PARSER_SUCCESS, c').
Proof.
  apply (grammar_parsed gethostname gethostbyname inet_aton readdir contents PACKAGE_VERSION expat).
Qed.

(** ** Witness *)

Definition main_text : string :=
  nl "# the configuration" +:+ (nl "class home" +:+ concat_lines [nl "port 2001"] +:+ nl "end class") +:+
  nl "import sub.conf" +:+ "".
Definition sub_text : string :=
  nl "" +:+ (nl "client logparser" +:+ concat_lines [nl "class x"; nl "end config"] +:+ nl "end client") +:+ "".

Definition demo_conf (f : string) : option (list Z) :=
  if bool_decide (f = ".//peep.conf") then Some (bytes_of main_text)
  else if bool_decide (f = ".//sub.conf") then Some (bytes_of sub_text) else None.

Definition demo_config : config :=
  {| c_parser := parserInit blank_parser; c_server := blank_server; c_world := blank_world; c_trans := [] |}.

Ltac headed_ok := split; [good|split; [reflexivity|eexists; split; reflexivity]].
Ltac body_ok := split; [repeat constructor; good|split; [repeat constructor|split; [good|reflexivity]]].

Lemma parserParseConfigFile_sections_witness :
  exists depth, forall d, (depth <= d)%nat ->
    parserParseConfigFile None (fun _ => None) (fun _ => None) (fun _ => None) demo_conf "0.5.0"
      (fun _ => ([], true)) d "peep.conf" demo_config =
    Ok (Some PARSER_SUCCESS,
        with_server {| identifier := None; port := port blank_server; broadcast_list := [2001]; sent := [] |}
          demo_config).
Proof.
  apply (parserParseConfigFile_sections None (fun _ => None) (fun _ => None) (fun _ => None) demo_conf "0.5.0"
    (fun _ => ([], true)) "peep.conf" demo_config).
  apply parses_file with (f := main_text) (p := c_parser demo_config); [vm_compute; reflexivity|].
  unfold main_text. eapply secs_cons; [apply sec_skip; [good|left; reflexivity]|].
  eapply secs_cons.
  { apply (sec_class _ _ _ _ _ _ _ (nl "class home") "home" [nl "port 2001"] (nl "end class"));
      [headed_ok|repeat split|body_ok]. }
  eapply secs_cons; [|vm_compute; apply secs_nil].
  eapply sec_import with (file := "sub.conf"); [headed_ok|reflexivity|].
  apply parses_file with (f := sub_text) (p := c_parser demo_config); [vm_compute; reflexivity|].
  unfold sub_text. eapply secs_cons; [apply sec_skip; [good|left; reflexivity]|].
  eapply secs_cons; [|apply secs_nil].
  eapply (sec_client _ _ _ _ _ _ _ (nl "client logparser") ["logparser"]); [headed_ok|body_ok].
Defined.
