(* ===== verification/Threads.v ===== *)
(** * Threads, signals and cancellation ([thread.c], with the threads of [main.c])

    The calls of [thread.c] over a table of the threads of the process, as POSIX
    describes them: a thread inherits the signal mask of the one that creates it,
    a signal to the process is taken by some thread that does not block it, and
    a cancellation takes effect when its thread gets to a cancellation point.
    A handler that [signal] has set keeps its signal blocked in the thread that
    it runs in, until it returns, as in the BSD and GNU libraries.
    Then the threads of the program, each with the place where it is, and which
    of them the handler of the signals can interrupt. *)

From stdpp Require Import base gmap list sets.
From Stdlib Require Import ZArith Lia.
From S2P Require Import Prelude.
Local Open Scope Z_scope.

(** The signals the program handles, and the error of [pthread_create]. *)
Definition SIGHUP : Z := 1.
Definition SIGINT : Z := 2.
Definition EAGAIN : Z := 11.
Definition MIXER_THREAD_USLEEP : Z := 5000.

(** ** The thread table *)

(** What a thread runs: the first thread of the process [main], the others one
    of the functions that are given to [startThread]. *)
Inductive routine : Type := MainThread | DoMixing | EngineLoop | ServerServlet.

(** Where a thread is: before its first statement, in its work, or at the call
    in its loop that is a cancellation point. *)
Inductive place : Type := AtStart | Working | AtPoint.

#[export] Instance routine_eq_dec : EqDecision routine.
Proof. solve_decision. Defined.
#[export] Instance place_eq_dec : EqDecision place.
Proof. solve_decision. Defined.

Record tcb : Type := {
  t_routine : routine;
  t_place : place;
  t_blocked : gset Z;    (* the signal mask *)
  t_cancel : bool;       (* a cancellation is requested *)
  t_detached : bool;
  t_ended : bool;
  t_handling : list Z    (* the signals whose handlers run in it, the last one first *)
}.

#[local] Notation table := (list tcb).

(** A variable of type [pthread_t]: the null of a static variable, a thread, or
    what [pthread_create] leaves there when it fails. *)
Inductive pthread : Type := NoThread | Thread (i : nat) | Unspecified.

#[export] Instance pthread_eq_dec : EqDecision pthread.
Proof. solve_decision. Defined.

Definition with_place (p : place) (t : tcb) : tcb :=
  {| t_routine := t_routine t; t_place := p; t_blocked := t_blocked t; t_cancel := t_cancel t;
     t_detached := t_detached t; t_ended := t_ended t; t_handling := t_handling t |}.
Definition with_blocked (s : gset Z) (t : tcb) : tcb :=
  {| t_routine := t_routine t; t_place := t_place t; t_blocked := s; t_cancel := t_cancel t;
     t_detached := t_detached t; t_ended := t_ended t; t_handling := t_handling t |}.
Definition with_cancel (t : tcb) : tcb :=
  {| t_routine := t_routine t; t_place := t_place t; t_blocked := t_blocked t; t_cancel := true;
     t_detached := t_detached t; t_ended := t_ended t; t_handling := t_handling t |}.
Definition with_detached (t : tcb) : tcb :=
  {| t_routine := t_routine t; t_place := t_place t; t_blocked := t_blocked t; t_cancel := t_cancel t;
     t_detached := true; t_ended := t_ended t; t_handling := t_handling t |}.
Definition with_ended (t : tcb) : tcb :=
  {| t_routine := t_routine t; t_place := t_place t; t_blocked := t_blocked t; t_cancel := t_cancel t;
     t_detached := t_detached t; t_ended := true; t_handling := t_handling t |}.

Definition with_handling (l : list Z) (t : tcb) : tcb :=
  {| t_routine := t_routine t; t_place := t_place t; t_blocked := t_blocked t; t_cancel := t_cancel t;
     t_detached := t_detached t; t_ended := t_ended t; t_handling := l |}.

(** The signals that the thread cannot take now. *)
Definition mask (t : tcb) : gset Z := t_blocked t ∪ list_to_set (t_handling t).

(** The thread [i], which must still run. *)
Definition running (i : nat) (ts : table) : res tcb :=
  match ts !! i with
  | Some t => if t_ended t then Fault Blocked else mret t
  | None => Fault Blocked
  end.

(** The thread [i] where it is in its own code, and not in a handler. *)
Definition in_code (i : nat) (ts : table) : res tcb :=
  t ← running i ts;
  match t_handling t with [] => mret t | _ => Fault Blocked end.

(** The thread that a handle names. Its identifier is no longer valid when it
    has ended and is detached. *)
Definition named (h : pthread) (ts : table) : res (nat * tcb) :=
  match h with
  | NoThread => Fault NullDeref
  | Unspecified => Fault UninitRead
  | Thread i =>
      match ts !! i with
      | None => Fault UseAfterFree
      | Some t => if t_ended t && t_detached t then Fault UseAfterFree else mret (i, t)
      end
  end.

(** ** The calls of [thread.c]

    [self] is the thread that calls. [ok]: whether [pthread_create] succeeds. *)

Definition new_tcb (func : routine) (t : tcb) : tcb :=
  {| t_routine := func; t_place := match func with ServerServlet => Working | _ => AtStart end;
     t_blocked := mask t; t_cancel := false; t_detached := false; t_ended := false; t_handling := [] |}.

Definition startThread (ok : bool) (func : routine) (self : nat) (ts : table) : res (Z * pthread * table) :=
  t ← running self ts;
  if (ok : bool) then mret (0, Thread (length ts), ts ++ [new_tcb func t])
  else mret (EAGAIN, Unspecified, ts).

(** The mutex is free. *)
Definition threadLockInit (lock : bool) : bool := false.

(** What every cancellation point does first. *)
Definition cancellation_point (self : nat) (ts : table) : res table :=
  t ← running self ts;
  mret (if t_cancel t then <[self := with_ended t]> ts else ts).

(** [pthread_testcancel] *)
Definition threadCheckCancelled (self : nat) (ts : table) : res table := cancellation_point self ts.

(** [usleep] is a cancellation point; time does not matter here. *)
Definition threadSleep (utime : Z) (self : nat) (ts : table) : res table := cancellation_point self ts.

(** [pthread_cancel] *)
Definition threadKill (thread : pthread) (ts : table) : res table :=
  '(i, t) ← named thread ts; mret (<[i := with_cancel t]> ts).

(** [pthread_detach], for a thread that is joinable. *)
Definition threadDetach (thread : pthread) (ts : table) : res table :=
  '(i, t) ← named thread ts;
  if t_detached t then Fault UseAfterFree else mret (<[i := with_detached t]> ts).

Definition threadBlockSignals (self : nat) (ts : table) : res table :=
  t ← running self ts;
  mret (<[self := with_blocked (t_blocked t ∪ {[SIGINT; SIGHUP]}) t]> ts).

(** The signals that [setSigHandlers] sets the handler for. *)
Definition handled : gset Z := {[SIGINT; SIGHUP]}.

(** A signal to the process interrupts the thread [i], which enters the handler:
    there it blocks the signal too. *)
Definition takes_signal (sig : Z) (i : nat) (ts : table) : res table :=
  t ← running i ts;
  if decide (sig ∈ handled /\ sig ∉ mask t)
  then mret (<[i := with_handling (sig :: t_handling t) t]> ts) else Fault Blocked.

(** The handler returns: after a hangup only, for any other signal it ends the
    process. *)
Definition handler_returns (i : nat) (ts : table) : res table :=
  t ← running i ts;
  match t_handling t with
  | sig :: l => if sig =? SIGHUP then mret (<[i := with_handling l t]> ts) else Fault Blocked
  | [] => Fault Blocked
  end.

(** ** The threads of the program *)

(** The static variables of [main.c]. *)
Record threads : Type := { t_table : table; ethread : pthread; mthread : pthread }.

(** The process when [main] starts. *)
Definition one_thread : threads :=
  {| t_table := [{| t_routine := MainThread; t_place := Working; t_blocked := ∅; t_cancel := false;
                    t_detached := false; t_ended := false; t_handling := [] |}];
     ethread := NoThread; mthread := NoThread |}.

(** [startThread (doMixing, 0, &mthread)] in [main]; its result is not used. *)
Definition start_mixer_thread (ok : bool) (s : threads) : res threads :=
  '(_, h, ts) ← startThread ok DoMixing 0 (t_table s);
  mret {| t_table := ts; ethread := ethread s; mthread := h |}.

(** [startThread (engineLoop, 0, &ethread)]. *)
Definition start_engine_thread (ok : bool) (s : threads) : res threads :=
  '(_, h, ts) ← startThread ok EngineLoop 0 (t_table s);
  mret {| t_table := ts; ethread := h; mthread := mthread s |}.

(** The thread of a connection, in the accept loops of [tcp_server.c] and
    [ssl_server.c]. *)
Definition start_servlet (ok : bool) (s : threads) : res threads :=
  '(_, client_thread, ts) ← startThread ok ServerServlet 0 (t_table s);
  ts ← threadDetach client_thread ts;
  mret {| t_table := ts; ethread := ethread s; mthread := mthread s |}.

Definition kill_if_set (h : pthread) (ts : table) : res table :=
  match h with NoThread => mret ts | _ => threadKill h ts end.

(** What [handleSignal] does first. *)
Definition stop_threads (s : threads) : res threads :=
  ts ← kill_if_set (ethread s) (t_table s);
  ts ← kill_if_set (mthread s) ts;
  mret {| t_table := ts; ethread := ethread s; mthread := mthread s |}.

(** The thread [i] gets to its next place: [doMixing] blocks the signals, then
    mixes, then checks for a cancellation and sleeps; [engineLoop] blocks the
    signals, then waits at the semaphore, then handles an event; a servlet
    ends. What the thread does to the rest of the state when it is [Working] is
    not here. *)
Definition thread_step (i : nat) (ts : table) : res table :=
  t ← in_code i ts;
  match t_routine t, t_place t with
  | MainThread, _ => mret ts
  | ServerServlet, _ => mret (<[i := with_ended t]> ts)
  | DoMixing, AtStart => ts ← threadBlockSignals i ts; mret (alter (with_place Working) i ts)
  | EngineLoop, AtStart => ts ← threadBlockSignals i ts; mret (alter (with_place AtPoint) i ts)
  | _, Working => mret (alter (with_place AtPoint) i ts)
  | DoMixing, AtPoint =>
      ts ← threadCheckCancelled i ts;
      t ← match ts !! i with Some t => mret t | None => Fault Blocked end;
      if t_ended t then mret ts
      else ts ← threadSleep MIXER_THREAD_USLEEP i ts; mret (alter (with_place Working) i ts)
  | EngineLoop, AtPoint => ts ← cancellation_point i ts; mret (alter (with_place Working) i ts)
  end.

(** What happens to the threads: the main thread accepts a connection, a thread
    goes on, a signal interrupts a thread, which enters the handler and asks the
    workers to end, or the handler that a thread is in returns. *)
Inductive happening : Type :=
| Accept (ok : bool)
| Advance (i : nat)
| Signal (sig : Z) (i : nat)
| Return (i : nat).

Definition with_table (ts : table) (s : threads) : threads :=
  {| t_table := ts; ethread := ethread s; mthread := mthread s |}.

Definition happen (a : happening) (s : threads) : res threads :=
  match a with
  | Accept ok => in_code 0 (t_table s);; start_servlet ok s
  | Advance i => ts ← thread_step i (t_table s); mret (with_table ts s)
  | Signal sig i => ts ← takes_signal sig i (t_table s); stop_threads (with_table ts s)
  | Return i => ts ← handler_returns i (t_table s); mret (with_table ts s)
  end.

Fixpoint happens (l : list happening) (s : threads) : res threads :=
  match l with [] => mret s | a :: l => s ← happen a s; happens l s end.

(** Both threads have been started. *)
Definition start_workers (ok1 ok2 : bool) (s : threads) : res threads :=
  s ← start_mixer_thread ok1 s; start_engine_thread ok2 s.

(** ** The invariant of the threads *)

Definition worker (t : tcb) : bool :=
  match t_routine t with DoMixing | EngineLoop => true | MainThread | ServerServlet => false end.

(** The main thread and the servlets block no signal of their own; a worker
    blocks those of the program once it is past its first statement, and is in
    no handler then. A thread is not twice in the handler of a signal. *)
Definition shielded (t : tcb) : Prop :=
  NoDup (t_handling t) /\
  if worker t
  then match t_place t with
       | AtStart => t_blocked t = ∅
       | _ => handled ⊆ t_blocked t /\ t_handling t = []
       end
  else t_blocked t = ∅.

(** A signal that the thread can take. *)
Definition can_take (sig : Z) (t : tcb) : Prop :=
  t_ended t = false /\ (worker t = true -> t_place t = AtStart) /\ sig ∉ t_handling t.

Lemma shielded_mask sig t :
  sig ∈ handled -> shielded t -> sig ∉ mask t <-> (worker t = true -> t_place t = AtStart) /\ sig ∉ t_handling t.
Proof.
  intros Hs [_ H]. unfold mask. rewrite elem_of_union, elem_of_list_to_set. destruct (worker t).
  - destruct (t_place t); [rewrite H; set_solver|destruct H as [H ->]..]; split;
      [intros Hn; exfalso; apply Hn; left; by apply H|by intros [Hp _]; specialize (Hp eq_refl)
      |intros Hn; exfalso; apply Hn; left; by apply H|by intros [Hp _]; specialize (Hp eq_refl)].
  - rewrite H. set_solver.
Qed.

(** The two handles are those of threads that can be cancelled. *)
Definition valid (h : pthread) (ts : table) : Prop :=
  exists i t, h = Thread i /\ ts !! i = Some t /\ worker t = true /\ t_detached t = false.

Record threads_inv (s : threads) : Prop := {
  ti_main : exists t, t_table s !! 0%nat = Some t /\ t_routine t = MainThread /\ t_ended t = false;
  ti_shield : Forall shielded (t_table s);
  ti_engine : valid (ethread s) (t_table s);
  ti_mixer : valid (mthread s) (t_table s)
}.

Lemma running_inv i ts t : running i ts = Ok t <-> ts !! i = Some t /\ t_ended t = false.
Proof.
  unfold running. destruct (ts !! i) as [t'|]; [|by split; [|intros []]].
  destruct (t_ended t') eqn:He; split.
  - done.
  - intros [[= ->] H]. congruence.
  - by intros [= <-].
  - by intros [[= ->] _].
Qed.

(** What changes of a thread when it is set to another state: its routine never
    does. [alike f]: [f] keeps what the invariant says of a thread. *)
Record alike (t t' : tcb) : Prop := {
  al_routine : t_routine t' = t_routine t;
  al_shield : shielded t -> shielded t';
  al_detached : worker t = true -> t_detached t' = t_detached t;
  al_main : t_routine t = MainThread -> t_ended t' = t_ended t
}.

#[export] Instance alike_preorder : PreOrder alike.
Proof.
  split; [by split|]. intros t u v [R1 S1 D1 M1] [R2 S2 D2 M2]. unfold worker in *. split.
  - congruence.
  - auto.
  - intros Hw. rewrite D2 by (by rewrite R1). auto.
  - intros Hr. rewrite M2 by congruence. auto.
Qed.

(** A table after steps of its threads: what was there is still there. *)
Definition onward (ts ts' : table) : Prop :=
  length ts = length ts' /\ forall i t, ts !! i = Some t -> exists t', ts' !! i = Some t' /\ alike t t'.

#[export] Instance onward_preorder : PreOrder onward.
Proof.
  split; [intros ts; split; [done|]; intros i t Hi; by exists t|].
  intros u v w [L1 H1] [L2 H2]. split; [congruence|]. intros i t Hi. destruct (H1 i t Hi) as (t1 & Hi1 & A1).
  destruct (H2 i t1 Hi1) as (t2 & Hi2 & A2). exists t2. split; [done|by etransitivity].
Qed.

Lemma onward_insert i t t' ts : ts !! i = Some t -> alike t t' -> onward ts (<[i := t']> ts).
Proof.
  intros Hi Ha. split; [by rewrite length_insert|]. intros j u Hj. destruct (decide (i = j)) as [<-|Hne].
  - rewrite list_lookup_insert_eq by (by eapply lookup_lt_Some). rewrite Hi in Hj. injection Hj as <-. by exists t'.
  - rewrite list_lookup_insert_ne by done. by exists u.
Qed.

Lemma onward_inv s ts :
  threads_inv s -> onward (t_table s) ts ->
  threads_inv {| t_table := ts; ethread := ethread s; mthread := mthread s |}.
Proof.
  intros [(t0 & H0 & R0 & E0) Hs He Hm] [Hl Ho].
  assert (Hvalid : forall h, valid h (t_table s) -> valid h ts).
  { intros h (i & t & -> & Hi & Hw & Hd). destruct (Ho i t Hi) as (t' & Hi' & A). exists i, t'.
    split; [done|]. split; [done|]. unfold worker in *. rewrite (al_routine _ _ A).
    split; [done|]. by rewrite (al_detached _ _ A Hw). }
  split; cbn; [|..].
  - destruct (Ho _ _ H0) as (t' & H' & A). exists t'. split; [done|].
    rewrite (al_routine _ _ A), (al_main _ _ A R0). done.
  - apply Forall_lookup. intros i t' Hi. destruct (lookup_lt_is_Some_2 (t_table s) i) as [t Ht].
    { rewrite Hl. by eapply lookup_lt_Some. }
    destruct (Ho i t Ht) as (t1 & Ht1 & A). rewrite Hi in Ht1. injection Ht1 as <-.
    by apply A, (Forall_lookup_1 _ _ _ _ Hs Ht).
  - by apply Hvalid.
  - by apply Hvalid.
Qed.

(** ** The steps keep it *)

Lemma alike_cancel t : alike t (with_cancel t).
Proof. by split. Qed.

Lemma alike_end t : t_routine t <> MainThread -> alike t (with_ended t).
Proof. intros H. split; [done|done|done|]. by intros. Qed.

(** Past the first statement a place is as good as any other. *)
Lemma alike_place p t : p <> AtStart -> (worker t = true -> t_place t <> AtStart) -> alike t (with_place p t).
Proof.
  intros Hp H. split; try done. unfold shielded, worker in *. cbn. intros [Hn Hs]. split; [done|].
  destruct (t_routine t); try done; specialize (H eq_refl); by destruct p, (t_place t).
Qed.

Lemma alike_start p t :
  p <> AtStart -> worker t = true -> t_handling t = [] -> alike t (with_place p (with_blocked (t_blocked t ∪ handled) t)).
Proof.
  intros Hp H Hh. split; try done. unfold shielded, worker in *. cbn. intros [Hn _]. split; [done|].
  rewrite Hh. destruct (t_routine t); try done; destruct p; try done; (split; [set_solver|done]).
Qed.

(** A thread that enters a handler or leaves one. *)
Lemma alike_enter sig t : sig ∈ handled -> sig ∉ mask t -> alike t (with_handling (sig :: t_handling t) t).
Proof.
  intros Hs Hm. split; try done. intros H. pose proof (proj1 (shielded_mask _ _ Hs H) Hm) as [Hw Hn].
  destruct H as [Hd H]. split; [by constructor|]. unfold worker in *. cbn in *.
  destruct (t_routine t); try done; by rewrite (Hw eq_refl) in *.
Qed.

Lemma alike_leave sig l t : t_handling t = sig :: l -> alike t (with_handling l t).
Proof.
  intros Hl. split; try done. intros [Hd H]. rewrite Hl in *. apply NoDup_cons in Hd as [_ Hd].
  split; [done|]. unfold worker in *. cbn. destruct (t_routine t); try done; by destruct (t_place t), H.
Qed.

(** A step of a thread, by its place. *)
Lemma in_code_inv i ts t :
  in_code i ts = Ok t <-> ts !! i = Some t /\ t_ended t = false /\ t_handling t = [].
Proof.
  unfold in_code. split.
  - intros H. apply bind_ok in H as (u & [Hi He]%running_inv & H). destruct (t_handling u) eqn:Hh; [|done].
    injection H as ->. done.
  - intros (Hi & He & Hh). rewrite (proj2 (running_inv _ _ _) (conj Hi He)). cbn. by rewrite Hh.
Qed.

Lemma thread_step_eq i ts t :
  ts !! i = Some t -> t_ended t = false -> t_handling t = [] ->
  thread_step i ts = Ok (
    match t_routine t, t_place t with
    | MainThread, _ => ts
    | ServerServlet, _ => <[i := with_ended t]> ts
    | DoMixing, AtStart => <[i := with_place Working (with_blocked (t_blocked t ∪ handled) t)]> ts
    | EngineLoop, AtStart => <[i := with_place AtPoint (with_blocked (t_blocked t ∪ handled) t)]> ts
    | _, Working => <[i := with_place AtPoint t]> ts
    | DoMixing, AtPoint => if t_cancel t then <[i := with_ended t]> ts else <[i := with_place Working t]> ts
    | EngineLoop, AtPoint =>
        <[i := with_place Working (if t_cancel t then with_ended t else t)]> ts
    end).
Proof.
  intros Hi He Hh. pose proof (proj2 (running_inv i ts t) (conj Hi He)) as Hr.
  pose proof (lookup_lt_Some _ _ _ Hi) as Hlt.
  unfold thread_step. rewrite (proj2 (in_code_inv i ts t) (conj Hi (conj He Hh))). cbn [mbind res_bind].
  unfold threadCheckCancelled, threadSleep, threadBlockSignals, cancellation_point. rewrite Hr. cbn [mbind res_bind].
  destruct (t_routine t), (t_place t); cbn [mbind res_bind mret res_ret]; try done.
  - by rewrite alter_insert.
  - by rewrite (alter_at _ _ _ _ Hi).
  - destruct (t_cancel t) eqn:Hc.
    + by rewrite list_lookup_insert_eq by done.
    + rewrite Hi. cbn [mbind res_bind mret res_ret]. rewrite He, Hr. cbn [mbind res_bind mret res_ret].
      by rewrite Hc, (alter_at _ _ _ _ Hi).
  - by rewrite alter_insert.
  - by rewrite (alter_at _ _ _ _ Hi).
  - destruct (t_cancel t); [by rewrite alter_insert|by rewrite (alter_at _ _ _ _ Hi)].
Qed.

Lemma thread_step_inv i ts ts' :
  thread_step i ts = Ok ts' -> exists t, ts !! i = Some t /\ t_ended t = false /\ t_handling t = [].
Proof. intros H. unfold thread_step in H. apply bind_ok in H as (t & Hr & _). exists t. by apply in_code_inv. Qed.

Lemma thread_step_onward i ts ts' : thread_step i ts = Ok ts' -> onward ts ts'.
Proof.
  intros H. destruct (thread_step_inv _ _ _ H) as (t & Hi & He & Hh).
  rewrite (thread_step_eq i ts t Hi He Hh) in H. injection H as <-.
  assert (Hgo : forall t', alike t t' -> onward ts (<[i := t']> ts)) by (intros; by eapply onward_insert).
  destruct (t_routine t) eqn:Er, (t_place t) eqn:Ep; try reflexivity;
    try (apply Hgo, alike_end; congruence);
    try (apply Hgo, alike_place; congruence);
    try (apply Hgo, alike_start; [done|by unfold worker; rewrite Er|done]).
  - destruct (t_cancel t); apply Hgo; [apply alike_end; congruence|apply alike_place; congruence].
  - destruct (t_cancel t); apply Hgo; [|apply alike_place; congruence].
    transitivity (with_ended t); [apply alike_end; congruence|apply alike_place; cbn; congruence].
Qed.

(** *** A cancellation *)

Lemma kill_valid h ts :
  valid h ts -> exists i t, h = Thread i /\ ts !! i = Some t /\ worker t = true /\
    kill_if_set h ts = Ok (<[i := with_cancel t]> ts).
Proof.
  intros (i & t & -> & Hi & Hw & Hd). exists i, t. split_and!; try done.
  unfold kill_if_set, threadKill, named. rewrite Hi, Hd, andb_false_r. done.
Qed.

Lemma valid_onward h ts ts' : valid h ts -> onward ts ts' -> valid h ts'.
Proof.
  intros (i & t & -> & Hi & Hw & Hd) [_ Ho]. destruct (Ho i t Hi) as (t' & Hi' & A). exists i, t'.
  split; [done|]. split; [done|]. unfold worker in *. rewrite (al_routine _ _ A). split; [done|].
  by rewrite (al_detached _ _ A Hw).
Qed.

(** Both workers are asked to end, and nothing else happens. *)
Lemma stop_threads_eq s :
  threads_inv s ->
  exists e m s', ethread s = Thread e /\ mthread s = Thread m /\ stop_threads s = Ok s' /\
    ethread s' = ethread s /\ mthread s' = mthread s /\ onward (t_table s) (t_table s') /\
    forall i t, t_table s !! i = Some t ->
      t_table s' !! i = Some (if bool_decide (i = e) || bool_decide (i = m) then with_cancel t else t).
Proof.
  intros H. destruct (kill_valid _ _ (ti_engine _ H)) as (e & te & He & Hte & _ & K1).
  assert (onward (t_table s) (<[e := with_cancel te]> (t_table s))) as O1
    by (eapply onward_insert; [done|apply alike_cancel]).
  destruct (kill_valid _ _ (valid_onward _ _ _ (ti_mixer _ H) O1)) as (m & tm & Hm & Htm & _ & K2).
  assert (onward (t_table s) (<[m := with_cancel tm]> (<[e := with_cancel te]> (t_table s)))) as O2
    by (etransitivity; [exact O1|]; eapply onward_insert; [done|apply alike_cancel]).
  eexists e, m, _. unfold stop_threads. rewrite K1. cbn [mbind res_bind]. rewrite K2.
  split; [done|]. split; [done|]. split; [reflexivity|]. cbn. split; [done|]. split; [done|]. split; [done|].
  intros i t Hi. pose proof (lookup_lt_Some _ _ _ Hi). destruct (decide (i = m)) as [->|Hnm].
  - rewrite list_lookup_insert_eq by (by rewrite length_insert).
    rewrite (bool_decide_true (m = m)) by done. rewrite orb_true_r.
    destruct (decide (m = e)) as [->|Hne].
    + rewrite list_lookup_insert_eq in Htm by done. injection Htm as <-.
      rewrite Hte in Hi. by injection Hi as <-.
    + rewrite list_lookup_insert_ne in Htm by done. rewrite Hi in Htm. by injection Htm as <-.
  - rewrite list_lookup_insert_ne by done. rewrite (bool_decide_false (i = m)) by done. rewrite orb_false_r.
    destruct (decide (i = e)) as [->|Hne].
    + rewrite list_lookup_insert_eq by done. rewrite bool_decide_true by done.
      rewrite Hte in Hi. by injection Hi as <-.
    + rewrite list_lookup_insert_ne by done. by rewrite bool_decide_false by done.
Qed.

(** *** A new thread *)

Lemma valid_app h ts t : valid h ts -> valid h (ts ++ [t]).
Proof.
  intros (i & u & -> & Hi & Hw & Hd). exists i, u. split_and!; try done. by apply lookup_app_l_Some.
Qed.

(** A connection gets a thread that is detached and blocks no signal. When the
    thread cannot be created the handle that is detached is indeterminate. *)
Lemma start_servlet_eq s :
  threads_inv s ->
  start_servlet false s = Fault UninitRead /\
  exists t0, t_table s !! 0%nat = Some t0 /\
    start_servlet true s = Ok {| t_table := t_table s ++ [with_detached (new_tcb ServerServlet t0)];
                                 ethread := ethread s; mthread := mthread s |}.
Proof.
  intros H. destruct (ti_main _ H) as (t0 & H0 & R0 & E0). pose proof (proj2 (running_inv _ _ _) (conj H0 E0)) as Hr.
  unfold start_servlet, startThread. rewrite Hr. cbn [mbind res_bind mret res_ret]. split; [done|].
  exists t0. split; [done|]. unfold threadDetach, named. rewrite list_lookup_middle by done.
  cbn [t_ended new_tcb andb mbind res_bind mret res_ret t_detached]. by rewrite insert_app_r_alt, Nat.sub_diag by done.
Qed.

Lemma servlet_inv ok s s' :
  threads_inv s -> happen (Accept ok) s = Ok s' -> threads_inv s' /\ exists t, t_table s' = t_table s ++ [t].
Proof.
  intros H Hs. apply bind_ok in Hs as (u & (Hu & _ & Hh)%in_code_inv & Hs).
  destruct (start_servlet_eq s H) as (Hf & t0 & H0 & Ht). destruct ok; [|by rewrite Hf in Hs].
  rewrite Ht in Hs. injection Hs as <-. cbn. split; [|by eexists]. pose proof (ti_shield _ H) as Hsh.
  destruct (ti_main _ H) as (t1 & H1 & R1 & E1). rewrite H0 in H1. injection H1 as <-. split; cbn.
  - exists t0. split; [by apply lookup_app_l_Some|done].
  - apply Forall_app. split; [done|]. apply Forall_singleton. pose proof (Forall_lookup_1 _ _ _ _ Hsh H0) as [_ S0].
    rewrite Hu in H0. injection H0 as ->. unfold shielded, worker in *. rewrite R1 in S0. cbn. unfold mask.
    rewrite Hh, S0. split; [constructor|set_solver].
  - apply valid_app, H.
  - apply valid_app, H.
Qed.

(** What enters a handler or leaves one. *)
Lemma takes_signal_inv sig i ts ts' :
  takes_signal sig i ts = Ok ts' <->
  exists t, ts !! i = Some t /\ t_ended t = false /\ sig ∈ handled /\ sig ∉ mask t /\
    ts' = <[i := with_handling (sig :: t_handling t) t]> ts.
Proof.
  unfold takes_signal. split.
  - intros H. apply bind_ok in H as (t & [Hi He]%running_inv & H). case_decide as Hd; [|done]. injection H as <-.
    exists t. by destruct Hd.
  - intros (t & Hi & He & Hs & Hm & ->). rewrite (proj2 (running_inv _ _ _) (conj Hi He)). cbn [mbind res_bind].
    by rewrite decide_True by done.
Qed.

Lemma handler_returns_inv i ts ts' :
  handler_returns i ts = Ok ts' ->
  exists t l, ts !! i = Some t /\ t_handling t = SIGHUP :: l /\ ts' = <[i := with_handling l t]> ts.
Proof.
  unfold handler_returns. intros H. apply bind_ok in H as (t & [Hi _]%running_inv & H).
  destruct (t_handling t) as [|sig l] eqn:Hl; [done|]. destruct (Z.eqb_spec sig SIGHUP) as [->|]; [|done].
  injection H as <-. by exists t, l.
Qed.

Lemma takes_signal_onward sig i ts ts' : takes_signal sig i ts = Ok ts' -> onward ts ts'.
Proof.
  intros (t & Hi & _ & Hs & Hm & ->)%takes_signal_inv. eapply onward_insert; [done|by apply alike_enter].
Qed.

Lemma handler_returns_onward i ts ts' : handler_returns i ts = Ok ts' -> onward ts ts'.
Proof.
  intros (t & l & Hi & Hl & ->)%handler_returns_inv. eapply onward_insert; [done|by eapply alike_leave].
Qed.

Lemma stop_threads_inv s s' : threads_inv s -> stop_threads s = Ok s' -> threads_inv s'.
Proof.
  intros H Hs. destruct (stop_threads_eq s H) as (e & m & s1 & _ & _ & H1 & He & Hm & O & _).
  rewrite Hs in H1. injection H1 as <-. destruct s'. cbn in *. subst. by apply (onward_inv s).
Qed.

Lemma happen_inv a s s' : threads_inv s -> happen a s = Ok s' -> threads_inv s'.
Proof.
  intros H Ha. destruct a as [ok|i|sig i|i]; [by apply (servlet_inv ok s s')|cbn [happen] in Ha..];
    apply bind_ok in Ha as (ts & Ht & Ha).
  - injection Ha as <-. apply onward_inv; [done|by eapply thread_step_onward].
  - apply stop_threads_inv in Ha; [done|]. apply onward_inv; [done|by eapply takes_signal_onward].
  - injection Ha as <-. apply onward_inv; [done|by eapply handler_returns_onward].
Qed.

Lemma happens_inv l : forall s s', threads_inv s -> happens l s = Ok s' -> threads_inv s'.
Proof.
  induction l as [|a l IH]; intros s s' H Hl; cbn [happens] in Hl; [by injection Hl as <-|].
  apply bind_ok in Hl as (s1 & Ha & Hl). eapply IH; [|exact Hl]. by eapply happen_inv.
Qed.

(** The threads as [main] leaves them. *)
Definition both_started : threads :=
  {| t_table := t_table one_thread ++
       [{| t_routine := DoMixing; t_place := AtStart; t_blocked := ∅; t_cancel := false;
           t_detached := false; t_ended := false; t_handling := [] |};
        {| t_routine := EngineLoop; t_place := AtStart; t_blocked := ∅; t_cancel := false;
           t_detached := false; t_ended := false; t_handling := [] |}];
     ethread := Thread 2; mthread := Thread 1 |}.

Lemma start_workers_both : start_workers true true one_thread = Ok both_started.
Proof. reflexivity. Qed.

Lemma both_started_inv : threads_inv both_started.
Proof.
  split; cbn.
  - by eexists.
  - repeat (apply Forall_cons; split; [by split; [constructor|]|]). constructor.
  - by exists 2%nat; eexists.
  - by exists 1%nat; eexists.
Qed.

(** ** How long a thread runs on after it was cancelled

    The number of places a cancelled worker still gets to. *)

Definition left_of (t : tcb) : nat :=
  if t_ended t then 0
  else match t_routine t, t_place t with
       | DoMixing, AtStart => 3
       | _, AtStart | _, Working => 2
       | _, AtPoint => 1
       end.

Definition goes (i : nat) (a : happening) : nat :=
  match a with Advance j => if decide (j = i) then 1 else 0 | _ => 0 end.

Lemma thread_step_left i ts t ts' :
  ts !! i = Some t -> worker t = true -> t_cancel t = true -> thread_step i ts = Ok ts' ->
  exists t', ts' !! i = Some t' /\ worker t' = true /\ t_cancel t' = true /\ left_of t = S (left_of t').
Proof.
  intros Hi Hw Hc H. pose proof (lookup_lt_Some _ _ _ Hi) as Hlt.
  destruct (thread_step_inv _ _ _ H) as (u & Hu & He & Hh). rewrite Hi in Hu. injection Hu as <-.
  rewrite (thread_step_eq i ts t Hi He Hh) in H. injection H as <-. unfold worker, left_of in *. rewrite He, ?Hc.
  destruct (t_routine t) eqn:Er; try done; destruct (t_place t) eqn:Ep;
    (eexists; split; [by apply list_lookup_insert_eq|]); cbn; by rewrite ?Er, ?Hc, ?He, ?Ep.
Qed.

Lemma thread_step_other i j ts t ts' :
  i <> j -> ts !! i = Some t -> thread_step j ts = Ok ts' -> ts' !! i = Some t.
Proof.
  intros Hij Hi H. destruct (thread_step_inv _ _ _ H) as (u & Hj & He & Hh).
  rewrite (thread_step_eq j ts u Hj He Hh) in H. injection H as <-.
  destruct (t_routine u), (t_place u); try destruct (t_cancel u); try done; by rewrite list_lookup_insert_ne.
Qed.

(** Handlers that are entered or left do not matter to it. *)
Lemma handling_same j l u i (ts : list tcb) t :
  ts !! j = Some u -> ts !! i = Some t ->
  exists l', <[j := with_handling l u]> ts !! i = Some (with_handling l' t).
Proof.
  intros Hj Hi. destruct (decide (j = i)) as [->|Hne].
  - rewrite list_lookup_insert_eq by (by eapply lookup_lt_Some). rewrite Hj in Hi. injection Hi as ->. by exists l.
  - rewrite list_lookup_insert_ne by done. rewrite Hi. exists (t_handling t). by destruct t.
Qed.

(** Whoever takes a signal: the workers are cancelled. *)
Lemma signal_cancels sig j s s' i t :
  threads_inv s -> happen (Signal sig j) s = Ok s' -> t_table s !! i = Some t ->
  exists l, t_table s' !! i = Some (if bool_decide (Thread i = ethread s) || bool_decide (Thread i = mthread s)
                                    then with_cancel (with_handling l t) else with_handling l t).
Proof.
  intros H Hs Hi. apply bind_ok in Hs as (ts & Ht & Hs).
  pose proof (onward_inv _ _ H (takes_signal_onward _ _ _ _ Ht)) as H1. change (threads_inv (with_table ts s)) in H1.
  destruct (stop_threads_eq _ H1) as (e & m & s1 & He & Hm & H2 & _ & _ & _ & Hk). rewrite Hs in H2. injection H2 as <-.
  apply takes_signal_inv in Ht as (u & Hj & _ & _ & _ & ->).
  destruct (handling_same j (sig :: t_handling u) u i _ _ Hj Hi) as [l Hl]. exists l. rewrite (Hk i _ Hl).
  cbn in He, Hm. rewrite He, Hm.
  assert (forall x, bool_decide (Thread i = Thread x) = bool_decide (i = x)) as Hx
    by (intros x; apply bool_decide_ext; naive_solver).
  by rewrite !Hx.
Qed.

Lemma happen_left a s s' i t :
  threads_inv s -> t_table s !! i = Some t -> worker t = true -> t_cancel t = true -> happen a s = Ok s' ->
  exists t', t_table s' !! i = Some t' /\ worker t' = true /\ t_cancel t' = true /\
    left_of t = (goes i a + left_of t')%nat.
Proof.
  intros H Hi Hw Hc Ha. destruct a as [ok|j|sig j|j]; cbn [goes].
  - destruct (servlet_inv ok s s' H Ha) as [_ [t1 ->]]. exists t. split; [by apply lookup_app_l_Some|done].
  - apply bind_ok in Ha as (ts & Ht & [= <-]). cbn. destruct (decide (j = i)) as [->|Hne].
    + destruct (thread_step_left _ _ _ _ Hi Hw Hc Ht) as (t' & H1 & H2 & H3 & H4). by exists t'.
    + exists t. split; [by eapply thread_step_other|done].
  - destruct (signal_cancels _ _ _ _ _ _ H Ha Hi) as [l Hl]. eexists. split; [exact Hl|].
    by destruct (_ || _).
  - apply bind_ok in Ha as (ts & (u & l & Hj & _ & ->)%handler_returns_inv & [= <-]).
    destruct (handling_same j l u i _ _ Hj Hi) as [l' Hl]. by exists (with_handling l' t).
Qed.

Lemma happens_left l : forall s s' i t,
  threads_inv s -> t_table s !! i = Some t -> worker t = true -> t_cancel t = true -> happens l s = Ok s' ->
  exists t', t_table s' !! i = Some t' /\ left_of t = (sum_list (goes i <$> l) + left_of t')%nat.
Proof.
  induction l as [|a l IH]; intros s s' i t H Hi Hw Hc Hl; cbn [happens] in Hl; [injection Hl as <-; by exists t|].
  apply bind_ok in Hl as (s1 & Ha & Hl). pose proof (happen_inv _ _ _ H Ha) as H1.
  destruct (happen_left _ _ _ _ _ H Hi Hw Hc Ha) as (t1 & Hi1 & Hw1 & Hc1 & E1).
  destruct (IH _ _ _ _ H1 Hi1 Hw1 Hc1 Hl) as (t' & Hi' & E2). exists t'. split; [done|]. cbn. lia.
Qed.

(** ** Properties *)

(** C17: who runs the handler. However the threads that [main] has started go
    on, whatever connections are accepted, whatever signals have come and
    whichever handlers have returned: a thread can take a signal of the program
    exactly when it runs, is not in the handler of the same signal already, and
    is not a worker past its first statement; so the main thread can take it
    unless it is in the handler of that signal; and a worker past its first
    statement is in no handler. The handler keeps its own signal blocked while
    it runs, as that of [signal] does in the BSD and GNU libraries. *)
Theorem signals_spare_workers (l : list happening) (s : threads) (sig : Z) :
  happens l both_started = Ok s -> sig = SIGINT \/ sig = SIGHUP ->
  (forall i, is_ok (takes_signal sig i (t_table s)) <->
     exists t, t_table s !! i = Some t /\ can_take sig t) /\
  (exists t, t_table s !! 0%nat = Some t /\ t_routine t = MainThread /\
     (is_ok (takes_signal sig 0 (t_table s)) <-> sig ∉ t_handling t)) /\
  (forall i t, t_table s !! i = Some t -> worker t = true -> t_place t <> AtStart -> t_handling t = []).
Proof.
  intros Hl Hsig. pose proof (happens_inv _ _ _ both_started_inv Hl) as H. pose proof (ti_shield _ H) as Hsh.
  assert (sig ∈ handled) as Hin by (unfold handled; destruct Hsig; set_solver).
  assert (Hiff : forall i, is_ok (takes_signal sig i (t_table s)) <->
     exists t, t_table s !! i = Some t /\ can_take sig t).
  { intros i. unfold is_ok. setoid_rewrite takes_signal_inv. split.
    - intros (ts & t & Hi & He & _ & Hm & _). exists t. split; [done|]. split; [done|].
      by apply shielded_mask; [..|apply (Forall_lookup_1 _ _ _ _ Hsh Hi)|].
    - intros (t & Hi & He & Hc). eexists _, t. split_and!; try done.
      by apply shielded_mask; [..|apply (Forall_lookup_1 _ _ _ _ Hsh Hi)|]. }
  split; [done|]. split.
  - destruct (ti_main _ H) as (t & Hi & Hr & He). exists t. split; [done|]. split; [done|]. rewrite Hiff. split.
    + intros (u & Hu & _ & _ & Hn). rewrite Hi in Hu. by injection Hu as <-.
    + intros Hn. exists t. split; [done|]. split; [done|]. split; [|done]. unfold worker. by rewrite Hr.
  - intros i t Hi Hw Hp. destruct (Forall_lookup_1 _ _ _ _ Hsh Hi) as [_ Hs]. rewrite Hw in Hs.
    by destruct (t_place t), Hs.
Qed.

(** C18: a signal ends the workers. The handler asks both to end, whoever runs
    it; whatever happens then, a worker gets to at most three more places (it
    is let into its work once at most), and has ended when it has got to as many as
    [left_of] says, that is, when it has reached its cancellation point. *)
Theorem signal_ends_workers (l1 l2 : list happening) (s s1 s2 : threads) (sig : Z) (k : nat) :
  happens l1 both_started = Ok s -> happen (Signal sig k) s = Ok s1 -> happens l2 s1 = Ok s2 ->
  forall i t, t_table s !! i = Some t -> worker t = true -> Thread i = ethread s \/ Thread i = mthread s ->
    exists t', t_table s2 !! i = Some t' /\
      (sum_list (goes i <$> l2) + left_of t' = left_of t)%nat /\ (left_of t <= 3)%nat /\
      (t_ended t' = true <-> left_of t' = 0%nat).
Proof.
  intros Hl1 Hsig Hl2 i t Hi Hw Hth. pose proof (happens_inv _ _ _ both_started_inv Hl1) as H.
  destruct (signal_cancels _ _ _ _ _ _ H Hsig Hi) as [h Hk].
  assert (bool_decide (Thread i = ethread s) || bool_decide (Thread i = mthread s) = true) as E1.
  { apply orb_true_iff. destruct Hth; [left|right]; by apply bool_decide_eq_true. }
  rewrite E1 in Hk. pose proof (happen_inv _ _ _ H Hsig) as H1.
  destruct (happens_left l2 s1 s2 i (with_cancel (with_handling h t)) H1 Hk Hw eq_refl Hl2) as (t' & Hi' & E).
  change (left_of (with_cancel (with_handling h t))) with (left_of t) in E. exists t'. split; [done|]. split; [lia|]. split.
  - unfold left_of. destruct (t_ended t); [lia|]. destruct (t_routine t), (t_place t); lia.
  - unfold left_of. destruct (t_ended t'); [done|]. split; [done|]. by destruct (t_routine t'), (t_place t').
Qed.

(** ** Witnesses *)

(** A client connects, the mixer thread starts to work, the handler of a hangup
    runs in the main thread and returns, then that of another one, and the thread of
    the connection takes an interrupt. *)
Definition demo_happenings : list happening := [Accept true; Advance 1; Signal SIGHUP 0; Return 0; Signal SIGHUP 0; Signal SIGINT 3].
Definition demo_end : list happening := [Advance 2; Advance 1; Advance 2; Advance 1].

Lemma signals_spare_workers_witness :
  exists s, happens demo_happenings both_started = Ok s /\ is_ok (takes_signal SIGHUP 3 (t_table s)) /\
    ~ is_ok (takes_signal SIGHUP 0 (t_table s)) /\ ~ is_ok (takes_signal SIGHUP 1 (t_table s)).
Proof.
  assert (exists s, happens demo_happenings both_started = Ok s /\
    option_map t_handling (t_table s !! 0%nat) = Some [SIGHUP] /\
    option_map (fun t => (worker t, t_place t)) (t_table s !! 1%nat) = Some (true, Working) /\
    option_map (fun t => (t_ended t, worker t, t_handling t)) (t_table s !! 3%nat) = Some (false, false, [SIGINT]))
    as (s & Hs & H0 & H1 & H3).
  { eexists. split; [vm_compute; reflexivity|]. split; [|split]; vm_compute; reflexivity. }
  exists s. split; [exact Hs|].
  destruct (signals_spare_workers demo_happenings s SIGHUP Hs (or_intror eq_refl)) as (H & (t0 & Ht0 & _ & Hm) & _).
  split; [|split].
  - apply H. destruct (t_table s !! 3%nat) as [t|]; [|discriminate H3]. injection H3 as He Hw Hh. exists t.
    split; [reflexivity|]. split; [exact He|]. rewrite Hw, Hh. split; [discriminate|].
    intros Hn%list_elem_of_singleton. discriminate Hn.
  - rewrite Hm. rewrite Ht0 in H0. injection H0 as ->. intros Hn. apply Hn. left.
  - intros (t & Ht & _ & Hp & _)%H. rewrite Ht in H1. injection H1 as Hw Hpl. specialize (Hp Hw). congruence.
Defined.

(** The threads after some happenings. *)
Definition after (l : list happening) (s : threads) : threads :=
  match happens l s with Ok s' => s' | _ => s end.

Lemma signal_ends_workers_witness :
  let s := after [Accept true; Advance 1] both_started in
  let s1 := after [Signal SIGINT 3] s in
  exists t1 t2, happens [Accept true; Advance 1] both_started = Ok s /\
    happen (Signal SIGINT 3) s = Ok s1 /\ happens demo_end s1 = Ok (after demo_end s1) /\
    t_table (after demo_end s1) !! 1%nat = Some t1 /\ t_ended t1 = true /\
    t_table (after demo_end s1) !! 2%nat = Some t2 /\ t_ended t2 = true.
Proof.
  intros s s1.
  assert (happens [Accept true; Advance 1] both_started = Ok s) as Hs by (vm_compute; reflexivity).
  assert (happen (Signal SIGINT 3) s = Ok s1) as H1 by (vm_compute; reflexivity).
  assert (happens demo_end s1 = Ok (after demo_end s1)) as H2 by (vm_compute; reflexivity).
  pose proof (signal_ends_workers [Accept true; Advance 1] demo_end s s1 _ SIGINT 3 Hs H1 H2) as Hw.
  destruct (t_table s !! 1%nat) as [u1|] eqn:U1; [|discriminate U1].
  destruct (t_table s !! 2%nat) as [u2|] eqn:U2; [|discriminate U2].
  assert (left_of u1 = 2%nat /\ worker u1 = true /\ left_of u2 = 2%nat /\ worker u2 = true) as (L1 & W1 & L2 & W2).
  { vm_compute in U1, U2. injection U1 as <-. injection U2 as <-. vm_compute. auto. }
  destruct (Hw 1%nat u1 U1 W1 (or_intror eq_refl)) as (t1 & E1 & N1 & _ & Hend1).
  destruct (Hw 2%nat u2 U2 W2 (or_introl eq_refl)) as (t2 & E2 & N2 & _ & Hend2).
  change (sum_list (goes 1 <$> demo_end)) with 2%nat in N1. change (sum_list (goes 2 <$> demo_end)) with 2%nat in N2.
  exists t1, t2. split_and!; [exact Hs|exact H1|exact H2|exact E1|apply Hend1; lia|exact E2|apply Hend2; lia].
Defined.
