(* ===== verification/Cmdline.v ===== *)
(** * The command line ([cmdline.c])

    [parseCmdlineOpts] goes through the arguments and fills a structure, or
    ends the program. The arguments are the list of those not yet looked at;
    the null pointer follows the last one. *)

From stdpp Require Import base list sets strings.
From Stdlib Require Import ZArith Lia Ascii String.
From S2P Require Import Prelude CString.
Local Open Scope Z_scope.
Local Open Scope list_scope.

(** The structure; a flag [given] is 0 or 1. [help_given] and [version_given]
    are set just before the program ends. *)
Record args_info : Type := {
  port_arg : Z;
  voices_arg : Z;
  snd_port_arg : Z;
  config_arg : option string;
  logfile_arg : option string;
  pidfile_arg : option string;
  record_file_arg : option string;
  start_time_arg : option string;
  end_time_arg : option string;
  snd_device_arg : option string;
  port_given : bool;
  config_given : bool;
  voices_given : bool;
  logfile_given : bool;
  pidfile_given : bool;
  record_file_given : bool;
  start_time_given : bool;
  end_time_given : bool;
  snd_device_given : bool;
  snd_port_given : bool;
  playback_mode_given : bool;
  record_mode_given : bool;
  nodaemon_given : bool
}.

(** What [memset] leaves. *)
Definition no_args : args_info :=
  Build_args_info 0 0 0 None None None None None None None false false false false false false false false false false false false false.

(** Setting an option: its flag, and its argument if it has one. *)

Definition set_port v (a : args_info) : args_info :=
  Build_args_info v (voices_arg a) (snd_port_arg a) (config_arg a) (logfile_arg a) (pidfile_arg
    a) (record_file_arg a) (start_time_arg a) (end_time_arg a) (snd_device_arg a) true
    (config_given a) (voices_given a) (logfile_given a) (pidfile_given a) (record_file_given a)
    (start_time_given a) (end_time_given a) (snd_device_given a) (snd_port_given a)
    (playback_mode_given a) (record_mode_given a) (nodaemon_given a).
Definition set_voices v (a : args_info) : args_info :=
  Build_args_info (port_arg a) v (snd_port_arg a) (config_arg a) (logfile_arg a) (pidfile_arg a)
    (record_file_arg a) (start_time_arg a) (end_time_arg a) (snd_device_arg a) (port_given a)
    (config_given a) true (logfile_given a) (pidfile_given a) (record_file_given a)
    (start_time_given a) (end_time_given a) (snd_device_given a) (snd_port_given a)
    (playback_mode_given a) (record_mode_given a) (nodaemon_given a).
Definition set_snd_port v (a : args_info) : args_info :=
  Build_args_info (port_arg a) (voices_arg a) v (config_arg a) (logfile_arg a) (pidfile_arg a)
    (record_file_arg a) (start_time_arg a) (end_time_arg a) (snd_device_arg a) (port_given a)
    (config_given a) (voices_given a) (logfile_given a) (pidfile_given a) (record_file_given a)
    (start_time_given a) (end_time_given a) (snd_device_given a) true (playback_mode_given a)
    (record_mode_given a) (nodaemon_given a).
Definition set_config v (a : args_info) : args_info :=
  Build_args_info (port_arg a) (voices_arg a) (snd_port_arg a) v (logfile_arg a) (pidfile_arg a)
    (record_file_arg a) (start_time_arg a) (end_time_arg a) (snd_device_arg a) (port_given a)
    true (voices_given a) (logfile_given a) (pidfile_given a) (record_file_given a)
    (start_time_given a) (end_time_given a) (snd_device_given a) (snd_port_given a)
    (playback_mode_given a) (record_mode_given a) (nodaemon_given a).
Definition set_logfile v (a : args_info) : args_info :=
  Build_args_info (port_arg a) (voices_arg a) (snd_port_arg a) (config_arg a) v (pidfile_arg a)
    (record_file_arg a) (start_time_arg a) (end_time_arg a) (snd_device_arg a) (port_given a)
    (config_given a) (voices_given a) true (pidfile_given a) (record_file_given a)
    (start_time_given a) (end_time_given a) (snd_device_given a) (snd_port_given a)
    (playback_mode_given a) (record_mode_given a) (nodaemon_given a).
Definition set_pidfile v (a : args_info) : args_info :=
  Build_args_info (port_arg a) (voices_arg a) (snd_port_arg a) (config_arg a) (logfile_arg a) v
    (record_file_arg a) (start_time_arg a) (end_time_arg a) (snd_device_arg a) (port_given a)
    (config_given a) (voices_given a) (logfile_given a) true (record_file_given a)
    (start_time_given a) (end_time_given a) (snd_device_given a) (snd_port_given a)
    (playback_mode_given a) (record_mode_given a) (nodaemon_given a).
Definition set_record_file v (a : args_info) : args_info :=
  Build_args_info (port_arg a) (voices_arg a) (snd_port_arg a) (config_arg a) (logfile_arg a)
    (pidfile_arg a) v (start_time_arg a) (end_time_arg a) (snd_device_arg a) (port_given a)
    (config_given a) (voices_given a) (logfile_given a) (pidfile_given a) true (start_time_given
    a) (end_time_given a) (snd_device_given a) (snd_port_given a) (playback_mode_given a)
    (record_mode_given a) (nodaemon_given a).
Definition set_start_time v (a : args_info) : args_info :=
  Build_args_info (port_arg a) (voices_arg a) (snd_port_arg a) (config_arg a) (logfile_arg a)
    (pidfile_arg a) (record_file_arg a) v (end_time_arg a) (snd_device_arg a) (port_given a)
    (config_given a) (voices_given a) (logfile_given a) (pidfile_given a) (record_file_given a)
    true (end_time_given a) (snd_device_given a) (snd_port_given a) (playback_mode_given a)
    (record_mode_given a) (nodaemon_given a).
Definition set_end_time v (a : args_info) : args_info :=
  Build_args_info (port_arg a) (voices_arg a) (snd_port_arg a) (config_arg a) (logfile_arg a)
    (pidfile_arg a) (record_file_arg a) (start_time_arg a) v (snd_device_arg a) (port_given a)
    (config_given a) (voices_given a) (logfile_given a) (pidfile_given a) (record_file_given a)
    (start_time_given a) true (snd_device_given a) (snd_port_given a) (playback_mode_given a)
    (record_mode_given a) (nodaemon_given a).
Definition set_snd_device v (a : args_info) : args_info :=
  Build_args_info (port_arg a) (voices_arg a) (snd_port_arg a) (config_arg a) (logfile_arg a)
    (pidfile_arg a) (record_file_arg a) (start_time_arg a) (end_time_arg a) v (port_given a)
    (config_given a) (voices_given a) (logfile_given a) (pidfile_given a) (record_file_given a)
    (start_time_given a) (end_time_given a) true (snd_port_given a) (playback_mode_given a)
    (record_mode_given a) (nodaemon_given a).
Definition set_playback_mode (a : args_info) : args_info :=
  Build_args_info (port_arg a) (voices_arg a) (snd_port_arg a) (config_arg a) (logfile_arg a)
    (pidfile_arg a) (record_file_arg a) (start_time_arg a) (end_time_arg a) (snd_device_arg a)
    (port_given a) (config_given a) (voices_given a) (logfile_given a) (pidfile_given a)
    (record_file_given a) (start_time_given a) (end_time_given a) (snd_device_given a)
    (snd_port_given a) true (record_mode_given a) (nodaemon_given a).
Definition set_record_mode (a : args_info) : args_info :=
  Build_args_info (port_arg a) (voices_arg a) (snd_port_arg a) (config_arg a) (logfile_arg a)
    (pidfile_arg a) (record_file_arg a) (start_time_arg a) (end_time_arg a) (snd_device_arg a)
    (port_given a) (config_given a) (voices_given a) (logfile_given a) (pidfile_given a)
    (record_file_given a) (start_time_given a) (end_time_given a) (snd_device_given a)
    (snd_port_given a) (playback_mode_given a) true (nodaemon_given a).
Definition set_nodaemon (a : args_info) : args_info :=
  Build_args_info (port_arg a) (voices_arg a) (snd_port_arg a) (config_arg a) (logfile_arg a)
    (pidfile_arg a) (record_file_arg a) (start_time_arg a) (end_time_arg a) (snd_device_arg a)
    (port_given a) (config_given a) (voices_given a) (logfile_given a) (pidfile_given a)
    (record_file_given a) (start_time_given a) (end_time_given a) (snd_device_given a)
    (snd_port_given a) (playback_mode_given a) (record_mode_given a) true.

(** ** Numbers *)

(** [sscanf (s, "%d", &x)]: nothing to read, no number, or a number. One that
    does not fit into an [int] has no defined result. *)
Inductive scanned : Type := ScanEof | ScanFail | ScanInt (z : Z).

Definition scan_digits (neg : bool) (s : string) : res scanned :=
  match s with
  | String c _ =>
      if isdigit c then
        let z := if neg then - digits 0 s else digits 0 s in
        if decide (- 2 ^ 31 <= z < 2 ^ 31) then mret (ScanInt z) else Fault BadConversion
      else mret ScanFail
  | EmptyString => mret ScanFail
  end.

Definition scan_int (s : string) : res scanned :=
  match skip_space s with
  | EmptyString => mret ScanEof
  | String "-" s => scan_digits true s
  | String "+" s => scan_digits false s
  | s => scan_digits false s
  end.

(** ** Options *)

(** Going on with the structure, or the end of the program with a status. *)
Inductive outcome : Type := Parsed (a : args_info) | Exit (status : Z).

(** [optError] prints a message and ends the program. *)
Definition optError : res outcome := mret (Exit 1).

Definition once (given : bool) (k : res outcome) : res outcome := if given then optError else k.

(** [if (!*args_ptr)] *)
Definition needs_arg (args_ptr : string) (k : res outcome) : res outcome :=
  match args_ptr with EmptyString => optError | _ => k end.

(** [if (!sscanf (s, "%d", &x)) optError (...)]; [old] is the value of [x]. *)
Definition scan_into (s : string) (old : Z) (k : Z -> res outcome) : res outcome :=
  r ← scan_int s;
  match r with
  | ScanFail => optError
  | ScanEof => k old
  | ScanInt z => k z
  end.

(** The text up to the first equals sign, and the text behind it. *)
Fixpoint split_eq (s : string) : string * string :=
  match s with
  | EmptyString => ("", "")
  | String c s => if bool_decide (c = "="%char) then ("", s)
                  else let (n, a) := split_eq s in (String c n, a)
  end.

Definition same (s t : string) : bool := bool_decide (s = t).

(** An option that starts with two dashes; one that is not known is ignored. *)
Definition long_option (string_ptr args_ptr : string) (a : args_info) : res outcome :=
  if same string_ptr "help" then mret (Exit 0)
  else if same string_ptr "version" then mret (Exit 0)
  else if same string_ptr "port" then
    once (port_given a) (needs_arg args_ptr
      (scan_into args_ptr (port_arg a) (fun v => mret (Parsed (set_port v a)))))
  else if same string_ptr "config" then
    once (config_given a) (needs_arg args_ptr (mret (Parsed (set_config (Some args_ptr) a))))
  else if same string_ptr "voices" then
    once (voices_given a) (needs_arg args_ptr
      (scan_into args_ptr (voices_arg a) (fun v => mret (Parsed (set_voices v a)))))
  else if same string_ptr "logfile" then
    once (logfile_given a) (needs_arg args_ptr (mret (Parsed (set_logfile (Some args_ptr) a))))
  else if same string_ptr "pidfile" then
    once (pidfile_given a) (needs_arg args_ptr (mret (Parsed (set_pidfile (Some args_ptr) a))))
  else if same string_ptr "record-file" then
    once (record_file_given a) (needs_arg args_ptr (mret (Parsed (set_record_file (Some args_ptr) a))))
  else if same string_ptr "start-time" then
    once (start_time_given a) (needs_arg args_ptr (mret (Parsed (set_start_time (Some args_ptr) a))))
  else if same string_ptr "end-time" then
    once (end_time_given a) (needs_arg args_ptr (mret (Parsed (set_end_time (Some args_ptr) a))))
  else if same string_ptr "snd-device" then
    once (snd_device_given a) (needs_arg args_ptr (mret (Parsed (set_snd_device (Some args_ptr) a))))
  else if same string_ptr "snd-port" then
    once (snd_port_given a) (needs_arg args_ptr
      (scan_into args_ptr (snd_port_arg a) (fun v => mret (Parsed (set_snd_port v a)))))
  else if same string_ptr "playback-mode" then once (playback_mode_given a) (mret (Parsed (set_playback_mode a)))
  else if same string_ptr "record-mode" then once (record_mode_given a) (mret (Parsed (set_record_mode a)))
  else if same string_ptr "nodaemon" then once (nodaemon_given a) (mret (Parsed (set_nodaemon a)))
  else mret (Parsed a).

(** The first of the arguments; the null pointer if there is none. *)
Definition head_arg (argv : list string) : option string :=
  match argv with [] => None | x :: _ => Some x end.

(** [GET_STRING_ARG]: the text behind the letter, or the next argument, and
    the arguments that are then left. *)
Definition GET_STRING_ARG (v : string) (argv : list string) : option string * list string :=
  match v with EmptyString => (head_arg argv, tail argv) | _ => (Some v, argv) end.

(** [GET_INT_ARG]: as its [else] belongs to the inner [if], the next argument
    is read too when there is text behind the letter, and only then. *)
Definition GET_INT_ARG (v : string) (old : Z) (argv : list string) (k : Z -> args_info)
  : res (outcome * list string) :=
  match v with
  | EmptyString => mret (Parsed (k old), argv)
  | _ =>
      r ← scan_int v;
      match r with
      | ScanFail => o ← optError; mret (o, argv)
      | _ =>
          let x := match r with ScanInt z => z | _ => old end in
          match head_arg argv with
          | None => Fault NullDeref
          | Some s => o ← scan_into s x (fun v => mret (Parsed (k v))); mret (o, tail argv)
          end
      end
  end.

(** An option that starts with one dash: its letter, the text behind it and
    the arguments behind it. *)
Definition short_option (c : ascii) (v : string) (argv : list string) (a : args_info)
  : res (outcome * list string) :=
  let exits (n : Z) := mret (Exit n, argv) in
  if bool_decide (c = "h"%char) then exits 0
  else if bool_decide (c = "V"%char) then exits 0
  else if bool_decide (c = "p"%char) then
    if port_given a then exits 1 else GET_INT_ARG v (port_arg a) argv (fun v => set_port v a)
  else if bool_decide (c = "c"%char) then
    if config_given a then exits 1 else
    let (s, argv) := GET_STRING_ARG v argv in mret (Parsed (set_config s a), argv)
  else if bool_decide (c = "v"%char) then
    if voices_given a then exits 1 else GET_INT_ARG v (voices_arg a) argv (fun v => set_voices v a)
  else if bool_decide (c = "l"%char) then
    if logfile_given a then exits 1 else
    let (s, argv) := GET_STRING_ARG v argv in mret (Parsed (set_logfile s a), argv)
  else if bool_decide (c = "n"%char) then
    if nodaemon_given a then exits 1 else mret (Parsed (set_nodaemon a), argv)
  else exits 1.

(** One argument, and what is left of the others. *)
Definition parse_arg (arg : string) (argv : list string) (a : args_info) : res (outcome * list string) :=
  match arg with
  | String "-" (String "-" s) =>
      let (string_ptr, args_ptr) := split_eq s in
      o ← long_option string_ptr args_ptr a; mret (o, argv)
  | String "-" (String c v) => short_option c v argv a
  | String "-" EmptyString => mret (Exit 1, argv)
  | _ => mret (Exit 1, argv)
  end.

(** The loop; each round takes at least one argument. *)
Fixpoint args_loop (fuel : nat) (argv : list string) (a : args_info) : res outcome :=
  match fuel with
  | O => NoFuel
  | S fuel =>
      match argv with
      | [] => mret (Parsed a)
      | arg :: argv =>
          '(o, argv) ← parse_arg arg argv a;
          match o with
          | Parsed a => args_loop fuel argv a
          | Exit n => mret (Exit n)
          end
      end
  end.

Definition parseCmdlineOpts (argv : list string) : res outcome :=
  args_loop (S (List.length argv)) argv no_args.

(** ** Long options as data *)

(** An option with the text of its argument, and the number that is. *)
Inductive option_spec : Type :=
| OPort (v : string) (n : Z) | OConfig (v : string) | OVoices (v : string) (n : Z) | OLogfile (v : string)
| OPidfile (v : string) | ORecordFile (v : string) | OStartTime (v : string) | OEndTime (v : string)
| OSndDevice (v : string) | OSndPort (v : string) (n : Z) | OPlaybackMode | ORecordMode | ONoDaemon.

Definition option_name (o : option_spec) : string :=
  match o with
  | OPort _ _ => "port" | OConfig _ => "config" | OVoices _ _ => "voices" | OLogfile _ => "logfile"
  | OPidfile _ => "pidfile" | ORecordFile _ => "record-file" | OStartTime _ => "start-time"
  | OEndTime _ => "end-time" | OSndDevice _ => "snd-device" | OSndPort _ _ => "snd-port"
  | OPlaybackMode => "playback-mode" | ORecordMode => "record-mode" | ONoDaemon => "nodaemon"
  end.

Definition option_value (o : option_spec) : option string :=
  match o with
  | OPort v _ | OVoices v _ | OSndPort v _ | OConfig v | OLogfile v | OPidfile v | ORecordFile v
  | OStartTime v | OEndTime v | OSndDevice v => Some v
  | OPlaybackMode | ORecordMode | ONoDaemon => None
  end.

(** The argument as it is written. *)
Definition option_text (o : option_spec) : string :=
  "--" +:+ option_name o +:+ match option_value o with Some v => "=" +:+ v | None => "" end.

Definition option_ok (o : option_spec) : Prop :=
  match o with
  | OPort v n | OVoices v n | OSndPort v n => v <> "" /\ scan_int v = Ok (ScanInt n)
  | OPlaybackMode | ORecordMode | ONoDaemon => True
  | OConfig v | OLogfile v | OPidfile v | ORecordFile v | OStartTime v | OEndTime v | OSndDevice v => v <> ""
  end.

Definition option_set (a : args_info) (o : option_spec) : args_info :=
  match o with
  | OPort _ n => set_port n a | OConfig v => set_config (Some v) a | OVoices _ n => set_voices n a
  | OLogfile v => set_logfile (Some v) a | OPidfile v => set_pidfile (Some v) a
  | ORecordFile v => set_record_file (Some v) a | OStartTime v => set_start_time (Some v) a
  | OEndTime v => set_end_time (Some v) a | OSndDevice v => set_snd_device (Some v) a
  | OSndPort _ n => set_snd_port n a | OPlaybackMode => set_playback_mode a
  | ORecordMode => set_record_mode a | ONoDaemon => set_nodaemon a
  end.

(** Whether the option was given before. *)
Definition option_given (o : option_spec) (a : args_info) : bool :=
  match o with
  | OPort _ _ => port_given a | OConfig _ => config_given a | OVoices _ _ => voices_given a
  | OLogfile _ => logfile_given a | OPidfile _ => pidfile_given a | ORecordFile _ => record_file_given a
  | OStartTime _ => start_time_given a | OEndTime _ => end_time_given a | OSndDevice _ => snd_device_given a
  | OSndPort _ _ => snd_port_given a | OPlaybackMode => playback_mode_given a
  | ORecordMode => record_mode_given a | ONoDaemon => nodaemon_given a
  end.

Lemma option_given_set o o' a :
  option_given o (option_set a o') = same (option_name o) (option_name o') || option_given o a.
Proof. by destruct o, o'. Qed.

Fixpoint no_eq (s : string) : bool :=
  match s with EmptyString => true | String c s => negb (bool_decide (c = "="%char)) && no_eq s end.

Lemma split_eq_app s v : no_eq s = true -> split_eq (s +:+ "=" +:+ v) = (s, v).
Proof.
  induction s as [|c s IH]; [done|]. cbn [no_eq]. intros [Hc Hs]%andb_true_iff.
  change (String c s +:+ ?x) with (String c (s +:+ x)). cbn [split_eq].
  destruct (bool_decide (c = "="%char)); [done|]. by rewrite IH.
Qed.

Lemma parse_long o argv a :
  option_ok o ->
  parse_arg (option_text o) argv a =
  Ok (if option_given o a then Exit 1 else Parsed (option_set a o), argv).
Proof.
  intros Ho.
  assert (Hsplit : parse_arg (option_text o) argv a =
    (o ← long_option (option_name o) (default "" (option_value o)) a; mret (o, argv))).
  { assert (Hl : forall s argv, parse_arg ("--" +:+ s) argv a =
      (o ← long_option (split_eq s).1 (split_eq s).2 a; mret (o, argv))).
    { intros s argv'. unfold parse_arg. change ("--" +:+ s) with (String "-" (String "-" s)).
      cbv beta iota. by destruct (split_eq s). }
    unfold option_text. rewrite Hl.
    destruct (option_value o) as [v|] eqn:Ev; [by rewrite split_eq_app by by destruct o|by destruct o]. }
  rewrite Hsplit. destruct o; cbn [option_ok] in Ho; try destruct Ho as [Hv Hs];
    cbn [option_name option_value option_given option_set default]; unfold long_option, once;
    cbn -[scan_into needs_arg];
    match goal with |- context [if ?b then _ else _] => destruct b; [done|] end;
    try (destruct v; [done|]); try done; cbn [needs_arg]; unfold scan_into; rewrite Hs; done.
Qed.

Lemma long_loop os a fuel :
  Forall option_ok os -> (List.length os < fuel)%nat ->
  args_loop fuel (option_text <$> os) a =
  Ok (if forallb (fun o => negb (option_given o a)) os && bool_decide (NoDup (option_name <$> os))
      then Parsed (fold_left option_set os a) else Exit 1).
Proof.
  intros Hos. revert a fuel. induction Hos as [|o os Ho _ IH]; intros a fuel Hf;
    (destruct fuel as [|fuel]; [simpl in Hf; lia|]); [done|].
  cbn [fmap list_fmap args_loop]. rewrite parse_long by done. cbn [mbind res_bind forallb fold_left].
  destruct (option_given o a) eqn:Eg; [done|]. rewrite IH by (simpl in Hf; lia). cbn [negb andb]. do 2 f_equal.
  assert (Hfa : forallb (fun o' => negb (option_given o' (option_set a o))) os =
    forallb (fun o' => negb (option_given o' a)) os && bool_decide (option_name o ∉ (option_name <$> os))).
  { clear IH Hf. induction os as [|o' os IH]; [done|]. cbn [forallb fmap list_fmap]. rewrite IH, option_given_set.
    unfold same. rewrite negb_orb. destruct (negb (option_given o' a)); [|by rewrite andb_false_r].
    rewrite andb_true_r. cbn [andb]. rewrite (andb_comm (negb _)), <- andb_assoc. f_equal.
    case_bool_decide as H1; case_bool_decide as H2; case_bool_decide as H3; try done; set_solver. }
  rewrite Hfa, <- andb_assoc. f_equal.
  case_bool_decide as H1; case_bool_decide as H2; case_bool_decide as H3; try done;
    rewrite NoDup_cons in H3; naive_solver.
Qed.

Lemma forallb_no_args os : forallb (fun o => negb (option_given o no_args)) os = true.
Proof. induction os as [|o os IH]; [done|]. cbn [forallb]. rewrite IH. by destruct o. Qed.

(** ** Properties *)

(** C39: long options, each with its argument: if none is given twice the
    structure has each of them, and otherwise the program ends with status 1. *)
Theorem parseCmdlineOpts_long (os : list option_spec) :
  Forall option_ok os ->
  parseCmdlineOpts (option_text <$> os) =
  Ok (if bool_decide (NoDup (option_name <$> os)) then Parsed (fold_left option_set os no_args) else Exit 1).
Proof.
  intros Hos. unfold parseCmdlineOpts. rewrite long_loop; [|done|by rewrite length_fmap; lia].
  by rewrite forallb_no_args.
Qed.

(** The short form of a number: the number behind [-p] is read and then
    replaced by the next argument, which has to be there and to be a number;
    and as an argument of its own it is not read at all, but ends the program. *)
Theorem parseCmdlineOpts_short_port (v x : string) (n m : Z) (rest : list string) :
  v <> "" -> scan_int v = Ok (ScanInt n) -> scan_int x = Ok (ScanInt m) ->
  parseCmdlineOpts [String "-" (String "p" v)] = Fault NullDeref /\
  parseCmdlineOpts (String "-" (String "p" v) :: String "-" (String "n" x) :: rest) = Ok (Exit 1) /\
  parseCmdlineOpts (String "-" (String "p" v) :: x :: rest) =
    args_loop (S (S (List.length rest))) rest (set_port m no_args) /\
  (forall c y, c <> "-"%char -> parseCmdlineOpts ("-p" :: String c y :: rest) = Ok (Exit 1)).
Proof.
  intros Hv Hn Hm. destruct v as [|b v]; [done|]. unfold parseCmdlineOpts.
  assert (Hp : forall argv, parse_arg (String "-" (String "p" (String b v))) argv no_args =
    match head_arg argv with
    | None => Fault NullDeref
    | Some s => o ← scan_into s n (fun v => mret (Parsed (set_port v no_args))); mret (o, tail argv)
    end).
  { intros argv. change (parse_arg _ argv no_args) with
      (GET_INT_ARG (String b v) 0 argv (fun v => set_port v no_args)).
    unfold GET_INT_ARG. by rewrite Hn. }
  split_and!.
  - cbn [args_loop]. by rewrite Hp.
  - cbn [args_loop]. by rewrite Hp.
  - cbn [List.length args_loop]. rewrite Hp. cbn [head_arg]. unfold scan_into. by rewrite Hm.
  - intros c y Hc. cbn [List.length args_loop]. change (parse_arg "-p" _ no_args) with
      (Ok (Parsed (set_port 0 no_args), String c y :: rest)). cbn [mbind res_bind args_loop].
    assert (parse_arg (String c y) rest (set_port 0 no_args) = Ok (Exit 1, rest)) as ->; [|done].
    unfold parse_arg. destruct c as [[] [] [] [] [] [] [] []]; try done.
Qed.

(** ** Witnesses *)

Lemma parseCmdlineOpts_long_witness :
  parseCmdlineOpts ["--port=2001"; "--config=peep.conf"; "--nodaemon"] =
    Ok (Parsed (set_nodaemon (set_config (Some "peep.conf") (set_port 2001 no_args)))) /\
  parseCmdlineOpts ["--port=2001"; "--port=2002"] = Ok (Exit 1).
Proof.
  split.
  - apply (parseCmdlineOpts_long [OPort "2001" 2001; OConfig "peep.conf"; ONoDaemon]).
    repeat constructor; done.
  - apply (parseCmdlineOpts_long [OPort "2001" 2001; OPort "2002" 2002]). repeat constructor; done.
Defined.

Lemma parseCmdlineOpts_short_port_witness :
  parseCmdlineOpts ["-p2001"] = Fault NullDeref /\ parseCmdlineOpts ["-p"; "2001"] = Ok (Exit 1).
Proof.
  destruct (parseCmdlineOpts_short_port "2001" "2002" 2001 2002 []) as (H1 & _ & _ & H2);
    [done|reflexivity|reflexivity|].
  split; [exact H1|]. apply (H2 "2"%char "001"). discriminate.
Defined.
