(* ===== verification/Sound.v ===== *)
(** * The sound drivers ([alsa.c], [oss.c])

    The functions of ALSA and the system calls on the device are parameters:
    their results, each a sequence indexed by the number of calls where it is
    made more than once. What is written to the device is recorded. *)

From stdpp Require Import base list strings.
From Stdlib Require Import ZArith Lia Ascii String.
From S2P Require Import Prelude CString Wire.
Local Open Scope Z_scope.
Local Open Scope list_scope.

Module Alsa.

(** The static variables, the chunks written so far and the number of writes.
    [handle] and [hwparams] say whether the pointers are set. *)
Record state : Type := {
  handle : bool;
  hwparams : ptr unit;
  audio_buffer : ptr (list Z);
  chunksize : Z;
  buffer_pos : Z;
  written : list (list Z);
  writes : nat
}.

Definition blank : state :=
  {| handle := false; hwparams := PNull; audio_buffer := PNull; chunksize := 0; buffer_pos := 0;
     written := []; writes := 0 |}.

Definition with_buffer (s : state) (b : list Z) (p : Z) : state :=
  {| handle := handle s; hwparams := hwparams s; audio_buffer := PLive b; chunksize := chunksize s;
     buffer_pos := p; written := written s; writes := writes s |}.
Definition with_pos (s : state) (p : Z) : state :=
  {| handle := handle s; hwparams := hwparams s; audio_buffer := audio_buffer s;
     chunksize := chunksize s; buffer_pos := p; written := written s; writes := writes s |}.

(** ** Opening and formatting *)

(** What the functions of ALSA return while the device is set up; a negative
    result is an error. *)
Record device : Type := {
  open_err : Z;
  any_err : Z;
  access_err : Z;
  format_err : Z;
  channels_err : Z;
  rate_err : Z;
  params_err : Z;
  buffer_size : Z;
  physical_width : Z
}.

Section Device.
Context (dev : device).
(** [snd_pcm_frames_to_bytes] and its inverse, and the number of frames the
    n-th [snd_pcm_writei] writes. *)
Context (frames_to_bytes bytes_to_frames : Z -> Z) (writei : nat -> Z).

(** The number of the device: the text of the name is read as an [int]. *)
Definition device_number (snd_device : option string) : res Z :=
  match snd_device with
  | None => mret 0
  | Some s => match bytes_of s ++ [0] with
              | b0 :: b1 :: b2 :: b3 :: _ => mret (i32 (b0 + 256 * b1 + 65536 * b2 + 16777216 * b3))
              | _ => Fault OutOfBounds
              end
  end.

(** [None] when [shutDown] is called. *)
Definition soundInit (snd_device : option string) (s : state) : res (option state) :=
  _ ← device_number snd_device;
  if open_err dev <? 0 then mret None
  else if any_err dev <? 0 then mret None
  else mret (Some {| handle := true; hwparams := PLive tt; audio_buffer := audio_buffer s;
                     chunksize := chunksize s; buffer_pos := buffer_pos s; written := written s;
                     writes := writes s |}).

(** The new block is indeterminate, here the bytes [junk]. *)
Definition allocateAudioBuffer (junk : list Z) (chans : Z) (s : state) : Z * state :=
  let chunksize := frames_to_bytes (buffer_size dev) in
  let bits_per_frame := physical_width dev * chans in
  let chunksize := chunksize * (bits_per_frame `quot` 8) in
  (1, {| handle := handle s; hwparams := hwparams s;
         audio_buffer := PLive (take (Z.to_nat chunksize) (junk ++ replicate (Z.to_nat chunksize) 0));
         chunksize := chunksize; buffer_pos := buffer_pos s; written := written s; writes := writes s |}).

Definition soundSetFormat (junk : list Z) (chans : Z) (s : state) : Z * state :=
  if access_err dev <? 0 then (0, s)
  else if format_err dev <? 0 then (0, s)
  else if channels_err dev <? 0 then (0, s)
  else if rate_err dev <? 0 then (0, s)
  else if params_err dev <? 0 then (0, s)
  else allocateAudioBuffer junk chans s.

(** ** Playing *)

(** [memcpy (audio_buffer + pos, data, n)]: what is left of the data. *)
Definition copy_in (n : Z) (data : list Z) (s : state) : res (list Z * state) :=
  b ← deref (audio_buffer s);
  if decide (0 <= n <= Z.of_nat (List.length data) /\ 0 <= buffer_pos s /\
             buffer_pos s + n <= Z.of_nat (List.length b)) then
    let p := Z.to_nat (buffer_pos s) in
    mret (drop (Z.to_nat n) data,
          with_buffer s (take p b ++ take (Z.to_nat n) data ++ drop (p + Z.to_nat n) b) (buffer_pos s + n))
  else Fault OutOfBounds.

(** The buffer goes to the device; the number of bytes it has taken. *)
Definition write_chunk (s : state) : res (Z * state) :=
  b ← deref (audio_buffer s);
  let frames := bytes_to_frames (chunksize s) in
  mret (frames_to_bytes (writei (writes s)),
        {| handle := handle s; hwparams := hwparams s; audio_buffer := audio_buffer s;
           chunksize := chunksize s; buffer_pos := buffer_pos s;
           written := written s ++ [take (Z.to_nat (frames_to_bytes frames)) b]; writes := S (writes s) |}).

(** The room in the buffer is compared as an unsigned number. *)
Fixpoint play_loop (fuel : nat) (data : list Z) (data_size len : Z) (s : state) : res (Z * state) :=
  match fuel with
  | O => NoFuel
  | S fuel =>
      if data_size =? 0 then mret (len, s) else
      let room := chunksize s - buffer_pos s in
      let write_size := i32 (if data_size <=? uwrap 64 room then data_size else room) in
      '(data, s) ← copy_in write_size data s;
      if buffer_pos s =? chunksize s then
        '(n, s) ← write_chunk s;
        if n =? chunksize s then play_loop fuel data (data_size - write_size) len (with_pos s 0)
        else mret (n, s)
      else play_loop fuel data (data_size - write_size) len s
  end.

(** [data] has [len] bytes. *)
Definition soundPlayChunk (data : list Z) (len : Z) (s : state) : res (Z * state) :=
  if handle s then play_loop (S (S (Z.to_nat len))) data len len s else mret (0, s).

Definition soundClose (s : state) : res state :=
  b ← free_ptr (audio_buffer s);
  h ← free_ptr (hwparams s);
  mret {| handle := handle s; hwparams := h; audio_buffer := b; chunksize := chunksize s;
          buffer_pos := buffer_pos s; written := written s; writes := writes s |}.

End Device.
End Alsa.

Module Oss.

(** [ioctl] fails with -1. *)
Record device : Type := { open_fd : Z; ioctl_format : Z; ioctl_channels : Z; ioctl_speed : Z }.

Section Device.
Context (dev : device) (write : list Z -> Z).

(** The handle is a pointer to the static descriptor; [None] when [shutDown]
    is called. *)
Definition soundInit (snd_device : option string) : option (option Z) :=
  match snd_device with
  | None => Some None
  | Some _ => if open_fd dev =? -1 then None else Some (Some (open_fd dev))
  end.

Definition soundSetFormat (handle : option Z) : res Z :=
  match handle with
  | None => Fault NullDeref
  | Some _ =>
      if ioctl_format dev =? -1 then mret 0
      else if ioctl_channels dev =? -1 then mret 0
      else if ioctl_speed dev =? -1 then mret 0
      else mret 1
  end.

Definition soundPlayChunk (handle : option Z) (buf : list Z) : res Z :=
  match handle with None => Fault NullDeref | Some _ => mret (write buf) end.

Definition soundClose (handle : option Z) : res unit :=
  match handle with None => Fault NullDeref | Some _ => mret tt end.
End Device.
End Oss.

(** ** Buffering refines a stream *)

Module AlsaFacts.
Import Alsa.

Section Facts.
Context (frames_to_bytes bytes_to_frames : Z -> Z) (writei : nat -> Z).

(** The buffer has the size of a chunk, and room. *)
Record buffer_ok (s : state) (b : list Z) : Prop := {
  ok_handle : handle s = true;
  ok_buffer : audio_buffer s = PLive b;
  ok_length : Z.of_nat (List.length b) = chunksize s;
  ok_chunk : 0 < chunksize s < 2 ^ 31;
  ok_pos : 0 <= buffer_pos s < chunksize s;
  ok_frames : frames_to_bytes (bytes_to_frames (chunksize s)) = chunksize s
}.

(** The sound up to now: what the device has and what waits in the buffer. *)
Definition sound_stream (s : state) (b : list Z) : list Z :=
  mjoin (written s) ++ take (Z.to_nat (buffer_pos s)) b.

(** From now on the device takes whole chunks. *)
Definition full_writes (s : state) : Prop :=
  forall k, (writes s <= k)%nat -> frames_to_bytes (writei k) = chunksize s.

Lemma uwrap64_small z : 0 <= z < 2 ^ 31 -> uwrap 64 z = z.
Proof. intros. apply uwrap_small. lia. Qed.

Lemma copy_in_Ok n data s b :
  audio_buffer s = PLive b -> 0 <= n <= Z.of_nat (List.length data) -> 0 <= buffer_pos s ->
  buffer_pos s + n <= Z.of_nat (List.length b) ->
  exists b', copy_in n data s = Ok (drop (Z.to_nat n) data, with_buffer s b' (buffer_pos s + n)) /\
    List.length b' = List.length b /\
    take (Z.to_nat (buffer_pos s + n)) b' = take (Z.to_nat (buffer_pos s)) b ++ take (Z.to_nat n) data.
Proof.
  intros Hb Hn Hp Hl. eexists. split.
  { unfold copy_in. rewrite Hb. cbn [deref mbind res_bind]. by rewrite decide_True. }
  split.
  - rewrite !length_app, !length_take, length_drop. lia.
  - rewrite app_assoc, take_app_le by (rewrite length_app, !length_take; lia).
    apply take_ge. rewrite length_app, !length_take. lia.
Qed.

Lemma rest_length (data : list Z) n :
  0 <= n <= Z.of_nat (List.length data) ->
  Z.of_nat (List.length data) - n = Z.of_nat (List.length (drop (Z.to_nat n) data)).
Proof. intros H. rewrite length_drop. lia. Qed.

(** A buffer that is written, and one that is filled from there on. *)
Lemma stream_written s b s2 :
  written s2 = written s ++ [take (Z.to_nat (buffer_pos s)) b] -> buffer_pos s2 = 0 ->
  sound_stream s2 b = sound_stream s b.
Proof.
  intros Hw Hp. unfold sound_stream. rewrite Hw, Hp. change (take (Z.to_nat 0) b) with (@nil Z).
  rewrite app_nil_r, join_app. cbn [mjoin list_join]. by rewrite app_nil_r.
Qed.

Lemma play_loop_stream fuel data len s b :
  buffer_ok s b -> full_writes s -> Z.of_nat (List.length data) < 2 ^ 31 ->
  (List.length data < fuel)%nat ->
  exists s' b', play_loop frames_to_bytes bytes_to_frames writei fuel data (Z.of_nat (List.length data)) len s =
      Ok (len, s') /\
    buffer_ok s' b' /\ chunksize s' = chunksize s /\
    sound_stream s' b' = sound_stream s b ++ data /\
    exists cs, written s' = written s ++ cs /\ Forall (fun c => Z.of_nat (List.length c) = chunksize s) cs.
Proof.
  revert data s b. induction fuel as [|fuel IH]; intros data s b Hs Hw Hd Hf; [lia|]. cbn [play_loop].
  destruct data as [|x data0] eqn:Edata.
  { exists s, b. split; [done|]. split; [done|]. split; [done|]. split; [by rewrite app_nil_r|].
    exists []. by rewrite app_nil_r. }
  rewrite <- Edata in *. assert (Hne : (0 < List.length data)%nat) by (subst; simpl; lia). clear Edata x data0.
  destruct (Z.eqb_spec (Z.of_nat (List.length data)) 0) as [|_]; [lia|].
  destruct Hs as [H1 H2 H3 H4 H5 H6]. rewrite uwrap64_small by lia.
  set (room := chunksize s - buffer_pos s) in *.
  set (n := if Z.of_nat (List.length data) <=? room then Z.of_nat (List.length data) else room).
  assert (Hn : 0 < n <= room /\ n <= Z.of_nat (List.length data)).
  { unfold n. destruct (Z.leb_spec (Z.of_nat (List.length data)) room); lia. }
  rewrite i32_small by lia.
  destruct (copy_in_Ok n data s b H2) as (b1 & -> & Hl1 & Ht1); [lia|lia|lia|].
  cbn [mbind res_bind with_buffer buffer_pos chunksize].
  rewrite rest_length by lia. set (s1 := with_buffer s b1 (buffer_pos s + n)).
  assert (Hstream : sound_stream s1 b1 ++ drop (Z.to_nat n) data = sound_stream s b ++ data).
  { unfold sound_stream. cbn [written buffer_pos s1 with_buffer]. rewrite Ht1, <- !app_assoc.
    by rewrite take_drop. }
  destruct (Z.eqb_spec (buffer_pos s + n) (chunksize s)) as [He|He].
  - unfold write_chunk. change (audio_buffer s1) with (PLive b1). cbn [deref mbind res_bind mret res_ret].
    rewrite (Hw (writes s1)) by (cbn; lia). change (chunksize s1) with (chunksize s). cbn [chunksize].
    rewrite Z.eqb_refl. rewrite H6.
    match goal with |- context [with_pos ?t 0] => set (s2 := with_pos t 0) end.
    destruct (IH (drop (Z.to_nat n) data) s2 b1) as (s' & b' & HR & Hok & Hc & Hst & cs & Hcs & Hcsl).
    + split; cbn; try done; lia.
    + intros k Hk. apply Hw. cbn in Hk. lia.
    + rewrite length_drop. lia.
    + rewrite length_drop. lia.
    + exists s', b'. split; [exact HR|]. split; [done|]. split; [done|]. split.
      * rewrite Hst, <- Hstream. f_equal. apply (stream_written s1); [|done]. cbn. by rewrite He.
      * exists (take (Z.to_nat (chunksize s)) b1 :: cs). split.
        { rewrite Hcs. cbn [written s2 with_pos s1 with_buffer]. by rewrite <- app_assoc. }
        constructor; [|done]. rewrite length_take. lia.
  - destruct (IH (drop (Z.to_nat n) data) s1 b1) as (s' & b' & HR & Hok & Hc & Hst & Hcs).
    + split; cbn; try done; lia.
    + done.
    + rewrite length_drop. lia.
    + rewrite length_drop. lia.
    + exists s', b'. split; [exact HR|]. split; [done|]. split; [done|]. split; [|done].
      by rewrite Hst, Hstream.
Qed.

(** The loop when the data fill the buffer and the write is short. *)
Lemma play_loop_short fuel data len s b :
  buffer_ok s b -> Z.of_nat (List.length data) < 2 ^ 31 ->
  chunksize s - buffer_pos s <= Z.of_nat (List.length data) ->
  frames_to_bytes (writei (writes s)) <> chunksize s ->
  exists s' c, play_loop frames_to_bytes bytes_to_frames writei (S fuel) data
      (Z.of_nat (List.length data)) len s = Ok (frames_to_bytes (writei (writes s)), s') /\
    s' = {| handle := true; hwparams := hwparams s; audio_buffer := PLive c; chunksize := chunksize s;
            buffer_pos := chunksize s; written := written s ++ [c]; writes := S (writes s) |} /\
    Z.of_nat (List.length c) = chunksize s.
Proof.
  intros [H1 H2 H3 H4 H5 H6] Hd Hroom Hshort. cbn [play_loop].
  destruct (Z.eqb_spec (Z.of_nat (List.length data)) 0) as [|_]; [lia|]. rewrite uwrap64_small by lia.
  assert ((if Z.of_nat (List.length data) <=? chunksize s - buffer_pos s then Z.of_nat (List.length data)
    else chunksize s - buffer_pos s) = chunksize s - buffer_pos s) as ->.
  { destruct (Z.leb_spec (Z.of_nat (List.length data)) (chunksize s - buffer_pos s)); lia. }
  rewrite i32_small by lia.
  destruct (copy_in_Ok (chunksize s - buffer_pos s) data s b H2) as (b1 & -> & Hl1 & _); [lia..|].
  cbn [mbind res_bind with_buffer buffer_pos chunksize].
  replace (buffer_pos s + (chunksize s - buffer_pos s)) with (chunksize s) by lia. rewrite Z.eqb_refl.
  unfold write_chunk, with_buffer.
  cbn [audio_buffer deref mbind res_bind mret res_ret chunksize writes handle hwparams written buffer_pos].
  destruct (Z.eqb_spec (frames_to_bytes (writei (writes s))) (chunksize s)); [done|].
  eexists _, b1. split; [reflexivity|]. split; [|lia].
  cbn [handle hwparams written]. rewrite H1, H6, take_ge by lia. done.
Qed.

(** A full buffer is written before anything is copied. *)
Lemma play_loop_full fuel data len s c :
  handle s = true -> audio_buffer s = PLive c -> buffer_pos s = chunksize s -> 0 < chunksize s < 2 ^ 31 ->
  Z.of_nat (List.length c) = chunksize s -> frames_to_bytes (bytes_to_frames (chunksize s)) = chunksize s ->
  frames_to_bytes (writei (writes s)) = chunksize s -> (0 < List.length data)%nat ->
  play_loop frames_to_bytes bytes_to_frames writei (S fuel) data (Z.of_nat (List.length data)) len s =
  play_loop frames_to_bytes bytes_to_frames writei fuel data (Z.of_nat (List.length data)) len
    {| handle := true; hwparams := hwparams s; audio_buffer := PLive c; chunksize := chunksize s;
       buffer_pos := 0; written := written s ++ [c]; writes := S (writes s) |}.
Proof.
  intros H1 H2 H3 H4 H5 H6 H7 Hd. cbn [play_loop].
  destruct (Z.eqb_spec (Z.of_nat (List.length data)) 0) as [|_]; [lia|].
  rewrite H3, Z.sub_diag. change (uwrap 64 0) with 0.
  destruct (Z.leb_spec (Z.of_nat (List.length data)) 0); [lia|]. change (i32 0) with 0.
  unfold copy_in. rewrite H2. cbn [deref mbind res_bind]. rewrite decide_True by lia.
  change (Z.to_nat 0) with 0%nat. rewrite drop_0, take_0, app_nil_l, Nat.add_0_r, take_drop, !Z.add_0_r, Z.sub_0_r.
  cbn [mret res_ret mbind res_bind with_buffer buffer_pos chunksize]. rewrite H3, Z.eqb_refl.
  unfold write_chunk, with_buffer.
  cbn [audio_buffer deref mbind res_bind mret res_ret chunksize writes handle hwparams written buffer_pos].
  rewrite H7, Z.eqb_refl.
  unfold with_pos. cbn [handle hwparams audio_buffer chunksize written writes].
  by rewrite H1, H6, take_ge by lia.
Qed.
End Facts.
End AlsaFacts.

(** ** Properties *)

(** C33: as long as the device takes whole chunks, the driver plays a stream:
    what the device has got and what waits in the buffer is what it was, with
    the data behind it, in chunks of the same size, whatever the sizes of the
    pieces the data come in; and the call accepts all of them. *)
Theorem soundPlayChunk_stream (frames_to_bytes bytes_to_frames : Z -> Z) (writei : nat -> Z)
    (s : Alsa.state) (b data : list Z) :
  AlsaFacts.buffer_ok frames_to_bytes bytes_to_frames s b ->
  AlsaFacts.full_writes frames_to_bytes writei s -> Z.of_nat (List.length data) < 2 ^ 31 ->
  exists s' b' cs,
    Alsa.soundPlayChunk frames_to_bytes bytes_to_frames writei data (Z.of_nat (List.length data)) s =
      Ok (Z.of_nat (List.length data), s') /\
    AlsaFacts.buffer_ok frames_to_bytes bytes_to_frames s' b' /\
    AlsaFacts.sound_stream s' b' = AlsaFacts.sound_stream s b ++ data /\
    Alsa.written s' = Alsa.written s ++ cs /\
    Forall (fun c => Z.of_nat (List.length c) = Alsa.chunksize s) cs.
Proof.
  intros Hs Hw Hd. unfold Alsa.soundPlayChunk. rewrite (AlsaFacts.ok_handle _ _ _ _ Hs).
  destruct (AlsaFacts.play_loop_stream frames_to_bytes bytes_to_frames writei
    (S (S (Z.to_nat (Z.of_nat (List.length data))))) data (Z.of_nat (List.length data)) s b Hs Hw Hd)
    as (s' & b' & HR & Hok & _ & Hst & cs & Hcs & Hl); [lia|].
  by exists s', b', cs.
Qed.

(** A short write: the call returns what was written, the rest of the
    data is not kept, and the next call writes the whole chunk again. *)
Theorem soundPlayChunk_short_write (frames_to_bytes bytes_to_frames : Z -> Z) (writei : nat -> Z)
    (s : Alsa.state) (b data more : list Z) :
  AlsaFacts.buffer_ok frames_to_bytes bytes_to_frames s b -> Z.of_nat (List.length data) < 2 ^ 31 ->
  Alsa.chunksize s - Alsa.buffer_pos s <= Z.of_nat (List.length data) ->
  frames_to_bytes (writei (Alsa.writes s)) <> Alsa.chunksize s ->
  (forall k, (Alsa.writes s < k)%nat -> frames_to_bytes (writei k) = Alsa.chunksize s) ->
  (0 < List.length more)%nat -> Z.of_nat (List.length more) < 2 ^ 31 ->
  exists s1 s2 b2 c,
    Alsa.soundPlayChunk frames_to_bytes bytes_to_frames writei data (Z.of_nat (List.length data)) s =
      Ok (frames_to_bytes (writei (Alsa.writes s)), s1) /\
    Alsa.written s1 = Alsa.written s ++ [c] /\
    Alsa.soundPlayChunk frames_to_bytes bytes_to_frames writei more (Z.of_nat (List.length more)) s1 =
      Ok (Z.of_nat (List.length more), s2) /\
    AlsaFacts.sound_stream s2 b2 = mjoin (Alsa.written s) ++ c ++ c ++ more.
Proof.
  intros Hs Hd Hroom Hshort Hlater Hm Hm2. unfold Alsa.soundPlayChunk.
  rewrite (AlsaFacts.ok_handle _ _ _ _ Hs).
  destruct (AlsaFacts.play_loop_short frames_to_bytes bytes_to_frames writei
    (S (Z.to_nat (Z.of_nat (List.length data)))) data (Z.of_nat (List.length data)) s b Hs Hd Hroom Hshort)
    as (s1 & c & -> & -> & Hc).
  pose proof (AlsaFacts.ok_chunk _ _ _ _ Hs). pose proof (AlsaFacts.ok_frames _ _ _ _ Hs).
  set (s1 := {| Alsa.handle := true; Alsa.hwparams := Alsa.hwparams s; Alsa.audio_buffer := PLive c;
    Alsa.chunksize := Alsa.chunksize s; Alsa.buffer_pos := Alsa.chunksize s;
    Alsa.written := Alsa.written s ++ [c]; Alsa.writes := S (Alsa.writes s) |}). set (s2 := {| Alsa.handle := true; Alsa.hwparams := Alsa.hwparams s;
    Alsa.audio_buffer := PLive c; Alsa.chunksize := Alsa.chunksize s; Alsa.buffer_pos := 0;
    Alsa.written := (Alsa.written s ++ [c]) ++ [c]; Alsa.writes := S (S (Alsa.writes s)) |}).
  pose proof (AlsaFacts.play_loop_full frames_to_bytes bytes_to_frames writei
    (S (Z.to_nat (Z.of_nat (List.length more)))) more (Z.of_nat (List.length more)) s1 c) as Hfull.
  destruct (AlsaFacts.play_loop_stream frames_to_bytes bytes_to_frames writei
    (S (Z.to_nat (Z.of_nat (List.length more)))) more (Z.of_nat (List.length more)) s2 c)
    as (s' & b' & HR & _ & _ & Hst & _).
  - split; cbn; try done; lia.
  - intros k Hk. apply Hlater. cbn in Hk. lia.
  - done.
  - lia.
  - exists s1, s', b', c. split; [done|]. split; [done|]. split.
    + change (Alsa.handle s1) with true. cbn iota. rewrite Hfull;
        first [done|exact HR|apply Hlater; cbn; lia].
    + rewrite Hst. unfold AlsaFacts.sound_stream. cbn [Alsa.written Alsa.buffer_pos s2].
      change (take (Z.to_nat 0) c) with (@nil Z).
      rewrite !join_app. cbn [mjoin list_join]. by rewrite !app_nil_r, <- !app_assoc.
Qed.

(** ** Witnesses *)

(** A device with frames of four bytes and a chunk of two frames. *)
Definition demo_alsa (pos : Z) : Alsa.state :=
  {| Alsa.handle := true; Alsa.hwparams := PLive tt; Alsa.audio_buffer := PLive [1; 2; 3; 4; 5; 6; 7; 8];
     Alsa.chunksize := 8; Alsa.buffer_pos := pos; Alsa.written := []; Alsa.writes := 0 |}.

Lemma demo_alsa_ok pos : 0 <= pos < 8 ->
  AlsaFacts.buffer_ok (fun n => 4 * n) (fun n => n / 4) (demo_alsa pos) [1; 2; 3; 4; 5; 6; 7; 8].
Proof. intros H. split; cbn; try done; lia. Qed.

Lemma soundPlayChunk_stream_witness :
  exists s' b' cs,
    Alsa.soundPlayChunk (fun n => 4 * n) (fun n => n / 4) (fun _ => 2) [9; 10; 11; 12; 13] 5 (demo_alsa 6) =
      Ok (5, s') /\ AlsaFacts.sound_stream s' b' = [1; 2; 3; 4; 5; 6; 9; 10; 11; 12; 13] /\
    Alsa.written s' = cs.
Proof.
  destruct (soundPlayChunk_stream (fun n => 4 * n) (fun n => n / 4) (fun _ => 2) (demo_alsa 6)
    [1; 2; 3; 4; 5; 6; 7; 8] [9; 10; 11; 12; 13]) as (s' & b' & cs & H1 & _ & H2 & H3 & _).
  - apply demo_alsa_ok. lia.
  - intros k _. reflexivity.
  - simpl. lia.
  - exists s', b', cs. split; [exact H1|]. split; [exact H2|exact H3].
Defined.

Lemma soundPlayChunk_short_write_witness :
  exists s1 s2 b2 c,
    Alsa.soundPlayChunk (fun n => 4 * n) (fun n => n / 4) (fun k => if (k =? 0)%nat then 1 else 2)
      [9; 10; 11; 12; 13] 5 (demo_alsa 6) = Ok (4, s1) /\
    Alsa.soundPlayChunk (fun n => 4 * n) (fun n => n / 4) (fun k => if (k =? 0)%nat then 1 else 2) [7] 1 s1 =
      Ok (1, s2) /\ AlsaFacts.sound_stream s2 b2 = c ++ c ++ [7].
Proof.
  destruct (soundPlayChunk_short_write (fun n => 4 * n) (fun n => n / 4) (fun k => if (k =? 0)%nat then 1 else 2)
    (demo_alsa 6) [1; 2; 3; 4; 5; 6; 7; 8] [9; 10; 11; 12; 13] [7]) as (s1 & s2 & b2 & c & H1 & _ & H2 & H3).
  - apply demo_alsa_ok. lia.
  - simpl. lia.
  - simpl. lia.
  - cbn. lia.
  - intros [|k] Hk; [cbn in Hk; lia|reflexivity].
  - simpl. lia.
  - simpl. lia.
  - exists s1, s2, b2, c. split; [exact H1|]. split; [exact H2|exact H3].
Defined.
