(* ===== verification/Log.v ===== *)
(** * Logging ([debug.c])

    The log is an open stream with what was written to it. The contents of a
    block that [malloc] returns and the time are parameters. *)

From stdpp Require Import base list strings.
From Stdlib Require Import ZArith Lia Ascii String.
From S2P Require Import Prelude CString Wire.
Local Open Scope Z_scope.
Local Open Scope list_scope.

Definition LOG_BUF : nat := 1024.

(** [log_handle]: null before the log is opened, dangling after it is closed. *)
Definition log_state : Type := ptr string.

(** [strcat (buf, s)] on a block: [s] and its null are copied over the first
    null of the block, which must be there, and must fit. *)
Fixpoint first_null (buf : list Z) : option nat :=
  match buf with
  | [] => None
  | b :: buf => if b =? 0 then Some O else S <$> first_null buf
  end.

Definition strcat (buf s : list Z) : res (list Z) :=
  match first_null buf with
  | None => Fault OutOfBounds
  | Some k =>
      if decide (k + List.length s + 1 <= List.length buf)%nat
      then mret (take k buf ++ s ++ [0] ++ drop (k + List.length s + 1) buf)
      else Fault OutOfBounds
  end.

Definition open_error : string := "Couldn't open server log file: ".

Section Log.
(** Whether [fopen] succeeds, and what [malloc] finds in the memory. *)
Context (fopen : string -> bool) (junk : nat -> list Z).
(** [asctime] of the current time, which ends in a newline. *)
Context (asctime : string).
Context (DEBUG_LEVEL : Z).

(** A block of [n] bytes. *)
Definition malloc (n : nat) : list Z := take n (junk n ++ replicate n 0).

Definition logInit (log_file : option string) : res (Z * log_state) :=
  match log_file with
  | Some f =>
      errMsg ← strcat (malloc (String.length open_error + String.length f + 1)) (bytes_of open_error);
      _ ← strcat errMsg (bytes_of f);
      if fopen f then mret (1, PLive "") else mret (0, PNull)
  | None => mret (1, PLive "")
  end.

Definition logClose (l : log_state) : res log_state :=
  match l with PNull => Fault NullDeref | PLive _ => mret PFreed | PFreed => Fault UseAfterFree end.

(** The output of [fprintf (f, s)] without further arguments: a conversion has
    none to convert. *)
Fixpoint format (s : string) : res string :=
  match s with
  | EmptyString => mret ""
  | String "%" s =>
      match s with
      | String "%" s => o ← format s; mret (String "%" o)
      | _ => Fault UninitRead
      end
  | String c s => o ← format s; mret (String c o)
  end.

(** The first [n] characters. *)
Definition str_take (n : nat) (s : string) : string := String.substring 0 n s.

(** [text] is the message with its arguments put in. *)
Definition logMsg (level : Z) (text : string) (l : log_state) : res log_state :=
  if Z.land level DEBUG_LEVEL =? 0 then mret l else
  let output := str_take (LOG_BUF - 1) text in
  let time_string := str_take (String.length asctime - 1) asctime in
  o ← format ("[" +:+ time_string +:+ "] " +:+ output);
  match l with
  | PNull => Fault NullDeref
  | PLive written => mret (PLive (written +:+ o))
  | PFreed => Fault UseAfterFree
  end.

End Log.

(** ** Facts *)

Fixpoint no_percent (s : string) : bool :=
  match s with EmptyString => true | String c s => negb (bool_decide (c = "%"%char)) && no_percent s end.

Lemma format_cons c s : c <> "%"%char -> format (String c s) = (o ← format s; mret (String c o)).
Proof. intros Hc. by destruct c as [[] [] [] [] [] [] [] []]. Qed.

Lemma format_plain s : no_percent s = true -> format s = Ok s.
Proof.
  induction s as [|c s IH]; [done|]. cbn [no_percent]. intros [Hc Hs]%andb_true_iff.
  rewrite format_cons, IH; [done|done|]. intros ->. done.
Qed.

Lemma format_app s t : no_percent s = true -> format (s +:+ t) = (o ← format t; mret (s +:+ o)).
Proof.
  induction s as [|c s IH]; intros H.
  - change ("" +:+ t) with t. by destruct (format t).
  - cbn [no_percent] in H. apply andb_true_iff in H as [Hc Hs].
    change (String c s +:+ t) with (String c (s +:+ t)). rewrite format_cons, (IH Hs); [|by intros ->].
    by destruct (format t).
Qed.

Lemma no_percent_app s t : no_percent (s +:+ t) = no_percent s && no_percent t.
Proof.
  induction s as [|c s IH]; [done|]. change (String c s +:+ t) with (String c (s +:+ t)).
  cbn [no_percent]. by rewrite IH, andb_assoc.
Qed.

Lemma str_take_nil s n : str_take 0 s = "" /\ str_take n "" = "".
Proof. by destruct s, n. Qed.

Lemma no_percent_take n s : no_percent s = true -> no_percent (str_take n s) = true.
Proof.
  unfold str_take. revert n. induction s as [|c s IH]; intros [|n]; try done. cbn [String.substring no_percent].
  intros [-> Hs]%andb_true_iff. by apply IH.
Qed.

Lemma first_null_lt buf k : first_null buf = Some k -> (k < List.length buf)%nat.
Proof.
  revert k. induction buf as [|b buf IH]; intros k; cbn [first_null]; [done|].
  destruct (b =? 0); [intros [= <-]; simpl; lia|].
  destruct (first_null buf); [|done]. intros [= <-]. specialize (IH _ eq_refl). simpl. lia.
Qed.

Lemma first_null_app l r : Forall (fun b => b <> 0) l -> first_null (l ++ 0 :: r) = Some (List.length l).
Proof.
  induction 1 as [|b l Hb _ IH]; [done|]. cbn [app first_null].
  destruct (Z.eqb_spec b 0); [done|]. by rewrite IH.
Qed.

Lemma first_null_take buf k : first_null buf = Some k -> Forall (fun b => b <> 0) (take k buf).
Proof.
  revert k. induction buf as [|b buf IH]; intros k; cbn [first_null]; [done|].
  destruct (Z.eqb_spec b 0); [intros [= <-]; constructor|].
  destruct (first_null buf); [|done]. intros [= <-]. cbn [take]. constructor; [done|]. by apply IH.
Qed.

Definition first_null_at (buf : list Z) (k : nat) : Prop := first_null buf = Some k.

(** A text that is a newline. *)
Definition nl_char : string := String "010" "".

(** No character of the text is a null. *)
Fixpoint no_null (s : string) : bool :=
  match s with EmptyString => true | String c s => negb (bool_decide (c = "000"%char)) && no_null s end.

Lemma bytes_no_null s : no_null s = true -> Forall (fun b => b <> 0) (bytes_of s).
Proof.
  induction s as [|c s IH]; cbn [no_null bytes_of]; [done|]. intros [Hc Hs]%andb_true_iff.
  constructor; [|by apply IH]. intros H. destruct (bool_decide_reflect (c = "000"%char)) as [->|Hn]; [done|].
  apply Hn. destruct c as [[] [] [] [] [] [] [] []]; done.
Qed.

(** ** Properties *)

(** Opening a log file is defined only if the block for the message
    happens to start with a null: the text is appended to what is in it. *)
Theorem logInit_block (fopen : string -> bool) (junk : nat -> list Z) (f : string) (b : Z) (rest : list Z) :
  no_null f = true ->
  malloc junk (String.length open_error + String.length f + 1) = b :: rest ->
  logInit fopen junk (Some f) =
    if b =? 0 then Ok (if fopen f then 1 else 0, if fopen f then PLive "" else PNull)
    else Fault OutOfBounds.
Proof.
  intros Hf Hm. unfold logInit. rewrite Hm.
  assert (Hlen : List.length (b :: rest) = (String.length open_error + String.length f + 1)%nat).
  { rewrite <- Hm. unfold malloc. rewrite length_take, length_app, length_replicate. lia. }
  destruct (b =? 0) eqn:Eb.
  - apply Z.eqb_eq in Eb as ->. unfold strcat at 2. cbn [first_null]. rewrite Z.eqb_refl.
    rewrite length_bytes_of, Hlen, decide_True by lia. cbn [mbind res_bind mret res_ret Nat.add].
    change (take 0 (0 :: rest)) with (@nil Z). rewrite app_nil_l.
    set (r := drop _ _). assert (Hr : List.length r = String.length f).
    { unfold r. rewrite length_drop, Hlen. lia. }
    unfold strcat. change ([0] ++ r) with (0 :: r). rewrite first_null_app by by apply bytes_no_null.
    rewrite decide_True; [by destruct (fopen f)|].
    rewrite length_app, !length_bytes_of. cbn [List.length]. lia.
  - unfold strcat at 2. destruct (first_null (b :: rest)) as [k|] eqn:Ek; [|done].
    assert (0 < k)%nat as Hk.
    { cbn [first_null] in Ek. rewrite Eb in Ek. destruct (first_null rest); [|done]. injection Ek as <-. lia. }
    rewrite length_bytes_of. case_decide as Hfit; [|done]. cbn [mbind res_bind mret res_ret].
    assert (first_null_at (take k (b :: rest) ++ bytes_of open_error ++ [0] ++
      drop (k + String.length open_error + 1) (b :: rest)) (k + String.length open_error)) as Hat.
    { apply first_null_lt in Ek as Hlt. apply first_null_take in Ek. unfold first_null_at. cbn [app].
      rewrite app_assoc, first_null_app.
      - by rewrite length_app, length_bytes_of, length_take, Nat.min_l by lia.
      - apply Forall_app. split; [done|]. by apply bytes_no_null. }
    unfold strcat. rewrite Hat, length_bytes_of. rewrite decide_False; [done|].
    rewrite !length_app, length_take, length_drop, length_bytes_of, Hlen. cbn [List.length]. lia.
Qed.

(** A message of a level that is logged is written behind the time, up
    to the size of the buffer, if it has no per cent sign; the whole line is
    used as a format, so that a per cent sign before anything but another one
    makes the behaviour undefined. *)
Theorem logMsg_format (asctime : string) (DEBUG_LEVEL level : Z) (text more out : string) (c : ascii) :
  Z.land level DEBUG_LEVEL <> 0 -> no_percent asctime = true -> no_percent text = true ->
  logMsg asctime DEBUG_LEVEL level text (PLive out) =
    Ok (PLive (out +:+ ("[" +:+ str_take (String.length asctime - 1) asctime +:+ "] " +:+
                        str_take (LOG_BUF - 1) text))) /\
  (c <> "%"%char -> (String.length text + 2 < LOG_BUF)%nat ->
   logMsg asctime DEBUG_LEVEL level (text +:+ String "%" (String c more)) (PLive out) = Fault UninitRead).
Proof.
  intros Hl Ha Ht. unfold logMsg. destruct (Z.eqb_spec (Z.land level DEBUG_LEVEL) 0); [done|].
  set (time := str_take (String.length asctime - 1) asctime).
  assert (no_percent time = true) as Htime by by apply no_percent_take. split.
  - rewrite format_plain; [done|]. rewrite !no_percent_app, Htime. by rewrite no_percent_take.
  - intros Hc Hlen.
    assert (exists m, str_take (LOG_BUF - 1) (text +:+ String "%" (String c more)) =
      text +:+ String "%" (String c m)) as [m ->].
    { assert (exists k, (LOG_BUF - 1 = String.length text + S (S k))%nat) as [k ->].
      { exists (LOG_BUF - 1 - String.length text - 2)%nat. lia. }
      exists (str_take k more). unfold str_take. clear. induction text as [|a text IH]; [done|].
      change (String a text +:+ ?x) with (String a (text +:+ x)). cbn [String.length Nat.add String.substring].
      by rewrite IH. }
    rewrite <- !string_app_assoc, format_app by (rewrite !no_percent_app, Htime; done).
    assert (format (String "%" (String c m)) = Fault UninitRead) as ->; [|done].
    destruct c as [[] [] [] [] [] [] [] []]; done.
Qed.

(** ** Witnesses *)

Lemma logInit_block_witness :
  logInit (fun _ => true) (fun _ => [7]) (Some "peep.log") = Fault OutOfBounds /\
  logInit (fun _ => true) (fun _ => [0; 7]) (Some "peep.log") = Ok (1, PLive "").
Proof.
  split.
  - apply (logInit_block (fun _ => true) (fun _ => [7]) "peep.log" 7 (replicate 39 0)); reflexivity.
  - apply (logInit_block (fun _ => true) (fun _ => [0; 7]) "peep.log" 0 (7 :: replicate 38 0)); reflexivity.
Defined.

Lemma logMsg_format_witness :
  logMsg ("Fri" +:+ nl_char) 5 1 "up" (PLive "") = Ok (PLive "[Fri] up") /\
  logMsg ("Fri" +:+ nl_char) 5 1 "100%s" (PLive "") = Fault UninitRead.
Proof.
  destruct (logMsg_format ("Fri" +:+ nl_char) 5 1 "up" "" "" "s") as [H1 _]; [done|reflexivity|reflexivity|].
  destruct (logMsg_format ("Fri" +:+ nl_char) 5 1 "100" "" "" "s") as [_ H2]; [done|reflexivity|reflexivity|].
  split; [exact H1|]. apply H2; [discriminate|]. unfold LOG_BUF. simpl. lia.
Defined.
