(* ===== verification/Loading.v ===== *)
(** * What a configuration does to the engine and the mixer

    Whatever a configuration file says: when its parser returns, the state of
    the threads satisfies the invariant of the engine if it did before. What
    this needs of the world: directories of sounds hold sounds, and in a theme
    a threshold belongs to a state and the element of the states holds one. *)

From stdpp Require Import base list sets strings sorting relations.
From Stdlib Require Import ZArith Lia Ascii String.
From S2P Require Import Prelude Events CString Dbl SoundTable MixerQueue World Playback Mixer Engine MixerFacts Steps Release Wire Parser ParserState Notice Theme ConfigFile Server UdpServer TcpServer Typing EngineQueue Peepd Session.
Import SoundTable.
Local Open Scope Z_scope.
Local Open Scope list_scope.

(** ** Taking and leaving the mutex of the mixer

    [locks b c m]: when [m] starts with the mutex in state [b] and ends, the
    mutex is in state [c]. *)

Definition locks (b c : bool) {A} (m : M world A) : Prop :=
  forall w a w', m w = Ok (a, w') -> mlock w = b -> mlock w' = c.

Lemma locks_bind {A B} b c d (m : M world A) (k : A -> M world B) :
  locks b c m -> (forall a, locks c d (k a)) -> locks b d (m ≫= k).
Proof. intros Hm Hk w x w' H Hb. apply bind_inv in H as (a & v & H1 & H2). eapply Hk; [done|]. by eapply Hm. Qed.

Lemma locks_lock b : locks b true lock_mixer.
Proof.
  intros w a w' H _. apply bind_ok in H as (x & Hx & [= <- <-]). unfold threadLock in Hx.
  destruct (mlock w); [done|]. by injection Hx as <-.
Qed.

Lemma locks_unlock b : locks b false unlock_mixer.
Proof. intros w a w' H _. by apply bind_ok in H as (x & [= <-] & [= <- <-]). Qed.

(** Steps that are no matter of the mutex. *)
Lemma locks_frame b {A} (m : M world A) : steps frame m -> locks b b m.
Proof. intros Hm w a w' H Hb. by rewrite (fr_mlock _ _ (Hm _ _ _ H)). Qed.

Lemma locks_modify b f : (forall w, mlock (f w) = mlock w) -> locks b b (modify f).
Proof. intros Hf w a w' [= <- <-] Hb. by rewrite Hf. Qed.

Lemma frame_sbuff j : steps frame (sbuff j).
Proof. unfold sbuff. auto with steps. Qed.
Lemma frame_set_sbuff j b : steps frame (set_sbuff j b).
Proof. unfold set_sbuff. auto with steps. Qed.
#[local] Hint Resolve frame_sbuff frame_set_sbuff frame_put_snd frame_get_snd : steps.

(** [go_locks]: go through the steps with the state of the mutex. *)
Ltac go_locks :=
  repeat match goal with
    | |- locks _ _ (lock_mixer ≫= _) => eapply locks_bind; [apply locks_lock|intros ?]
    | |- locks _ _ (unlock_mixer ≫= _) => eapply locks_bind; [apply locks_unlock|intros ?]
    | |- locks _ _ (modify _ ≫= _) => eapply locks_bind; [by apply locks_modify|intros ?]
    | |- locks ?b _ (_ ≫= _) => apply (locks_bind b b); [apply locks_frame; go_steps|intros ?]
    | |- locks _ _ (match ?x with _ => _ end) => destruct x
    | |- locks _ _ (let _ := _ in _) => cbv zeta
    | |- locks _ _ (mret _) => apply locks_frame; go_steps
    end.

(** ** What stays when something is loaded *)

(** As [frame], whatever happens to the mutex. *)
Definition kept (w w' : world) : Prop := frame w (set_mlock (mlock w) w').

(** As [kept], whatever happens to the sound table. *)
Definition apart (w w' : world) : Prop := kept w (set_sound_table (sound_table w) w').

Ltac frame_fields := split; [split|..]; cbn in *; first [done|congruence|by eapply same_size_trans|eauto with steps].

#[export] Instance kept_preorder : PreOrder kept.
Proof.
  split; [intros w; frame_fields|]. intros u v w [[] ] [[] ]. frame_fields.
Qed.

#[export] Instance apart_preorder : PreOrder apart.
Proof.
  split; [intros w; frame_fields|]. intros u v w [[] ] [[] ]. frame_fields.
Qed.

Lemma kept_apart w w' : kept w w' -> apart w w'.
Proof. intros [[] ]. frame_fields. Qed.

Lemma steps_kept {A} (m : M world A) : steps frame m -> steps kept m.
Proof. intros Hm w a w' H. destruct (Hm _ _ _ H) as [[] ]. frame_fields. Qed.

Lemma kept_lock : steps kept lock_mixer.
Proof. intros w a w' H. apply bind_ok in H as (x & _ & [= <- <-]). frame_fields. Qed.
Lemma kept_unlock : steps kept unlock_mixer.
Proof. intros w a w' H. apply bind_ok in H as (x & _ & [= <- <-]). frame_fields. Qed.
Lemma kept_loaded f : steps kept (modify (fun w => set_loaded (f w) w)).
Proof. apply steps_modify. intros w. frame_fields. Qed.

Ltac go_kept :=
  repeat match goal with
    | |- steps kept (lock_mixer ≫= _) => apply steps_bind; [apply kept_lock|intros ?]
    | |- steps kept (unlock_mixer ≫= _) => apply steps_bind; [apply kept_unlock|intros ?]
    | |- steps kept (modify _ ≫= _) => apply steps_bind; [apply kept_loaded|intros ?]
    | |- steps kept (_ ≫= _) => apply steps_bind; [apply steps_kept; go_steps|intros ?]
    | |- steps kept (match ?x with _ => _ end) => destruct x
    | |- steps kept (let _ := _ in _) => cbv zeta
    | |- steps kept (mret _) => apply steps_ret
    end.

(** The array of the states has its size, and every entry of the sound table
    is usable. *)
Definition sized (w : world) : Prop :=
  exists sb, sbuffs w = PLive sb /\ Z.of_nat (List.length sb) = no_sbuffs w.
Definition usable_table (w : world) : Prop :=
  exists tbl, sound_table w = PLive tbl /\ Forall (usable w) (List.concat tbl).

Record configured (w w' : world) : Prop := {
  cf_apart : apart w w';
  cf_mlock : mlock w = false -> mlock w' = false;
  cf_table : sized w -> usable_table w -> usable_table w';
  cf_full : fills w w'
}.

Lemma apart_sized w w' : apart w w' -> sized w -> sized w'.
Proof.
  intros F (sb & Hs & Hl). destruct (fr_states _ _ F sb Hs) as (sb' & Hs' & Hl'). exists sb'.
  split; [done|]. pose proof (fr_ns _ _ F) as Hn. cbn in Hn. rewrite Hn. by rewrite Hl'.
Qed.

#[export] Instance configured_preorder : PreOrder configured.
Proof.
  split.
  - intros w. by split; [reflexivity|..].
  - intros u v w [A1 M1 T1 F1] [A2 M2 T2 F2]. split; [by etransitivity|auto| |by etransitivity].
    intros Hs Hu. apply T2; [by eapply apart_sized|auto].
Qed.

Lemma usable_ns w w' en : no_sbuffs w' = no_sbuffs w -> usable w en -> usable w' en.
Proof. intros H. unfold usable. by rewrite H. Qed.

(** An operation of the mixer. *)
Lemma steps_configured {A} (m : M world A) :
  steps kept m -> locks false false m -> steps fills m -> steps configured m.
Proof.
  intros Hk Hl Hf w a w' H. pose proof (Hk _ _ _ H) as F.
  split; [by apply kept_apart|by apply (Hl _ _ _ H)| |by apply (Hf _ _ _ H)].
  intros _ (tbl & Ht & Hu). exists tbl. pose proof (ba_table _ _ (fr_base _ _ F)) as Ht'. cbn in Ht'.
  split; [congruence|]. apply (Forall_impl _ _ _ Hu). intros en. apply usable_ns, (fr_ns _ _ F).
Qed.

(** As [go_fills], with the states that are read and written as a whole. *)
Lemma fills_sbuff {A} j (m : STATE_BUF -> M world A) :
  (forall b, full_state b -> steps fills (m b)) -> steps fills (sbuff j ≫= m).
Proof.
  intros Hm w a w' H Hw. apply bind_inv in H as (b & v & Hb & H).
  destruct (full_sbuff _ _ _ _ Hb Hw) as [-> F]. exact (Hm b F _ _ _ H Hw).
Qed.

Lemma fills_set_sbuff j b : full_state b -> steps fills (set_sbuff j b).
Proof. intros Hb w u w' H. by eapply full_set_sbuff. Qed.

Lemma alloc_fills j n : steps fills (mixerAllocNewState true j n).
Proof.
  unfold mixerAllocNewState. apply fills_sbuff. intros b Hb. destruct (thresh b); [apply steps_ret|].
  apply steps_bind; [apply steps_fills; go_steps|intros _]. cbv zeta.
  apply steps_bind; [|intros _; apply steps_fills; go_steps]. apply fills_set_sbuff. split; cbn.
  - intros ts [= <-]. apply Forall_replicate. by left.
  - destruct (decide (n <= 0)); [by left|right]. eexists. split; [reflexivity|]. rewrite length_replicate. lia.
Qed.

Lemma threshold_fills j k l h n : steps fills (mixerAddStateThreshold true true j k l h n).
Proof.
  unfold mixerAddStateThreshold. apply fills_sbuff. intros b [F1 F2]. destruct (_ <? _); [apply steps_ret|].
  destruct (thresh b) as [ts|] eqn:Et; [|apply steps_ret].
  apply steps_bind; [apply steps_fills; go_steps|intros _].
  intros w a w' H. apply bind_inv in H as (ts' & v & Hw & H). unfold lift in Hw.
  destruct (wr ts k _) as [ts1| |] eqn:Ew; [|done..]. injection Hw as <- <-. apply wr_Ok in Ew as [_ ->].
  revert H. apply steps_bind; [|intros _; apply steps_fills; go_steps].
  apply fills_set_sbuff. split; cbn.
  - intros ts2 [= <-]. apply Forall_insert; [by apply F1|]. cbn.
    destruct (decide (n <= 0)); [by left|right]. eexists. split; [reflexivity|]. cbn. rewrite length_replicate. lia.
  - destruct F2 as [F2|(ts2 & [= <-] & F2)]; [by left|right]. eexists. split; [reflexivity|]. by rewrite length_insert.
Qed.

Lemma add_fills j k i snd ln : steps fills (mixerAddState j k i snd ln).
Proof.
  unfold mixerAddState. apply fills_sbuff. intros b _. destruct (_ <? _); [apply steps_ret|].
  apply fills_get. intros s Hs. destruct (_ <? _); [apply steps_ret|].
  intros w a w' H. apply bind_inv in H as (bufs & v & Hb & H). unfold lift in Hb.
  destruct (s_snd_buf s) as [bs|] eqn:Eb; [|done]. injection Hb as <- <-. revert H.
  apply steps_bind; [apply steps_lift|intros old]. destruct old; [apply steps_ret|].
  apply steps_bind; [apply steps_fills; go_steps|intros _]. clear w w'.
  intros w x w' H. apply bind_inv in H as (bs1 & v & Hw & H). unfold lift in Hw.
  destruct (wr bs i snd) as [bs2| |] eqn:Ew; [|done..]. injection Hw as <- <-. apply wr_Ok in Ew as [_ ->].
  revert H. apply steps_bind; [apply steps_lift|intros lens]. apply steps_bind; [apply steps_lift|intros lens'].
  apply steps_bind; [|intros _; apply steps_fills; go_steps]. apply fills_put.
  destruct Hs as [Hs|(bs3 & E3 & Hs)]; [by left|right]. rewrite Eb in E3. injection E3 as <-.
  eexists. split; [reflexivity|]. cbn. by rewrite length_insert.
Qed.

Lemma alloc_configured j n : steps configured (mixerAllocNewState true j n).
Proof. apply steps_configured; [| |apply alloc_fills]; unfold mixerAllocNewState; [go_kept|go_locks]. Qed.
Lemma threshold_configured j k l h n : steps configured (mixerAddStateThreshold true true j k l h n).
Proof. apply steps_configured; [| |apply threshold_fills]; unfold mixerAddStateThreshold; [go_kept|go_locks]. Qed.
Lemma add_configured j k i snd ln : steps configured (mixerAddState j k i snd ln).
Proof. apply steps_configured; [| |apply add_fills]; unfold mixerAddState; [go_kept|go_locks]. Qed.
Lemma fade_configured j x : steps configured (mixerSetFadeTime j x).
Proof.
  assert (steps frame (mixerSetFadeTime j x)) as H by (unfold mixerSetFadeTime; go_steps).
  apply steps_configured; [by apply steps_kept|by apply locks_frame|].
  apply steps_fills. unfold mixerSetFadeTime. go_steps.
Qed.

(** ** Sounds that are entered into the table *)

Lemma insert_loop_in rest entry chain e :
  insert_loop rest entry = Some chain -> e ∈ chain -> e ∈ rest \/ e = entry.
Proof.
  revert chain. induction rest as [|x rest IH]; intros chain H He; cbn [insert_loop] in H.
  { injection H as <-. right. by apply list_elem_of_singleton. }
  destruct rest as [|y rest].
  - injection H as <-. apply elem_of_cons in He as [->|He]; [left; left|].
    right. by apply list_elem_of_singleton.
  - destruct (ci_eq _ _); [done|]. apply fmap_Some in H as (r & Hr & ->).
    apply elem_of_cons in He as [->|He]; [left; left|]. destruct (IH _ Hr He); [left; by right|by right].
Qed.

Lemma insert_in entry tbl t' r :
  engineSoundTableInsert entry (PLive tbl) = Ok (r, t') ->
  exists tbl', t' = PLive tbl' /\ forall e, e ∈ List.concat tbl' -> e ∈ List.concat tbl \/ e = entry.
Proof.
  intros H. unfold engineSoundTableInsert in H. cbn [deref mbind res_bind] in H.
  apply bind_ok in H as (chain & Hc & H). apply rd_Ok in Hc as [_ Hc].
  assert (Hput : forall l (x : Z), (forall e, e ∈ l -> e ∈ chain \/ e = entry) ->
    (tbl0 ← wr tbl (engineSoundHash (name entry)) l; mret (x, PLive tbl0)) = Ok (r, t') ->
    exists tbl', t' = PLive tbl' /\ forall e, e ∈ List.concat tbl' -> e ∈ List.concat tbl \/ e = entry).
  { intros l x Hl Hw. apply bind_ok in Hw as (tbl' & Hw & [= _ <-]). exists tbl'. split; [done|].
    apply wr_Ok in Hw as [_ ->]. intros e He. apply list_elem_of_In, List.in_concat in He as (c & Hic & He).
    apply list_elem_of_In in Hic, He. apply list_elem_of_lookup in Hic as [i Hi].
    apply list_lookup_insert_Some in Hi as [(_ & <- & _)|[_ Hi]].
    - destruct (Hl e He) as [He'| ->]; [left|by right]. apply list_elem_of_In, List.in_concat. exists chain.
      split; apply list_elem_of_In; [by eapply list_elem_of_lookup_2|done].
    - left. apply list_elem_of_In, List.in_concat. exists c.
      split; apply list_elem_of_In; [by eapply list_elem_of_lookup_2|done]. }
  destruct chain as [|x chain].
  - apply (Hput _ _ ltac:(intros e He; right; by apply list_elem_of_singleton) H).
  - destruct (insert_loop (x :: chain) entry) as [c|] eqn:Ei.
    + apply (Hput _ _ (fun e => insert_loop_in _ _ _ e Ei) H).
    + injection H as _ <-. exists tbl. split; [done|]. auto.
Qed.

(** A usable entry in the table of the world. *)
Lemma insert_configured entry w r t :
  engineSoundTableInsert entry (sound_table w) = Ok (r, t) -> (sized w -> usable w entry) ->
  configured w (set_sound_table t w).
Proof.
  intros H Hu. split; [frame_fields|done| |exact id]. intros Hs (tbl & Ht & Hall). rewrite Ht in H.
  destruct (insert_in _ _ _ _ H) as (tbl' & -> & Hin). exists tbl'. split; [done|].
  apply Forall_forall. intros e He. apply (usable_ns w); [done|].
  destruct (Hin e He) as [He'| ->]; [by eapply Forall_forall|auto].
Qed.

Section Directories.
Context (readdir : string -> option (list string)) (contents : string -> option (list Z)).

(** A directory of sounds holds itself, its parent and at least one file, and
    not more than four million. *)
Definition sound_dirs : Prop := forall dir ls, readdir dir = Some ls ->
  exists files, ls ≡ₚ ["."; ".."] ++ files /\ Forall (fun n => is_dots n = false) files /\
    0 < Z.of_nat (List.length files) < 2 ^ 22.

Context (Hdirs : sound_dirs).

(** When the loop ends well, all files could be read. *)
Lemma load_loop_sounds names d k e o :
  load_loop contents names d k e = Ok (true, o) ->
  exists xs, sounds contents d (filter (fun n => is_dots n = false) names) = Some xs.
Proof.
  revert k e. induction names as [|n names IH]; intros k e H; [by exists []|]. cbn [load_loop] in H.
  change (ci_eq n ".." || ci_eq n ".") with (is_dots n) in H. destruct (is_dots n) eqn:En.
  { rewrite filter_cons_False by congruence. by eapply IH. }
  rewrite filter_cons_True by done. cbn [sounds]. change (d +:+ "/" +:+ n) with (file_of d n) in H.
  destruct (parserLoadSoundFile contents (file_of d n)) as [[snd len]|]; [|done].
  apply bind_ok in H as ([z e'] & _ & H). destruct (IH _ _ H) as [xs ->]. by eexists.
Qed.

Lemma sounds_length d names xs : sounds contents d names = Some xs -> List.length xs = List.length names.
Proof.
  revert xs. induction names as [|n names IH]; intros xs H; cbn [sounds] in H; [by injection H as <-|].
  destruct (parserLoadSoundFile _ _); [|done]. destruct (sounds contents d names); [|done].
  injection H as <-. cbn. by rewrite (IH _ eq_refl).
Qed.

Lemma entry_usable w name xs :
  0 < Z.of_nat (List.length xs) < 2 ^ 22 -> usable w (event_entry name (entry_of xs)).
Proof.
  intros H. unfold usable. cbn [data stype event_entry entry_of snd_cnt snds lens].
  rewrite u32_small, !length_fmap by lia. split_and!; [lia|lia|done|done|].
  apply Forall_fmap, Forall_true. done.
Qed.

Lemma load_dir_configured name dir p w r p' t :
  parserLoadEventSndDir readdir contents name dir p (sound_table w) = Ok (r, p', t) ->
  configured w (set_sound_table t w).
Proof.
  intros H. assert (Hsame : t = sound_table w -> configured w (set_sound_table t w)).
  { intros ->. split; [frame_fields|done|done|exact id]. }
  unfold parserLoadEventSndDir, parserScanDir in H. destruct (readdir dir) as [ls|] eqn:Ed; cbn in H; cycle 1.
  { apply Hsame. by injection H. }
  destruct (Hdirs _ _ Ed) as (files & Hls & Hf & Hn).
  apply bind_ok in H as ([ok e] & Hl & H). destruct ok; cbn [negb] in H; [|apply Hsame; by injection H].
  assert (Hlen : List.length (merge_sort name_ge ls) = (2 + List.length files)%nat).
  { by rewrite merge_sort_Permutation, Hls. }
  assert (Hnames : filter (fun n => is_dots n = false) (rev (merge_sort name_ge ls)) ≡ₚ files).
  { by rewrite <- Permutation_rev, merge_sort_Permutation, Hls, filter_app, (filter_files files Hf). }
  destruct (load_loop_sounds _ _ _ _ _ Hl) as [xs Hxs].
  pose proof (sounds_length _ _ _ Hxs) as Hx. rewrite Hnames in Hx.
  rewrite Hlen in Hl. replace (Z.of_nat (2 + List.length files) - 2) with (Z.of_nat (List.length xs)) in Hl by lia.
  unfold engineAllocEventEntry in Hl. rewrite Nat2Z.id in Hl.
  rewrite (load_loop_spec contents _ dir [] [] xs 0) in Hl by (cbn; rewrite ?length_replicate; done).
  injection Hl as <-. cbn [app snd_cnt] in H. apply bind_ok in H as ([z tb] & Hi & [= _ _ <-]).
  eapply insert_configured; [exact Hi|]. intros _. apply entry_usable. lia.
Qed.

(** *** Event sections *)

Lemma event_line_configured t v p w r v' p' tb :
  event_line readdir contents t v p (sound_table w) = Ok (r, v', p', tb) ->
  configured w (set_sound_table tb w).
Proof.
  intros H. assert (Hsame : tb = sound_table w -> configured w (set_sound_table tb w)).
  { intros ->. split; [frame_fields|done|done|exact id]. }
  unfold event_line in H. run_steps H; try (apply Hsame; congruence).
  subst. by eapply load_dir_configured.
Qed.

Lemma event_loop_configured fuel : forall f v p w r f' p' tb,
  event_loop readdir contents fuel f v p (sound_table w) = Ok (r, f', p', tb) ->
  configured w (set_sound_table tb w).
Proof.
  induction fuel as [|fuel IH]; intros f v p w r f' p' tb H; cbn [event_loop] in H; [done|].
  destruct (fgets f) as [[buffer f1]|]; cycle 1.
  { injection H as _ _ _ <-. split; [frame_fields|done|done|exact id]. }
  apply bind_ok in H as (t & _ & H). apply bind_ok in H as ([[[o v1] p1] t1] & Hl & H).
  pose proof (event_line_configured _ _ _ _ _ _ _ _ Hl) as Hc.
  destruct o as [x|]; [by injection H as _ _ _ <-|]. etransitivity; [exact Hc|].
  change t1 with (sound_table (set_sound_table t1 w)) in H. apply IH in H.
  etransitivity; [exact H|]. reflexivity.
Qed.
End Directories.

(** ** State sections *)

Section States.
Context (readdir : string -> option (list string)) (contents : string -> option (list Z)).

(** The state that is being read has a place in the mixer. *)
Definition in_range (p : parser) (w : world) : Prop := 0 <= state_cnt p < no_sbuffs w.

Lemma configured_ns w w' : configured w w' -> no_sbuffs w' = no_sbuffs w.
Proof. intros H. exact (fr_ns _ _ (cf_apart _ _ H)). Qed.

Lemma configured_range p p' w w' :
  in_range p w -> configured w w' -> state_cnt p' = state_cnt p -> in_range p' w'.
Proof. intros Hr Hc Hp. unfold in_range. by rewrite Hp, (configured_ns _ _ Hc). Qed.

Lemma state_load_configured names d j k : forall i, steps configured (state_load_loop contents names d j k i).
Proof.
  induction names as [|n names IH]; intros i; cbn [state_load_loop]; [apply steps_ret|].
  destruct (_ || _); [apply IH|]. destruct (parserLoadSoundFile _ _) as [[snd len]|]; [|apply steps_ret].
  apply steps_bind; [apply add_configured|intros _; apply IH].
Qed.

Lemma load_state_configured cnt l h d fade p w r p' w' :
  parserLoadStateSndDir readdir contents cnt l h d fade p w = Ok (r, p', w') -> in_range p w ->
  configured w w' /\ state_cnt p' = state_cnt p.
Proof.
  intros H [H0 H1]. unfold parserLoadStateSndDir, mixerSBuffs in H.
  destruct (Z.leb_spec (no_sbuffs w) (u32 (state_cnt p))) as [Hle|_].
  { exfalso. unfold u32, uwrap in Hle. pose proof (Z.mod_le (state_cnt p) (2 ^ 32)). lia. }
  destruct (parserScanDir readdir d) as [ls|]; [|injection H as _ <- <-; by split].
  cbv zeta in H. apply bind_ok in H as ([z1 w1] & C1%threshold_configured & H).
  apply bind_ok in H as ([ok w2] & C2%state_load_configured & H). destruct ok; cbn [negb] in H; cycle 1.
  { injection H as _ <- <-. split; [by etransitivity|done]. }
  apply bind_ok in H as ([z3 w3] & C3%fade_configured & H). injection H as _ <- <-.
  split; [|done]. etransitivity; [exact C1|]. by etransitivity.
Qed.

Lemma threshold_line_configured cnt t v p w r v' p' w' :
  threshold_line readdir contents cnt t v p w = Ok (r, v', p', w') -> in_range p w ->
  configured w w' /\ state_cnt p' = state_cnt p.
Proof.
  intros H Hr. unfold threshold_line in H.
  run_steps H; subst; first [by split | by eapply load_state_configured].
Qed.

Lemma threshold_loop_configured fuel cnt : forall f v p w r f' p' w',
  threshold_loop readdir contents fuel cnt f v p w = Ok (r, f', p', w') -> in_range p w ->
  configured w w' /\ state_cnt p' = state_cnt p.
Proof.
  induction fuel as [|fuel IH]; intros f v p w r f' p' w' H Hr; cbn [threshold_loop] in H; [done|].
  destruct (fgets f) as [[buffer f1]|]; [|injection H as _ _ <- <-; by split].
  apply bind_ok in H as (t & _ & H). apply bind_ok in H as ([[[o v1] p1] w1] & Hl & H).
  destruct (threshold_line_configured _ _ _ _ _ _ _ _ _ Hl Hr) as [C1 P1].
  destruct o as [|x|]; [|injection H as _ _ <- <-; by split..].
  destruct (IH _ _ _ _ _ _ _ _ H (configured_range _ _ _ _ Hr C1 P1)) as [C2 P2].
  split; [by etransitivity|congruence].
Qed.

Lemma insert_state_configured name p w w' :
  insert_state name {| mixer_index := state_cnt p |} w = Ok w' -> in_range p w -> configured w w'.
Proof.
  intros H Hr. unfold insert_state in H. apply bind_ok in H as ([z t] & Hi & [= <-]).
  eapply insert_configured; [exact Hi|]. intros _. exact Hr.
Qed.

Lemma state_line_configured t v f p w r v' f' p' w' :
  state_line readdir contents t v f p w = Ok (r, v', f', p', w') -> in_range p w ->
  configured w w' /\ (r = Next -> state_cnt p' = state_cnt p).
Proof.
  intros H Hr. unfold state_line in H. destruct (is_comment _); [injection H as <- <- <- <- <-; by split|].
  apply bind_ok in H as ([t1 v1] & _ & H). apply bind_ok in H as ([[[[r2 v2] f2] p2] w2] & H2 & H).
  assert (configured w w2 /\ state_cnt p2 = state_cnt p) as [C2 P2].
  { destruct (ci_eq (token t1) "threshold"); [|injection H2 as _ _ _ <- <-; by split].
    apply bind_ok in H2 as ([[[o f3] p3] w3] & Ht & H2). injection H2 as _ _ _ <- <-.
    by eapply threshold_loop_configured. }
  destruct r2; [|injection H as <- <- <- <- <-; by split..].
  run_steps H; subst; try (by split).
  split; [|done]. etransitivity; [exact C2|].
  match goal with H : engineAllocStateEntry _ _ = Some _ |- _ => injection H as <- end.
  by eapply insert_state_configured, (configured_range p).
Qed.

Lemma state_loop_configured fuel : forall v f p w r f' p' w',
  state_loop readdir contents fuel v f p w = Ok (r, f', p', w') -> in_range p w -> configured w w'.
Proof.
  induction fuel as [|fuel IH]; intros v f p w r f' p' w' H Hr; cbn [state_loop] in H; [done|].
  destruct (fgets f) as [[buffer f1]|]; [|by injection H as _ _ _ <-].
  apply bind_ok in H as (t & _ & H). apply bind_ok in H as ([[[[o v1] f2] p1] w1] & Hl & H).
  destruct (state_line_configured _ _ _ _ _ _ _ _ _ _ Hl Hr) as [C1 P1].
  destruct o as [|x|]; [|by injection H as _ _ _ <-..].
  etransitivity; [exact C1|]. eapply IH; [exact H|]. by apply (configured_range p p1 w), P1.
Qed.

Lemma state_section_configured f p w r f' p' w' :
  parserParseState readdir contents f p w = Ok (r, f', p', w') -> sized w -> configured w w'.
Proof.
  intros H (sb & Hs & Hl). unfold parserParseState in H.
  apply bind_ok in H as ([n f1] & _ & H). apply bind_ok in H as ([z w1] & Ha & H).
  pose proof (alloc_configured _ _ _ _ _ Ha) as C. etransitivity; [exact C|].
  eapply state_loop_configured; [exact H|]. eapply configured_range; [|exact C|done].
  unfold mixerAllocNewState in Ha. apply bind_inv in Ha as (b & w2 & Hb & _).
  unfold sbuff, rd_at in Hb. rewrite Hs in Hb. cbn [deref mbind res_bind] in Hb.
  apply bind_ok in Hb as (x & [Hj Hx]%rd_Ok & _). apply lookup_lt_Some in Hx. unfold in_range. lia.
Qed.
End States.

(** ** Themes *)

(** Where a theme is, as far as its states go: outside of them, or within the
    element that holds them; [seen] tells that a state has started there, and
    [th] that a threshold has. *)
Inductive place : Type := Outside | Within (seen th : bool).

(** A threshold does not start before the first state, and the element with
    the states does not end before it or within a threshold. *)
Definition track (c : xml_call) (s : place) : option place :=
  match c, s with
  | XStart t _, _ =>
      if ci_eq t "theme" then Some s else if ci_eq t "events" then Some Outside
      else if ci_eq t "states" then Some (Within false false)
      else match s with
           | Outside => Some s
           | Within seen th =>
               if ci_eq t "state" then Some (if th then s else Within true th)
               else if ci_eq t "threshold" then if seen then Some (Within seen true) else None
               else Some s
           end
  | XEnd t, Within seen th =>
      if ci_eq t "states" then if seen && negb th then Some (Within false false) else None
      else Some (if ci_eq t "threshold" then Within seen false else s)
  | _, _ => Some s
  end.

Fixpoint states_ordered (s : place) (cs : list xml_call) : bool :=
  match cs with
  | [] => true
  | c :: cs => match track c s with Some s => states_ordered s cs | None => false end
  end.

(** The files that can be read: one that [load_theme] reads to a document which
    is well-formed has its states in order. Nothing is said of other texts, as
    those of the packets, nor of a document that is not well-formed. *)
Definition themes_ordered (contents : string -> option (list Z)) (expat : string -> list xml_call * bool) : Prop :=
  forall file l s cs, contents file = Some l -> read_theme (file_text l) = Ok s -> expat s = (cs, true) ->
    states_ordered Outside cs = true.

Section Themes.
Context (readdir : string -> option (list string)) (contents : string -> option (list Z)).
Context (expat : string -> list xml_call * bool).
Context (Hdirs : sound_dirs readdir).

(** Within a state there is a place for it in the mixer. *)
Definition at_place (s : place) (i : SECOND_PASS_INFO) (p : parser) (w : world) : Prop :=
  match si_context i with
  | STATE_CONTEXT => exists seen, s = Within seen false /\ (seen = true -> in_range p w)
  | THRESHOLD_CONTEXT => s = Within true true /\ in_range p w
  | _ => True
  end.

Lemma alloc_range p n w x w' :
  mixerAllocNewState true (state_cnt p) n w = Ok (x, w') -> sized w -> in_range p w /\ in_range p w'.
Proof.
  intros Ha (sb & Hs & Hl). pose proof (configured_ns _ _ (alloc_configured _ _ _ _ _ Ha)) as Hn.
  unfold mixerAllocNewState in Ha. apply bind_inv in Ha as (b & w2 & Hb & _).
  unfold sbuff, rd_at in Hb. rewrite Hs in Hb. cbn [deref mbind res_bind] in Hb.
  apply bind_ok in Hb as (y & [Hj Hx]%rd_Ok & _). apply lookup_lt_Some in Hx. unfold in_range. rewrite Hn. lia.
Qed.

Lemma start_configured tag a i p w i' w' s s' :
  xmlParseSecondPassStart tag i p w = Ok (i', w') -> track (XStart tag a) s = Some s' -> sized w ->
  at_place s i p w -> configured w w' /\ at_place s' i' p w'.
Proof.
  intros H Ht Hz Hi. unfold xmlParseSecondPassStart in H. cbn [track] in Ht.
  destruct (ci_eq tag "theme"); [injection H as <- <-; injection Ht as <-; by split|].
  destruct (ci_eq tag "events"); [injection H as <- <-; by split|].
  unfold is_ctx, at_place in *. cbn [si_context si_at] in H.
  destruct (bool_decide (si_context i = EVENT_CONTEXT)) eqn:Ee.
  { injection H as <- <-. apply bool_decide_eq_true in Ee. split; [done|]. cbn. by rewrite Ee. }
  destruct (ci_eq tag "states").
  { injection H as <- <-. injection Ht as <-. split; [done|]. cbn. by exists false. }
  destruct (bool_decide (si_context i = STATE_CONTEXT)) eqn:Es; cycle 1.
  { injection H as <- <-. split; [done|]. cbn [si_context si_at].
    destruct (si_context i) eqn:Ec; try done. destruct Hi as [-> Hr].
    destruct (ci_eq tag "state"); [|destruct (ci_eq tag "threshold")]; by injection Ht as <-. }
  apply bool_decide_eq_true in Es. rewrite Es in Hi. destruct Hi as (seen & -> & Hr).
  destruct (ci_eq tag "state").
  - injection Ht as <-. run_steps H; subst.
    match goal with H : mixerAllocNewState _ _ _ _ = _ |- _ =>
      split; [exact (alloc_configured _ _ _ _ _ H)|]; destruct (alloc_range _ _ _ _ _ H Hz) as [_ ?] end.
    cbn. rewrite Es. by exists true.
  - destruct (ci_eq tag "threshold"); injection H as <- <-; cbn; (split; [done|]).
    + destruct seen; [|done]. injection Ht as <-. by split; [|apply Hr].
    + injection Ht as <-. rewrite Es. by exists seen.
Qed.

Lemma load_sound_dir cnt l h path fade p w r p' w' :
  load_state readdir contents cnt l h path fade p w = Ok (r, p', w') -> in_range p w ->
  configured w w' /\ in_range p' w'.
Proof.
  intros H Hr. unfold load_state in H. destruct path as [path|].
  - destruct (load_state_configured _ _ _ _ _ _ _ _ _ _ _ _ H Hr) as [C P].
    split; [done|]. by apply (configured_range p p' w).
  - destruct (Z.leb_spec (mixerSBuffs w) (u32 (state_cnt p))) as [Hle|_]; [|done].
    exfalso. destruct Hr as [H0 H1]. unfold mixerSBuffs, u32, uwrap in Hle.
    pose proof (Z.mod_le (state_cnt p) (2 ^ 32)). lia.
Qed.

Lemma event_end_configured i p w i' p' w' :
  match si_path i, si_name i with
  | Some path, Some name =>
      '(r, p, w) ← load_event readdir contents name path p w;
      if r =? 0 then mret (i, p, w) else mret (si_names None None i, p, w)
  | _, _ => mret (si_names None None i, p, w)
  end = Ok (i', p', w') -> configured w w' /\ si_context i' = si_context i.
Proof.
  intros H. destruct (si_path i) as [path|]; [|injection H as <- _ <-; by split].
  destruct (si_name i) as [name|]; [|injection H as <- _ <-; by split].
  apply bind_ok in H as ([[r p1] w1] & Hl & H). unfold load_event in Hl.
  apply bind_ok in Hl as ([[r1 p2] t] & Hl & [= <- <- <-]).
  apply (load_dir_configured _ _ Hdirs) in Hl.
  destruct (r1 =? 0); injection H as <- _ <-; by split.
Qed.

Lemma end_configured tag i p w i' p' w' s s' :
  xmlParseSecondPassEnd readdir contents tag i p w = Ok (i', p', w') -> track (XEnd tag) s = Some s' ->
  at_place s i p w -> configured w w' /\ at_place s' i' p' w'.
Proof.
  intros H Ht Hi. unfold xmlParseSecondPassEnd, is_ctx in H. unfold at_place in *. cbn [track] in Ht.
  destruct (si_context i) eqn:Ec; cbn [bool_decide decide decide_rel xml_context_eq_dec] in H;
    repeat case_bool_decide; try done; cbn [andb] in H;
    try (injection H as <- <- <-; split; [done|]; by rewrite Ec).
  - (* an event *)
    destruct (ci_eq tag "events"); [by injection H as <- <- <-|].
    destruct (ci_eq tag "event"); [|injection H as <- <- <-; split; [done|]; by rewrite Ec].
    destruct (event_end_configured _ _ _ _ _ _ H) as [C E]. split; [done|]. by rewrite E, Ec.
  - (* a state *)
    destruct Hi as (seen & -> & Hr). destruct (ci_eq tag "states").
    + destruct seen; [|done]. injection Ht as <-. specialize (Hr eq_refl).
      destruct (si_name i) as [name|]; [|injection H as <- <- <-; split; [done|]; rewrite Ec; by exists false].
      apply bind_ok in H as (en & He & H). injection He as <-. apply bind_ok in H as (w1 & Hl & [= <- <- <-]).
      split; [by eapply insert_state_configured|done].
    + injection Ht as <-. destruct (ci_eq tag "state"); injection H as <- <- <-; (split; [done|]);
        cbn; rewrite ?Ec; exists seen; by destruct (ci_eq tag "threshold").
  - (* a threshold *)
    destruct Hi as [-> Hr]. destruct (ci_eq tag "states"); [done|]. injection Ht as <-.
    destruct (ci_eq tag "threshold"); [|injection H as <- <- <-; split; [done|]; by rewrite Ec].
    apply bind_ok in H as ([[r p1] w1] & Hl & [= <- <- <-]).
    destruct (load_sound_dir _ _ _ _ _ _ _ _ _ _ Hl Hr) as [C R]. split; [done|]. by exists true.
Qed.

Lemma char_context m l i tr p w i' tr' :
  xmlParseSecondPassChar m l i tr p w = Ok (i', tr') -> si_context i' = si_context i.
Proof.
  intros H. unfold xmlParseSecondPassChar in H. apply bind_ok in H as (s & _ & H).
  destruct s as [s|]; [|by injection H as <- <-].
  destruct (si_context i) eqn:Ec; try (by injection H as <- <-);
    unfold event_char, state_char, threshold_char in H; run_steps H; by subst.
Qed.

Lemma second_pass_configured cs : forall i tr p w i' tr' p' w' s,
  second_pass readdir contents cs i tr p w = Ok (i', tr', p', w') -> states_ordered s cs = true -> sized w ->
  at_place s i p w -> configured w w'.
Proof.
  induction cs as [|c cs IH]; intros i tr p w i' tr' p' w' s H Hcs Hz Hi; cbn [second_pass] in H.
  { by injection H as _ _ _ <-. }
  cbn [states_ordered] in Hcs. destruct (track c s) as [s1|] eqn:Ht; [|done]. destruct c as [t a|t|m l].
  - apply bind_ok in H as ([i1 w1] & Hs & H). destruct (start_configured _ _ _ _ _ _ _ _ _ Hs Ht Hz Hi) as [C Hi1].
    etransitivity; [exact C|]. eapply IH; [exact H|exact Hcs| |exact Hi1]. by eapply apart_sized; [apply C|].
  - apply bind_ok in H as ([[i1 p1] w1] & Hs & H). destruct (end_configured _ _ _ _ _ _ _ _ _ Hs Ht Hi) as [C Hi1].
    etransitivity; [exact C|]. eapply IH; [exact H|exact Hcs| |exact Hi1]. by eapply apart_sized; [apply C|].
  - apply bind_ok in H as ([i1 tr1] & Hs & H). apply char_context in Hs.
    destruct s; injection Ht as <-; (eapply IH; [exact H|exact Hcs|exact Hz|]); unfold at_place; by rewrite Hs.
Qed.

Lemma theme_configured s tr p w r tr' p' w' :
  xmlParseTheme readdir contents expat s tr p w = Ok (r, tr', p', w') ->
  (forall cs, expat s = (cs, true) -> states_ordered Outside cs = true) -> sized w -> configured w w'.
Proof.
  intros H Hs Hz. unfold xmlParseTheme in H. destruct (expat s) as [cs ok].
  apply bind_ok in H as ([i tr1] & _ & H). destruct ok; cbn [negb] in H; [|by injection H as _ _ _ <-].
  specialize (Hs cs eq_refl).
  apply bind_ok in H as ([[[i1 tr2] p1] w1] & H2 & H).
  assert (w' = w1) as ->.
  { destruct tr2 as [|e l]; [by injection H as _ _ _ <-|]. apply bind_ok in H as (u & _ & H).
    by injection H as _ _ _ <-. }
  by eapply second_pass_configured.
Qed.
End Themes.

(** ** The configuration *)

Section Configuration.
Context (gethostname : option string) (gethostbyname : string -> option hostent)
        (inet_aton : string -> option Z).
Context (readdir : string -> option (list string)) (contents : string -> option (list Z)).
Context (PACKAGE_VERSION : string).
Context (expat : string -> list xml_call * bool).
Context (Hdirs : sound_dirs readdir) (Hthemes : themes_ordered contents expat).

(** What a part of the parser does to the world of the configuration. *)
Definition configures (c c' : config) : Prop := sized (c_world c) -> configured (c_world c) (c_world c').

#[export] Instance configures_preorder : PreOrder configures.
Proof.
  split; [by intros c _|]. intros c d e H1 H2 Hs. specialize (H1 Hs).
  etransitivity; [exact H1|]. apply H2. by eapply apart_sized; [apply H1|].
Qed.

Section Line.
Context (import : string -> config -> res (option Z * config)).
Context (Himport : forall file c r c', import file c = Ok (r, c') -> configures c c').

Lemma config_line_configures t f c r f' c' :
  config_line gethostname gethostbyname inet_aton readdir contents PACKAGE_VERSION expat import t f c
  = Ok (r, f', c') -> configures c c'.
Proof.
  intros H. unfold config_line in H.
  apply bind_ok in H as ([[r1 f1] c1] & H1 & H).
  assert (configures c c1) as C1.
  { unfold config_general in H1. run_steps H1; by subst. }
  destruct r1; [|by injection H as <- <- <-..].
  apply bind_ok in H as ([[[r2 t2] f2] c2] & H2 & H).
  assert (configures c1 c2) as C2.
  { unfold config_class in H2. run_steps H2; by subst. }
  transitivity c2; [by etransitivity|]. clear C1 C2 H1 H2.
  destruct r2; [|by injection H as <- <- <-..].
  apply bind_ok in H as ([t3 f3] & _ & H). apply bind_ok in H as ([[r4 f4] c4] & H4 & H).
  assert (configures c2 c4) as C4.
  { unfold config_event in H4. run_steps H4; subst; [|done]. intros _.
    unfold parserParseEvent in *. by eapply event_loop_configured. }
  destruct r4; [|by injection H as <- <- <-..].
  apply bind_ok in H as ([[r5 f5] c5] & H5 & H).
  assert (configures c4 c5) as C5.
  { unfold config_state in H5. run_steps H5; subst; try done; intros Hs; by eapply state_section_configured. }
  transitivity c5; [by etransitivity|]. clear C4 C5 H4 H5.
  destruct r5; [|by injection H as <- <- <-..].
  apply bind_ok in H as ([[r6 t6] c6] & H6 & H).
  assert (configures c5 c6) as C6.
  { unfold config_import in H6. run_steps H6; subst; try done; by eapply Himport. }
  transitivity c6; [done|]. destruct r6; [|by injection H as <- <- <-..].
  apply bind_ok in H as ([r7 c7] & H7 & H). injection H as <- <- <-.
  unfold config_theme, load_theme in H7. run_steps H7; subst; [|done].
  match goal with H : _ = Ok (_, c7) |- _ => run_steps H; subst end; [|done].
  intros Hs. eapply theme_configured; [done|done| |done]. intros cs Hcs. by eapply Hthemes.
Qed.

Lemma config_loop_configures fuel : forall f c r c',
  config_loop gethostname gethostbyname inet_aton readdir contents PACKAGE_VERSION expat import fuel f c
  = Ok (r, c') -> configures c c'.
Proof.
  induction fuel as [|fuel IH]; intros f c r c' H; cbn [config_loop] in H; [done|].
  destruct (fgets f) as [[buffer f1]|]; [|by injection H as _ <-].
  apply bind_ok in H as (t & _ & H). destruct (skipped buffer); [by eapply IH|].
  apply bind_ok in H as ([[o f2] c1] & Hl & H). apply config_line_configures in Hl.
  transitivity c1; [done|]. destruct o; [by eapply IH|by injection H as _ <-..].
Qed.
End Line.

Lemma config_file_configures depth : forall file c r c',
  parserParseConfigFile gethostname gethostbyname inet_aton readdir contents PACKAGE_VERSION expat depth file c
  = Ok (r, c') -> configures c c'.
Proof.
  induction depth as [|depth IH]; intros file c r c' H; cbn [parserParseConfigFile] in H; [done|].
  apply bind_ok in H as ([f p] & _ & H).
  destruct f as [f|]; [|by injection H as _ <-].
  change (configures (with_parser p c) c'). by eapply config_loop_configures.
Qed.
End Configuration.

(** ** From the configuration to the threads *)

Section Threads.
Context {E : Env}.

Lemma retrieve_usable w nm en :
  usable_table w -> engineSoundTableRetrieve lookup_fuel (sound_table w) nm = Ok (Some en) -> usable w en.
Proof.
  intros (tbl & Ht & Hu) H. rewrite Ht in H. apply retrieve_in in H. by eapply Forall_forall.
Qed.

Lemma started_table n m x w w' : started n m x w w' -> usable_table w'.
Proof.
  intros S. eexists. split; [apply (st_table _ _ _ _ _ S)|]. rewrite concat_replicate_nil. constructor.
Qed.

Lemma threads_sized w l : threads_ok w l -> sized w.
Proof. intros [(bs & ss & ds & H) _]. destruct (eng_states _ _ _ _ _ H) as (sb & fr & ? & _ & ? & _). by exists sb. Qed.

(** A state that was configured. *)
Lemma threads_configured w w' :
  threads_ok w [] -> usable_table w -> configured w w' -> threads_ok w' [] /\ usable_table w'.
Proof.
  intros Ht Hu [A Hm Htab]. pose proof (threads_sized _ _ Ht) as Hs. specialize (Htab Hs Hu).
  split; [|done]. destruct Ht as [(bs & ss & ds & H) _]. split; [|constructor]. exists bs, ss, ds.
  pose proof (eng_chan _ _ _ _ _ H) as Hc. pose proof (fr_ns _ _ A) as Hns. cbn in Hns. split.
  - assert (mlock w' = mlock w) as Hml by (rewrite (ok_mlock _ _ _ _ Hc); apply Hm, Hc).
    eapply chan_ok_ext; [exact Hc| | | | | |exact Hml| |]; apply A.
  - pose proof (eng_lastc _ _ _ _ _ H) as Hl. pose proof (fr_lastc _ _ A) as E1. cbn in E1. by rewrite E1.
  - pose proof (eng_queue _ _ _ _ _ H) as Hq. pose proof (fr_queue _ _ A) as E1. cbn in E1. by rewrite E1.
  - destruct (eng_states _ _ _ _ _ H) as (sb & fr & Hsb & Hfr & H1 & H2 & H3).
    destruct (fr_states _ _ A sb Hsb) as (sb' & Hsb' & Ls). destruct (fr_fades _ _ A fr Hfr) as (fr' & Hfr' & Lf).
    exists sb', fr'. rewrite Hns. split_and!; [done|done|lia|lia|done].
  - intros nm en. by apply retrieve_usable.
  - pose proof (eng_play _ _ _ _ _ H) as Hp. pose proof (fr_pb _ _ A) as E1. cbn in E1. by rewrite E1.
Qed.

(** *** What the end relies on *)

Lemma started_releasable n m x w w' : 0 <= m -> started n m x w w' -> releasable w'.
Proof.
  intros Hm S. split.
  - eexists. split; [apply (st_sbuffs _ _ _ _ _ S)|]. rewrite (st_m _ _ _ _ _ S), length_replicate. split; [lia|].
    apply Forall_replicate. split; [done|by left].
  - eexists. split; [apply (st_table _ _ _ _ _ S)|]. rewrite concat_replicate_nil. constructor.
  - eexists. apply (st_output _ _ _ _ _ S).
Qed.

Lemma configured_releasable w w' :
  usable_table w' -> configured w w' -> releasable w -> releasable w'.
Proof.
  intros (tbl & Ht & Hu) C [R1 R2 [o Ho]]. split.
  - by apply (cf_full _ _ C).
  - exists tbl. split; [done|]. apply (Forall_impl _ _ _ Hu). apply usable_typed.
  - destruct (ba_output _ _ (fr_base _ _ (cf_apart _ _ C)) o Ho) as (o' & Ho' & _). by exists o'.
Qed.

Lemma server_starts_releasable w w' : server_starts w w' -> releasable w -> releasable w'.
Proof.
  intros [->|(created & r & H & Hr)] R; [done|].
  destruct (start_recording_taped _ _ _ _ H Hr) as (p & t & c & -> & _). destruct R. by split.
Qed.
End Threads.

(** *** The life of the program *)

Section Life.
Context {E : Env} {L : EnvLaws E}.
Context (gethostname : option string) (gethostbyname : string -> option hostent)
        (inet_aton : string -> option Z).
Context (readdir : string -> option (list string)) (contents : string -> option (list Z)).
Context (version : string) (expat : string -> list xml_call * bool).
Context (Hdirs : sound_dirs readdir) (Hthemes : themes_ordered contents expat).

(** From the start of the engine over a configuration to any state of the
    threads. *)
Lemma life_ok n m x w w' q p srv0 tr depth file r c u w2 s :
  started n m x w w' -> 0 < n < 2 ^ 31 -> 0 <= m < 2 ^ 32 -> 0 <= lastc w < n ->
  dyn_buf_cnt w = 0 -> tape_ok (pb w) -> EngineQueue.rep q [] ->
  parserParseConfigFile gethostname gethostbyname inet_aton readdir contents version expat depth file
    {| c_parser := p; c_server := srv0; c_world := w'; c_trans := tr |} = Ok (r, c) ->
  server_starts (c_world c) w2 -> srv_ok (with_srv u (c_server c)) -> bytes (data_buffer u) ->
  rtc (step (fun s => (expat s).1))
    {| s_queue := q; s_world := w2; s_udp := with_srv u (c_server c) |} s ->
  system_ok s /\ sound_table (s_world s) = sound_table (c_world c) /\ releasable (s_world s).
Proof.
  intros S Hn Hm Hl Hd Hp Hr Hc Hw2 Hu Hb Hs.
  pose proof (started_threads n m x w w' S Hn Hm Hl Hd Hp) as Ht.
  apply config_file_configures in Hc; [|done..]. cbn [c_world] in Hc. specialize (Hc (threads_sized _ [] Ht)).
  destruct (threads_configured _ _ Ht (started_table _ _ _ _ _ S) Hc) as [Ht' Hut].
  pose proof (configured_releasable _ _ Hut Hc (started_releasable _ _ _ _ _ (proj1 Hm) S)) as R.
  destruct (server_starts_ok _ _ _ Hw2 Ht') as [Ht2 <-]. apply (server_starts_releasable _ _ Hw2) in R.
  match type of Hs with rtc _ ?s0 _ => assert (system_ok s0) as Hok0 end.
  { exists [], []. by split. }
  destruct (reachable_ok _ _ _ Hok0 Hs) as [Hok Hlater].
  split; [done|]. split; [by rewrite (lat_table _ _ Hlater)|]. exact (reachable_releasable _ _ _ Hok0 Hs R).
Qed.
End Life.

(** ** Properties *)

(** C4: whatever a configuration file says, with the files it imports and
    its themes: if every directory that can be read holds sounds, every file that
    can be read as a well-formed theme has its states in order (thresholds
    within states, and a state before the end of the element for them),
    and the parser returns, be it with an error, then the
    state of the engine and the mixer satisfies their invariant, and every
    entry of the sound table can be played or set, as before. *)
Theorem configuration_keeps_invariant {E : Env} (gethostname : option string)
    (gethostbyname : string -> option hostent) (inet_aton : string -> option Z)
    (readdir : string -> option (list string)) (contents : string -> option (list Z)) (version : string)
    (expat : string -> list xml_call * bool) (depth : nat) (file : string) (c c' : config) (r : option Z) :
  sound_dirs readdir -> themes_ordered contents expat ->
  parserParseConfigFile gethostname gethostbyname inet_aton readdir contents version expat depth file c
    = Ok (r, c') ->
  threads_ok (c_world c) [] -> usable_table (c_world c) ->
  threads_ok (c_world c') [] /\ usable_table (c_world c').
Proof.
  intros Hd Ht H Hok Hu. apply config_file_configures in H; [|done..].
  eapply threads_configured; [exact Hok|exact Hu|]. by apply H, (threads_sized _ []).
Qed.

(** C1: the program from its start to any state that whole rounds of its threads
    reach. The conditions: [mixerInit] can read the output buffer, which it does
    before it allocates it (with the program's own null pointer it cannot,
    [Main.main_never_serves]); every directory that can be read holds sounds; and
    every file that can be read as a well-formed theme has its states in order.
    Nothing is assumed of the configuration's text, of other documents, or of
    what clients send. Then [engineInit] returns; and when the parser of the
    configuration has returned, with or without success, and a recording has
    begun or not, every state is in the invariant that is reached by rounds of
    the three threads in any order, and its sound table is the configuration's. A
    round is a datagram of any bytes, or an alarm, that the UDP server handles; an
    iteration of [engineLoop]; or a chunk of the mixer. Rounds are not
    interleaved with each other: what goes wrong when they are is in
    [EngineQueue] (the queue has no lock around an insertion and a removal) and
    [Handover]. *)
Theorem peepd_runs {E : Env} {L : EnvLaws E} (gethostname : option string)
    (gethostbyname : string -> option hostent) (inet_aton : string -> option Z)
    (readdir : string -> option (list string)) (contents : string -> option (list Z)) (version : string)
    (expat : string -> list xml_call * bool) (n m x : Z) (w : world) (o : list Z) :
  sound_dirs readdir -> themes_ordered contents expat ->
  output w = PLive (x :: o) -> 0 < n < 2 ^ 31 -> 0 <= m < 2 ^ 32 -> 0 <= lastc w < n ->
  dyn_buf_cnt w = 0 -> tape_ok (pb w) ->
  exists w' q, engineInit n m w = Ok (tt, w') /\
    EngineQueue.engineQueueInit true EngineQueue.initial = Ok (1, q) /\
    forall p srv0 tr depth file r c u w2 s,
      parserParseConfigFile gethostname gethostbyname inet_aton readdir contents version expat depth file
        {| c_parser := p; c_server := srv0; c_world := w'; c_trans := tr |} = Ok (r, c) ->
      server_starts (c_world c) w2 ->
      srv_ok (with_srv u (c_server c)) -> bytes (data_buffer u) ->
      rtc (step (fun s => (expat s).1))
        {| s_queue := q; s_world := w2; s_udp := with_srv u (c_server c) |} s ->
      system_ok s /\ sound_table (s_world s) = sound_table (c_world c).
Proof.
  intros Hdirs Hthemes Ho Hn Hm Hl Hd Hp. destruct (engineInit_started n m w x o Ho) as (w' & H & S).
  destruct EngineQueue.engineQueueInit_rep as (q & Hq & Hr). exists w', q.
  split; [done|]. split; [done|]. intros p srv0 tr depth file r c u w2 s Hc Hw2 Hu Hb Hs.
  destruct (life_ok gethostname gethostbyname inet_aton readdir contents version expat Hdirs Hthemes
    n m x w w' q p srv0 tr depth file r c u w2 s S Hn Hm Hl Hd Hp Hr Hc Hw2 Hu Hb Hs) as (H1 & H2 & _).
  exact (conj H1 H2).
Qed.

(** ** Witnesses *)

Definition demo_dir (d : string) : option (list string) := Some ["."; "a"; ".."].

Lemma demo_dirs : sound_dirs demo_dir.
Proof.
  intros d ls [= <-]. exists ["a"]. split; [cbn [app]; apply Permutation_skip, perm_swap|].
  split; [by repeat constructor|cbn; lia].
Qed.

Definition conf_text : string :=
  nl "general" +:+ nl "sound-path /snd" +:+ nl "end general" +:+
  nl "event" +:+ nl "name hit" +:+ nl "path ev" +:+ nl "end event" +:+
  nl "state" +:+ nl "name load" +:+ nl "threshold" +:+ nl "level 0.5" +:+ nl "path st" +:+
  nl "fade 0.1" +:+ nl "end threshold" +:+ nl "end state" +:+ nl "theme demo.xml".

(** A theme with a state of one threshold. *)
Definition demo_theme : list xml_call :=
  XStart "theme" [] :: XStart "sounds" [] :: sound_calls (bytes_of "water", bytes_of "states/water") ++
  XEnd "sounds" :: XStart "states" [] :: XStart "state" [] :: element "name" (bytes_of "flow") ++
  XStart "threshold" [] :: element "level" (bytes_of "0.5") ++ element "fade" (bytes_of "0.25") ++
  element "sound" (bytes_of "water") ++
  [XEnd "threshold"; XEnd "state"; XEnd "states"; XEnd "theme"].

Definition demo_contents (f : string) : option (list Z) :=
  if bool_decide (f = ".//peep.conf") then Some (bytes_of conf_text) else Some [1; 0; 2; 0].

Notation demo_parse w :=
  (parserParseConfigFile None (fun _ => None) (fun _ => None) demo_dir demo_contents "0.5.0"
    (fun _ => (demo_theme, true)) 1 "peep.conf"
    {| c_parser := parserInit blank_parser; c_server := web_server; c_world := w; c_trans := [] |}).

(** A started world, and the configuration parsed in it. *)
Lemma demo_started : exists w, engineInit 12 4 (set_output (PLive [0]) blank_world) = Ok (tt, w) /\
  started 12 4 0 (set_output (PLive [0]) blank_world) w.
Proof. exact (engineInit_started 12 4 (set_output (PLive [0]) blank_world) 0 [] eq_refl). Qed.

Lemma demo_parsed w : engineInit 12 4 (set_output (PLive [0]) blank_world) = Ok (tt, w) ->
  exists c, demo_parse w = Ok (Some PARSER_SUCCESS, c) /\
    (exists en, engineSoundTableRetrieve 1 (sound_table (c_world c)) (Some "flow") = Ok (Some en)) /\
    is_Some (identifier (c_server c)).
Proof.
  intros Hw.
  assert (match engineInit 12 4 (set_output (PLive [0]) blank_world) with
    | Ok (_, w) => match demo_parse w with
        | Ok (r, c) => bool_decide (r = Some PARSER_SUCCESS) &&
            match engineSoundTableRetrieve 1 (sound_table (c_world c)) (Some "flow"), identifier (c_server c) with
            | Ok (Some _), Some _ => true | _, _ => false end
        | _ => false end
    | _ => false end = true) as H by (vm_compute; reflexivity).
  rewrite Hw in H. destruct (demo_parse w) as [[r c]| |]; [|done|done].
  apply andb_true_iff in H as [Hr%bool_decide_eq_true H]. subst r. exists c. split; [done|].
  destruct (engineSoundTableRetrieve 1 _ _) as [[e|]| |]; [|done..].
  split; [by exists e|]. by destruct (identifier (c_server c)).
Qed.

Lemma demo_ordered : themes_ordered demo_contents (fun _ : string => (demo_theme, true)).
Proof. intros file l s cs _ _ [= <-]. reflexivity. Qed.

Lemma configuration_keeps_invariant_witness :
  exists w c, engineInit 12 4 (set_output (PLive [0]) blank_world) = Ok (tt, w) /\
    demo_parse w = Ok (Some PARSER_SUCCESS, c) /\
    threads_ok (E := still_env) (c_world c) [] /\ usable_table (c_world c) /\
    (exists en, engineSoundTableRetrieve 1 (sound_table (c_world c)) (Some "flow") = Ok (Some en)).
Proof.
  destruct demo_started as (w & Hw & S). destruct (demo_parsed w Hw) as (c & Hc & He & _).
  exists w, c. split; [exact Hw|]. split; [exact Hc|].
  assert (threads_ok (E := still_env) w []) as Ht by
    exact (started_threads _ _ _ _ _ S ltac:(lia) ltac:(lia) ltac:(cbn; lia) eq_refl (or_introl eq_refl)).
  pose proof (started_table _ _ _ _ _ S) as Hu. 
  destruct (configuration_keeps_invariant (E := still_env) None (fun _ => None) (fun _ => None) demo_dir
    demo_contents "0.5.0" (fun _ => (demo_theme, true)) 1 "peep.conf"
    {| c_parser := parserInit blank_parser; c_server := web_server; c_world := w; c_trans := [] |}
    c (Some PARSER_SUCCESS) demo_dirs demo_ordered Hc Ht Hu) as [H1 H2].
  split; [exact H1|]. split; [exact H2|exact He].
Defined.

(** From the start over the configuration and the start of a recording to the
    first datagram. *)
Lemma demo_life :
  exists w q c w2 s, engineInit 12 4 (set_output (PLive [0]) blank_world) = Ok (tt, w) /\
    EngineQueue.engineQueueInit true EngineQueue.initial = Ok (1, q) /\
    demo_parse w = Ok (Some PARSER_SUCCESS, c) /\
    start_recording (E := still_env) true (c_world c) = Ok (Some 1, w2) /\
    srv_ok (with_srv fresh_udp (c_server c)) /\
    round (E := still_env) (fun _ => demo_theme) (arrives demo_arrival)
      {| s_queue := q; s_world := w2; s_udp := with_srv fresh_udp (c_server c) |} = Ok s.
Proof.
  destruct demo_started as (w & Hw & _). destruct EngineQueue.engineQueueInit_rep as (q & Hq & Hr).
  destruct (demo_parsed w Hw) as (c & Hc & _ & Hid).
  assert (exists w2, start_recording (E := still_env) true (c_world c) = Ok (Some 1, w2)) as [w2 Hw2] by (by eexists).
  assert (exists s, round (E := still_env) (fun _ => demo_theme) (arrives demo_arrival)
    {| s_queue := q; s_world := w2; s_udp := with_srv fresh_udp (c_server c) |} = Ok s) as [s Hs].
  { unfold arrives. cbn [round]. rewrite event_round by exact demo_sendable. cbn [mbind res_bind enqueue s_queue].
    destruct (EngineQueue.engineEnqueue_rep q [] (a_event demo_arrival) Hr) as (q1 & -> & _). by eexists. }
  exists w, q, c, w2, s. split; [exact Hw|]. split; [exact Hq|]. split; [exact Hc|]. split; [exact Hw2|].
  split; [|exact Hs]. split; [exists []; eapply udp_ok_ext; [exact fresh_udp_ok|reflexivity|reflexivity]|exact Hid].
Qed.

Lemma demo_bytes : bytes (data_buffer fresh_udp).
Proof. apply is_bytes_bytes. reflexivity. Qed.

Lemma demo_step c w2 q s :
  round (E := still_env) (fun _ => demo_theme) (arrives demo_arrival)
    {| s_queue := q; s_world := w2; s_udp := with_srv fresh_udp (c_server c) |} = Ok s ->
  rtc (step (E := still_env) (fun _ => demo_theme)) {| s_queue := q; s_world := w2; s_udp := with_srv fresh_udp (c_server c) |} s.
Proof.
  intros Hs. apply rtc_once. apply (step_round _ _ (arrives demo_arrival)); [|exact Hs].
  apply event_packet_bytes. exact (proj1 demo_sendable).
Qed.

Lemma peepd_runs_witness :
  exists w q c w2 s, engineInit 12 4 (set_output (PLive [0]) blank_world) = Ok (tt, w) /\
    EngineQueue.engineQueueInit true EngineQueue.initial = Ok (1, q) /\
    demo_parse w = Ok (Some PARSER_SUCCESS, c) /\
    start_recording (E := still_env) true (c_world c) = Ok (Some 1, w2) /\
    round (E := still_env) (fun _ => demo_theme) (arrives demo_arrival)
      {| s_queue := q; s_world := w2; s_udp := with_srv fresh_udp (c_server c) |} = Ok s /\
    system_ok (E := still_env) s /\ sound_table (s_world s) = sound_table (c_world c).
Proof.
  destruct demo_life as (w & q & c & w2 & s & Hw & Hq & Hc & Hw2 & Hu & Hs).
  destruct (peepd_runs (L := still_laws) None (fun _ => None) (fun _ => None) demo_dir demo_contents "0.5.0"
    (fun _ => (demo_theme, true)) 12 4 0 (set_output (PLive [0]) blank_world) [] demo_dirs demo_ordered eq_refl
    ltac:(lia) ltac:(lia) ltac:(cbn; lia) eq_refl (or_introl eq_refl)) as (w' & q' & Hw' & Hq' & H).
  rewrite Hw in Hw'. injection Hw' as <-. rewrite Hq in Hq'. injection Hq' as <-.
  exists w, q, c, w2, s. split; [exact Hw|]. split; [exact Hq|]. split; [exact Hc|]. split; [exact Hw2|].
  split; [exact Hs|]. apply (H _ _ _ _ _ _ c fresh_udp w2 s Hc).
  - right. exists true, 1. split; [exact Hw2|lia].
  - exact Hu.
  - exact demo_bytes.
  - exact (demo_step c w2 q s Hs).
Defined.
