(* ===== verification/Main.v ===== *)
(** * Start and end of the program ([main.c])

    [main] and the handler of the signals, over the state of all components.
    Everything the program asks the system for is a field of [host]. *)

From stdpp Require Import base list strings pretty.
From Stdlib Require Import ZArith Lia Ascii String.
From S2P Require Import Prelude Events CString Dbl EngineQueue SoundTable MixerQueue World Playback Replay Mixer Engine MixerFacts Steps Wire Notice Server UdpServer TcpServer Typing Parser ParserState Theme ConfigFile Threads Cmdline Sound Log Peepd.
Import SoundTable.
Local Open Scope Z_scope.
Local Open Scope list_scope.

Definition DBG_DEF : Z := 1.
Definition DBG_GEN : Z := 4.
Definition DEFAULT_MIXER_VOICES : Z := 16.
Definition PERCENT_STATE_SOUNDS : dbl := d_div (d_of_Z 1) (d_of_Z 4).
Definition DEFAULT_PID_PATH : string := "/var/run/peepd.pid".
Definition DEFAULT_RECORD_FILE : string := "/var/log/peepd.log".
Definition DEFAULT_PORT : Z := 2001.

(** The system. *)
Record host : Type := {
  h_asctime : string;                            (* the time in log messages *)
  h_level : Z;                                   (* DEBUG_LEVEL *)
  h_fopen : string -> bool;                      (* log files *)
  h_junk : nat -> list Z;                        (* what malloc finds *)
  h_child : bool;                                (* this process is the child of fork *)
  h_pid_file : bool;                             (* the pid file can be written *)
  h_strerror : string;                           (* strerror (errno) *)
  h_dev : Alsa.device;                           (* the sound card *)
  h_frames : Z -> Z;                             (* snd_pcm_frames_to_bytes *)
  h_default_device : option string;              (* DEFAULT_SND_DEVICE *)
  h_default_config : string;                     (* DEFAULT_CONFIG_PATH *)
  h_version : string;                            (* PACKAGE_VERSION *)
  h_name : option string;                        (* gethostname *)
  h_by_name : string -> option hostent;          (* gethostbyname *)
  h_aton : string -> option Z;                   (* inet_aton *)
  h_readdir : string -> option (list string);    (* directories *)
  h_contents : string -> option (list Z);        (* files *)
  h_expat : string -> list xml_call * bool;      (* expat on a theme *)
  h_depth : nat;                                 (* nesting of imported files *)
  h_recording : option pfile;                    (* the recording *)
  h_record : bool;                               (* the recording can be created *)
  h_sigint : bool;                               (* signal succeeds for SIGINT *)
  h_sighup : bool;                               (* and for SIGHUP *)
  h_threads : bool * bool;                       (* pthread_create succeeds, for mixer and engine *)
  h_net : bool * bool * bool * Z                 (* for serverRealInit *)
}.

Record process : Type := {
  p_log : log_state;
  p_queue : EngineQueue.state;
  p_card : Alsa.state;
  p_world : world;
  p_udp : udp;
  p_parser : parser;
  p_trans : list trans_table;
  p_paths : option (ptr (list string) * ptr string);
     (* the two pointers of the parser, once it has been destroyed *)
  p_pid : bool;      (* the pid file exists *)
  p_threads : threads
}.

Definition with_log l (p : process) : process :=
  {| p_log := l; p_queue := p_queue p; p_card := p_card p; p_world := p_world p; p_udp := p_udp p;
     p_parser := p_parser p; p_trans := p_trans p; p_paths := p_paths p; p_pid := p_pid p;
     p_threads := p_threads p |}.
Definition with_queue q (p : process) : process :=
  {| p_log := p_log p; p_queue := q; p_card := p_card p; p_world := p_world p; p_udp := p_udp p;
     p_parser := p_parser p; p_trans := p_trans p; p_paths := p_paths p; p_pid := p_pid p;
     p_threads := p_threads p |}.
Definition with_card c (p : process) : process :=
  {| p_log := p_log p; p_queue := p_queue p; p_card := c; p_world := p_world p; p_udp := p_udp p;
     p_parser := p_parser p; p_trans := p_trans p; p_paths := p_paths p; p_pid := p_pid p;
     p_threads := p_threads p |}.
Definition with_world w (p : process) : process :=
  {| p_log := p_log p; p_queue := p_queue p; p_card := p_card p; p_world := w; p_udp := p_udp p;
     p_parser := p_parser p; p_trans := p_trans p; p_paths := p_paths p; p_pid := p_pid p;
     p_threads := p_threads p |}.
Definition with_udp u (p : process) : process :=
  {| p_log := p_log p; p_queue := p_queue p; p_card := p_card p; p_world := p_world p; p_udp := u;
     p_parser := p_parser p; p_trans := p_trans p; p_paths := p_paths p; p_pid := p_pid p;
     p_threads := p_threads p |}.
Definition with_conf q t d (p : process) : process :=
  {| p_log := p_log p; p_queue := p_queue p; p_card := p_card p; p_world := p_world p;
     p_udp := p_udp p; p_parser := q; p_trans := t; p_paths := d; p_pid := p_pid p;
     p_threads := p_threads p |}.
Definition with_pid b (p : process) : process :=
  {| p_log := p_log p; p_queue := p_queue p; p_card := p_card p; p_world := p_world p;
     p_udp := p_udp p; p_parser := p_parser p; p_trans := p_trans p; p_paths := p_paths p; p_pid := b;
     p_threads := p_threads p |}.
Definition with_threads t (p : process) : process :=
  {| p_log := p_log p; p_queue := p_queue p; p_card := p_card p; p_world := p_world p;
     p_udp := p_udp p; p_parser := p_parser p; p_trans := p_trans p; p_paths := p_paths p;
     p_pid := p_pid p; p_threads := t |}.

(** The static variables before [main] runs. *)
Definition blank_process : process :=
  {| p_log := PNull; p_queue := EngineQueue.initial; p_card := Alsa.blank; p_world := blank_world;
     p_udp := {| srv := {| identifier := None; port := 0; broadcast_list := []; sent := [] |};
                 hlhead := None; leases := empty_store; body := BUninit; data_buffer := [] |};
     p_parser := blank_parser; p_trans := []; p_paths := None; p_pid := false; p_threads := one_thread |}.

(** How [main] goes on: with the server, with a playback, or not at all. *)
Inductive status : Type := Serving (p : process) | Playing (p : process) | Ended (n : Z).

#[export] Instance playback_mode_eq_dec : EqDecision playback_mode_t.
Proof. solve_decision. Defined.

Section Main.
Context {E : Env} (h : host).

(** A log message with the text [s]. *)
Definition say (level : Z) (s : string) (p : process) : res process :=
  l ← logMsg (h_asctime h) (h_level h) level s (p_log p);
  mret (with_log l p).

Fixpoint say_all (l : list (Z * string)) (p : process) : res process :=
  match l with [] => mret p | (level, s) :: l => p ← say level s p; say_all l p end.

(** A step of a component that works on the world. *)
Definition in_world {A} (m : M world A) (p : process) : res (A * process) :=
  '(a, w) ← m (p_world p); mret (a, with_world w p).

(** ** The end *)

(** The parts of [handleSignal], in their order. *)
Definition stop_workers (p : process) : res process :=
  p ← say DBG_DEF ("Performing shutdown..." +:+ nl_char) p;
  t ← stop_threads (p_threads p);
  mret (with_threads t p).

Definition stop_engine (p : process) : res process :=
  p ← say DBG_DEF ("Cleaning up engine..." +:+ nl_char) p;
  '(_, p) ← in_world engineShutdown p;
  '(_, q) ← EngineQueue.engineQueueDestroy true (p_queue p);
  mret (with_queue q p).

Definition stop_mixer (p : process) : res process :=
  p ← say DBG_DEF ("Cleaning up mixer..." +:+ nl_char) p;
  '(_, p) ← in_world mixerShutdown p;
  card ← Alsa.soundClose (p_card p);
  mret (with_card card p).

Definition stop_server (p : process) : res process :=
  p ← say DBG_DEF ("Cleaning up server..." +:+ nl_char) p;
  u ← serverRealShutdown (p_udp p);
  mret (with_udp (with_srv u (serverShutdown (srv u))) p).

Definition stop_playback (p : process) : res process :=
  '(on, p) ← in_world (playbackModeOn None) p;
  if on =? 0 then mret p
  else
    p ← say DBG_DEF ("Closing playback file..." +:+ nl_char) p;
    '(_, p) ← in_world playbackFileShutdown p;
    mret p.

Definition stop_log (args : args_info) (p : process) : res process :=
  p ← say DBG_DEF ("Exiting..." +:+ nl_char) p;
  l ← logClose (p_log p);
  let p := with_log l p in
  mret (if pidfile_given args then with_pid false p else p).

(** [None] when the process ends. *)
Definition handleSignal (sig : Z) (args : args_info) (p : process) : res (option process) :=
  p ← stop_workers p;
  p ← stop_engine p;
  p ← stop_mixer p;
  p ← stop_server p;
  p ← stop_playback p;
  p ← stop_log args p;
  mret (if sig =? SIGHUP then Some p else None).

(** [shutDown]: the handler for [SIGINT] ends the process with status 0. *)
Definition shutDown (args : args_info) (p : process) : res status :=
  r ← handleSignal SIGINT args p;
  mret (match r with Some p => Serving p | None => Ended 0 end).

(** ** The start *)

(** How the C library prints a null string. *)
Definition text_arg (s : option string) : string := match s with Some s => s | None => "(null)" end.

(** The first part of [main], up to the pid file; the parent of the child
    ends. A message that the C library could not print (a path with no string)
    is printed as by [text_arg]. *)
Definition daemonize (args : args_info) (p : process) : res (option process) :=
  if nodaemon_given args then mret (Some p)
  else if negb (h_child h) then mret None
  else if h_pid_file h then mret (Some (with_pid true p))
  else
    let path := if pidfile_given args then text_arg (pidfile_arg args) else DEFAULT_PID_PATH in
    p ← say DBG_DEF ("Couldn't write pid to file " +:+ path +:+ ": " +:+ h_strerror h +:+ "." +:+ nl_char) p;
    p ← say DBG_DEF ("Continuing anyway..." +:+ nl_char) p;
    mret (Some p).

Definition greeting : list (Z * string) :=
  [(DBG_DEF, nl_char);
   (DBG_DEF, "========================================================" +:+ nl_char);
   (DBG_DEF, "Welcome to Peep (The Network Auralizer)." +:+ nl_char);
   (DBG_DEF, "Copyright (C) 2000 Michael Gilfix." +:+ nl_char);
   (DBG_DEF, "v" +:+ h_version h +:+ nl_char);
   (DBG_DEF, "=========================================================" +:+ nl_char);
   (DBG_DEF, nl_char)].

Definition printGreeting (p : process) : res process := say_all greeting p.

Definition DBG_LOWEST : Z := 5.
Definition debug_name (level : Z) : string :=
  if level =? 29 then "LOWER" else if level =? 16477 then "MEDIUM"
  else if level =? 17789 then "HIGHER" else if level =? 21885 then "HIGHEST"
  else if level =? -2147461763 then "HIGHEST WITH ASSERTIONS!" else "UNKNOWN. WEIRD.".

Definition debug_mode (p : process) : res process :=
  if Z.land (h_level h) (Z.lnot DBG_LOWEST) =? 0 then mret p
  else say DBG_GEN ("DEBUG_MODE ON! DEBUG SEVERITY: " +:+ debug_name (h_level h) +:+ nl_char) p.

(** The numbers of channels and of states. The option for the number of voices
    is not used. *)
Definition count_sbuffs : res Z := d_int (d_mul (d_of_Z DEFAULT_MIXER_VOICES) PERCENT_STATE_SOUNDS).

(** [engineInit] with the opening of the sound card at the start of
    [mixerInit]; [false] when [shutDown] is called there. *)
Definition start_engine (args : args_info) (p : process) : res (bool * process) :=
  no_sbuffs ← count_sbuffs;
  let no_ebuffs := DEFAULT_MIXER_VOICES - no_sbuffs in
  let dev := if snd_device_given args then snd_device_arg args else h_default_device h in
  card ← Alsa.soundInit (h_dev h) dev (p_card p);
  match card with
  | None => mret (false, p)
  | Some card =>
      let p := with_card (Alsa.soundSetFormat (h_dev h) (h_frames h) (h_junk h 0%nat) STEREO card).2 p in
      '(_, p) ← in_world (engineInit no_ebuffs no_sbuffs) p;
      '(_, q) ← EngineQueue.engineQueueInit true (p_queue p);
      mret (true, with_queue q p)
  end.

(** The configuration file; the first component is negative when it fails,
    [None] when [shutDown] is called while it is read. *)
Definition start_config (args : args_info) (p : process) : res (option Z * process) :=
  match (if config_given args then config_arg args else Some (h_default_config h)) with
  | None => Fault NullDeref
  | Some file =>
      let c := {| c_parser := parserInit (p_parser p); c_server := srv (p_udp p);
                  c_world := p_world p; c_trans := p_trans p |} in
      '(r, c) ← parserParseConfigFile (h_name h) (h_by_name h) (h_aton h) (h_readdir h) (h_contents h)
                  (h_version h) (h_expat h) (h_depth h) file c;
      let d := match r with Some _ => Some (parserDestroy (c_parser c)) | None => None end in
      mret (r, with_udp (with_srv (p_udp p) (c_server c))
                 (with_world (c_world c) (with_conf (c_parser c) (c_trans c) d p)))
  end.

(** The recording; [false] when [shutDown] is called. *)
Definition start_playback (args : args_info) (p : process) : res (bool * process) :=
  if playback_mode_given args || record_mode_given args then
    '(_, p) ← in_world (playbackModeOn (Some 1)) p;
    let m := if record_mode_given args then RECORD_MODE else PLAY_MODE in
    '(_, p) ← in_world (playbackSetMode (Some m)) p;
    p ← say DBG_DEF ("Initializing playback file..." +:+ nl_char) p;
    '(r, p) ← in_world (playbackFileInit (h_recording h) (h_record h)) p;
    let ok := match r with Some r => negb (r =? 0) | None => false end in
    p ← (if (ok : bool) then mret p
         else say DBG_DEF ("Uh Oh! Couldn't successfully initiliaze playback file! Giving up." +:+ nl_char) p);
    mret (ok, p)
  else mret (true, p).

(** The records that are played; this part does not return while [playbackGo]
    does not. *)
Definition start_replay (mktime_of : string -> Z) (eintr : nat -> bool) (n : nat) (args : args_info)
    (p : process) : res (bool * list act * process) :=
  let start_t := if start_time_given args then start_time_arg args else None in
  let end_t := if end_time_given args then end_time_arg args else None in
  '(ended, s) ← playbackGo mktime_of eintr n start_t end_t {| r_world := p_world p; r_acts := [] |};
  mret (ended, r_acts s, with_world (r_world s) p).

(** [false] when [shutDown] is called. *)
Definition setSigHandlers (p : process) : res (bool * process) :=
  if negb (h_sigint h) then
    p ← say DBG_GEN ("Error registering SIGINT handler: " +:+ h_strerror h +:+ nl_char) p;
    mret (false, p)
  else if negb (h_sighup h) then
    p ← say DBG_GEN ("Error registering SIGHUP handler: " +:+ h_strerror h +:+ nl_char) p;
    mret (false, p)
  else mret (true, p).

(** The server with its signals; [false] when [shutDown] is called. *)
Definition start_server (args : args_info) (p : process) : res (bool * process) :=
  p ← say DBG_DEF ("Initializing server..." +:+ nl_char) p;
  '(ok, p) ← setSigHandlers p;
  if negb ok then mret (false, p) else
  '(on, p) ← in_world (playbackModeOn None) p;
  '(m, p) ← in_world (playbackSetMode None) p;
  let file := if record_file_given args then text_arg (record_file_arg args) else DEFAULT_RECORD_FILE in
  p ← (if negb (on =? 0) && bool_decide (m = RECORD_MODE)
       then say DBG_DEF ("Record mode on - Recording events to " +:+ file +:+ "." +:+ nl_char) p
       else mret p);
  let port := if port_given args then port_arg args else DEFAULT_PORT in
  let p := with_udp (with_srv (p_udp p) (serverSetPort port (srv (p_udp p)))) p in
  let '(named, resolved, ok, fd) := h_net h in
  '(r, u) ← serverRealInit named resolved ok fd (p_udp p);
  let p := with_udp u p in
  if r <? 0 then
    p ← say DBG_GEN ("Uh Oh! Error initializing server!" +:+ nl_char) p;
    mret (false, p)
  else
    p ← say DBG_DEF ("Starting server..." +:+ nl_char) p;
    mret (true, with_udp (with_data_buffer (p_udp p) (malloc (h_junk h) (Z.to_nat MAX_UDP_PACKET_SIZE))) p).

(** What follows the configuration. *)
Definition main_threads (args : args_info) (p : process) : res status :=
  p ← say_all [(DBG_DEF, "Finished configuration..." +:+ nl_char);
               (DBG_DEF, "Starting mixer thread..." +:+ nl_char)] p;
  t ← start_mixer_thread (h_threads h).1 (p_threads p);
  p ← say DBG_DEF ("Starting engine thread..." +:+ nl_char) (with_threads t p);
  t ← start_engine_thread (h_threads h).2 (p_threads p);
  let p := with_threads t p in
  '(ok, p) ← start_playback args p;
  if negb ok then shutDown args p else
  '(on, p) ← in_world (playbackModeOn None) p;
  '(m, p) ← in_world (playbackSetMode None) p;
  if negb (on =? 0) && bool_decide (m = PLAY_MODE) then
    p ← say DBG_DEF ("Entering playback mode..." +:+ nl_char) p;
    mret (Playing p)
  else
    '(ok, p) ← start_server args p;
    if (ok : bool) then mret (Serving p) else shutDown args p.

Definition main (argv : list string) : res status :=
  o ← parseCmdlineOpts argv;
  match o with
  | Exit n => mret (Ended n)
  | Parsed args =>
      '(_, log) ← logInit (h_fopen h) (h_junk h) (if logfile_given args then logfile_arg args else None);
      p ← daemonize args (with_log log blank_process);
      match p with
      | None => mret (Ended 0)
      | Some p =>
          p ← printGreeting p;
          p ← debug_mode p;
          let voices := if voices_given args then voices_arg args else DEFAULT_MIXER_VOICES in
          p ← say_all [(DBG_DEF, "Mixing voices: " +:+ pretty voices +:+ nl_char);
                       (DBG_DEF, "Initializing the sound engine and mixer..." +:+ nl_char);
                       (DBG_DEF, "Using dynamic volume mixing..." +:+ nl_char)] p;
          '(ok, p) ← start_engine args p;
          if negb ok then shutDown args p else
          p ← say DBG_DEF ("Parsing configuration..." +:+ nl_char) p;
          '(r, p) ← start_config args p;
          match r with
          | None => shutDown args p
          | Some r =>
              if r <? 0 then
                p ← say DBG_GEN ("Error parsing peep configuration file..." +:+ nl_char) p;
                shutDown args p
              else main_threads args p
          end
      end
  end.
End Main.

(** ** Facts *)

Section Facts.
Context {E : Env} (h : host).

(** A log message changes the log only. *)
Lemma say_world level s p p' :
  say h level s p = Ok p' -> p_world p' = p_world p /\ p_queue p' = p_queue p /\ p_udp p' = p_udp p.
Proof. intros H. unfold say in H. by apply bind_ok in H as (l & _ & [= <-]). Qed.

Lemma say_freed level s p :
  p_log p = PFreed -> Z.land level (h_level h) <> 0 -> no_percent (h_asctime h) = true ->
  no_percent s = true -> say h level s p = Fault UseAfterFree.
Proof.
  intros Hl Hlev Ha Hs. unfold say, logMsg. destruct (Z.eqb_spec (Z.land level (h_level h)) 0); [done|].
  cbv zeta. rewrite format_plain; [by rewrite Hl|].
  rewrite !no_percent_app, !no_percent_take by done. done.
Qed.

Lemma say_all_world l : forall p p',
  say_all h l p = Ok p' -> p_world p' = p_world p /\ p_queue p' = p_queue p /\ p_udp p' = p_udp p.
Proof.
  induction l as [|[level s] l IH]; intros p p' H; cbn [say_all] in H; [by injection H as <-|].
  apply bind_ok in H as (q & (H1 & H2 & H3)%say_world & H). apply IH in H as (H4 & H5 & H6).
  split_and!; congruence.
Qed.

Lemma in_world_inv {A} (m : M world A) p a p' :
  in_world m p = Ok (a, p') -> exists w, m (p_world p) = Ok (a, w) /\ p' = with_world w p.
Proof.
  intros H. unfold in_world in H. apply bind_ok in H as ([b w] & Hm & [= <- <-]). by exists w.
Qed.

Lemma handleSignal_result sig args p r :
  handleSignal h sig args p = Ok r -> (sig = SIGHUP <-> exists p', r = Some p').
Proof.
  intros H. unfold handleSignal in H. run_steps H; subst r;
  destruct (Z.eqb_spec sig SIGHUP); split; intros Hr; try done; [by eexists|by destruct Hr].
Qed.

Lemma shutDown_ends args p s : shutDown h args p = Ok s -> s = Ended 0.
Proof.
  intros H. unfold shutDown in H. apply bind_ok in H as (r & Hr & [= <-]).
  apply handleSignal_result in Hr. destruct r as [p'|]; [|done].
  pose proof (proj2 Hr (ex_intro _ p' eq_refl)). done.
Qed.

Lemma daemonize_world args p p' :
  daemonize h args p = Ok (Some p') -> p_world p' = p_world p.
Proof.
  intros H. unfold daemonize in H. destruct (nodaemon_given args); [by injection H as <-|].
  destruct (h_child h); [|done]. destruct (h_pid_file h); [by injection H as <-|]. cbn [negb] in H.
  apply bind_ok in H as (p1 & (H1 & _)%say_world & H). apply bind_ok in H as (p2 & (H2 & _)%say_world & H).
  injection H as <-. congruence.
Qed.

Lemma start_engine_faults args p p' :
  output (p_world p) = PNull -> start_engine h args p <> Ok (true, p').
Proof.
  intros Ho H. unfold start_engine in H. apply bind_ok in H as (n & _ & H). cbv zeta in H.
  apply bind_ok in H as ([card|] & _ & H); [|done].
  apply bind_ok in H as ([[] p2] & Hi & _). apply in_world_inv in Hi as (w & Hi & _).
  by rewrite engineInit_null_output in Hi.
Qed.

(** What the parts of the handler leave of the engine queue and of the log. *)
Lemma stop_workers_queue p p' : stop_workers h p = Ok p' -> p_queue p' = p_queue p /\ p_world p' = p_world p.
Proof.
  intros H. unfold stop_workers in H. apply bind_ok in H as (q & (W & Q & _)%say_world & H).
  apply bind_ok in H as (t & _ & [= <-]). done.
Qed.

Lemma stop_engine_queue p p' l :
  EngineQueue.rep (p_queue p) l -> stop_engine h p = Ok p' ->
  forall d, EngineQueue.engineEnqueue d (p_queue p') = Fault UseAfterFree.
Proof.
  intros Hq H. unfold stop_engine in H. apply bind_ok in H as (p1 & (_ & Q1 & _)%say_world & H).
  apply bind_ok in H as ([x p2] & (w & _ & ->)%in_world_inv & H). apply bind_ok in H as ([[] q] & Hd & [= <-]).
  cbn [p_queue with_world] in Hd. rewrite Q1 in Hd.
  destruct (EngineQueue.engineQueueDestroy_dangling true _ _ Hq) as (q' & Hd' & Hdang).
  rewrite Hd in Hd'. by injection Hd' as <-.
Qed.

Lemma stop_mixer_queue p p' : stop_mixer h p = Ok p' -> p_queue p' = p_queue p.
Proof.
  intros H. unfold stop_mixer in H. apply bind_ok in H as (p1 & (_ & Q1 & _)%say_world & H).
  apply bind_ok in H as ([x p2] & (w & _ & ->)%in_world_inv & H). by apply bind_ok in H as (card & _ & [= <-]).
Qed.

Lemma stop_server_queue p p' : stop_server h p = Ok p' -> p_queue p' = p_queue p.
Proof.
  intros H. unfold stop_server in H. apply bind_ok in H as (p1 & (_ & Q1 & _)%say_world & H).
  by apply bind_ok in H as (u & _ & [= <-]).
Qed.

Lemma stop_playback_queue p p' : stop_playback h p = Ok p' -> p_queue p' = p_queue p.
Proof.
  intros H. unfold stop_playback in H. apply bind_ok in H as ([on p1] & (w & _ & ->)%in_world_inv & H).
  destruct (on =? 0); [by injection H as <-|]. apply bind_ok in H as (p2 & (_ & Q2 & _)%say_world & H).
  by apply bind_ok in H as ([x p3] & (w3 & _ & ->)%in_world_inv & [= <-]).
Qed.

Lemma stop_log_leaves args p p' : stop_log h args p = Ok p' -> p_queue p' = p_queue p /\ p_log p' = PFreed.
Proof.
  intros H. unfold stop_log in H. apply bind_ok in H as (p1 & (_ & Q1 & _)%say_world & H).
  apply bind_ok in H as (lg & Hl & [= <-]).
  assert (lg = PFreed) as ->
    by (unfold logClose in Hl; destruct (p_log p1); [discriminate Hl|by injection Hl as <-|discriminate Hl]).
  by destruct (pidfile_given args).
Qed.

(** What the end of the program leaves behind. *)
Lemma handleSignal_leaves args p p' l :
  EngineQueue.rep (p_queue p) l -> handleSignal h SIGHUP args p = Ok (Some p') ->
  p_log p' = PFreed /\ forall d, EngineQueue.engineEnqueue d (p_queue p') = Fault UseAfterFree.
Proof.
  intros Hq H. unfold handleSignal in H.
  apply bind_ok in H as (p1 & [Q1 _]%stop_workers_queue & H). rewrite <- Q1 in Hq.
  apply bind_ok in H as (p2 & Hd & H). pose proof (stop_engine_queue _ _ _ Hq Hd) as Hdang.
  apply bind_ok in H as (p3 & Q3%stop_mixer_queue & H). apply bind_ok in H as (p4 & Q4%stop_server_queue & H).
  apply bind_ok in H as (p5 & Q5%stop_playback_queue & H).
  apply bind_ok in H as (p6 & [Q6 L6]%stop_log_leaves & H). change (SIGHUP =? SIGHUP) with true in H.
  injection H as <-. split; [exact L6|]. by rewrite Q6, Q5, Q4, Q3.
Qed.
End Facts.

(** ** Properties *)

Section Properties.
Context {E : Env} (h : host).

(** C29: whatever the arguments and the system, [main] never gets to the
    server nor to a playback: if it returns at all, the process has ended. *)
Theorem main_never_serves (argv : list string) (s : status) :
  main h argv = Ok s -> exists n, s = Ended n.
Proof.
  intros H. unfold main in H. apply bind_ok in H as (o & _ & H).
  destruct o as [args|n]; [|injection H as <-; by exists n].
  apply bind_ok in H as ([r log] & _ & H). apply bind_ok in H as (o & Hd & H).
  destruct o as [p|]; [|injection H as <-; by exists 0].
  apply daemonize_world in Hd. apply bind_ok in H as (p1 & (H1 & _)%say_all_world & H).
  apply bind_ok in H as (p2 & H2 & H).
  assert (p_world p2 = p_world p1) as H2'.
  { unfold debug_mode in H2. destruct (Z.land _ _ =? 0); [by injection H2 as <-|]. by apply say_world in H2 as (-> & _). }
  apply bind_ok in H as (p3 & (H3 & _)%say_all_world & H). apply bind_ok in H as ([ok p4] & Hs & H).
  destruct ok; [|exists 0; by apply shutDown_ends in H].
  exfalso. eapply start_engine_faults; [|exact Hs]. rewrite H3, H2', H1, Hd. done.
Qed.

(** C32: after the handler of a hangup has returned, the program goes on with
    what it has destroyed: the next event that a client sends is put into a
    queue whose semaphore was freed, and another signal writes to the log that
    was closed. *)
Theorem hangup_leaves_dangling (args : args_info) (p p' : process) (l : list EVENT) :
  EngineQueue.rep (p_queue p) l -> handleSignal h SIGHUP args p = Ok (Some p') ->
  (forall expat a, sendable (a_event a) ->
     round expat (arrives a) {| s_queue := p_queue p'; s_world := p_world p'; s_udp := p_udp p' |}
     = Fault UseAfterFree) /\
  (Z.land DBG_DEF (h_level h) <> 0 -> no_percent (h_asctime h) = true ->
     forall sig, handleSignal h sig args p' = Fault UseAfterFree).
Proof.
  intros Hq H. destruct (handleSignal_leaves h args p p' l Hq H) as [Hl Hd]. split.
  - intros expat a Ha. unfold arrives. cbn [round s_udp s_queue]. rewrite event_round by done.
    cbn [mbind res_bind enqueue]. by rewrite Hd.
  - intros Hlev Ha sig. unfold handleSignal, stop_workers. by rewrite say_freed.
Qed.
End Properties.

(** The option of a start time without that of an end time: the playback never
    gets through its first iteration. *)
Lemma start_replay_start_only {E : Env} mktime_of eintr n args t p x :
  start_time_given args = true -> start_time_arg args = Some t -> end_time_given args = false ->
  start_replay mktime_of eintr (S n) args p <> Ok x.
Proof.
  intros Hs Ht He H. unfold start_replay in H. rewrite Hs, Ht, He in H.
  apply bind_ok in H as ([b s] & H & _). by apply playback_start_only in H.
Qed.

(** ** Witnesses *)

(** A host on which nothing fails. *)
Definition demo_host : host :=
  {| h_asctime := "Fri" +:+ nl_char; h_level := 5; h_fopen := fun _ => true; h_junk := fun _ => [];
     h_child := true; h_pid_file := true; h_strerror := "Success";
     h_dev := {| Alsa.open_err := 0; Alsa.any_err := 0; Alsa.access_err := 0; Alsa.format_err := 0;
                 Alsa.channels_err := 0; Alsa.rate_err := 0; Alsa.params_err := 0;
                 Alsa.buffer_size := 4; Alsa.physical_width := 16 |};
     h_frames := fun n => 4 * n; h_default_device := None; h_default_config := "/etc/peep.conf";
     h_version := "0.5.0"; h_name := None; h_by_name := fun _ => None; h_aton := fun _ => None;
     h_readdir := fun _ => None; h_contents := fun _ => None; h_expat := fun _ => ([], true);
     h_depth := 1; h_recording := None; h_record := true; h_sigint := true; h_sighup := true;
     h_threads := (true, true);
     h_net := (true, true, true, 3) |}.

Definition demo_process : process :=
  {| p_log := PLive ""; p_queue := demo_queue true; p_card := Alsa.blank; p_world := demo_mix;
     p_udp := fresh_udp; p_parser := blank_parser; p_trans := []; p_paths := None; p_pid := false;
     p_threads := both_started |}.

Lemma main_never_serves_witness :
  main (E := still_env) demo_host ["--help"] = Ok (Ended 0) /\ (exists n, Ended 0 = Ended n) /\
  main (E := still_env) demo_host ["--nodaemon"] = Fault NullDeref.
Proof.
  assert (main (E := still_env) demo_host ["--help"] = Ok (Ended 0)) as H by (vm_compute; reflexivity).
  split; [exact H|]. split; [exact (main_never_serves (E := still_env) demo_host ["--help"] _ H)|].
  vm_compute. reflexivity.
Defined.

Lemma hangup_leaves_dangling_witness :
  exists p', handleSignal (E := still_env) demo_host SIGHUP no_args demo_process = Ok (Some p') /\
    round (E := still_env) no_expat (arrives demo_arrival)
      {| s_queue := p_queue p'; s_world := p_world p'; s_udp := p_udp p' |} = Fault UseAfterFree /\
    handleSignal (E := still_env) demo_host SIGINT no_args p' = Fault UseAfterFree.
Proof.
  assert (match handleSignal (E := still_env) demo_host SIGHUP no_args demo_process with
          | Ok (Some _) => true | _ => false end = true) as H by (vm_compute; reflexivity).
  destruct (handleSignal demo_host SIGHUP no_args demo_process) as [[p'|]| |] eqn:Hs; try discriminate H.
  exists p'. split; [reflexivity|].
  destruct (hangup_leaves_dangling (E := still_env) demo_host no_args demo_process p' [demo_ring]
    (demo_queue_rep true) Hs) as [H1 H2].
  split; [exact (H1 no_expat demo_arrival demo_sendable)|]. apply H2; [discriminate|reflexivity].
Defined.
