(* ===== verification/Shutdown.v ===== *)
(** * The end of the program ([handleSignal] of [main.c])

    The handler of the signals from a state that the program can be in while it
    serves. On its own it frees everything once and ends the process. But it
    only asks the engine and the mixer thread to end: one that is in its work
    goes on, with what the handler has freed. *)

From stdpp Require Import base gmap list sets strings relations.
From Stdlib Require Import ZArith Lia Ascii String.
From S2P Require Import Prelude Events CString Dbl EngineQueue SoundTable MixerQueue World Playback Replay Mixer Engine MixerFacts Steps Release Wire Notice Server UdpServer TcpServer Typing Parser ParserState Theme ConfigFile Threads Cmdline Sound Log Peepd Session Loading Main.
Import SoundTable.
Local Open Scope Z_scope.
Local Open Scope list_scope.

(** ** The parts of the handler return *)

(** The list of the leases. *)
Lemma free_leases_ok fuel : forall s h ps cs,
  UdpServer.chain s h ps cs -> NoDup ps -> (List.length ps < fuel)%nat -> exists s', free_leases fuel s h = Ok s'.
Proof.
  induction fuel as [|fuel IH]; intros s h ps cs Hc Hd Hf; [lia|]. cbn [free_leases].
  destruct ps as [|p ps], cs as [|c cs]; try done; [rewrite Hc; by exists s|].
  destruct Hc as (-> & n & Hn & _ & Hc). apply NoDup_cons in Hd as [Hp Hd].
  rewrite (s_load_Some _ _ _ Hn). cbn [mbind res_bind]. rewrite (s_free_Some _ _ _ Hn). cbn [mbind res_bind].
  apply (IH _ _ ps cs); [|done|cbn in Hf; lia]. eapply UdpServer.chain_frame; [exact Hc|]. intros q Hq. cbn.
  rewrite lookup_delete_ne; [done|]. by intros ->.
Qed.

Lemma serverRealShutdown_ok u cs : udp_ok u cs -> exists s, serverRealShutdown u = Ok (with_leases u (hlhead u) s).
Proof.
  intros [(ps & Hc & Hd & _) _]. unfold serverRealShutdown.
  destruct (free_leases_ok (walk_fuel u) _ _ _ _ Hc Hd (walk_fuel_enough _ _ _ Hc Hd)) as [s ->].
  by exists s.
Qed.

Lemma playbackFileShutdown_ok {E : Env} w :
  mode (pb w) = PLAY_MODE \/ on_tape (pb w) ->
  exists p t c, playbackFileShutdown w = Ok (tt, taped p t c w).
Proof.
  intros H. unfold playbackFileShutdown. destruct (mode (pb w)) eqn:Em.
  - mstep (eq_refl : gets (fun w => mode (pb w)) w = Ok (mode (pb w), w)). rewrite Em.
    exists (pb w), (time_calls w), (fwrite_calls w). by rewrite taped_id.
  - destruct H as [H|(f & k & Hf & Hk)]; [done|].
    mstep (eq_refl : gets (fun w => mode (pb w)) w = Ok (mode (pb w), w)). rewrite Em.
    unfold gettimeofday, ftell, fseek, file, fwrite_ok, put_file, gets, modify, mbind, M_bind. cbn.
    destruct (loopback_flag (pb w) =? 0); cbn; rewrite ?Hf; cbn; rewrite ?Hf; cbn;
      destruct (fwrite_at (fwrite_calls w)); by eexists _, _, _.
Qed.

(** ** A process in service *)

Record in_service {E : Env} (h : host) (p : process) (l : list EVENT) (ws : list ENGINE_EVENT) : Prop := {
  is_system : system_at {| s_queue := p_queue p; s_world := p_world p; s_udp := p_udp p |} l ws;
  is_release : releasable (p_world p);
  is_threads : threads_inv (p_threads p);
  is_log : exists t, p_log p = PLive t;
  is_card : Alsa.audio_buffer (p_card p) <> PFreed /\ Alsa.hwparams (p_card p) <> PFreed;
  is_time : no_percent (h_asctime h) = true
}.

Section Parts.
Context {E : Env} {L : EnvLaws E} (h : host) (Ha : no_percent (h_asctime h) = true).

Lemma say_live level s p t :
  p_log p = PLive t -> no_percent s = true -> exists t', say h level s p = Ok (with_log (PLive t') p).
Proof.
  intros Hl Hs. unfold say, logMsg. destruct (_ =? 0); [rewrite Hl; by exists t|]. cbv zeta.
  rewrite format_plain; [rewrite Hl; by eexists|]. by rewrite !no_percent_app, !no_percent_take.
Qed.

Lemma stop_workers_ok p t :
  p_log p = PLive t -> threads_inv (p_threads p) ->
  exists t' s, stop_workers h p = Ok (with_threads s (with_log (PLive t') p)) /\ stop_threads (p_threads p) = Ok s.
Proof.
  intros Hl Ht. destruct (say_live DBG_DEF ("Performing shutdown..." +:+ nl_char) p t Hl eq_refl) as [t' H1].
  destruct (stop_threads_eq _ Ht) as (e & m & s & _ & _ & Hs & _). exists t', s.
  split; [|done]. unfold stop_workers. rewrite H1. cbn [mbind res_bind p_threads with_log]. by rewrite Hs.
Qed.

Lemma stop_engine_ok p t l ws :
  p_log p = PLive t -> EngineQueue.rep (p_queue p) l -> threads_ok (p_world p) ws -> owning_table (p_world p) ->
  exists t' q eq, stop_engine h p = Ok (with_queue eq (with_world
    (set_mqueue q (set_sound_table PNull (set_sched PFreed (p_world p)))) (with_log (PLive t') p))) /\
    EngineQueue.semaphore eq = PFreed /\ MixerQueue.heap q = PFreed.
Proof.
  intros Hl [ps Hq] Ht (tbl & Htb & Hty).
  destruct (say_live DBG_DEF ("Cleaning up engine..." +:+ nl_char) p t Hl eq_refl) as [t' H1].
  destruct (engineShutdown_frees _ _ _ Ht Htb Hty) as (q & Hs & Hh).
  unfold stop_engine. rewrite H1. cbn [mbind res_bind]. unfold in_world. cbn [p_world with_log]. rewrite Hs.
  cbn [mbind res_bind mret res_ret]. unfold EngineQueue.engineQueueDestroy. cbn [p_queue with_world with_log].
  rewrite (EngineQueue.rep_sem _ _ _ Hq). cbn. eexists t', q, _. split; [reflexivity|done].
Qed.

Lemma stop_mixer_ok p t bs ds o sb fr :
  p_log p = PLive t -> mlock (p_world p) = false -> ebuffs (p_world p) = PLive bs ->
  dyn_mul (p_world p) = PLive ds -> output (p_world p) = PLive o -> lin_fade (p_world p) = PLive fr ->
  sbuffs (p_world p) = PLive sb -> no_sbuffs (p_world p) <= Z.of_nat (List.length sb) -> Forall full_state sb ->
  Alsa.audio_buffer (p_card p) <> PFreed -> Alsa.hwparams (p_card p) <> PFreed ->
  exists t' c, stop_mixer h p = Ok (with_card c (with_world
    (set_mlock false (set_lin_fade PFreed (set_output PFreed (set_dyn_mul PFreed (set_sbuffs PFreed
      (set_ebuffs PFreed (set_mlock true (p_world p)))))))) (with_log (PLive t') p))).
Proof.
  intros Hl H1 H2 H3 H4 H5 H6 H7 H8 C1 C2.
  destruct (say_live DBG_DEF ("Cleaning up mixer..." +:+ nl_char) p t Hl eq_refl) as [t' Hs].
  unfold stop_mixer. rewrite Hs. cbn [mbind res_bind]. unfold in_world. cbn [p_world with_log].
  rewrite (mixerShutdown_frees _ bs ds o sb fr) by done. cbn [mbind res_bind mret res_ret].
  unfold Alsa.soundClose. cbn [p_card with_world with_log].
  destruct (Alsa.audio_buffer (p_card p)), (Alsa.hwparams (p_card p)); try done; by eexists _, _.
Qed.

Lemma stop_server_ok p t cs :
  p_log p = PLive t -> udp_ok (p_udp p) cs ->
  exists t' u, stop_server h p = Ok (with_udp u (with_log (PLive t') p)).
Proof.
  intros Hl Hu. destruct (say_live DBG_DEF ("Cleaning up server..." +:+ nl_char) p t Hl eq_refl) as [t' Hs].
  destruct (serverRealShutdown_ok _ _ Hu) as [s Hsd].
  unfold stop_server. rewrite Hs. cbn [mbind res_bind p_udp with_log]. rewrite Hsd. by eexists _, _.
Qed.

Lemma stop_playback_ok p t :
  p_log p = PLive t -> tape_ok (pb (p_world p)) ->
  exists t' q n k, stop_playback h p = Ok (with_world (taped q n k (p_world p)) (with_log (PLive t') p)).
Proof.
  intros Hl Ht. unfold stop_playback, in_world.
  assert (forall w, playbackModeOn None w = Ok (use_playback (pb w), w)) as -> by done. cbn [mbind res_bind mret res_ret].
  destruct (Z.eqb_spec (use_playback (pb (p_world p))) 0) as [E0|E0].
  { exists t, (pb (p_world p)), (time_calls (p_world p)), (fwrite_calls (p_world p)). rewrite taped_id.
    destruct p. cbn in *. by subst. }
  change (p_log (with_world (p_world p) p) = PLive t) in Hl.
  destruct (say_live DBG_DEF ("Closing playback file..." +:+ nl_char) _ t Hl eq_refl) as [t' Hs].
  rewrite Hs. cbn [mbind res_bind p_world with_log with_world].
  destruct (playbackFileShutdown_ok (p_world p)) as (q & n & k & Hw).
  { destruct Ht as [Ht|Ht]; [done|exact Ht]. }
  rewrite Hw. exists t', q, n, k. reflexivity.
Qed.

Lemma stop_log_ok args p t :
  p_log p = PLive t -> exists p', stop_log h args p = Ok p' /\ p_world p' = p_world p /\ p_threads p' = p_threads p.
Proof.
  intros Hl. destruct (say_live DBG_DEF ("Exiting..." +:+ nl_char) p t Hl eq_refl) as [t' Hs].
  unfold stop_log. rewrite Hs. cbn. destruct (pidfile_given args); by eexists.
Qed.
End Parts.

(** ** The memory after the engine and the mixer were shut down *)

(** Nothing of the engine and the mixer is left. *)
Record world_freed (w : world) : Prop := {
  wf_ebuffs : ebuffs w = PFreed;
  wf_sbuffs : sbuffs w = PFreed;
  wf_dyn : dyn_mul w = PFreed;
  wf_output : output w = PFreed;
  wf_fade : lin_fade w = PFreed;
  wf_sched : sched w = PFreed;
  wf_table : sound_table w = PNull;
  wf_queue : MixerQueue.heap (mqueue w) = PFreed
}.

Section Facts.
Context {E : Env} {L : EnvLaws E} (h : host).

(** The first three parts of the handler: the workers are asked to end, and
    what they share is freed. *)
Lemma stop_three p l ws :
  in_service h p l ws ->
  exists s p1 p2 p3, stop_threads (p_threads p) = Ok s /\ stop_workers h p = Ok p1 /\ stop_engine h p1 = Ok p2 /\
    stop_mixer h p2 = Ok p3 /\ world_freed (p_world p3) /\ p_threads p3 = s /\
    EngineQueue.semaphore (p_queue p3) = PFreed /\ p_udp p3 = p_udp p /\
    pb (p_world p3) = pb (p_world p) /\ exists t, p_log p3 = PLive t.
Proof.
  intros [Hsys [R1 R2 [o Ho]] Hth [t Hlog] [Hc1 Hc2] Ha]. destruct Hsys as [Hq _ Hok _ _ _]. cbn in Hq, Hok.
  destruct (stop_workers_ok h Ha p t Hlog Hth) as (t1 & s & W1 & Hst).
  set (p1 := with_threads s (with_log (PLive t1) p)) in *.
  destruct (stop_engine_ok h Ha p1 t1 l ws eq_refl Hq Hok R2) as (t2 & q & eq & W2 & Hsem & Hheap).
  match type of W2 with _ = Ok ?x => set (p2 := x) in * end.
  destruct Hok as [(bs & ss & ds & Hen) _]. pose proof (eng_chan _ _ _ _ _ Hen) as Hch.
  destruct (eng_states _ _ _ _ _ Hen) as (sb' & fr & _ & Hfr & _). destruct R1 as (sb & Hsb & Hlen & Hfull).
  destruct (stop_mixer_ok h Ha p2 t2 bs ds o sb fr eq_refl (ok_mlock _ _ _ _ Hch) (ok_ebuffs _ _ _ _ Hch)
    (ok_dyn _ _ _ _ Hch) Ho Hfr Hsb Hlen Hfull Hc1 Hc2) as (t3 & c & W3).
  eexists s, p1, p2, _. split; [exact Hst|]. split; [exact W1|]. split; [exact W2|]. split; [exact W3|].
  split; [by split|]. split; [done|]. split; [exact Hsem|]. split; [done|]. split; [done|]. by exists t3.
Qed.

(** The handler as a whole. *)
Lemma handleSignal_frees p l ws args sig :
  in_service h p l ws ->
  exists p', handleSignal h sig args p = Ok (if sig =? SIGHUP then Some p' else None) /\
    world_freed (p_world p').
Proof.
  intros H. pose proof (is_time _ _ _ _ H) as Ha.
  destruct (stop_three p l ws H) as (s & p1 & p2 & p3 & _ & W1 & W2 & W3 & Hf & _ & _ & Hu & Hpb & t3 & Hl3).
  destruct (is_system _ _ _ _ H) as [_ _ [(bs & ss & ds & Hen) _] _ [[cs Hudp] _] _]. cbn in Hudp, Hen.
  destruct (stop_server_ok h Ha p3 t3 cs Hl3) as (t4 & u & W4); [by rewrite Hu|].
  match type of W4 with _ = Ok ?x => set (p4 := x) in * end.
  destruct (stop_playback_ok h Ha p4 t4 eq_refl) as (t5 & pq & n & k & W5).
  { unfold p4. cbn. rewrite Hpb. apply (eng_play _ _ _ _ _ Hen). }
  match type of W5 with _ = Ok ?x => set (p5 := x) in * end.
  destruct (stop_log_ok h Ha args p5 t5 eq_refl) as (p6 & W6 & Ww & _).
  exists p6. split; [|rewrite Ww; destruct Hf; by split]. unfold handleSignal. rewrite W1. cbn [mbind res_bind]. rewrite W2. cbn [mbind res_bind].
  rewrite W3. cbn [mbind res_bind]. rewrite W4. cbn [mbind res_bind]. rewrite W5. cbn [mbind res_bind].
  by rewrite W6.
Qed.
End Facts.

(** A process in the state [s] of the system that serves: its threads have gone
    through [hs] since they were started, the log is open and the sound card
    has its buffers. *)
Record serves (h : host) (hs : list happening) (s : system) (p : process) : Prop := {
  se_queue : p_queue p = s_queue s;
  se_world : p_world p = s_world s;
  se_udp : p_udp p = s_udp s;
  se_threads : happens hs both_started = Ok (p_threads p);
  se_log : exists t, p_log p = PLive t;
  se_card : Alsa.audio_buffer (p_card p) <> PFreed /\ Alsa.hwparams (p_card p) <> PFreed;
  se_time : no_percent (h_asctime h) = true
}.

Lemma serves_in_service {E : Env} h hs s p l ws :
  serves h hs s p -> system_at s l ws -> releasable (s_world s) -> in_service h p l ws.
Proof.
  intros [P1 P2 P3 Ht Hlog Hc Ha] Hsys R.
  refine (Build_in_service _ h p l ws _ _ (happens_inv _ _ _ both_started_inv Ht) Hlog Hc Ha).
  - rewrite P1, P2, P3. destruct s. exact Hsys.
  - rewrite P2. exact R.
Qed.

(** ** Properties *)

Section Properties.
Context {E : Env} {L : EnvLaws E}.

(** C2: the end of the program, on its own, from any state that it serves in.
    The conditions are those of [Loading.peepd_runs]: [mixerInit] can read the
    output buffer, every directory that can be read holds sounds, and every file
    that can be read as a well-formed theme has its states in order. Start the
    engine, parse a configuration, with or without success, begin a recording or
    not, and let whole rounds of the three threads go on in any order on any
    bytes, with the log open and the buffers of the sound card in place, whichever
    connections have got threads and wherever the workers are in their loops.
    The handler of the signals, run there as a whole, goes through all of its
    parts without undefined behaviour; each thing is freed once and nothing of
    the engine and the mixer is left; and the process ends with status 0, or
    after a hangup the handler returns. (That a worker still runs meanwhile is
    [shutdown_races].) *)
Theorem peepd_shuts_down (gethostname : option string)
    (gethostbyname : string -> option hostent) (inet_aton : string -> option Z)
    (readdir : string -> option (list string)) (contents : string -> option (list Z)) (version : string)
    (expat : string -> list xml_call * bool) (n m x : Z) (w w' : world) (o : list Z) (q : EngineQueue.state)
    (srv0 : server) (ps : parser) (tr : list trans_table) (depth : nat) (file : string) (r : option Z)
    (c : config) (u : udp) (w2 : world) (s : system)
    (h : host) (args : args_info) (hs : list happening) (p : process) :
  sound_dirs readdir -> themes_ordered contents expat ->
  output w = PLive (x :: o) -> 0 < n < 2 ^ 31 -> 0 <= m < 2 ^ 32 -> 0 <= lastc w < n ->
  dyn_buf_cnt w = 0 -> tape_ok (pb w) ->
  engineInit n m w = Ok (tt, w') -> EngineQueue.engineQueueInit true EngineQueue.initial = Ok (1, q) ->
  parserParseConfigFile gethostname gethostbyname inet_aton readdir contents version expat depth file
    {| c_parser := ps; c_server := srv0; c_world := w'; c_trans := tr |} = Ok (r, c) ->
  server_starts (c_world c) w2 -> srv_ok (with_srv u (c_server c)) -> bytes (data_buffer u) ->
  rtc (step (fun s => (expat s).1)) {| s_queue := q; s_world := w2; s_udp := with_srv u (c_server c) |} s ->
  serves h hs s p ->
  shutDown h args p = Ok (Ended 0) /\
  exists p', handleSignal h SIGHUP args p = Ok (Some p') /\ world_freed (p_world p').
Proof.
  intros Hdirs Hthemes Ho Hn Hm Hl Hd Hp Hi Hqi Hc Hw2 Hu Hb Hs Hse.
  destruct (engineInit_started n m w x o Ho) as (w1 & H1 & S). rewrite Hi in H1. injection H1 as <-.
  destruct EngineQueue.engineQueueInit_rep as (q1 & Hq1 & Hr). rewrite Hqi in Hq1. injection Hq1 as <-.
  destruct (life_ok gethostname gethostbyname inet_aton readdir contents version expat Hdirs Hthemes
    n m x w w' q ps srv0 tr depth file r c u w2 s S Hn Hm Hl Hd Hp Hr Hc Hw2 Hu Hb Hs) as ((l & ws & Hsys) & _ & R).
  pose proof (serves_in_service h hs s p l ws Hse Hsys R) as Hin.
  split.
  - destruct (handleSignal_frees h p l ws args SIGINT Hin) as (p' & H & _). unfold shutDown. by rewrite H.
  - destruct (handleSignal_frees h p l ws args SIGHUP Hin) as (p' & H & Hf). exists p'. by split.
Qed.

(** C16: the handler does not wait for the threads it asks to end. Whenever the
    mixer thread is in its work when a signal comes, the handler frees what the
    thread works on, and the thread, which has not ended, goes on with it: the
    next chunk is mixed into a buffer that was freed, and the same for an
    event that the engine thread handles, which is looked up in a table that
    is gone. *)
Theorem shutdown_races (h : host) (p : process) (l : list EVENT) (ws : list ENGINE_EVENT) (i : nat) (t : tcb) :
  in_service h p l ws -> mthread (p_threads p) = Thread i \/ ethread (p_threads p) = Thread i ->
  t_table (p_threads p) !! i = Some t -> t_ended t = false -> t_place t = Working ->
  exists p1 p2 p3, stop_workers h p = Ok p1 /\ stop_engine h p1 = Ok p2 /\ stop_mixer h p2 = Ok p3 /\
    t_table (p_threads p3) !! i = Some (with_cancel t) /\ world_freed (p_world p3) /\
    mixer (p_world p3) = Fault UseAfterFree /\
    (forall e, engineLoop_body e (p_world p3) = Fault NullDeref).
Proof.
  intros H Hi Ht He Hp. destruct (stop_three h p l ws H)
    as (s & p1 & p2 & p3 & Hst & W1 & W2 & W3 & Hf & Hth & _).
  exists p1, p2, p3. split; [exact W1|]. split; [exact W2|]. split; [exact W3|].
  destruct (stop_threads_eq _ (is_threads _ _ _ _ H)) as (e & m & s' & Ee & Em & Hs & _ & _ & _ & Hk).
  rewrite Hst in Hs. injection Hs as <-. rewrite Hth, (Hk i t Ht). split; [|split; [exact Hf|split]].
  - rewrite Ee, Em in Hi. destruct Hi as [[= ->]|[= ->]].
    + by rewrite (bool_decide_true (i = i)), orb_true_r.
    + by rewrite (bool_decide_true (i = i)).
  - unfold mixer. unfold mbind, M_bind. cbn. unfold clear_output. by rewrite (wf_output _ Hf).
  - intros ev. unfold engineLoop_body. unfold mbind, M_bind. cbn. rewrite (wf_table _ Hf).
    unfold engineSoundTableRetrieve. by destruct (sound ev).
Qed.
End Properties.

(** ** Witnesses *)

(** A process in the state [s] that serves; a client is connected, and the mixer
    thread is in its work. *)
Definition demo_threads : threads := after [Accept true; Advance 1] both_started.

Definition serving_process (s : system) : process :=
  {| p_log := PLive ""; p_queue := s_queue s; p_card := Alsa.blank; p_world := s_world s;
     p_udp := s_udp s; p_parser := blank_parser; p_trans := []; p_paths := None; p_pid := false;
     p_threads := demo_threads |}.

Lemma demo_threads_run : happens [Accept true; Advance 1] both_started = Ok demo_threads.
Proof. vm_compute. reflexivity. Qed.

Lemma demo_serves s : serves demo_host [Accept true; Advance 1] s (serving_process s).
Proof.
  refine (Build_serves demo_host _ s (serving_process s) eq_refl eq_refl eq_refl demo_threads_run _ _ eq_refl).
  - by exists "".
  - by split.
Qed.

Lemma peepd_shuts_down_witness :
  exists w q c w2 s, engineInit 12 4 (set_output (PLive [0]) blank_world) = Ok (tt, w) /\
    EngineQueue.engineQueueInit true EngineQueue.initial = Ok (1, q) /\
    demo_parse w = Ok (Some PARSER_SUCCESS, c) /\
    start_recording (E := still_env) true (c_world c) = Ok (Some 1, w2) /\
    round (E := still_env) (fun _ => demo_theme) (arrives demo_arrival)
      {| s_queue := q; s_world := w2; s_udp := with_srv fresh_udp (c_server c) |} = Ok s /\
    shutDown (E := still_env) demo_host no_args (serving_process s) = Ok (Ended 0).
Proof.
  destruct demo_life as (w & q & c & w2 & s & Hw & Hq & Hc & Hw2 & Hu & Hs).
  exists w, q, c, w2, s. split; [exact Hw|]. split; [exact Hq|]. split; [exact Hc|]. split; [exact Hw2|].
  split; [exact Hs|].
  assert (server_starts (E := still_env) (c_world c) w2) as Hst by (right; exists true, 1; split; [exact Hw2|lia]).
  assert (0 < 12 < 2 ^ 31) as Hn by lia. assert (0 <= 4 < 2 ^ 32) as Hm by lia.
  assert (0 <= lastc (set_output (PLive [0]) blank_world) < 12) as Hl by (cbn; lia).
  refine (proj1 (peepd_shuts_down (L := still_laws) None (fun _ => None) (fun _ => None) demo_dir demo_contents "0.5.0"
    (fun _ => (demo_theme, true)) 12 4 0 (set_output (PLive [0]) blank_world) w [] q web_server
    (parserInit blank_parser) [] 1 "peep.conf" (Some PARSER_SUCCESS) c fresh_udp w2 s demo_host no_args
    [Accept true; Advance 1] (serving_process s) demo_dirs demo_ordered eq_refl Hn Hm Hl eq_refl
    (or_introl eq_refl) Hw Hq Hc Hst Hu demo_bytes (demo_step c w2 q s Hs) (demo_serves s))).
Defined.

(** A process in which nothing waits and nothing was loaded. *)
Lemma idle_in_service s :
  system_at (E := still_env) s [] [] -> releasable (s_world s) ->
  in_service (E := still_env) demo_host (serving_process s) [] [].
Proof.
  apply (serves_in_service _ _ _ _ _ _ (demo_serves s)).
Qed.

Lemma idle_system : exists s, system_at (E := still_env) s [] [] /\ releasable (s_world s).
Proof.
  destruct demo_started as (w & _ & S). destruct EngineQueue.engineQueueInit_rep as (q & _ & Hr).
  assert (threads_ok (E := still_env) w []) as Ht by
    exact (started_threads _ _ _ _ _ S ltac:(lia) ltac:(lia) ltac:(cbn; lia) eq_refl (or_introl eq_refl)).
  exists {| s_queue := q; s_world := w; s_udp := fresh_udp |}. split.
  - split; [exact Hr|constructor|exact Ht|constructor| |exact demo_bytes]. split; [exists []; exact fresh_udp_ok|by eexists].
  - exact (started_releasable 12 4 0 _ w ltac:(lia) S).
Qed.

Lemma shutdown_races_witness :
  exists p p1 p2 p3, in_service (E := still_env) demo_host p [] [] /\ stop_workers demo_host p = Ok p1 /\
    stop_engine demo_host p1 = Ok p2 /\ stop_mixer demo_host p2 = Ok p3 /\
    mixer (E := still_env) (p_world p3) = Fault UseAfterFree.
Proof.
  destruct idle_system as (s & Hs & R). pose proof (idle_in_service s Hs R) as Hin.
  assert (exists t, t_table demo_threads !! 1%nat = Some t /\ t_ended t = false /\ t_place t = Working) as (t & Ht & He & Hp).
  { eexists. split; [vm_compute; reflexivity|]. split; reflexivity. }
  destruct (shutdown_races (E := still_env) demo_host (serving_process s) [] [] 1 t Hin
    (or_introl eq_refl) Ht He Hp) as (p1 & p2 & p3 & H1 & H2 & H3 & _ & _ & H4 & _).
  exists (serving_process s), p1, p2, p3. split; [exact Hin|]. split; [exact H1|]. split; [exact H2|].
  split; [exact H3|exact H4].
Defined.
